(** * PlanarCurveDatabase: the planar curve network of the editor

    A shallow embedding of [PlanarCurveDatabase] (editor/curves), the class
    that keeps every registered curve cut into fragments at its crossings
    with the other curves of its placement, and the properties of its
    [add], [cascade], [commit], [lookup], [addJoint] and memento methods.

    Conventions of the embedding.
    - A JavaScript number that is a curve parameter is a finite double,
      given by the rational number it denotes ([Q]): the double written
      [0.25] is [1 # 4], the double written [10e-6] is
      [5902958103587057 # 2 ^ 69].  [===] on doubles is [Qeq_bool], [>] is
      [Qltb], and the sign of a difference is the sign of the exact
      difference.  A difference itself is rounded to the nearest double,
      ties to even ([fsub]); the class computes one, in the guard of the
      fragment walk.
    - A JavaScript [Map] or [Set] iterates in insertion order, so a [Map] is
      an association list with one entry per key and a [Set] a list without
      repetition.
    - [CurveInfo] objects and the three backing collections of the database
      are objects with identity: they live in tables of a [Heap] and are
      named by their index, so that two holders of one object see each
      other's writes.
    - A method is a function from the [State] to an [Outcome] and the next
      [State]; [Throw] is a JavaScript exception.  A [Promise] is taken at
      its settled value: the callbacks an [async] method leaves behind are
      run where they are registered. *)

From Stdlib Require Import ZArith QArith Qabs Qround Qpower Lia Lqa Sorted SpecFloat.
From stdpp Require Import base option list.

(** ** Identities and the curves of the geometry kernel *)

Abbreviation SimpleName := Z (only parsing).
Abbreviation Curve2dId := Z (only parsing).

(** What the database asks of a planar [c3d.Curve]. *)
Record Curve := mkCurve {
  Id : Curve2dId;
  GetTMin : Q;
  GetTMax : Q;
  IsBounded : bool;
  IsClosed : bool;
  IsContour : bool;
  GetCornerParams : list Q
}.

Module c3d.
Record PointOnCurve := mkPointOnCurve { t : Q; curve : Curve }.
Record CrossPoint := mkCrossPoint { on1 : PointOnCurve; on2 : PointOnCurve }.
End c3d.

(** The result of [curve.Trimmed(start, stop, 1)], or the curve itself. *)
Inductive TrimmedCurve :=
| Whole (c : Curve)
| Trimmed (c : Curve) (start stop : Q).

(** Modelled from the spec: [Trim] of ContourManager, the [{trimmed, start,
    stop}] entries handed to [updateCurve]. *)
Record Trim := mkTrim { trimmed : TrimmedCurve; start : Q; stop : Q }.

(** Modelled from the spec: [PointOnCurve] of ContourManager,
    [(curveIdentity, parameter, tMin, tMax)]. *)
Record PointOnCurve := mkPoint {
  point_curve : option SimpleName; point_t : Q; point_tmin : Q; point_tmax : Q }.

(** Modelled from the spec: [Joint] of ContourManager, [(thisEnd, otherEnd)]. *)
Record Joint := mkJoint { joint_on1 : PointOnCurve; joint_on2 : PointOnCurve }.

(** Modelled from the spec: the [joints] of a [CurveInfo], [{start, stop}]. *)
Record Joints := mkJoints { joints_start : option Joint; joints_stop : option Joint }.

(** Modelled from the spec: [Transaction] of ContourManager. *)
Record Transaction := mkTransaction {
  dirty : list SimpleName; deleted : list SimpleName; added : list SimpleName }.

Definition empty_transaction : Transaction := mkTransaction [] [] [].

(** ** JavaScript [Set] and [Map] in insertion order *)

Definition set_add (x : Z) (s : list Z) : list Z :=
  if decide (x ∈ s) then s else s ++ [x].

Fixpoint map_get {V} (k : Z) (m : list (Z * V)) : option V :=
  match m with
  | [] => None
  | (k', v) :: m' => if decide (k = k') then Some v else map_get k m'
  end.

Fixpoint map_set {V} (k : Z) (v : V) (m : list (Z * V)) : list (Z * V) :=
  match m with
  | [] => [(k, v)]
  | (k', v') :: m' =>
      if decide (k = k') then (k, v) :: m' else (k', v') :: map_set k v m'
  end.

Fixpoint map_delete {V} (k : Z) (m : list (Z * V)) : list (Z * V) :=
  match m with
  | [] => []
  | (k', v') :: m' =>
      if decide (k = k') then map_delete k m' else (k', v') :: map_delete k m'
  end.

(** ** Numbers *)

Definition Qltb (a b : Q) : bool := negb (Qle_bool b a).

(** *** Doubles *)

(** The [e] with [2 ^ e <= x < 2 ^ (e + 1)], for a positive [x]. *)
Definition binade (x : Q) : Z :=
  let k := (Z.log2 (Qnum x) - Z.log2 (Zpos (Qden x)))%Z in
  if Qle_bool (2 ^ k)%Q x then k else (k - 1)%Z.

(** The integer nearest to [x]; of two that are equally near, the even one. *)
Definition round_half_even (x : Q) : Z :=
  let f := Qfloor x in
  match Qcompare (x - inject_Z f)%Q (1 # 2) with
  | Lt => f
  | Gt => (f + 1)%Z
  | Eq => if Z.even f then f else (f + 1)%Z
  end.

(** The double nearest to a positive [x], ties to even (IEEE 754
    roundTiesToEven for binary64): a double has 53 significant bits, so
    near [x] the doubles are the multiples of [2 ^ (binade x - 52)], and
    of [2 ^ -1074] where that is more.  A value beyond the largest double
    is [Infinity] in JavaScript; here it keeps its rounded value, which
    compares with the doubles as [Infinity] does. *)
Definition round_positive (x : Q) : Q :=
  let e := Z.max (binade x - 52) (-1074) in
  (inject_Z (round_half_even (x / 2 ^ e)) * 2 ^ e)%Q.

Definition round_double (x : Q) : Q :=
  match Qcompare x 0 with
  | Eq => 0
  | Gt => round_positive x
  | Lt => (- round_positive (- x))%Q
  end.

(** [a - b] on doubles: the difference, rounded. *)
Definition fsub (a b : Q) : Q := round_double (a - b)%Q.

(** The literal [10e-6] of the fragment walk: the double nearest to
    10 x 10^-6. *)
Definition ten_e_minus_6 : Q := round_double (10 # 1000000).

(** ** Outcomes *)

Inductive Outcome (A : Type) :=
| Ok (a : A)
| Throw
| OutOfFuel.
Arguments Ok {A} a.
Arguments Throw {A}.
Arguments OutOfFuel {A}.

(** ** The external collaborators *)

(** The geometry kernel, the conversion helpers of util/Conversion and the
    curves the geometry database holds for the user; none of them is part
    of the class.  [calculate_time pending c] is the time at which
    [factory.calculate()] settles for the polyline [c] when the conversions
    of the polylines [pending] are awaited together. *)
Class GeometryLibrary := {
  Placement : Type;
  Curve3D : Type;
  isSamePlacement : Placement -> Placement -> bool;
  IsPolyline3D : Curve3D -> bool;
  Polyline2Contour : Curve3D -> Curve3D;
  calculate_time : list SimpleName -> SimpleName -> nat;
  curve3d2curve2d : Curve3D -> option (Curve * Placement);
  IntersectWithAll : Curve -> list Curve -> list c3d.CrossPoint;
  lookupItemById : SimpleName -> option Curve3D
}.

Section Database.
Context `{G : GeometryLibrary}.

(** Modelled from the spec: [CurveInfo] of ContourManager.  [fragments] holds
    the names the fragment promises resolve to. *)
Record CurveInfo := mkCurveInfo {
  planarCurve : Z;
  placement : Placement;
  touched : list SimpleName;
  fragments : list SimpleName;
  joints : Joints
}.

Definition new_CurveInfo (planar : Z) (p : Placement) : CurveInfo :=
  mkCurveInfo planar p [] [] (mkJoints None None).

Definition touched_add (x : SimpleName) (i : CurveInfo) : CurveInfo :=
  mkCurveInfo (planarCurve i) (placement i) (set_add x (touched i))
    (fragments i) (joints i).

Definition set_fragments (fs : list SimpleName) (i : CurveInfo) : CurveInfo :=
  mkCurveInfo (planarCurve i) (placement i) (touched i) fs (joints i).

Definition set_joints_start (j : Joint) (i : CurveInfo) : CurveInfo :=
  mkCurveInfo (planarCurve i) (placement i) (touched i) (fragments i)
    (mkJoints (Some j) (joints_stop (joints i))).

Definition set_joints_stop (j : Joint) (i : CurveInfo) : CurveInfo :=
  mkCurveInfo (planarCurve i) (placement i) (touched i) (fragments i)
    (mkJoints (joints_start (joints i)) (Some j)).

(** *** Objects *)

Record Heap := mkHeap {
  infoObjs : list CurveInfo;
  curve2infoObjs : list (list (SimpleName * nat));
  planarObjs : list (list (Z * Curve));
  placementObjs : list (list Placement)
}.

(** The fields of the database object: three references and the counter. *)
Record PlanarCurveDatabase := mkDatabase {
  curve2info : nat;
  id2planarCurve : nat;
  placements : nat;
  counter : Z
}.

(** Modelled from the spec: [CurveMemento] of editor/History, the three
    collections a snapshot holds. *)
Record CurveMemento := mkMemento {
  memento_curve2info : nat;
  memento_id2planarCurve : nat;
  memento_placements : nat
}.

(** Modelled from the spec: the fragment instances of the geometry store.  An
    item is a [PlaneCurve] on a placement, and [befragment(start, stop,
    instance)] records where it comes from. *)
Record Item := mkItem {
  item_placement : Placement;
  item_curve : TrimmedCurve;
  befragment : Q * Q * SimpleName
}.

Record GeometryStore := mkStore {
  items : list (SimpleName * Item);
  nextName : SimpleName
}.

(** The calls of [removeInfo] and [add], in the order they are made. *)
Inductive Call :=
| CallRemoveInfo (curve : SimpleName)
| CallAdd (curve : SimpleName).

Record State := mkState {
  heap : Heap;
  this : PlanarCurveDatabase;
  db : GeometryStore;
  calls : list Call
}.

Definition M (A : Type) : Type := State -> Outcome A * State.

Definition ret {A} (a : A) : M A := fun s => (Ok a, s).
Definition throw {A} : M A := fun s => (Throw, s).
Definition out_of_fuel {A} : M A := fun s => (OutOfFuel, s).

Definition bind {A B} (m : M A) (k : A -> M B) : M B :=
  fun s =>
    match m s with
    | (Ok a, s') => k a s'
    | (Throw, s') => (Throw, s')
    | (OutOfFuel, s') => (OutOfFuel, s')
    end.

Definition gets {A} (f : State -> A) : M A := fun s => (Ok (f s), s).
Definition modify (f : State -> State) : M unit := fun s => (Ok tt, f s).

(** [x!] followed by a use of [x]: a missing value throws at the use. *)
Definition unwrap {A} (o : option A) : M A :=
  match o with Some a => ret a | None => throw end.

End Database.

Declare Scope js_scope.
Delimit Scope js_scope with js.
Notation "x <- m ;; k" := (bind m (fun x => k))
  (at level 100, m at next level, right associativity) : js_scope.
Notation "m ;;; k" := (bind m (fun _ => k))
  (at level 100, right associativity) : js_scope.

Section Methods.
Context `{G : GeometryLibrary}.
Local Open Scope js_scope.

(** ** Reading and writing the objects *)

Definition set_heap (h : Heap) (s : State) : State :=
  mkState h (this s) (db s) (calls s).
Definition set_this (d : PlanarCurveDatabase) (s : State) : State :=
  mkState (heap s) d (db s) (calls s).
Definition set_db (g : GeometryStore) (s : State) : State :=
  mkState (heap s) (this s) g (calls s).
Definition record_call (c : Call) (s : State) : State :=
  mkState (heap s) (this s) (db s) (calls s ++ [c]).

Definition live_curve2info (s : State) : list (SimpleName * nat) :=
  default [] (curve2infoObjs (heap s) !! curve2info (this s)).
Definition live_id2planarCurve (s : State) : list (Z * Curve) :=
  default [] (planarObjs (heap s) !! id2planarCurve (this s)).
Definition live_placements (s : State) : list Placement :=
  default [] (placementObjs (heap s) !! placements (this s)).

Definition write_curve2info (m : list (SimpleName * nat)) (s : State) : State :=
  set_heap (mkHeap (infoObjs (heap s))
                   (<[curve2info (this s) := m]> (curve2infoObjs (heap s)))
                   (planarObjs (heap s)) (placementObjs (heap s))) s.
Definition write_id2planarCurve (m : list (Z * Curve)) (s : State) : State :=
  set_heap (mkHeap (infoObjs (heap s)) (curve2infoObjs (heap s))
                   (<[id2planarCurve (this s) := m]> (planarObjs (heap s)))
                   (placementObjs (heap s))) s.
Definition write_placements (m : list Placement) (s : State) : State :=
  set_heap (mkHeap (infoObjs (heap s)) (curve2infoObjs (heap s))
                   (planarObjs (heap s))
                   (<[placements (this s) := m]> (placementObjs (heap s)))) s.

(** [info.field = ...] and [info.touched.add(...)] on the object [r]. *)
Definition alter_info (f : CurveInfo -> CurveInfo) (r : nat) (s : State) : State :=
  set_heap (mkHeap (alter f r (infoObjs (heap s))) (curve2infoObjs (heap s))
                   (planarObjs (heap s)) (placementObjs (heap s))) s.

(** [new CurveInfo(...)]. *)
Definition alloc_info (i : CurveInfo) : M nat :=
  fun s => (Ok (length (infoObjs (heap s))),
            set_heap (mkHeap (infoObjs (heap s) ++ [i]) (curve2infoObjs (heap s))
                             (planarObjs (heap s)) (placementObjs (heap s))) s).

Definition info_at (s : State) (r : nat) : option CurveInfo :=
  infoObjs (heap s) !! r.

(** [this.curve2info.get(name)], as the object and as its contents. *)
Definition get_ref (s : State) (name : SimpleName) : option nat :=
  map_get name (live_curve2info s).
Definition get_info (s : State) (name : SimpleName) : option CurveInfo :=
  match get_ref s name with Some r => info_at s r | None => None end.

(** A use of a possibly undefined [CurveInfo]: a property access on
    [undefined] throws. *)
Definition use_info (r : option nat) : M (nat * CurveInfo) :=
  fun s =>
    match r with
    | Some r => match info_at s r with
                | Some i => (Ok (r, i), s)
                | None => (Throw, s)
                end
    | None => (Throw, s)
    end.

(** The outcome of a call of an [async] method is kept in its promise:
    the caller goes on, and [Promise.all] rejects if one of them did. *)
Definition attempt {A} (m : M A) : M (Outcome A) :=
  fun s => (Ok (fst (m s)), snd (m s)).

Fixpoint Promise_all (promises : list (Outcome unit)) : M unit :=
  match promises with
  | [] => ret tt
  | Ok _ :: rest => Promise_all rest
  | Throw :: _ => throw
  | OutOfFuel :: _ => out_of_fuel
  end.

Fixpoint for_of {A} (l : list A) (body : A -> M unit) : M unit :=
  match l with
  | [] => ret tt
  | x :: rest => body x ;;; for_of rest body
  end.

(** ** The geometry store *)

Definition addItem (it : Item) : M SimpleName :=
  fun s => (Ok (nextName (db s)),
            set_db (mkStore (map_set (nextName (db s)) it (items (db s)))
                            (nextName (db s) + 1)%Z) s).

Definition removeItem (n : SimpleName) : M unit :=
  modify (fun s => set_db (mkStore (map_delete n (items (db s))) (nextName (db s))) s).

(** ** planarizeAndNormalize *)

(** Modelled from the spec: [normalizePlacement] of util/Conversion returns
    the first placement of the set that is the same as the candidate, and
    otherwise inserts the candidate and returns it. *)
Definition normalizePlacement (candidate : Placement) : M Placement :=
  fun s =>
    match find (isSamePlacement candidate) (live_placements s) with
    | Some p => (Ok p, s)
    | None => (Ok candidate, write_placements (live_placements s ++ [candidate]) s)
    end.

Definition planarizeAndNormalize (curve3d : Curve3D) : M (option (Curve * Placement)) :=
  match curve3d2curve2d curve3d with
  | None => ret None
  | Some (curve, placement) =>
      bestExistingPlacement <- normalizePlacement placement ;;
      ret (Some (curve, bestExistingPlacement))
  end.

(** ** updateCurve *)

Fixpoint addFragments (instance : SimpleName) (placement : Placement)
    (result : list Trim) : M (list SimpleName) :=
  match result with
  | [] => ret []
  | tr :: rest =>
      p <- addItem (mkItem placement (trimmed tr) (start tr, stop tr, instance)) ;;
      views <- addFragments instance placement rest ;;
      ret (p :: views)
  end.

Definition updateCurve (instance : SimpleName) (result : list Trim)
    (placement : Placement) : M unit :=
  r <- gets (fun s => get_ref s instance) ;;
  ri <- use_info r ;;
  for_of (fragments (snd ri)) removeItem ;;;
  views <- addFragments instance placement result ;;
  modify (alter_info (set_fragments views) (fst ri)).

(** ** addJoint *)

Definition at_boundary (t tmin tmax : Q) : bool :=
  Qeq_bool t tmin || Qeq_bool t tmax.

Definition addJoint (cross : c3d.CrossPoint)
    (planar2instance : list (Curve2dId * SimpleName)) : M unit :=
  let curve1 := c3d.curve (c3d.on1 cross) in
  let t1 := c3d.t (c3d.on1 cross) in
  let curve2 := c3d.curve (c3d.on2 cross) in
  let t2 := c3d.t (c3d.on2 cross) in
  let view1simpleName := map_get (Id curve1) planar2instance in
  let view2simpleName := map_get (Id curve2) planar2instance in
  info1 <- gets (fun s => view1simpleName ≫= get_ref s) ;;
  info2 <- gets (fun s => view2simpleName ≫= get_ref s) ;;
  let t1min := GetTMin curve1 in
  let t1max := GetTMax curve1 in
  let t2min := GetTMin curve2 in
  let t2max := GetTMax curve2 in
  if negb (Qeq_bool t1 t1min) && negb (Qeq_bool t1 t1max) then ret tt
  else
    let on1 := mkPoint view1simpleName t1 t1min t1max in
    let on2 := mkPoint view2simpleName t2 t2min t2max in
    (i1 <- use_info info1 ;;
     if Qeq_bool t1 (GetTMin curve1)
     then modify (alter_info (set_joints_start (mkJoint on1 on2)) (fst i1))
     else modify (alter_info (set_joints_stop (mkJoint on1 on2)) (fst i1))) ;;;
    if Qeq_bool t2 (GetTMin curve2)
    then (i2 <- use_info info2 ;;
          modify (alter_info (set_joints_start (mkJoint on2 on1)) (fst i2)))
    else if Qeq_bool t2 (GetTMax curve2)
    then (i2 <- use_info info2 ;;
          modify (alter_info (set_joints_stop (mkJoint on2 on1)) (fst i2)))
    else ret tt.

(** ** add *)

(** The loop over [curve2info.entries()] that collects the curves of the
    placement and names every planar curve. *)
Fixpoint collect (placement0 : Placement) (entries : list (SimpleName * nat))
    (planar2instance : list (Curve2dId * SimpleName)) (allPlanarCurves : list Curve)
    : M (list (Curve2dId * SimpleName) * list Curve) :=
  match entries with
  | [] => ret (planar2instance, allPlanarCurves)
  | (simpleName, r) :: rest =>
      ri <- use_info (Some r) ;;
      planar <- gets live_id2planarCurve ;;
      curve <- unwrap (map_get (planarCurve (snd ri)) planar) ;;
      collect placement0 rest
        (map_set (Id curve) simpleName planar2instance)
        (if isSamePlacement placement0 (placement (snd ri))
         then allPlanarCurves ++ [curve] else allPlanarCurves)
  end.

Definition pseudo_cross (param : Q) (current : Curve) : c3d.CrossPoint :=
  let pointOnCurve1 := c3d.mkPointOnCurve param current in
  c3d.mkCrossPoint pointOnCurve1 pointOnCurve1.

(** The corners of a contour, and its beginning when it is closed. *)
Definition contour_crosses (current : Curve) : list c3d.CrossPoint :=
  if IsContour current
  then map (fun param => pseudo_cross param current) (GetCornerParams current)
       ++ (if IsClosed current then [pseudo_cross 0 current] else [])
  else [].

(** [crosses.sort((a, b) => a.on1.t - b.on1.t)]: a stable sort. *)
Fixpoint insert_cross (x : c3d.CrossPoint) (l : list c3d.CrossPoint) : list c3d.CrossPoint :=
  match l with
  | [] => [x]
  | y :: l' =>
      if Qle_bool (c3d.t (c3d.on1 y)) (c3d.t (c3d.on1 x))
      then y :: insert_cross x l' else x :: y :: l'
  end.

Definition sort_crosses (l : list c3d.CrossPoint) : list c3d.CrossPoint :=
  foldl (fun acc x => insert_cross x acc) [] l.

(** The [for (const cross of crosses)] loop. *)
Fixpoint walk (info : option nat) (curve1 : Curve)
    (planar2instance : list (Curve2dId * SimpleName)) (visited : list Curve2dId)
    (crosses : list c3d.CrossPoint) (start0 : Q) (trims : list Trim)
    (curvesToProcess : list (Curve2dId * Curve))
    : M (list Trim * list (Curve2dId * Curve)) :=
  match crosses with
  | [] => ret (trims, curvesToProcess)
  | cross :: rest =>
      let t := c3d.t (c3d.on1 cross) in
      let other := c3d.curve (c3d.on2 cross) in
      let otherId := Id other in
      id <- unwrap (map_get otherId planar2instance) ;;
      _ <- unwrap (lookupItemById id) ;;
      i <- use_info info ;;
      modify (alter_info (touched_add id) (fst i)) ;;;
      let stop0 := t in
      walk info curve1 planar2instance visited rest stop0
        (if Qltb ten_e_minus_6 (Qabs (fsub start0 stop0))
         then trims ++ [mkTrim (Trimmed curve1 start0 stop0) start0 stop0]
         else trims)
        (if decide (otherId ∈ visited) then curvesToProcess
         else map_set otherId other curvesToProcess)
  end.

Definition head_t (crosses : list c3d.CrossPoint) : Q :=
  match crosses with c :: _ => c3d.t (c3d.on1 c) | [] => 0 end.

(** The crosses the walk runs over: with both ends for a bounded open curve,
    closed by its first cross for a closed one. *)
Definition with_ends (current : Curve) (first : c3d.CrossPoint)
    (sorted : list c3d.CrossPoint) : list c3d.CrossPoint :=
  if IsBounded current && negb (IsClosed current)
  then [pseudo_cross (GetTMin current) current] ++ sorted
       ++ [pseudo_cross (GetTMax current) current]
  else if IsClosed current then sorted ++ [first]
  else sorted.

(** One turn of the [while] loop.  [crosses.length === 0] is read off the
    sorted list, which is as long as the unsorted one. *)
Definition loop_body (allPlanarCurves : list Curve)
    (planar2instance : list (Curve2dId * SimpleName)) (placement0 : Placement)
    (curvesToProcess : list (Curve2dId * Curve)) (visited : list Curve2dId)
    (id : Curve2dId) (current : Curve)
    : M (Outcome unit * (list (Curve2dId * Curve) * list Curve2dId)) :=
  name <- unwrap (map_get id planar2instance) ;;
  _ <- unwrap (lookupItemById name) ;;
  let visited := set_add id visited in
  let curvesToProcess := map_delete id curvesToProcess in
  let crosses := IntersectWithAll current allPlanarCurves ++ contour_crosses current in
  match sort_crosses crosses with
  | [] =>
      p <- attempt (updateCurve name [mkTrim (Whole current) (-1) (-1)] placement0) ;;
      ret (p, (curvesToProcess, visited))
  | first :: _ =>
      let sorted := sort_crosses crosses in
      let curve1 := c3d.curve (c3d.on1 first) in
      let view1simplename := map_get (Id curve1) planar2instance in
      info <- gets (fun s => view1simplename ≫= get_ref s) ;;
      (if IsBounded current && negb (IsClosed current)
       then addJoint first planar2instance ;;;
            addJoint (default first (last sorted)) planar2instance
       else ret tt) ;;;
      let crosses := with_ends current first sorted in
      r <- walk info curve1 planar2instance visited crosses (head_t crosses) []
             curvesToProcess ;;
      p <- attempt (updateCurve name (fst r) placement0) ;;
      ret (p, (snd r, visited))
  end.

(** The [while (curvesToProcess.size > 0)] loop. *)
Fixpoint process (fuel : nat) (allPlanarCurves : list Curve)
    (planar2instance : list (Curve2dId * SimpleName)) (placement0 : Placement)
    (curvesToProcess : list (Curve2dId * Curve)) (visited : list Curve2dId)
    (promises : list (Outcome unit)) : M (list (Outcome unit)) :=
  match curvesToProcess with
  | [] => ret promises
  | (id, current) :: _ =>
      match fuel with
      | O => out_of_fuel
      | S fuel' =>
          r <- loop_body allPlanarCurves planar2instance placement0
                 curvesToProcess visited id current ;;
          process fuel' allPlanarCurves planar2instance placement0
            (fst (snd r)) (snd (snd r)) (promises ++ [fst r])
      end
  end.

Definition next_counter (s : State) : State :=
  set_this (mkDatabase (curve2info (this s)) (id2planarCurve (this s))
                       (placements (this s)) (counter (this s) + 1)%Z) s.

(** [add(newCurve)], awaited by its caller.  For a polyline the source
    awaits the conversion before it reads or writes the registry; while
    the caller waits nothing else works on the database, so the conversion
    is done in place.  [commit] starts several calls of [add] and awaits
    them together: there the pause matters, see [readd]. *)
Definition add (newCurve : SimpleName) : M unit :=
  modify (record_call (CallAdd newCurve)) ;;;
  inst <- unwrap (lookupItemById newCurve) ;;
  let curve3d := if IsPolyline3D inst then Polyline2Contour inst else inst in
  planarInfo <- planarizeAndNormalize curve3d ;;
  match planarInfo with
  | None => ret tt
  | Some (newPlanarCurve, placement0) =>
      entries <- gets live_curve2info ;;
      collected <- collect placement0 entries [] [] ;;
      counter0 <- gets (fun s => counter (this s)) ;;
      modify next_counter ;;;
      modify (fun s => write_id2planarCurve
                         (map_set counter0 newPlanarCurve (live_id2planarCurve s)) s) ;;;
      info <- alloc_info (new_CurveInfo counter0 placement0) ;;
      modify (fun s => write_curve2info (map_set newCurve info (live_curve2info s)) s) ;;;
      let planar2instance := map_set (Id newPlanarCurve) newCurve (fst collected) in
      let allPlanarCurves := snd collected ++ [newPlanarCurve] in
      promises <- process (S (length planar2instance)) allPlanarCurves planar2instance
                    placement0 [(Id newPlanarCurve, newPlanarCurve)] [] [] ;;
      Promise_all promises
  end.

(** ** removeInfo, cascade, commit, remove *)

Definition removeInfo (curve : SimpleName) : M (option CurveInfo) :=
  modify (record_call (CallRemoveInfo curve)) ;;;
  info <- gets (fun s => get_info s curve) ;;
  match info with
  | None => ret None
  | Some i =>
      modify (fun s => write_curve2info (map_delete curve (live_curve2info s)) s) ;;;
      for_of (fragments i) removeItem ;;;
      ret (Some i)
  end.

(** The [while (walk.length > 0)] loop.  The array [walk] is kept with its
    last element first: [pop] takes the head and [concat] puts the new
    elements, last first, in front. *)
Fixpoint cascade_walk (fuel : nat) (s : State) (visited : list SimpleName)
    (walk0 : list SimpleName) : Outcome (list SimpleName) :=
  match walk0 with
  | [] => Ok visited
  | touchee :: rest =>
      match fuel with
      | O => OutOfFuel
      | S fuel' =>
          if decide (touchee ∈ visited) then cascade_walk fuel' s visited rest
          else
            match get_info s touchee with
            | None => Throw
            | Some i =>
                cascade_walk fuel' s (visited ++ [touchee]) (rev (touched i) ++ rest)
            end
      end
  end.

(** The turns the walk can still take: one for each element of [walk], and
    for each curve not yet visited one for each curve it touches. *)
Definition potential (s : State) (visited walk0 : list SimpleName) : nat :=
  length walk0 +
  sum_list (map (fun e : SimpleName * nat =>
                   if decide (e.1 ∈ visited) then 0
                   else match info_at s e.2 with
                        | Some i => length (touched i)
                        | None => 0
                        end) (live_curve2info s)).

Definition cascade (curve : SimpleName) (transaction : Transaction) : M Transaction :=
  fun s =>
    let deleted0 := set_add curve (deleted transaction) in
    match get_info s curve with
    | None => (Ok (mkTransaction (dirty transaction) deleted0 (added transaction)), s)
    | Some info =>
        let walk0 := rev (touched info) in
        match cascade_walk (S (potential s (dirty transaction) walk0)) s
                (dirty transaction) walk0 with
        | Ok visited => (Ok (mkTransaction visited deleted0 (added transaction)), s)
        | Throw => (Throw, s)
        | OutOfFuel => (OutOfFuel, s)
        end
    end.

(** A loop of [commit] that starts [add] for the curves it does not skip;
    [lookupItemById] throws in [commit] itself.  [commit] does not await
    the call it starts, which runs up to its first [await].  For a polyline
    that is [await factory.calculate()], reached before the registry is read
    or written: the call is paused, and the curve is put on [paused].  For
    any other curve it is the last line of [add], [await
    Promise.all(promises)]: the call has done all its work. *)
Fixpoint readd (skip : SimpleName -> bool) (l : list SimpleName)
    (promises : list (Outcome unit)) (paused : list SimpleName)
    : M (list (Outcome unit) * list SimpleName) :=
  match l with
  | [] => ret (promises, paused)
  | touchee :: rest =>
      if skip touchee then readd skip rest promises paused
      else
        inst <- unwrap (lookupItemById touchee) ;;
        if IsPolyline3D inst then readd skip rest promises (paused ++ [touchee])
        else
          p <- attempt (add touchee) ;;
          readd skip rest (promises ++ [p]) paused
  end.

(** The order in which the paused calls go on: by the time at which their
    conversion settles, and in the order they were started when the times
    are the same. *)
Fixpoint insert_settled (time : SimpleName -> nat) (x : SimpleName)
    (l : list SimpleName) : list SimpleName :=
  match l with
  | [] => [x]
  | y :: l' => if time y <=? time x then y :: insert_settled time x l' else x :: y :: l'
  end.

Definition settle_order (paused : list SimpleName) : list SimpleName :=
  foldl (fun acc x => insert_settled (calculate_time paused) x acc) [] paused.

(** The calls of [add] that go on after their pause, one after the other.
    What a call did before the pause read the geometry store only, so that
    the call that goes on is [add], run when the conversion has settled. *)
Fixpoint add_each (l : list SimpleName) (promises : list (Outcome unit))
    : M (list (Outcome unit)) :=
  match l with
  | [] => ret promises
  | c :: rest => p <- attempt (add c) ;; add_each rest (promises ++ [p])
  end.

(** [commit(data)].  The paused calls of [add] go on while [commit] awaits
    [Promise.all(promises)], after every call was started. *)
Definition commit (data : Transaction) : M unit :=
  for_of (dirty data) (fun touchee => _ <- removeInfo touchee ;; ret tt) ;;;
  for_of (deleted data)
    (fun touchee => if bool_decide (touchee ∈ dirty data) then ret tt
                    else _ <- removeInfo touchee ;; ret tt) ;;;
  started <- readd (fun touchee => bool_decide (touchee ∈ deleted data))
               (dirty data) [] [] ;;
  started <- readd (fun touchee => bool_decide (touchee ∈ deleted data)
                                   || bool_decide (touchee ∈ dirty data))
               (added data) (fst started) (snd started) ;;
  promises <- add_each (settle_order (snd started)) (fst started) ;;
  Promise_all promises.

Definition remove (curve : SimpleName) : M unit :=
  data <- cascade curve empty_transaction ;;
  commit data.

(** ** lookup *)

(** [this.curve2info.get(simpleName)!]: the [!] is erased when the program is
    compiled, and [None] is the [undefined] that [Map.get] answers. *)
Definition lookup (simpleName : SimpleName) : M (option CurveInfo) :=
  gets (fun s => get_info s simpleName).

(** ** findWithSamePlacement *)

(** The loop over [curve2info.values()]: [Map.get] may answer [undefined],
    and [push] takes what it is given. *)
Fixpoint coplanar (placement0 : Placement) (candidates : list nat)
    (coplanarCurves : list (option Curve)) : M (list (option Curve)) :=
  match candidates with
  | [] => ret coplanarCurves
  | r :: rest =>
      candidate <- use_info (Some r) ;;
      planar <- gets live_id2planarCurve ;;
      coplanar placement0 rest
        (if isSamePlacement placement0 (placement (snd candidate))
         then coplanarCurves ++ [map_get (planarCurve (snd candidate)) planar]
         else coplanarCurves)
  end.

Definition findWithSamePlacement (placement0 : Placement) : M (list (option Curve)) :=
  candidates <- gets (fun s => (live_curve2info s).*2) ;;
  coplanar placement0 candidates [].

(** ** Mementos *)

(** [new Map(this.curve2info)] and its two siblings: three new objects with
    the entries of the live ones. *)
Definition saveToMemento : M CurveMemento :=
  fun s =>
    let h := heap s in
    (Ok (mkMemento (length (curve2infoObjs h)) (length (planarObjs h))
                   (length (placementObjs h))),
     set_heap (mkHeap (infoObjs h)
                      (curve2infoObjs h ++ [live_curve2info s])
                      (planarObjs h ++ [live_id2planarCurve s])
                      (placementObjs h ++ [live_placements s])) s).

(** The three fields are assigned the collections of the memento. *)
Definition restoreFromMemento (m : CurveMemento) : M unit :=
  modify (fun s => set_this (mkDatabase (memento_curve2info m)
                                        (memento_id2planarCurve m)
                                        (memento_placements m)
                                        (counter (this s))) s).

(** ** The constructor *)

(** A new database over a geometry store: empty maps, and the placement of
    the XY plane in [placements]. *)
Definition new_PlanarCurveDatabase (xy : Placement) (store : GeometryStore) : State :=
  mkState (mkHeap [] [[]] [[]] [[xy]]) (mkDatabase 0 0 0 0) store [].

(** Calls of [add] one after the other, each awaited. *)
Fixpoint add_all (curves : list SimpleName) : M unit :=
  match curves with
  | [] => ret tt
  | c :: rest => add c ;;; add_all rest
  end.

End Methods.

(** ** A geometry to run the methods on *)

(** Curves that are planar already, placements that are numbers, and crossings
    read from a table of [(curve, parameter, curve, parameter)]. *)
Module Sample.

Definition cross_at (a : Curve) (ta : Q) (b : Curve) (tb : Q) : c3d.CrossPoint :=
  c3d.mkCrossPoint (c3d.mkPointOnCurve ta a) (c3d.mkPointOnCurve tb b).

Definition table_intersect (table : list (Z * Q * (Z * Q)))
    (current : Curve) (all : list Curve) : list c3d.CrossPoint :=
  flat_map (fun other =>
    flat_map (fun e : Z * Q * (Z * Q) =>
      (if (e.1.1 =? Id current)%Z && (e.2.1 =? Id other)%Z
       then [cross_at current e.1.2 other e.2.2] else [])
      ++ (if (e.2.1 =? Id current)%Z && (e.1.1 =? Id other)%Z
          then [cross_at current e.2.2 other e.1.2] else [])) table) all.

Definition geometry (curves : list (SimpleName * (Curve * Z)))
    (table : list (Z * Q * (Z * Q))) : GeometryLibrary :=
  {| Placement := Z;
     Curve3D := Curve * Z;
     isSamePlacement := Z.eqb;
     IsPolyline3D := fun _ => false;
     Polyline2Contour := fun c => c;
     calculate_time := fun _ _ => 0;
     curve3d2curve2d := fun c => Some c;
     IntersectWithAll := table_intersect table;
     lookupItemById := fun name => map_get name curves |}.

Definition segment (id : Z) (tmin tmax : Q) : Curve :=
  mkCurve id tmin tmax true false false [].

Definition circle (id : Z) (tmin tmax : Q) : Curve :=
  mkCurve id tmin tmax true true false [].

(** Two segments that cross near the start of the first, a third segment
    that starts on the second, a circle crossed by the third segment at its
    seam and once more, and a circle that meets nothing. *)
Definition seg1 : Curve := segment 101 0 1.
Definition seg2 : Curve := segment 102 0 1.
Definition circ3 : Curve := circle 103 0 6.
Definition seg4 : Curve := segment 104 0 1.
Definition circ5 : Curve := circle 105 0 6.

Definition curves : list (SimpleName * (Curve * Z)) :=
  [(1, (seg1, 0)); (2, (seg2, 0)); (3, (circ3, 0)); (4, (seg4, 0)); (5, (circ5, 0))]%Z.

(** The double written [5e-6]. *)
Definition five_e_minus_6 : Q := 5902958103587057 # 1180591620717411303424.

Definition crossings : list (Z * Q * (Z * Q)) :=
  [((101%Z, five_e_minus_6), (102%Z, 1 # 2)); ((102%Z, 3 # 4), (104%Z, 0%Q));
   ((104%Z, 1 # 2), (105%Z, 0%Q)); ((104%Z, 3 # 4), (105%Z, 3%Q))].

Definition kernel : GeometryLibrary := geometry curves crossings.

(** The same geometry with the second segment drawn as a polyline, which
    its conversion leaves as it is. *)
Definition kernel_with_polyline : GeometryLibrary :=
  {| Placement := Z;
     Curve3D := Curve * Z;
     isSamePlacement := Z.eqb;
     IsPolyline3D := fun c => (Id c.1 =? 102)%Z;
     Polyline2Contour := fun c => c;
     calculate_time := fun _ _ => 0;
     curve3d2curve2d := fun c => Some c;
     IntersectWithAll := table_intersect crossings;
     lookupItemById := fun name => map_get name curves |}.

(** The placement of the XY plane, and the geometry store before any add. *)
Definition xy : @Placement kernel := 0%Z.
Definition store : @GeometryStore kernel := mkStore [] 1000%Z.

Definition empty : State := @new_PlanarCurveDatabase kernel xy store.

(** The database after the five curves were added, one after the other. *)
Definition settled : State := snd (@add_all kernel [1; 2; 3; 4; 5]%Z empty).

(** The names and the candidates [add] works with for the two segments. *)
Definition names12 : list (Curve2dId * SimpleName) := [(101, 1); (102, 2)]%Z.
Definition names45 : list (Curve2dId * SimpleName) := [(104, 4); (105, 5); (102, 2)]%Z.

(** The crosses the walk runs over for the first segment. *)
Definition crosses1 : list c3d.CrossPoint :=
  [pseudo_cross 0 seg1; cross_at seg1 five_e_minus_6 seg2 (1 # 2); pseudo_cross 1 seg1].


(** The [CurveInfo] of the third segment and of the second. *)
Definition info4 : @CurveInfo kernel :=
  default (@new_CurveInfo kernel 0 0%Z) (@info_at kernel settled 3).
Definition info2 : @CurveInfo kernel :=
  default (@new_CurveInfo kernel 0 0%Z) (@info_at kernel settled 1).

(** The third segment crossing the circle at the seam of the circle, and
    starting on the second segment. *)
Definition cross45 : c3d.CrossPoint := cross_at seg4 (1 # 2) circ5 0.
Definition cross42 : c3d.CrossPoint := cross_at seg4 0 seg2 (3 # 4).

(** The third segment crossing the circle once more, and one more turn of
    the loop of [add] for the third segment. *)
Definition cross45' : c3d.CrossPoint := cross_at seg4 (3 # 4) circ5 3.
Definition turn4 : Outcome (Outcome unit * (list (Curve2dId * Curve) * list Curve2dId)) * State :=
  @loop_body kernel [seg2; seg4; circ5] names45 xy [(104%Z, seg4)] [] 104%Z seg4 settled.
Definition joint42 : Joint :=
  mkJoint (mkPoint (Some 4%Z) 0 0 1) (mkPoint (Some 2%Z) (3 # 4) 0 1).

(** The transaction [cascade] returns for the first segment. *)
Definition cascade1 : Transaction := mkTransaction [2; 4; 5; 1]%Z [1%Z] [].

(** *** The states the further properties are run on *)

(** The names and the candidates the collection loop gathers in the settled
    database. *)
Definition candidates : list (Curve2dId * SimpleName) * list Curve :=
  ([(101, 1); (102, 2); (103, 3); (104, 4); (105, 5)]%Z,
   [seg1; seg2; circ3; seg4; circ5]).

(** The [CurveInfo] of the first segment. *)
Definition info1 : @CurveInfo kernel :=
  default (@new_CurveInfo kernel 0 0%Z) (@info_at kernel settled 0).

(** The database after each of the first four calls of [add]. *)
Definition after1 : State := snd (@add kernel 1%Z empty).
Definition after2 : State := snd (@add kernel 2%Z after1).
Definition after3 : State := snd (@add kernel 3%Z after2).
Definition after4 : State := snd (@add kernel 4%Z after3).

(** The settled database after the first segment was removed. *)
Definition removed1 : State := snd (@remove kernel 1%Z settled).

(** The settled database after the entry of the second segment was taken
    out, without a cascade. *)
Definition dangling : State := snd (@removeInfo kernel 2%Z settled).

(** The settled database with a memento taken. *)
Definition memento : CurveMemento := mkMemento 1 1 1.
Definition saved : State := snd (@saveToMemento kernel settled).

(** One more turn of the loop of [add] for the circle the third segment
    crosses twice. *)
Definition turn5 : Outcome (Outcome unit * (list (Curve2dId * Curve) * list Curve2dId)) * State :=
  @loop_body kernel [seg4; circ5] names45 xy [(105%Z, circ5)] [] 105%Z circ5 settled.

(** The transaction that adds the first segment again and removes the third,
    built in the database from which the first segment was removed. *)
Definition tx4 : Transaction := mkTransaction [5; 4; 2]%Z [4%Z] [1%Z].

(** The database over the geometry with the polyline, after the five
    curves were added one after the other. *)
Definition polyline_settled : @State kernel_with_polyline :=
  snd (@add_all kernel_with_polyline [1; 2; 3; 4; 5]%Z
         (@new_PlanarCurveDatabase kernel_with_polyline 0%Z
            (@mkStore kernel_with_polyline [] 1000%Z))).

End Sample.

(** * The vocabulary of the properties *)

Section Vocabulary.
Context `{G : GeometryLibrary}.
Local Open Scope js_scope.

(** What a caller can see of the registry: the curves with the contents of
    their [CurveInfo], the planar curves and the placements. *)
Definition observe (s : State)
    : list (SimpleName * option CurveInfo) * list (Z * Curve) * list Placement :=
  (map (fun e : SimpleName * nat => (e.1, info_at s e.2)) (live_curve2info s),
   live_id2planarCurve s, live_placements s).

(** The entries a memento holds for [curve2info]. *)
Definition memento_entries (m : CurveMemento) (s : State) : list (SimpleName * nat) :=
  default [] (curve2infoObjs (heap s) !! memento_curve2info m).

(** [x] touches [y]: [y] is in the [touched] set of the [CurveInfo] of [x]. *)
Definition touches (s : State) (x y : SimpleName) : Prop :=
  ∃ i, get_info s x = Some i ∧ y ∈ touched i.

(** The curves reached from [x] by following [touched] links, one at least. *)
Inductive reaches (s : State) (x : SimpleName) : SimpleName → Prop :=
| reaches_touch y : touches s x y → reaches s x y
| reaches_step y z : reaches s x y → touches s y z → reaches s x z.

(** Every identity in a [touched] set of the registry is registered. *)
Definition touched_registered (s : State) : Prop :=
  ∀ x y, touches s x y → is_Some (get_info s y).

(** What an entry of [curve2info] can still put on the walk. *)
Definition weight (s : State) (visited : list SimpleName) (e : SimpleName * nat) : nat :=
  if decide (e.1 ∈ visited) then 0
  else match info_at s e.2 with
       | Some i => length (touched i)
       | None => 0
       end.

(** The parameter of a cross on the curve being cut. *)
Definition cross_t (c : c3d.CrossPoint) : Q := c3d.t (c3d.on1 c).

(** The spans between consecutive parameters, from [start0] on. *)
Fixpoint spans (start0 : Q) (ts : list Q) : list (Q * Q) :=
  match ts with
  | [] => []
  | t :: rest => (start0, t) :: spans t rest
  end.

(** A span the walk keeps. *)
Definition wide (sp : Q * Q) : bool := Qltb ten_e_minus_6 (Qabs (fsub sp.1 sp.2)).

(** The least width of a span the walk keeps: halfway between the double
    [10e-6] and the next double, [(2 * 5902958103587057 + 1) / 2 ^ 70]. *)
Definition least_wide : Q := 11805916207174115 # 1180591620717411303424.

(** The number a [spec_float] of the Standard Library stands for. *)
Definition SF2Q (f : spec_float) : Q :=
  match f with
  | S754_finite s m e => (inject_Z (if s then Z.neg m else Z.pos m) * 2 ^ e)%Q
  | _ => 0
  end.

Definition trim_of (curve1 : Curve) (sp : Q * Q) : Trim :=
  mkTrim (Trimmed curve1 sp.1 sp.2) sp.1 sp.2.

(** The cross names a curve of [planar2instance] that the store holds. *)
Definition named (planar2instance : list (Curve2dId * SimpleName))
    (c : c3d.CrossPoint) : Prop :=
  ∃ id, map_get (Id (c3d.curve (c3d.on2 c))) planar2instance = Some id
        ∧ is_Some (lookupItemById id).

(** The parameter ranges recorded for the fragments of a curve. *)
Definition provenance (s : State) (name : SimpleName) : list (Q * Q) :=
  match get_info s name with
  | Some i =>
      omap (fun f => match map_get f (items (db s)) with
                     | Some it => Some (befragment it).1
                     | None => None
                     end) (fragments i)
  | None => []
  end.


(** A [CurveInfo] after writes in place: the planar curve and the placement
    are read-only, and [touched] only gains elements. *)
Definition info_grows (i i' : CurveInfo) : Prop :=
  planarCurve i' = planarCurve i ∧ placement i' = placement i
  ∧ touched i ⊆ touched i'.

(** A state after writes to [CurveInfo] objects and to the geometry store
    only. *)
Definition extends (s s' : State) : Prop :=
  this s' = this s
  ∧ curve2infoObjs (heap s') = curve2infoObjs (heap s)
  ∧ planarObjs (heap s') = planarObjs (heap s)
  ∧ placementObjs (heap s') = placementObjs (heap s)
  ∧ calls s' = calls s
  ∧ ∀ r i, info_at s r = Some i → ∃ i', info_at s' r = Some i' ∧ info_grows i i'.

Definition same_calls (s s' : State) : Prop := calls s' = calls s.

(** Whatever the outcome of [m], the state it leaves is related by [R] to the
    state it starts from. *)
Definition stable (R : State → State → Prop) {A} (m : M A) : Prop :=
  ∀ s, R s (snd (m s)).

(** The words of the contract of [commit]: the registry entries torn down, in
    order, and the curves added again, in order. *)
Definition torn_down (data : Transaction) : list SimpleName :=
  dirty data
  ++ List.filter (fun c => negb (bool_decide (c ∈ dirty data))) (deleted data).

Definition added_again (data : Transaction) : list SimpleName :=
  List.filter (fun c => negb (bool_decide (c ∈ deleted data))) (dirty data)
  ++ List.filter (fun c => negb (bool_decide (c ∈ deleted data)
                                 || bool_decide (c ∈ dirty data))) (added data).

(** Calls of [add] for the curves of a list that are not skipped and that
    the geometry store holds, each run to its last line before the next is
    started. *)
Fixpoint add_in_turn (skip : SimpleName -> bool) (l : list SimpleName)
    (promises : list (Outcome unit)) : M (list (Outcome unit)) :=
  match l with
  | [] => ret promises
  | touchee :: rest =>
      if skip touchee then add_in_turn skip rest promises
      else
        _ <- unwrap (lookupItemById touchee) ;;
        p <- attempt (add touchee) ;;
        add_in_turn skip rest (promises ++ [p])
  end.

(** The curve is a polyline of the geometry store. *)
Definition is_polyline (c : SimpleName) : bool :=
  match lookupItemById c with
  | Some inst => IsPolyline3D inst
  | None => false
  end.

(** The curves [commit] adds again, in the order in which their calls of
    [add] work on the registry: those that are no polylines as they are
    started, then the polylines as their conversions settle. *)
Definition schedule (data : Transaction) : list SimpleName :=
  List.filter (fun c => negb (is_polyline c)) (added_again data)
  ++ settle_order (List.filter is_polyline (added_again data)).


(** The range of a trim. *)
Definition range_of (tr : Trim) : Q * Q := (start tr, stop tr).

(** The fragment a store lookup finds, as its recorded range. *)
Definition stored_range (s : State) (f : SimpleName) : option (Q * Q) :=
  match map_get f (items (db s)) with
  | Some it => Some (befragment it).1
  | None => None
  end.

(** The joints of a bounded open curve, written before its walk. *)
Definition end_joints (current : Curve) (first : c3d.CrossPoint)
    (sorted : list c3d.CrossPoint) (p2i : list (Curve2dId * SimpleName)) : M unit :=
  if IsBounded current && negb (IsClosed current)
  then addJoint first p2i ;;; addJoint (default first (last sorted)) p2i
  else ret tt.

(** The joints of every [CurveInfo] object are as before. *)
Definition same_joints (s s' : State) : Prop :=
  ∀ r, joints <$> info_at s' r = joints <$> info_at s r.


(** What the database relies on from [IntersectWithAll]: the first point of
    a cross is on the curve that is cut and the second on one of the
    candidates; a crossing of two curves is found whatever the other
    candidates are, and from either side. *)
Definition crossing (a b : Curve) : Prop :=
  ∃ x, x ∈ IntersectWithAll a [b] ∧ c3d.curve (c3d.on2 x) = b.

Record faithful_kernel : Prop := {
  kernel_on1 : ∀ c all x, x ∈ IntersectWithAll c all → c3d.curve (c3d.on1 x) = c;
  kernel_on2 : ∀ c all x, x ∈ IntersectWithAll c all → c3d.curve (c3d.on2 x) ∈ all;
  kernel_finds : ∀ a b all,
    crossing a b → b ∈ all →
    ∃ x, x ∈ IntersectWithAll a all ∧ c3d.curve (c3d.on2 x) = b;
  kernel_symmetric : ∀ a b, crossing a b → crossing b a
}.

(** [m] is in the [touched] set of the object [r]. *)
Definition touched_at (s : State) (r : nat) (m : SimpleName) : Prop :=
  ∃ i, info_at s r = Some i ∧ m ∈ touched i.

(** The loop of [add] between two turns: the curves to process are
    candidates, and every candidate already visited has in its [touched] set
    each candidate it crosses, which is itself visited or to process. *)
Definition between_turns (all : list Curve) (p2i : list (Curve2dId * SimpleName))
    (s : State) (tp : list (Curve2dId * Curve)) (visited : list Curve2dId) : Prop :=
  (∀ id c, (id, c) ∈ tp → Id c = id ∧ c ∈ all)
  ∧ ∀ c b n nb,
      c ∈ all → Id c ∈ visited → b ∈ all → crossing c b →
      map_get (Id c) p2i = Some n → map_get (Id b) p2i = Some nb →
      touches s n nb ∧ (Id b ∈ visited ∨ Id b ∈ tp.*1).

(** The planar curve [add] computes for a curve of the store. *)
Definition planar_of (n : SimpleName) : option (Curve * Placement) :=
  match lookupItemById n with
  | Some inst => curve3d2curve2d (if IsPolyline3D inst then Polyline2Contour inst else inst)
  | None => None
  end.

(** Planar curves of different curves have different [Id]s. *)
Definition distinct_ids (curves : list SimpleName) : Prop :=
  ∀ n1 n2 cp1 cp2,
    n1 ∈ curves → n2 ∈ curves →
    planar_of n1 = Some cp1 → planar_of n2 = Some cp2 →
    Id cp1.1 = Id cp2.1 → n1 = n2.

(** The planar curve and the placement the [CurveInfo] object [r] stands for. *)
Definition entry_curve (s : State) (r : nat) (c : Curve) (p : Placement) : Prop :=
  ∃ i, info_at s r = Some i
       ∧ map_get (planarCurve i) (live_id2planarCurve s) = Some c
       ∧ placement i = p.

(** [n] is registered, with planar curve [c] on placement [p]. *)
Definition registered (s : State) (n : SimpleName) (c : Curve) (p : Placement) : Prop :=
  ∃ r, get_ref s n = Some r ∧ entry_curve s r c p.

(** Two states with the same database fields, [CurveInfo] objects and maps. *)
Definition same_registry (s s' : State) : Prop :=
  this s' = this s
  ∧ infoObjs (heap s') = infoObjs (heap s)
  ∧ curve2infoObjs (heap s') = curve2infoObjs (heap s)
  ∧ planarObjs (heap s') = planarObjs (heap s).

(** The writes of [add] between the collection and the loop: the counter,
    the planar curve, the new [CurveInfo] and its entry. *)
Definition register (newCurve : SimpleName) (newPlanarCurve : Curve)
    (placement0 : Placement) (s : State) : State :=
  let s1 := next_counter s in
  let s2 := write_id2planarCurve
              (map_set (counter (this s)) newPlanarCurve (live_id2planarCurve s1)) s1 in
  let s3 := snd (alloc_info (new_CurveInfo (counter (this s)) placement0) s2) in
  write_curve2info (map_set newCurve (length (infoObjs (heap s2))) (live_curve2info s3)) s3.

(** The registry after the curves [done] were added: the fields of the
    database name maps; every entry is one of the curves, with its planar
    curve under a number below the counter; each key appears once; and
    every registered curve has in its [touched] set the registered curves
    of its placement that it crosses. *)
Definition registry_of (done : list SimpleName) (s : State) : Prop :=
  (curve2info (this s) < length (curve2infoObjs (heap s))
   ∧ id2planarCurve (this s) < length (planarObjs (heap s)))
  ∧ NoDup (live_curve2info s).*1
  ∧ (∀ n r, get_ref s n = Some r →
       n ∈ done ∧ ∃ i c p, info_at s r = Some i
                     ∧ (planarCurve i < counter (this s))%Z
                     ∧ map_get (planarCurve i) (live_id2planarCurve s) = Some c
                     ∧ planar_of n = Some (c, p))
  ∧ (∀ A B cA cB pA pB,
       registered s A cA pA → registered s B cB pB →
       isSamePlacement pA pB = true → isSamePlacement pB pA = true →
       crossing cA cB → touches s A B).

(** A method that always ends: it never asks for more turns than it is
    given. *)
Definition ends {A} (m : M A) : Prop := ∀ s, fst (m s) ≠ OutOfFuel.

(** [touched_registered], as a check of the entries of [curve2info]. *)
Definition touched_registered_check (s : State) : bool :=
  forallb (fun e : SimpleName * nat =>
             match info_at s e.2 with
             | Some i => forallb (fun y => bool_decide (is_Some (get_info s y))) (touched i)
             | None => true
             end) (live_curve2info s).

(** Two methods that do the same from every state. *)
Definition same_run {A} (m m' : M A) : Prop := ∀ s, m s = m' s.

(** ** The vocabulary of the further properties *)

(** The collections that are not the live ones are as they were, and the
    fields of the database name the same collections. *)
Definition collections_kept (s s' : State) : Prop :=
  (curve2info (this s') = curve2info (this s)
   ∧ id2planarCurve (this s') = id2planarCurve (this s)
   ∧ placements (this s') = placements (this s))
  ∧ (∀ k, k ≠ curve2info (this s) →
          curve2infoObjs (heap s') !! k = curve2infoObjs (heap s) !! k)
  ∧ (∀ k, k ≠ id2planarCurve (this s) →
          planarObjs (heap s') !! k = planarObjs (heap s) !! k)
  ∧ (∀ k, k ≠ placements (this s) →
          placementObjs (heap s') !! k = placementObjs (heap s) !! k).

(** The three fields of the database name collections of the heap. *)
Definition fields_allocated (s : State) : Prop :=
  curve2info (this s) < length (curve2infoObjs (heap s))
  ∧ id2planarCurve (this s) < length (planarObjs (heap s))
  ∧ placements (this s) < length (placementObjs (heap s)).

(** After [restoreFromMemento(m)] in the state [s2], the three collections
    of the database are those of the state [s]. *)
Definition restores (m : CurveMemento) (s s2 : State) : Prop :=
  live_curve2info (snd (restoreFromMemento m s2)) = live_curve2info s
  ∧ live_id2planarCurve (snd (restoreFromMemento m s2)) = live_id2planarCurve s
  ∧ live_placements (snd (restoreFromMemento m s2)) = live_placements s.

(** The names of [done] that are not in [l]. *)
Definition without (l done : list SimpleName) : list SimpleName :=
  List.filter (λ n, negb (bool_decide (n ∈ l))) done.

(** The body of the first two loops of [commit]. *)
Definition teardown (c : SimpleName) : M unit := _ <- removeInfo c ;; ret tt.

(** Planar curves of different curves have different [Id]s, whatever the
    curves. *)
Definition all_ids_distinct : Prop :=
  ∀ n1 n2 cp1 cp2,
    planar_of n1 = Some cp1 → planar_of n2 = Some cp2 → Id cp1.1 = Id cp2.1 → n1 = n2.

(** The transactions a caller builds in a state: the set of curves to add,
    then calls of [cascade], each handing its transaction to the next. *)
Inductive cascaded (s : State) : Transaction → Prop :=
| cascaded_start l : NoDup l → cascaded s (mkTransaction [] [] l)
| cascaded_step X data data' :
    cascaded s data → cascade X data s = (Ok data', s) → cascaded s data'.

(** The states a new database over the store reaches by calls of [add], for
    curves that are not registered at the call, of [remove], and of
    [commit], for a transaction built in the state whose curves to add are
    not registered unless it tears them down; each call awaited and
    fulfilled. *)
Inductive reachable (xy : Placement) (store : GeometryStore) : State → Prop :=
| reachable_new : reachable xy store (new_PlanarCurveDatabase xy store)
| reachable_add N s s' :
    reachable xy store s → get_ref s N = None → add N s = (Ok tt, s') →
    reachable xy store s'
| reachable_remove X s s' :
    reachable xy store s → remove X s = (Ok tt, s') → reachable xy store s'
| reachable_commit data s s' :
    reachable xy store s → cascaded s data →
    (∀ n, n ∈ added data → n ∉ deleted data → n ∉ dirty data → get_ref s n = None) →
    commit data s = (Ok tt, s') → reachable xy store s'.

(** The curve a fragment of the store was cut from. *)
Definition owner (it : Item) : SimpleName := (befragment it).2.

(** The store and the registry agree: the entries of the registry are
    [CurveInfo] objects of their own; every fragment of a registered curve
    is an item of the store, cut from that curve; and every item of the
    store is a fragment of the registered curve it was cut from. *)
Definition store_tidy (s : State) : Prop :=
  (∀ n r, get_ref s n = Some r → is_Some (info_at s r))
  ∧ (∀ n1 n2 r, get_ref s n1 = Some r → get_ref s n2 = Some r → n1 = n2)
  ∧ (∀ n i f, get_info s n = Some i → f ∈ fragments i →
       ∃ it, map_get f (items (db s)) = Some it ∧ owner it = n)
  ∧ (∀ f it, map_get f (items (db s)) = Some it →
       (f < nextName (db s))%Z
       ∧ ∃ i, get_info s (owner it) = Some i ∧ f ∈ fragments i).

(** What holds of the state before holds of the state after. *)
Definition keeps (I : State → Prop) (s s' : State) : Prop := I s → I s'.

(** A cross that [IntersectWithAll] reports among many candidates is a
    crossing of the two curves alone. *)
Definition kernel_local : Prop :=
  ∀ a all x, x ∈ IntersectWithAll a all → crossing a (c3d.curve (c3d.on2 x)).

(** Every [touched] link has its opposite. *)
Definition touched_symmetric (s : State) : Prop :=
  ∀ x y, touches s x y → touches s y x.

(** Every [touched] link is from a curve to itself or between two
    registered curves whose planar curves cross. *)
Definition touched_exact (s : State) : Prop :=
  ∀ A B, touches s A B →
    A = B ∨ ∃ cA pA cB pB,
              registered s A cA pA ∧ registered s B cB pB ∧ crossing cA cB.

(** What the walk of [cascade] relies on, and what the links stand for. *)
Definition links_sound (s : State) : Prop :=
  touched_registered s ∧ touched_symmetric s ∧ touched_exact s.

(** The [CurveInfo] objects after are objects from before, and what they
    gained in [touched] is allowed by [P]. *)
Definition grown_by (P : nat → SimpleName → Prop) (s s' : State) : Prop :=
  ∀ r i', info_at s' r = Some i' →
    ∃ i, info_at s r = Some i ∧ ∀ y, y ∈ touched i' → y ∈ touched i ∨ P r y.

(** The links the loop of [add] may write into the object [r]: from a
    candidate that was visited to itself, or to a candidate it was found to
    cross. *)
Definition link (all : list Curve) (p2i : list (Curve2dId * SimpleName)) (s0 : State)
    (V : list Curve2dId) (r : nat) (y : SimpleName) : Prop :=
  ∃ c b n, c ∈ all ∧ Id c ∈ V ∧ b ∈ all
           ∧ map_get (Id c) p2i = Some n ∧ get_ref s0 n = Some r
           ∧ map_get (Id b) p2i = Some y
           ∧ (b = c ∨ ∃ x, x ∈ IntersectWithAll c all ∧ c3d.curve (c3d.on2 x) = b).

(** The planar curves are numbered from 0 up to the counter, in the order
    they were stored. *)
Definition planar_numbered (s : State) : Prop :=
  (0 <= counter (this s))%Z
  ∧ (live_id2planarCurve s).*1 = seqZ 0 (counter (this s)).

(** Every planar curve stored before is stored after, under its number. *)
Definition planar_kept (s s' : State) : Prop :=
  ∀ k c, map_get k (live_id2planarCurve s) = Some c →
         map_get k (live_id2planarCurve s') = Some c.

(** A piece of a curve with its recorded range: the whole curve, recorded
    with the range (-1, -1), or the curve trimmed between two parameters
    more than 1/100000 apart, recorded with them. *)
Definition range_shape (g : TrimmedCurve) (r : Q * Q) : Prop :=
  (∃ c, g = Whole c ∧ r = ((-1)%Q, (-1)%Q))
  ∨ (∃ c, g = Trimmed c r.1 r.2 ∧ wide r = true).

(** Every fragment of the store has that shape. *)
Definition fragments_wide (s : State) : Prop :=
  ∀ f it, map_get f (items (db s)) = Some it →
          range_shape (item_curve it) (befragment it).1.

(** Every entry of [curve2info] is a [CurveInfo] object. *)
Definition entries_allocated (s : State) : Prop :=
  ∀ n r, get_ref s n = Some r → is_Some (info_at s r).

End Vocabulary.

(** * Properties *)

Section Properties.
Context `{G : GeometryLibrary}.
Local Open Scope js_scope.

(** ** Maps and sets *)

Lemma map_get_set {V} k k' (v : V) m :
  map_get k' (map_set k v m) = if decide (k' = k) then Some v else map_get k' m.
Proof.
  induction m as [|[k0 v0] m IH]; simpl.
  - destruct (decide (k' = k)); done.
  - destruct (decide (k = k0)) as [->|]; simpl.
    + destruct (decide (k' = k0)); done.
    + rewrite IH. destruct (decide (k' = k0)) as [->|]; [|done].
      destruct (decide (k0 = k)); congruence.
Qed.

Lemma map_get_delete {V} k k' (m : list (Z * V)) :
  map_get k' (map_delete k m) = if decide (k' = k) then None else map_get k' m.
Proof.
  induction m as [|[k0 v0] m IH]; simpl.
  - destruct (decide (k' = k)); done.
  - destruct (decide (k = k0)) as [->|]; simpl.
    + rewrite IH. destruct (decide (k' = k0)); done.
    + rewrite IH. destruct (decide (k' = k0)) as [->|]; [|done].
      destruct (decide (k0 = k)); congruence.
Qed.

Lemma map_get_Some_fst {V} k (v : V) m : map_get k m = Some v → k ∈ m.*1.
Proof.
  induction m as [|[k0 v0] m IH]; simpl; [done|].
  case_decide; subst; [left|right; auto].
Qed.

Lemma map_get_None_fst {V} k (m : list (Z * V)) : map_get k m = None ↔ k ∉ m.*1.
Proof.
  induction m as [|[k0 v0] m IH]; simpl.
  - split; [intros _; apply not_elem_of_nil|done].
  - rewrite not_elem_of_cons. case_decide; subst; [|rewrite IH]; naive_solver.
Qed.

Lemma map_delete_absent {V} k (m : list (Z * V)) : map_get k m = None → map_delete k m = m.
Proof.
  induction m as [|[k0 v0] m IH]; simpl; [done|].
  case_decide; [done|]. intros ?. f_equal. auto.
Qed.

Lemma elem_of_rev {A} (x : A) l : x ∈ rev l ↔ x ∈ l.
Proof. rewrite !list_elem_of_In. symmetry. apply in_rev. Qed.

Lemma elem_of_set_add x y s : x ∈ set_add y s ↔ x = y ∨ x ∈ s.
Proof.
  unfold set_add. case_decide; [|rewrite elem_of_app, list_elem_of_singleton]; naive_solver.
Qed.

Lemma NoDup_set_add y s : NoDup s → NoDup (set_add y s).
Proof.
  unfold set_add. case_decide; [done|]. intros ?. apply NoDup_app. split_and!; auto.
  - intros x ? ->%list_elem_of_singleton. done.
  - apply NoDup_singleton.
Qed.

(** ** Running a method *)

Lemma bind_Ok {A B} (m : M A) (k : A → M B) s b s' :
  bind m k s = (Ok b, s') → ∃ a s1, m s = (Ok a, s1) ∧ k a s1 = (Ok b, s').
Proof. unfold bind. destruct (m s) as [[a| |] s1]; [eauto|done|done]. Qed.

Lemma bind_run {A B} (m : M A) (k : A → M B) s a s' :
  m s = (Ok a, s') → bind m k s = k a s'.
Proof. unfold bind. by intros ->. Qed.

Lemma unwrap_Ok {A} (o : option A) s a s' :
  unwrap o s = (Ok a, s') → o = Some a ∧ s' = s.
Proof. destruct o; simpl; [by intros [= -> ->]|done]. Qed.

Lemma use_info_Ok r s ri s' :
  use_info r s = (Ok ri, s') →
  r = Some ri.1 ∧ info_at s ri.1 = Some ri.2 ∧ s' = s.
Proof.
  unfold use_info. destruct r as [r|]; [|done].
  destruct (info_at s r) as [i|] eqn:Hi; [|done]. by intros [= <- <-].
Qed.

Lemma use_info_Some r i s : info_at s r = Some i → use_info (Some r) s = (Ok (r, i), s).
Proof. unfold use_info. by intros ->. Qed.

Tactic Notation "bind_inv" hyp(H) "as" ident(a) ident(s1) ident(H1) :=
  apply bind_Ok in H as (a & s1 & H1 & H).

Lemma get_info_record_call c s name : get_info (record_call c s) name = get_info s name.
Proof. done. Qed.

(** ** lookup *)

(** C8, amended: for a curve identity that is not a key of [curve2info],
    [lookup] raises nothing; it returns [undefined] ([None]) and leaves the
    database as it is. *)
Theorem lookup_unregistered_returns_undefined (s : State) (simpleName : SimpleName) :
  get_ref s simpleName = None →
  lookup simpleName s = (Ok None, s).
Proof. intros H. unfold lookup, gets, get_info. by rewrite H. Qed.

(** ** Removing what is not registered *)

(** C10: for a curve without a registry entry, [cascade] adds the curve to
    [deleted] and leaves [dirty] as it was (from the empty transaction:
    [deleted] is that curve alone, [dirty] empty), and [removeInfo] returns
    nothing, raises nothing, and leaves the objects of the registry, the
    fields of the database and the geometry store unchanged. *)
Theorem remove_unregistered_is_silent (s : State) (curve : SimpleName) (tx : Transaction) :
  get_ref s curve = None →
  cascade curve tx s
    = (Ok (mkTransaction (dirty tx) (set_add curve (deleted tx)) (added tx)), s)
  ∧ cascade curve empty_transaction s = (Ok (mkTransaction [] [curve] []), s)
  ∧ fst (removeInfo curve s) = Ok None
  ∧ heap (snd (removeInfo curve s)) = heap s
  ∧ this (snd (removeInfo curve s)) = this s
  ∧ db (snd (removeInfo curve s)) = db s
  ∧ live_curve2info (snd (removeInfo curve s)) = live_curve2info s.
Proof.
  intros H.
  assert (Hi : get_info s curve = None) by (unfold get_info; by rewrite H).
  split_and!.
  - unfold cascade. by rewrite Hi.
  - unfold cascade. by rewrite Hi.
  - unfold removeInfo, bind, modify, gets. by rewrite get_info_record_call, Hi.
  - unfold removeInfo, bind, modify, gets. by rewrite get_info_record_call, Hi.
  - unfold removeInfo, bind, modify, gets. by rewrite get_info_record_call, Hi.
  - unfold removeInfo, bind, modify, gets. by rewrite get_info_record_call, Hi.
  - unfold removeInfo, bind, modify, gets. by rewrite get_info_record_call, Hi.
Qed.

(** ** Mementos *)

(** Saving and restoring at once leaves the registry as it was for every
    observer. *)
Lemma restore_save_observe (s : State) :
  ∀ m s1, saveToMemento s = (Ok m, s1) →
  observe (snd (restoreFromMemento m s1)) = observe s
  ∧ counter (this (snd (restoreFromMemento m s1))) = counter (this s).
Proof.
  intros m s1 [= <- <-]. split; [|done].
  unfold observe, live_curve2info, live_id2planarCurve, live_placements, info_at; simpl.
  rewrite !lookup_app_r, !Nat.sub_diag by done. done.
Qed.

(** ** cascade *)

Lemma potential_weight s visited walk0 :
  potential s visited walk0
  = length walk0 + sum_list (map (weight s visited) (live_curve2info s)).
Proof. done. Qed.

Lemma sum_list_map_cons {A} (f : A → nat) x l :
  sum_list (map f (x :: l)) = f x + sum_list (map f l).
Proof. done. Qed.

Lemma weight_mono s visited k e : weight s (visited ++ [k]) e ≤ weight s visited e.
Proof.
  unfold weight. destruct (decide (e.1 ∈ visited)) as [Hin|Hin].
  - rewrite decide_True by (apply elem_of_app; auto). lia.
  - destruct (decide (e.1 ∈ visited ++ [k])); lia.
Qed.

Lemma sum_weight_mono s visited k (m : list (SimpleName * nat)) :
  sum_list (map (weight s (visited ++ [k])) m) ≤ sum_list (map (weight s visited) m).
Proof.
  induction m as [|e m IH]; [simpl; lia|]. rewrite !sum_list_map_cons.
  pose proof (weight_mono s visited k e). lia.
Qed.

Lemma sum_weight_visit s visited k r i (m : list (SimpleName * nat)) :
  map_get k m = Some r → info_at s r = Some i → k ∉ visited →
  sum_list (map (weight s (visited ++ [k])) m) + length (touched i)
  ≤ sum_list (map (weight s visited) m).
Proof.
  intros Hget Hi Hk. induction m as [|[k0 r0] m IH]; [done|].
  simpl in Hget. rewrite !sum_list_map_cons.
  destruct (decide (k = k0)) as [->|Hne].
  - injection Hget as Hr. rewrite <- Hr in Hi.
    pose proof (sum_weight_mono s visited k0 m).
    assert (weight s (visited ++ [k0]) (k0, r0) = 0) as ->.
    { unfold weight; simpl. apply decide_True, elem_of_app. right.
      by apply list_elem_of_singleton. }
    assert (weight s visited (k0, r0) = length (touched i)) as ->.
    { unfold weight; simpl. by rewrite decide_False, Hi. }
    lia.
  - specialize (IH Hget). pose proof (weight_mono s visited k (k0, r0)). lia.
Qed.

(** With a registry whose [touched] sets name registered curves only, the
    walk neither meets a missing entry nor needs more turns than its
    potential. *)
Lemma cascade_walk_runs s :
  touched_registered s →
  ∀ fuel visited walk0,
    (∀ w, w ∈ walk0 → is_Some (get_info s w)) →
    potential s visited walk0 < fuel →
    ∃ v, cascade_walk fuel s visited walk0 = Ok v.
Proof.
  intros Hreg fuel. induction fuel as [|fuel IH]; intros visited walk0 Hw Hfuel; [lia|].
  destruct walk0 as [|touchee rest]; simpl; [eauto|].
  rewrite potential_weight in Hfuel. simpl in Hfuel.
  destruct (decide (touchee ∈ visited)) as [Hin|Hin].
  - apply IH.
    + intros w ?. apply Hw. by right.
    + rewrite potential_weight. lia.
  - destruct (Hw touchee) as [i Hi]; [by left|]. rewrite Hi.
    apply IH.
    + intros w [Hw'|Hw']%elem_of_app.
      * apply (Hreg touchee). exists i. split; [done|]. by apply elem_of_rev.
      * apply Hw. by right.
    + unfold get_info, get_ref in Hi.
      destruct (map_get touchee (live_curve2info s)) as [r|] eqn:Hr; [|done].
      pose proof (sum_weight_visit s visited touchee r i _ Hr Hi Hin).
      rewrite potential_weight, length_app, length_rev. lia.
Qed.

Lemma cascade_walk_NoDup s fuel :
  ∀ visited walk0 v,
    cascade_walk fuel s visited walk0 = Ok v → NoDup visited → NoDup v.
Proof.
  induction fuel as [|fuel IH]; intros visited walk0 v.
  - destruct walk0; simpl; [intros [= <-]; done|done].
  - destruct walk0 as [|touchee rest]; simpl; [intros [= <-]; done|].
    destruct (decide (touchee ∈ visited)) as [Hin|Hin]; [apply IH|].
    destruct (get_info s touchee) as [i|]; [|done].
    intros Hv Hnd. eapply IH; [exact Hv|].
    apply NoDup_app. split_and!; [done| |apply NoDup_singleton].
    intros x ? ->%list_elem_of_singleton. done.
Qed.

(** What the walk returns holds the visited set, the walk, and everything
    they touch, as soon as what the visited set touches is visited or on the
    walk. *)
Lemma cascade_walk_closed s fuel :
  ∀ visited walk0 v,
    cascade_walk fuel s visited walk0 = Ok v →
    (∀ y z, y ∈ visited → touches s y z → z ∈ visited ∨ z ∈ walk0) →
    (∀ y, y ∈ visited → y ∈ v) ∧ (∀ w, w ∈ walk0 → w ∈ v)
    ∧ (∀ y z, y ∈ v → touches s y z → z ∈ v).
Proof.
  induction fuel as [|fuel IH]; intros visited walk0 v.
  - destruct walk0; simpl; [|done]. intros [= <-] Hinv. split_and!; [done| |].
    + intros w Hw. by apply not_elem_of_nil in Hw.
    + intros y z Hy Hyz. destruct (Hinv y z Hy Hyz) as [|Hz]; [done|].
      by apply not_elem_of_nil in Hz.
  - destruct walk0 as [|touchee rest]; simpl.
    { intros [= <-] Hinv. split_and!; [done| |].
      - intros w Hw. by apply not_elem_of_nil in Hw.
      - intros y z Hy Hyz. destruct (Hinv y z Hy Hyz) as [|Hz]; [done|].
        by apply not_elem_of_nil in Hz. }
    destruct (decide (touchee ∈ visited)) as [Hin|Hin].
    + intros Hv Hinv. destruct (IH _ _ _ Hv) as (H1 & H2 & H3).
      * intros y z Hy Hyz. destruct (Hinv y z Hy Hyz) as [|Hz]; [by left|].
        apply elem_of_cons in Hz as [->|]; [by left|by right].
      * split_and!; [done| |done].
        intros w [->|]%elem_of_cons; auto.
    + destruct (get_info s touchee) as [i|] eqn:Hi; [|done].
      intros Hv Hinv. destruct (IH _ _ _ Hv) as (H1 & H2 & H3).
      * intros y z [Hy| ->%list_elem_of_singleton]%elem_of_app Hyz.
        -- destruct (Hinv y z Hy Hyz) as [|Hz]; [left; apply elem_of_app; by left|].
           apply elem_of_cons in Hz as [->|].
           ++ left. apply elem_of_app. right. by apply list_elem_of_singleton.
           ++ right. apply elem_of_app. by right.
        -- destruct Hyz as (i' & Hi' & Hz). rewrite Hi in Hi'. injection Hi' as <-.
           right. apply elem_of_app. left. by apply elem_of_rev.
      * split_and!; [| |done].
        -- intros y Hy. apply H1, elem_of_app. by left.
        -- intros w [->|Hw]%elem_of_cons.
           ++ apply H1, elem_of_app. right. by apply list_elem_of_singleton.
           ++ apply H2, elem_of_app. by right.
Qed.

(** What the walk returns satisfies every property of the visited set and
    of the walk that is passed on along [touched] links. *)
Lemma cascade_walk_sound s (P : SimpleName → Prop) fuel :
  (∀ y z, P y → touches s y z → P z) →
  ∀ visited walk0 v,
    cascade_walk fuel s visited walk0 = Ok v →
    (∀ y, y ∈ visited → P y) → (∀ w, w ∈ walk0 → P w) →
    ∀ y, y ∈ v → P y.
Proof.
  intros HP. induction fuel as [|fuel IH]; intros visited walk0 v.
  - destruct walk0; simpl; [|done]. intros [= <-]. auto.
  - destruct walk0 as [|touchee rest]; simpl; [intros [= <-]; auto|].
    destruct (decide (touchee ∈ visited)) as [Hin|Hin].
    + intros Hv Hvis Hwalk. eapply IH; [exact Hv|done|].
      intros w ?. apply Hwalk. by right.
    + destruct (get_info s touchee) as [i|] eqn:Hi; [|done].
      intros Hv Hvis Hwalk. eapply IH; [exact Hv| |].
      * intros y [?| ->%list_elem_of_singleton]%elem_of_app; [auto|].
        apply Hwalk. by left.
      * intros w [Hw|Hw]%elem_of_app.
        -- apply (HP touchee); [apply Hwalk; by left|].
           exists i. split; [done|]. by apply elem_of_rev.
        -- apply Hwalk. by right.
Qed.

(** C9: when every identity in a [touched] set of a registered [CurveInfo] is
    itself registered, [cascade] never dereferences a missing entry and its
    walk ends: it returns a transaction (neither [Throw] nor [OutOfFuel]),
    and so does the walk from any visited set and any stack of registered
    curves once it is given more turns than its potential; the visited set
    stays free of repetitions, so no curve is expanded twice. *)
Theorem cascade_walk_safe_and_terminates (s : State) :
  touched_registered s →
  (∀ curve tx, ∃ tx',
      cascade curve tx s = (Ok tx', s) ∧ (NoDup (dirty tx) → NoDup (dirty tx')))
  ∧ (∀ fuel visited walk0,
      (∀ w, w ∈ walk0 → is_Some (get_info s w)) →
      potential s visited walk0 < fuel →
      ∃ v, cascade_walk fuel s visited walk0 = Ok v ∧ (NoDup visited → NoDup v)).
Proof.
  intros Hreg. split.
  - intros curve tx. unfold cascade.
    destruct (get_info s curve) as [info|] eqn:Hinfo; [|by eexists].
    destruct (cascade_walk_runs s Hreg
                (S (potential s (dirty tx) (rev (touched info))))
                (dirty tx) (rev (touched info))) as [v Hv]; [|lia|].
    + intros w Hw. rewrite elem_of_rev in Hw. apply (Hreg curve). exists info; by split.
    + rewrite Hv. eexists. split; [done|]. simpl.
      intros Hnd. eapply cascade_walk_NoDup; eauto.
  - intros fuel visited walk0 Hw Hfuel.
    destruct (cascade_walk_runs s Hreg fuel visited walk0 Hw Hfuel) as [v Hv].
    exists v. split; [done|]. intros Hnd. eapply cascade_walk_NoDup; eauto.
Qed.


(** ** Doubles *)

Section Doubles.
Local Open Scope Q_scope.

Lemma pow2_pos k : 0 < 2 ^ k.
Proof. by apply Qpower_0_lt. Qed.

Lemma pow2_succ k : 2 ^ (k + 1) == 2 * 2 ^ k.
Proof. rewrite Qpower_plus by done. simpl. lra. Qed.

Lemma log2_Q n : (0 < n)%Z → 2 ^ Z.log2 n <= inject_Z n ∧ inject_Z n < 2 ^ (Z.log2 n + 1).
Proof.
  intros Hn. destruct (Z.log2_spec n Hn) as [H1 H2].
  pose proof (Z.log2_nonneg n) as H0. split.
  - change 2 with (inject_Z 2). rewrite <- Zpower_Qpower by done. by rewrite <- Zle_Qle.
  - change 2 with (inject_Z 2). rewrite <- Zpower_Qpower by lia. rewrite <- Zlt_Qlt.
    by rewrite <- Z.add_1_r in H2.
Qed.

Lemma binade_spec x : 0 < x → 2 ^ binade x <= x ∧ x < 2 ^ (binade x + 1).
Proof.
  intros Hx. unfold binade. destruct x as [n d].
  assert (Hn : (0 < n)%Z).
  { unfold Qlt in Hx. simpl in Hx. lia. }
  cbn [Qnum Qden].
  destruct (log2_Q n Hn) as [Hn1 Hn2]. destruct (log2_Q (Zpos d) eq_refl) as [Hd1 Hd2].
  set (a := Z.log2 n) in *. set (b := Z.log2 (Z.pos d)) in *.
  assert (Hq : n # d == inject_Z n / inject_Z (Zpos d)) by apply Qmake_Qdiv.
  assert (Hdpos : 0 < inject_Z (Z.pos d)) by (by rewrite <- (Zlt_Qlt 0)).
  assert (Hlow : 2 ^ (a - b - 1) < n # d).
  { rewrite Hq. apply Qlt_shift_div_l; [done|].
    assert (E : 2 ^ a == 2 ^ (a - b - 1) * 2 ^ (b + 1)).
    { rewrite <- Qpower_plus by done. by replace (a - b - 1 + (b + 1))%Z with a by lia. }
    eapply Qlt_le_trans; [|exact Hn1]. rewrite E.
    apply Qmult_lt_l; [apply pow2_pos|done]. }
  assert (Hhigh : n # d < 2 ^ (a - b + 1)).
  { rewrite Hq. apply Qlt_shift_div_r; [done|].
    assert (E : 2 ^ (a + 1) == 2 ^ (a - b + 1) * 2 ^ b).
    { rewrite <- Qpower_plus by done. by replace (a - b + 1 + b)%Z with (a + 1)%Z by lia. }
    eapply Qlt_le_trans; [exact Hn2|]. rewrite E.
    apply Qmult_le_l; [apply pow2_pos|done]. }
  destruct (Qle_bool (2 ^ (a - b)) (n # d)) eqn:Hb.
  - apply Qle_bool_iff in Hb. done.
  - split.
    + by apply Qlt_le_weak.
    + replace (a - b - 1 + 1)%Z with (a - b)%Z by lia. apply Qnot_le_lt. intros Hle.
      apply Qle_bool_iff in Hle. congruence.
Qed.

Lemma Qfloor_spec x : inject_Z (Qfloor x) <= x ∧ x < inject_Z (Qfloor x) + 1.
Proof.
  split; [apply Qfloor_le|]. pose proof (Qlt_floor x) as H.
  rewrite inject_Z_plus in H. exact H.
Qed.

Lemma round_half_even_cases x :
  let f := Qfloor x in
  (round_half_even x = f ∧ x - inject_Z f <= 1 # 2 ∧ (x - inject_Z f == 1 # 2 → Z.even f = true))
  ∨ (round_half_even x = (f + 1)%Z ∧ 1 # 2 <= x - inject_Z f
     ∧ (x - inject_Z f == 1 # 2 → Z.even f = false)).
Proof.
  intros f. unfold round_half_even. fold f.
  destruct (Qcompare (x - inject_Z f) (1 # 2)) eqn:Hc.
  - apply Qeq_alt in Hc. destruct (Z.even f) eqn:He.
    + left. split_and!; [done|lra|done].
    + right. split_and!; [done|lra|done].
  - apply Qlt_alt in Hc. left. split_and!; [done|lra|lra].
  - apply Qgt_alt in Hc. right. split_and!; [done|lra|lra].
Qed.

Lemma round_half_even_le x N : x <= inject_Z N → (round_half_even x <= N)%Z.
Proof.
  intros Hx. destruct (Qfloor_spec x) as [H1 H2].
  assert (Hf : (Qfloor x <= N)%Z) by (rewrite Zle_Qle; lra).
  destruct (round_half_even_cases x) as [(-> & _)|(-> & H3 & _)]; [done|].
  destruct (decide (Qfloor x = N)) as [E|E]; [|lia].
  rewrite E in H3. lra.
Qed.

Lemma round_half_even_ge x N : inject_Z N <= x → (N <= round_half_even x)%Z.
Proof.
  intros Hx. destruct (Qfloor_spec x) as [H1 H2].
  assert (Hf : (N < Qfloor x + 1)%Z).
  { rewrite Zlt_Qlt, inject_Z_plus. change (inject_Z 1) with 1. lra. }
  destruct (round_half_even_cases x) as [(-> & _)|(-> & _)]; lia.
Qed.

Lemma round_half_even_gt_odd x M :
  Z.odd M = true → (M < round_half_even x)%Z ↔ inject_Z M + (1 # 2) <= x.
Proof.
  intros Hodd. destruct (Qfloor_spec x) as [H1 H2].
  assert (Heven : Z.even M = false) by (by rewrite <- Z.negb_odd, Hodd).
  destruct (round_half_even_cases x) as [(-> & H3 & H4)|(-> & H3 & H4)].
  - split.
    + intros Hlt. assert (inject_Z (M + 1) <= inject_Z (Qfloor x)) by (rewrite <- Zle_Qle; lia).
      rewrite inject_Z_plus in H. change (inject_Z 1) with 1 in H. lra.
    + intros Hle. destruct (Z.lt_trichotomy M (Qfloor x)) as [?|[E|Hgt]]; [done| |].
      * exfalso. rewrite <- E in *. assert (x - inject_Z M == 1 # 2) by lra.
        specialize (H4 H). congruence.
      * exfalso. assert (inject_Z (Qfloor x + 1) <= inject_Z M) by (rewrite <- Zle_Qle; lia).
        rewrite inject_Z_plus in H. change (inject_Z 1) with 1 in H. lra.
  - split.
    + intros Hlt. assert (inject_Z M <= inject_Z (Qfloor x)) by (rewrite <- Zle_Qle; lia). lra.
    + intros Hle. assert (Hlt : (M < Qfloor x + 1)%Z); [|lia].
      rewrite Zlt_Qlt, inject_Z_plus. change (inject_Z 1) with 1. lra.
Qed.

Lemma pow2_le a b : (a <= b)%Z → 2 ^ a <= 2 ^ b.
Proof. intros H. by apply Qpower_le_compat_l. Qed.

Lemma div_pow2 x e : x / 2 ^ e == x * 2 ^ (- e).
Proof. unfold Qdiv. by rewrite Qpower_opp. Qed.

Lemma round_positive_nonneg x : 0 < x → 0 <= round_positive x.
Proof.
  intros Hx. unfold round_positive. set (e := Z.max _ _).
  apply Qmult_le_0_compat; [|apply Qlt_le_weak, pow2_pos].
  change 0 with (inject_Z 0). rewrite <- Zle_Qle. apply round_half_even_ge.
  change (inject_Z 0) with 0. rewrite div_pow2.
  apply Qmult_le_0_compat; [by apply Qlt_le_weak|apply Qlt_le_weak, pow2_pos].
Qed.

Lemma ten_e_minus_6_value : ten_e_minus_6 = 5902958103587057 # 590295810358705651712.
Proof. vm_compute. reflexivity. Qed.

Lemma round_positive_wide x :
  0 < x → ten_e_minus_6 < round_positive x ↔ least_wide <= x.
Proof.
  intros Hx. rewrite ten_e_minus_6_value. unfold least_wide, round_positive.
  destruct (binade_spec x Hx) as [Hlo Hhi]. set (fl := binade x) in *.
  set (e := Z.max (fl - 52) (-1074)).
  pose proof (div_pow2 x e) as HX. set (X := x / 2 ^ e) in *.
  pose proof (pow2_pos (- e)) as Hpe. pose proof (pow2_pos e) as Hpe'.
  destruct (Z_lt_le_dec fl (-17)) as [Hfl|Hfl]; [|destruct (decide (fl = -17)%Z) as [E|Hne]].
  - (* below the binade of 10e-6 *)
    assert (He : (e <= -70)%Z) by lia.
    assert (Hx17 : x < 2 ^ (-17)).
    { eapply Qlt_le_trans; [exact Hhi|]. apply pow2_le. lia. }
    assert (HX53 : X <= inject_Z (2 ^ 53)).
    { rewrite Zpower_Qpower by done. change (inject_Z 2) with 2. rewrite HX.
      assert (E : 2 ^ 53 == 2 ^ (53 + e) * 2 ^ (- e)).
      { rewrite <- Qpower_plus by done. by replace (53 + e + - e)%Z with 53%Z by lia. }
      rewrite E. apply Qmult_le_compat_r; [|by apply Qlt_le_weak].
      apply Qlt_le_weak. eapply Qlt_le_trans; [exact Hhi|]. apply pow2_le. lia. }
    apply round_half_even_le in HX53.
    assert (Hres : inject_Z (round_half_even X) * 2 ^ e <= 2 ^ (-17)).
    { assert (E : 2 ^ (-17) == inject_Z (2 ^ 53) * 2 ^ (-70)) by (by vm_compute).
      rewrite E. eapply Qle_trans.
      - apply Qmult_le_compat_r; [|by apply Qlt_le_weak]. rewrite <- Zle_Qle. exact HX53.
      - apply Qmult_le_l; [by vm_compute|]. by apply pow2_le. }
    assert (C1 : 2 ^ (-17) <= 5902958103587057 # 590295810358705651712) by (by vm_compute).
    assert (C2 : 2 ^ (-17) < 11805916207174115 # 1180591620717411303424) by (by vm_compute).
    set (R := inject_Z (round_half_even X) * 2 ^ e) in *. set (P := 2 ^ (-17)) in *.
    clearbody R P. split; intros H; exfalso; clear -Hres C1 C2 Hx17 H; lra.
  - (* the binade of 10e-6 *)
    assert (He : e = (-69)%Z) by lia. rewrite He in *. clear Hpe Hpe'.
    change (2 ^ (- -69)) with (590295810358705651712 # 1) in HX.
    change (2 ^ (-69)) with (1 # 590295810358705651712).
    pose proof (round_half_even_gt_odd X 5902958103587057 eq_refl) as Hodd.
    set (m := round_half_even X) in *.
    assert (Hm : 5902958103587057 # 590295810358705651712
                 < inject_Z m * (1 # 590295810358705651712)
                 ↔ (5902958103587057 < m)%Z).
    { rewrite Zlt_Qlt. change (inject_Z 5902958103587057) with (5902958103587057 # 1).
      generalize (inject_Z m). clear. intros M. split; intros H; lra. }
    rewrite Hm, Hodd, HX. change (inject_Z 5902958103587057) with (5902958103587057 # 1).
    clear. split; intros H; lra.
  - (* above *)
    assert (He : e = (fl - 52)%Z) by lia.
    assert (Hx16 : 2 ^ (-16) <= x).
    { eapply Qle_trans; [|exact Hlo]. apply pow2_le. lia. }
    assert (HX52 : inject_Z (2 ^ 52) <= X).
    { rewrite Zpower_Qpower by done. change (inject_Z 2) with 2. rewrite HX.
      assert (E : 2 ^ 52 == 2 ^ fl * 2 ^ (- e)).
      { rewrite <- Qpower_plus by done. by replace (fl + - e)%Z with 52%Z by lia. }
      rewrite E. apply Qmult_le_compat_r; [done|by apply Qlt_le_weak]. }
    apply round_half_even_ge in HX52.
    assert (Hres : 2 ^ (-16) <= inject_Z (round_half_even X) * 2 ^ e).
    { eapply Qle_trans; [apply (pow2_le (-16) fl); lia|].
      assert (E : 2 ^ fl == inject_Z (2 ^ 52) * 2 ^ e).
      { rewrite Zpower_Qpower by done. change (inject_Z 2) with 2.
        rewrite <- Qpower_plus by done. by replace (52 + e)%Z with fl by lia. }
      rewrite E. apply Qmult_le_compat_r; [|by apply Qlt_le_weak].
      by rewrite <- Zle_Qle. }
    assert (C1 : (5902958103587057 # 590295810358705651712) < 2 ^ (-16)) by (by vm_compute).
    assert (C2 : (11805916207174115 # 1180591620717411303424) < 2 ^ (-16)) by (by vm_compute).
    set (R := inject_Z (round_half_even X) * 2 ^ e) in *. set (P := 2 ^ (-16)) in *.
    clearbody R P. clear -Hres C1 C2 Hx16. split; intros _; lra.
Qed.

Lemma Qltb_lt a b : Qltb a b = true ↔ a < b.
Proof.
  unfold Qltb. rewrite negb_true_iff. split.
  - intros H. apply Qnot_le_lt. intros Hle. apply Qle_bool_iff in Hle. congruence.
  - intros H. destruct (Qle_bool b a) eqn:Hb; [|done].
    apply Qle_bool_iff in Hb. exfalso. by apply (Qlt_not_le _ _ H).
Qed.

(** The guard of the walk on the difference of two numbers: the rounded
    difference is greater than the double [10e-6] exactly when the difference
    itself is at least [least_wide]. *)
Lemma guard_spec (a b : Q) :
  Qltb ten_e_minus_6 (Qabs (fsub a b)) = true ↔ least_wide <= Qabs (a - b).
Proof.
  rewrite Qltb_lt. unfold fsub, round_double. set (q := a - b). clearbody q.
  destruct (Qcompare q 0) eqn:Hc.
  - apply Qeq_alt in Hc. rewrite Hc. split; intros H; exfalso; revert H; by vm_compute.
  - apply Qlt_alt in Hc.
    pose proof (round_positive_nonneg (- q)) as Hr.
    rewrite Qabs_opp, (Qabs_pos (round_positive (- q))) by (apply Hr; lra).
    rewrite (Qabs_neg q) by lra. apply round_positive_wide. lra.
  - apply Qgt_alt in Hc.
    pose proof (round_positive_nonneg q) as Hr.
    rewrite (Qabs_pos (round_positive q)) by (apply Hr; lra).
    rewrite (Qabs_pos q) by lra. apply round_positive_wide. lra.
Qed.

End Doubles.

(** ** The fragment walk *)

Lemma info_at_alter f r r' s :
  info_at (alter_info f r s) r'
  = if decide (r = r') then f <$> info_at s r' else info_at s r'.
Proof.
  unfold info_at, alter_info; simpl. destruct (decide (r = r')) as [->|Hne].
  - by rewrite list_lookup_alter_eq.
  - by rewrite list_lookup_alter_ne.
Qed.

(** One turn of the walk, when it raises nothing. *)
Lemma walk_cons_run info curve1 p2i visited cross rest start0 trims tp s id r i :
  map_get (Id (c3d.curve (c3d.on2 cross))) p2i = Some id →
  is_Some (lookupItemById id) → info = Some r → info_at s r = Some i →
  walk info curve1 p2i visited (cross :: rest) start0 trims tp s
  = walk info curve1 p2i visited rest (cross_t cross)
      (if wide (start0, cross_t cross)
       then trims ++ [trim_of curve1 (start0, cross_t cross)] else trims)
      (if decide (Id (c3d.curve (c3d.on2 cross)) ∈ visited) then tp
       else map_set (Id (c3d.curve (c3d.on2 cross))) (c3d.curve (c3d.on2 cross)) tp)
      (alter_info (touched_add id) r s).
Proof.
  intros Hid [c3 Hc3] -> Hi. simpl. unfold bind at 1. rewrite Hid; simpl.
  unfold bind at 1. rewrite Hc3; simpl.
  unfold bind at 1. rewrite (use_info_Some _ _ _ Hi). done.
Qed.

Lemma walk_cons_Ok info curve1 p2i visited cross rest start0 trims tp s res s' :
  walk info curve1 p2i visited (cross :: rest) start0 trims tp s = (Ok res, s') →
  ∃ id r i,
    map_get (Id (c3d.curve (c3d.on2 cross))) p2i = Some id
    ∧ is_Some (lookupItemById id) ∧ info = Some r ∧ info_at s r = Some i
    ∧ walk info curve1 p2i visited rest (cross_t cross)
        (if wide (start0, cross_t cross)
         then trims ++ [trim_of curve1 (start0, cross_t cross)] else trims)
        (if decide (Id (c3d.curve (c3d.on2 cross)) ∈ visited) then tp
         else map_set (Id (c3d.curve (c3d.on2 cross))) (c3d.curve (c3d.on2 cross)) tp)
        (alter_info (touched_add id) r s) = (Ok res, s').
Proof.
  intros H. simpl in H.
  bind_inv H as id s0 Hid. apply unwrap_Ok in Hid as [Hid ->].
  bind_inv H as c3 s0 Hc3. apply unwrap_Ok in Hc3 as [Hc3 ->].
  bind_inv H as ri s0 Hri. apply use_info_Ok in Hri as (-> & Hi & ->).
  destruct ri as [r i]. exists id, r, i. split_and!; [done|by eexists|done|done|].
  exact H.
Qed.

(** The trims of a walk that raises nothing are the wide spans, in order. *)
Lemma walk_trims info curve1 p2i visited crosses :
  ∀ start0 trims tp s res s',
    walk info curve1 p2i visited crosses start0 trims tp s = (Ok res, s') →
    res.1 = trims ++ map (trim_of curve1)
                       (List.filter wide (spans start0 (map cross_t crosses))).
Proof.
  induction crosses as [|cross rest IH]; intros start0 trims tp s res s' H.
  - injection H as <- <-. simpl. by rewrite app_nil_r.
  - apply walk_cons_Ok in H as (id & r & i & _ & _ & _ & _ & H).
    apply IH in H. rewrite H. simpl.
    destruct (wide (start0, cross_t cross)); simpl; [|done].
    by rewrite <- app_assoc.
Qed.

(** The walk raises nothing when its crosses are named and [info] is an
    object. *)
Lemma walk_runs curve1 p2i visited r crosses :
  Forall (named p2i) crosses →
  ∀ start0 trims tp s,
    is_Some (info_at s r) →
    ∃ res s', walk (Some r) curve1 p2i visited crosses start0 trims tp s = (Ok res, s').
Proof.
  induction 1 as [|cross rest (id & Hid & Hc3) _ IH]; intros start0 trims tp s [i Hi].
  - by eexists _, _.
  - rewrite (walk_cons_run _ _ _ _ _ _ _ _ _ _ id r i); [|done..].
    apply IH. rewrite info_at_alter, decide_True, Hi by done. by eexists.
Qed.

(** The walk keeps a span exactly when its width is at least [least_wide]. *)
Lemma wide_least sp : wide sp = true ↔ (least_wide <= Qabs (sp.1 - sp.2))%Q.
Proof. apply guard_spec. Qed.

Lemma wide_spec sp : wide sp = true → (1 # 100000 < Qabs (sp.1 - sp.2))%Q.
Proof.
  intros H%wide_least. eapply Qlt_le_trans; [|exact H]. by vm_compute.
Qed.


(** C6, amended: over named crosses and with [info] an object, the walk
    raises nothing and returns one trim for each span between consecutive
    parameters that it keeps, in order, trimmed from [start] to [stop].  It
    keeps a span exactly when [Math.abs(start - stop)], computed on doubles,
    is greater than the double [10e-6], which is 5902958103587057 / 2^69;
    that is, exactly when the width of the span is at least [least_wide],
    halfway between that double and the next one.  So a span it keeps is
    more than 1/100000 wide, and a span at most 1/100000 wide is skipped. *)
Theorem walk_keeps_spans_wider_than_10e_6
    (curve1 : Curve) (p2i : list (Curve2dId * SimpleName)) (visited : list Curve2dId)
    (r : nat) (crosses : list c3d.CrossPoint) (start0 : Q)
    (tp : list (Curve2dId * Curve)) (s : State) :
  Forall (named p2i) crosses → is_Some (info_at s r) →
  (∃ tp' s',
      walk (Some r) curve1 p2i visited crosses start0 [] tp s
      = (Ok (map (trim_of curve1)
               (List.filter wide (spans start0 (map cross_t crosses))), tp'), s'))
  ∧ (∀ sp, wide sp = Qltb ten_e_minus_6 (Qabs (round_double (sp.1 - sp.2))))
  ∧ ten_e_minus_6 = 5902958103587057 # 590295810358705651712
  ∧ (∀ sp, wide sp = true ↔ (least_wide <= Qabs (sp.1 - sp.2))%Q)
  ∧ (∀ sp, wide sp = true → (1 # 100000 < Qabs (sp.1 - sp.2))%Q)
  ∧ (∀ sp, (Qabs (sp.1 - sp.2) <= 1 # 100000)%Q → wide sp = false).
Proof.
  intros Hnamed Hinfo.
  split_and!; [|done|apply ten_e_minus_6_value|apply wide_least|apply wide_spec|].
  - destruct (walk_runs curve1 p2i visited r crosses Hnamed start0 [] tp s Hinfo)
      as ([trims tp'] & s' & Hw).
    exists tp', s'. rewrite Hw.
    pose proof (walk_trims _ _ _ _ _ _ _ _ _ _ _ Hw) as Ht. simpl in Ht. by rewrite Ht.
  - intros sp Hle. destruct (wide sp) eqn:Hw; [|done].
    apply wide_spec in Hw. exfalso. by apply (Qlt_not_le _ _ Hw).
Qed.

(** ** addJoint *)

Lemma use_info_alter f r r' i s :
  info_at s r' = Some i →
  use_info (Some r') (alter_info f r s)
  = (Ok (r', if decide (r = r') then f i else i), alter_info f r s).
Proof.
  intros Hi. apply use_info_Some. rewrite info_at_alter, Hi.
  by destruct (decide (r = r')).
Qed.

(** ** Frames *)

Global Instance info_grows_refl : Reflexive info_grows.
Proof. intros i. by split_and!. Qed.

Global Instance info_grows_trans : Transitive info_grows.
Proof.
  intros i1 i2 i3 (? & ? & ?) (? & ? & ?). split_and!; [congruence..|].
  by etrans.
Qed.

Global Instance extends_refl : Reflexive extends.
Proof. intros s. split_and!; [done..|]. intros r i ?. by exists i. Qed.

Global Instance extends_trans : Transitive extends.
Proof.
  intros s1 s2 s3 (? & ? & ? & ? & ? & H12) (? & ? & ? & ? & ? & H23).
  split_and!; [congruence..|]. intros r i Hi.
  destruct (H12 r i Hi) as (i2 & Hi2 & ?). destruct (H23 r i2 Hi2) as (i3 & ? & ?).
  exists i3. split; [done|]. by etrans.
Qed.

Global Instance same_calls_refl : Reflexive same_calls.
Proof. by intros s. Qed.

Global Instance same_calls_trans : Transitive same_calls.
Proof. unfold same_calls. intros s1 s2 s3 ? ?. congruence. Qed.

Lemma extends_same_calls s s' : extends s s' → same_calls s s'.
Proof. by intros (? & ? & ? & ? & ? & ?). Qed.

Section Stable.
Context (R : State → State → Prop) `{!Reflexive R, !Transitive R}.

Lemma stable_bind {A B} (m : M A) (k : A → M B) :
  stable R m → (∀ a, stable R (k a)) → stable R (bind m k).
Proof.
  intros Hm Hk s. unfold bind. specialize (Hm s).
  destruct (m s) as [[a| |] s1]; simpl in *; [|done|done].
  etrans; [exact Hm|apply Hk].
Qed.

Lemma stable_ret {A} (a : A) : stable R (ret a).
Proof. by intros s. Qed.

Lemma stable_throw {A} : stable R (@throw _ A).
Proof. by intros s. Qed.

Lemma stable_out_of_fuel {A} : stable R (@out_of_fuel _ A).
Proof. by intros s. Qed.

Lemma stable_unwrap {A} (o : option A) : stable R (unwrap o).
Proof. destruct o; [apply stable_ret|apply stable_throw]. Qed.

Lemma stable_gets {A} (f : State → A) : stable R (gets f).
Proof. by intros s. Qed.

Lemma stable_use_info r : stable R (use_info r).
Proof. intros s. unfold use_info. destruct r as [r|]; [|done]. by destruct (info_at s r). Qed.

Lemma stable_modify f : (∀ s, R s (f s)) → stable R (modify f).
Proof. intros Hf s. apply Hf. Qed.

Lemma stable_attempt {A} (m : M A) : stable R m → stable R (attempt m).
Proof. intros Hm s. apply Hm. Qed.

Lemma stable_Promise_all promises : stable R (Promise_all promises).
Proof.
  induction promises as [|[[]| |] rest IH]; simpl;
    [apply stable_ret|exact IH|apply stable_throw|apply stable_out_of_fuel].
Qed.

Lemma stable_for_of {A} (l : list A) (body : A → M unit) :
  (∀ x, stable R (body x)) → stable R (for_of l body).
Proof.
  intros Hb. induction l as [|x l IH]; simpl; [apply stable_ret|].
  apply stable_bind; [apply Hb|]. intros _. exact IH.
Qed.

Lemma stable_Ok {A} (m : M A) s a s' : stable R m → m s = (Ok a, s') → R s s'.
Proof. intros Hm Hs. specialize (Hm s). by rewrite Hs in Hm. Qed.

End Stable.

Lemma extends_alter_info f r s :
  (∀ i, info_grows i (f i)) → extends s (alter_info f r s).
Proof.
  intros Hf. split_and!; [done..|]. intros r' i Hi. rewrite info_at_alter, Hi.
  destruct (decide (r = r')); simpl; [exists (f i)|exists i]; by split.
Qed.

Lemma info_grows_touched_add x i : info_grows i (touched_add x i).
Proof.
  split_and!; [done..|]. simpl. intros y Hy. apply elem_of_set_add. by right.
Qed.

Lemma info_grows_set_fragments fs i : info_grows i (set_fragments fs i).
Proof. by split_and!. Qed.

Lemma info_grows_set_joints_start j i : info_grows i (set_joints_start j i).
Proof. by split_and!. Qed.

Lemma info_grows_set_joints_stop j i : info_grows i (set_joints_stop j i).
Proof. by split_and!. Qed.

Lemma extends_set_db g s : extends s (set_db g s).
Proof. split_and!; [done..|]. intros r i ?. by exists i. Qed.

Lemma stable_addItem it : stable extends (addItem it).
Proof. intros s. apply extends_set_db. Qed.

Lemma stable_removeItem n : stable extends (removeItem n).
Proof. intros s. apply extends_set_db. Qed.

Lemma stable_addFragments instance pl result :
  stable extends (addFragments instance pl result).
Proof.
  induction result as [|tr rest IH]; simpl; [apply stable_ret; apply _|].
  apply stable_bind; [apply _|apply stable_addItem|]. intros p.
  apply stable_bind; [apply _|exact IH|]. intros views. apply stable_ret; apply _.
Qed.

Lemma stable_updateCurve instance result pl :
  stable extends (updateCurve instance result pl).
Proof.
  unfold updateCurve.
  apply stable_bind; [apply _|apply stable_gets; apply _|]. intros r.
  apply stable_bind; [apply _|apply stable_use_info; apply _|]. intros ri.
  apply stable_bind; [apply _| |]. 
  { apply stable_for_of; [apply _..|]. intros n. apply stable_removeItem. }
  intros _. apply stable_bind; [apply _|apply stable_addFragments|]. intros views.
  apply stable_modify. intros s. apply extends_alter_info, info_grows_set_fragments.
Qed.

Lemma stable_addJoint cross p2i : stable extends (addJoint cross p2i).
Proof.
  unfold addJoint.
  apply stable_bind; [apply _|apply stable_gets; apply _|]. intros info1.
  apply stable_bind; [apply _|apply stable_gets; apply _|]. intros info2.
  destruct (_ && _); [apply stable_ret; apply _|].
  apply stable_bind; [apply _| |].
  { apply stable_bind; [apply _|apply stable_use_info; apply _|]. intros i1.
    destruct (Qeq_bool _ _); apply stable_modify; intros s; apply extends_alter_info.
    - apply info_grows_set_joints_start.
    - apply info_grows_set_joints_stop. }
  intros _. destruct (Qeq_bool _ _); [|destruct (Qeq_bool _ _)].
  - apply stable_bind; [apply _|apply stable_use_info; apply _|]. intros i2.
    apply stable_modify; intros s; apply extends_alter_info, info_grows_set_joints_start.
  - apply stable_bind; [apply _|apply stable_use_info; apply _|]. intros i2.
    apply stable_modify; intros s; apply extends_alter_info, info_grows_set_joints_stop.
  - apply stable_ret; apply _.
Qed.

Lemma stable_walk info curve1 p2i visited crosses :
  ∀ start0 trims tp, stable extends (walk info curve1 p2i visited crosses start0 trims tp).
Proof.
  induction crosses as [|cross rest IH]; intros start0 trims tp; simpl.
  - apply stable_ret; apply _.
  - apply stable_bind; [apply _|apply stable_unwrap; apply _|]. intros id.
    apply stable_bind; [apply _|apply stable_unwrap; apply _|]. intros _.
    apply stable_bind; [apply _|apply stable_use_info; apply _|]. intros i.
    apply stable_bind; [apply _| |intros _; apply IH].
    apply stable_modify; intros s; apply extends_alter_info. intros ?.
    apply info_grows_touched_add.
Qed.

Lemma stable_loop_body all p2i pl tp visited id current :
  stable extends (loop_body all p2i pl tp visited id current).
Proof.
  unfold loop_body.
  apply stable_bind; [apply _|apply stable_unwrap; apply _|]. intros name.
  apply stable_bind; [apply _|apply stable_unwrap; apply _|]. intros _.
  destruct (sort_crosses _) as [|first sorted].
  - apply stable_bind; [apply _| |intros ?; apply stable_ret; apply _].
    apply stable_attempt, stable_updateCurve.
  - apply stable_bind; [apply _|apply stable_gets; apply _|]. intros info.
    apply stable_bind; [apply _| |].
    { destruct (_ && _); [|apply stable_ret; apply _].
      apply stable_bind; [apply _|apply stable_addJoint|]. intros _.
      apply stable_addJoint. }
    intros _. apply stable_bind; [apply _|apply stable_walk|]. intros r.
    apply stable_bind; [apply _| |intros ?; apply stable_ret; apply _].
    apply stable_attempt, stable_updateCurve.
Qed.

Lemma stable_process fuel all p2i pl :
  ∀ tp visited promises, stable extends (process fuel all p2i pl tp visited promises).
Proof.
  induction fuel as [|fuel IH]; intros tp visited promises.
  - destruct tp as [|[id current] tp]; simpl;
      [apply stable_ret; apply _|apply stable_out_of_fuel; apply _].
  - destruct tp as [|[id current] tp]; simpl; [apply stable_ret; apply _|].
    apply stable_bind; [apply _|apply stable_loop_body|]. intros r. apply IH.
Qed.

(** ** commit *)

Lemma stable_weaken (R R' : State → State → Prop) {A} (m : M A) :
  (∀ s s', R s s' → R' s s') → stable R m → stable R' m.
Proof. intros HR Hm s. apply HR, Hm. Qed.

Lemma stable_normalizePlacement p : stable same_calls (normalizePlacement p).
Proof. intros s. unfold normalizePlacement. by destruct (find _ _). Qed.

Lemma stable_collect pl entries :
  ∀ p2i all, stable same_calls (collect pl entries p2i all).
Proof.
  induction entries as [|[n r] rest IH]; intros p2i all; simpl.
  - apply stable_ret; apply _.
  - apply stable_bind; [apply _|apply stable_use_info; apply _|]. intros ri.
    apply stable_bind; [apply _|apply stable_gets; apply _|]. intros planar.
    apply stable_bind; [apply _|apply stable_unwrap; apply _|]. intros c. apply IH.
Qed.

Lemma add_calls n s : calls (snd (add n s)) = calls s ++ [CallAdd n].
Proof.
  unfold add. unfold bind at 1. unfold modify at 1.
  match goal with |- calls (snd (?m ?s1)) = _ =>
    change (calls s ++ [CallAdd n]) with (calls s1);
    enough (Hm : stable same_calls m) by apply Hm
  end.
  apply stable_bind; [apply _|apply stable_unwrap; apply _|]. intros inst.
  apply stable_bind; [apply _| |].
  { unfold planarizeAndNormalize. destruct (curve3d2curve2d _) as [[c p]|].
    - apply stable_bind; [apply _|apply stable_normalizePlacement|]. intros ?.
      apply stable_ret; apply _.
    - apply stable_ret; apply _. }
  intros [[c p]|]; [|apply stable_ret; apply _].
  apply stable_bind; [apply _|apply stable_gets; apply _|]. intros entries.
  apply stable_bind; [apply _|apply stable_collect|]. intros collected.
  apply stable_bind; [apply _|apply stable_gets; apply _|]. intros counter0.
  apply stable_bind; [apply _|by apply stable_modify|]. intros _.
  apply stable_bind; [apply _|by apply stable_modify|]. intros _.
  apply stable_bind; [apply _|by intros ?|]. intros info.
  apply stable_bind; [apply _|by apply stable_modify|]. intros _.
  apply stable_bind; [apply _| |intros ?; apply stable_Promise_all; apply _].
  eapply stable_weaken; [apply extends_same_calls|apply stable_process].
Qed.

Lemma removeInfo_calls c s :
  calls (snd (removeInfo c s)) = calls s ++ [CallRemoveInfo c].
Proof.
  unfold removeInfo. unfold bind at 1. unfold modify at 1.
  match goal with |- calls (snd (?m ?s1)) = _ =>
    change (calls s ++ [CallRemoveInfo c]) with (calls s1);
    enough (Hm : stable same_calls m) by apply Hm
  end.
  apply stable_bind; [apply _|apply stable_gets; apply _|]. intros [i|];
    [|apply stable_ret; apply _].
  apply stable_bind; [apply _|by apply stable_modify|]. intros _.
  apply stable_bind; [apply _| |intros ?; apply stable_ret; apply _].
  apply stable_for_of; [apply _..|]. intros n. by apply stable_modify.
Qed.

Lemma bind_same_run {A B} (m m' : M A) (k k' : A → M B) :
  same_run m m' → (∀ a, same_run (k a) (k' a)) → same_run (bind m k) (bind m' k').
Proof.
  intros Hm Hk s. unfold bind. rewrite Hm.
  destruct (m' s) as [[a| |] s1]; [apply Hk|done|done].
Qed.

Lemma stable_same_run (R : State → State → Prop) {A} (m m' : M A) :
  same_run m m' → stable R m' → stable R m.
Proof. intros H Hm s. rewrite (H s). apply Hm. Qed.

Lemma bind_assoc {A B C} (m : M A) (k : A → M B) (k' : B → M C) :
  same_run (bind (bind m k) k') (bind m (fun a => bind (k a) k')).
Proof. intros s. unfold bind. by destruct (m s) as [[a| |] s1]. Qed.

Lemma for_of_app {A} (l1 l2 : list A) (body : A → M unit) :
  same_run (for_of (l1 ++ l2) body) (for_of l1 body ;;; for_of l2 body).
Proof.
  induction l1 as [|x l1 IH]; simpl; [done|]. intros s.
  rewrite (bind_assoc _ _ _ s). by apply bind_same_run.
Qed.

Lemma for_of_skip (skip : SimpleName → bool) (l : list SimpleName) (body : SimpleName → M unit) :
  same_run (for_of l (fun c => if skip c then ret tt else body c))
           (for_of (List.filter (fun c => negb (skip c)) l) body).
Proof.
  induction l as [|c l IH]; simpl; [done|].
  destruct (skip c); simpl; [exact IH|]. by apply bind_same_run.
Qed.

Lemma add_each_app l1 l2 promises :
  same_run (add_each (l1 ++ l2) promises)
           (ps <- add_each l1 promises ;; add_each l2 ps).
Proof.
  revert promises. induction l1 as [|c l1 IH]; intros promises; simpl; [done|].
  intros s. rewrite (bind_assoc _ _ _ s). apply bind_same_run; [done|]. intros p. apply IH.
Qed.

Lemma add_in_turn_add_each skip l :
  (∀ c, c ∈ l → skip c = false → is_Some (lookupItemById c)) →
  ∀ promises,
    same_run (add_in_turn skip l promises)
             (add_each (List.filter (fun c => negb (skip c)) l) promises).
Proof.
  induction l as [|c l IH]; intros Hl promises; simpl; [done|].
  destruct (skip c) eqn:Hc; simpl.
  - apply IH. intros c' ?. apply Hl. by right.
  - destruct (Hl c) as [inst Hinst]; [by left|done|]. rewrite Hinst.
    intros s. unfold bind at 1; simpl. apply bind_same_run; [done|].
    intros p. apply IH. intros c' ?. apply Hl. by right.
Qed.

Lemma add_in_turn_app skip l1 l2 promises :
  same_run (add_in_turn skip (l1 ++ l2) promises)
           (ps <- add_in_turn skip l1 promises ;; add_in_turn skip l2 ps).
Proof.
  revert promises. induction l1 as [|c l1 IH]; intros promises; simpl; [done|].
  destruct (skip c); [apply IH|].
  intros s. rewrite (bind_assoc _ _ _ s). apply bind_same_run; [done|]. intros inst s1.
  rewrite (bind_assoc _ _ _ s1). apply bind_same_run; [done|]. intros p. apply IH.
Qed.

Lemma add_each_in_turn l :
  (∀ c, c ∈ l → is_Some (lookupItemById c)) →
  ∀ promises, same_run (add_each l promises) (add_in_turn (fun _ => false) l promises).
Proof.
  induction l as [|c l IH]; intros Hl promises; simpl; [done|].
  destruct (Hl c) as [inst Hinst]; [by left|]. rewrite Hinst.
  intros s. unfold bind at 2; simpl. apply bind_same_run; [done|].
  intros p. apply IH. intros c' ?. apply Hl. by right.
Qed.

Lemma is_polyline_lookup c : is_polyline c = true → is_Some (lookupItemById c).
Proof. unfold is_polyline. destruct (lookupItemById c); [by eexists|done]. Qed.

(** A loop of [commit] runs the calls of the curves that are no polylines,
    and leaves the polylines paused. *)
Lemma readd_paused skip l : ∀ promises paused,
  same_run (readd skip l promises paused)
    (ps <- add_in_turn (fun _ => false)
             (List.filter (fun c => negb (skip c) && negb (is_polyline c)) l) promises ;;
     ret (ps, paused ++ List.filter (fun c => negb (skip c) && is_polyline c) l)).
Proof.
  induction l as [|c l IH]; intros promises paused s; cbn [readd List.filter].
  - unfold bind. simpl. by rewrite app_nil_r.
  - destruct (skip c) eqn:Hskip; cbn [negb andb]; [apply IH|].
    destruct (lookupItemById c) as [inst|] eqn:Hinst.
    + assert (Hp : is_polyline c = IsPolyline3D inst).
      { unfold is_polyline. by rewrite Hinst. }
      rewrite Hp. unfold bind at 1. cbn [unwrap ret].
      destruct (IsPolyline3D inst); cbn [negb].
      * rewrite (IH _ _ s). by rewrite <- app_assoc.
      * cbn [add_in_turn]. rewrite Hinst. unfold bind at 3. cbn [unwrap ret].
        rewrite (bind_assoc _ _ _ s). apply bind_same_run; [done|]. intros p. apply IH.
    + assert (Hp : is_polyline c = false).
      { unfold is_polyline. by rewrite Hinst. }
      rewrite Hp. cbn [negb add_in_turn]. rewrite Hinst. done.
Qed.

Lemma insert_settled_perm time x l : insert_settled time x l ≡ₚ x :: l.
Proof.
  induction l as [|y l IH]; simpl; [done|].
  destruct (time y <=? time x); [|done]. rewrite IH. apply Permutation_swap.
Qed.

Lemma settle_order_perm l : settle_order l ≡ₚ l.
Proof.
  unfold settle_order. generalize (calculate_time l). intros time.
  enough (H : ∀ acc, foldl (fun acc x => insert_settled time x acc) acc l ≡ₚ l ++ acc).
  { rewrite H. by rewrite app_nil_r. }
  induction l as [|x l IH]; intros acc; simpl; [done|].
  rewrite IH, insert_settled_perm. by rewrite Permutation_middle.
Qed.

Lemma list_filter_filter {A} (f g : A → bool) l :
  List.filter g (List.filter f l) = List.filter (fun c => f c && g c) l.
Proof.
  induction l as [|x l IH]; simpl; [done|].
  destruct (f x); simpl; [|done]. destruct (g x); by rewrite IH.
Qed.

Lemma list_filter_split {A} (f : A → bool) l :
  List.filter (fun c => negb (f c)) l ++ List.filter f l ≡ₚ l.
Proof.
  induction l as [|x l IH]; simpl; [done|].
  destruct (f x); simpl.
  - rewrite <- Permutation_middle. by rewrite IH.
  - by rewrite IH.
Qed.

Lemma schedule_perm data : schedule data ≡ₚ added_again data.
Proof. unfold schedule. rewrite settle_order_perm. apply list_filter_split. Qed.

Lemma elem_of_filter_bool {A} (f : A → bool) x l :
  x ∈ List.filter f l ↔ x ∈ l ∧ f x = true.
Proof. rewrite !list_elem_of_In. apply filter_In. Qed.

Lemma elem_of_added_again data n :
  n ∈ added_again data ↔ (n ∉ deleted data) ∧ (n ∈ dirty data ∨ n ∈ added data).
Proof.
  unfold added_again. rewrite elem_of_app, !elem_of_filter_bool.
  rewrite !negb_true_iff, orb_false_iff, !bool_decide_eq_false.
  destruct (decide (n ∈ dirty data)); naive_solver.
Qed.

Lemma elem_of_schedule data n :
  n ∈ schedule data ↔ (n ∉ deleted data) ∧ (n ∈ dirty data ∨ n ∈ added data).
Proof. rewrite (schedule_perm data). apply elem_of_added_again. Qed.

Lemma NoDup_list_filter {A} (f : A → bool) l : NoDup l → NoDup (List.filter f l).
Proof.
  induction 1 as [|x l Hx Hl IH]; simpl; [constructor|].
  destruct (f x); [|done]. constructor; [|done].
  intros [? _]%elem_of_filter_bool. done.
Qed.

Lemma NoDup_schedule data :
  NoDup (dirty data) → NoDup (added data) → NoDup (schedule data).
Proof.
  intros Hd Ha. rewrite (schedule_perm data). unfold added_again.
  apply NoDup_app. split_and!; [by apply NoDup_list_filter| |by apply NoDup_list_filter].
  intros n [Hn _]%elem_of_filter_bool [_ Hs]%elem_of_filter_bool.
  apply negb_true_iff, orb_false_iff in Hs as [_ Hs].
  by apply bool_decide_eq_false in Hs.
Qed.

(** [commit] tears down what it has to, and then runs the calls of [add]
    one after the other in the order of [schedule]. *)
Lemma commit_schedule data :
  same_run (commit data)
    (for_of (dirty data) (fun touchee => _ <- removeInfo touchee ;; ret tt) ;;;
     for_of (deleted data)
       (fun touchee => if bool_decide (touchee ∈ dirty data) then ret tt
                       else _ <- removeInfo touchee ;; ret tt) ;;;
     promises <- add_in_turn (fun _ => false) (schedule data) [] ;;
     Promise_all promises).
Proof.
  unfold commit. apply bind_same_run; [done|]. intros _.
  apply bind_same_run; [done|]. intros _ s1.
  set (skipA := fun touchee => bool_decide (touchee ∈ deleted data)).
  set (skipB := fun touchee => bool_decide (touchee ∈ deleted data)
                               || bool_decide (touchee ∈ dirty data)).
  set (F := fun _ : SimpleName => false).
  set (A := List.filter (fun c => negb (skipA c) && negb (is_polyline c)) (dirty data)).
  set (B := List.filter (fun c => negb (skipB c) && negb (is_polyline c)) (added data)).
  set (PA := List.filter (fun c => negb (skipA c) && is_polyline c) (dirty data)).
  set (PB := List.filter (fun c => negb (skipB c) && is_polyline c) (added data)).
  assert (Hs : schedule data = A ++ B ++ settle_order (PA ++ PB)).
  { unfold schedule, added_again. rewrite !List.filter_app, !list_filter_filter.
    by rewrite <- app_assoc. }
  assert (Hp : ∀ c, c ∈ settle_order (PA ++ PB) → is_Some (lookupItemById c)).
  { intros c Hc. rewrite settle_order_perm, elem_of_app in Hc.
    apply is_polyline_lookup.
    destruct Hc as [[_ Hc]%elem_of_filter_bool|[_ Hc]%elem_of_filter_bool];
      by apply andb_true_iff in Hc as [_ ?]. }
  rewrite Hs.
  rewrite (bind_same_run _ _ _ _ (readd_paused skipA (dirty data) [] [])
             (fun _ _ => eq_refl) s1), (bind_assoc _ _ _ s1).
  rewrite (bind_same_run _ _ _ _ (add_in_turn_app F A _ []) (fun _ _ => eq_refl) s1),
    (bind_assoc _ _ _ s1).
  apply bind_same_run; [done|]. intros ps1 s2. unfold bind at 1. cbn [ret fst snd].
  rewrite (bind_same_run _ _ _ _ (readd_paused skipB (added data) ps1 ([] ++ PA))
             (fun _ _ => eq_refl) s2), (bind_assoc _ _ _ s2).
  rewrite (bind_same_run _ _ _ _ (add_in_turn_app F B _ ps1) (fun _ _ => eq_refl) s2),
    (bind_assoc _ _ _ s2).
  apply bind_same_run; [done|]. intros ps2 s3. unfold bind at 1. cbn [ret fst snd app].
  apply bind_same_run; [|done]. by apply add_each_in_turn.
Qed.

Lemma for_of_removeItem_Ok l s : ∃ s', for_of l removeItem s = (Ok tt, s').
Proof.
  revert s. induction l as [|n l IH]; intros s; simpl; [by eexists|].
  unfold bind, removeItem, modify. apply IH.
Qed.

Lemma removeInfo_Ok c s : ∃ i s', removeInfo c s = (Ok i, s').
Proof.
  unfold removeInfo, bind, modify, gets.
  destruct (get_info _ c) as [i|]; [|by eexists _, _].
  destruct (for_of_removeItem_Ok (fragments i)
              (write_curve2info (map_delete c (live_curve2info (record_call (CallRemoveInfo c) s)))
                 (record_call (CallRemoveInfo c) s))) as [s' Hs'].
  rewrite Hs'. by eexists _, _.
Qed.

Lemma for_of_removeInfo_calls l s :
  calls (snd (for_of l (fun c => _ <- removeInfo c ;; ret tt) s))
  = calls s ++ map CallRemoveInfo l.
Proof.
  revert s. induction l as [|c l IH]; intros s; simpl; [by rewrite app_nil_r|].
  unfold bind at 1. unfold bind at 1.
  pose proof (removeInfo_calls c s) as Hc.
  destruct (removeInfo_Ok c s) as (i & s1 & Hs1). rewrite Hs1 in Hc |- *. simpl in *.
  rewrite IH, Hc, <- app_assoc. done.
Qed.

Lemma for_of_removeInfo_Ok l s :
  ∃ s', for_of l (fun c => _ <- removeInfo c ;; ret tt) s = (Ok tt, s').
Proof.
  revert s. induction l as [|c l IH]; intros s; simpl; [by eexists|].
  unfold bind at 1. unfold bind at 1.
  destruct (removeInfo_Ok c s) as (i & s1 & Hs1). rewrite Hs1. simpl. apply IH.
Qed.

Lemma add_each_calls l :
  ∀ promises s,
    ∃ ps, fst (add_each l promises s) = Ok ps
          ∧ length ps = length promises + length l
          ∧ calls (snd (add_each l promises s)) = calls s ++ map CallAdd l.
Proof.
  induction l as [|c l IH]; intros promises s; simpl.
  - exists promises. split_and!; [done|lia|by rewrite app_nil_r].
  - unfold bind, attempt. simpl.
    destruct (IH (promises ++ [fst (add c s)]) (snd (add c s))) as (ps & H1 & H2 & H3).
    exists ps. split_and!; [done| |].
    + rewrite H2, length_app. simpl. lia.
    + rewrite H3, add_calls, <- app_assoc. done.
Qed.

Lemma Promise_all_Ok promises s :
  fst (Promise_all promises s) = Ok tt ↔ Forall (fun p => p = Ok tt) promises.
Proof.
  induction promises as [|[[]| |] rest IH]; simpl.
  - by split.
  - rewrite IH. split; [by constructor|by inversion 1].
  - split; [done|by inversion 1].
  - split; [done|by inversion 1].
Qed.

(** ** The sort *)

Lemma insert_cross_perm x l : insert_cross x l ≡ₚ x :: l.
Proof.
  induction l as [|y l IH]; simpl; [done|].
  destruct (Qle_bool _ _); [|done]. rewrite IH. apply Permutation_swap.
Qed.

Lemma foldl_insert_perm l : ∀ acc,
  foldl (fun acc x => insert_cross x acc) acc l ≡ₚ acc ++ l.
Proof.
  induction l as [|x l IH]; intros acc; simpl; [by rewrite app_nil_r|].
  rewrite IH, insert_cross_perm. simpl. apply Permutation_middle.
Qed.

Lemma sort_crosses_perm l : sort_crosses l ≡ₚ l.
Proof. unfold sort_crosses. by rewrite foldl_insert_perm. Qed.



Lemma sort_crosses_nil l : sort_crosses l = [] → l = [].
Proof.
  intros H. apply Permutation_nil_r. rewrite <- H. symmetry. apply sort_crosses_perm.
Qed.

Lemma elem_of_sort_crosses x l : x ∈ sort_crosses l ↔ x ∈ l.
Proof. by rewrite sort_crosses_perm. Qed.

(** ** Spans *)




Lemma elem_of_list_filter {A} (f : A → bool) x l :
  x ∈ List.filter f l ↔ x ∈ l ∧ f x = true.
Proof. rewrite !list_elem_of_In. apply filter_In. Qed.





(** ** updateCurve *)

Lemma addFragments_store instance pl result : ∀ s views s',
  addFragments instance pl result s = (Ok views, s') →
  (∀ f, (f < nextName (db s))%Z → map_get f (items (db s')) = map_get f (items (db s)))
  ∧ (nextName (db s) <= nextName (db s'))%Z
  ∧ omap (stored_range s') views = map range_of result.
Proof.
  induction result as [|tr rest IH]; intros s views s' H; simpl in H.
  - injection H as <- <-. split_and!; [done|lia|done].
  - bind_inv H as p s1 Hp. injection Hp as <- <-.
    bind_inv H as views' s2 Hrest. injection H as <- <-.
    apply IH in Hrest as (Hold & Hnext & Hviews). simpl in Hold, Hnext.
    split_and!.
    + intros f Hf. rewrite Hold by lia. rewrite map_get_set.
      destruct (decide (f = nextName (db s))); [lia|done].
    + lia.
    + change (omap (stored_range s2) (nextName (db s) :: views'))
        with (match stored_range s2 (nextName (db s)) with
              | Some y => y :: omap (stored_range s2) views'
              | None => omap (stored_range s2) views'
              end).
      rewrite Hviews. unfold stored_range. rewrite Hold by lia.
      rewrite map_get_set, decide_True by done. done.
Qed.

Lemma get_ref_extends s s' name : extends s s' → get_ref s' name = get_ref s name.
Proof.
  intros (Hthis & Hmaps & _). unfold get_ref, live_curve2info. by rewrite Hthis, Hmaps.
Qed.

(** After [updateCurve], the ranges recorded for the fragments of the curve
    are the ranges of the trims. *)
Lemma updateCurve_provenance instance result pl s s' :
  updateCurve instance result pl s = (Ok tt, s') →
  provenance s' instance = map range_of result.
Proof.
  intros H. unfold updateCurve in H.
  bind_inv H as r0 s0 Hr. injection Hr as <- <-.
  bind_inv H as ri s0 Hi. apply use_info_Ok in Hi as (Hr & Hi & ->).
  destruct ri as [r i]. simpl in *.
  bind_inv H as u1 s1 Hrm.
  pose proof (stable_Ok extends _ _ _ _
                (stable_for_of extends _ _ (fun n => stable_removeItem n)) Hrm) as He1.
  bind_inv H as views s2 Hadd.
  pose proof (stable_Ok extends _ _ _ _ (stable_addFragments _ _ _) Hadd) as He2.
  apply addFragments_store in Hadd as (_ & _ & Hviews).
  injection H as <-.
  assert (He3 : extends s2 (alter_info (set_fragments views) r s2)).
  { apply extends_alter_info. intros ?. apply info_grows_set_fragments. }
  assert (Href : get_ref (alter_info (set_fragments views) r s2) instance = Some r).
  { rewrite (get_ref_extends s); [done|]. etrans; [exact He1|]. etrans; [exact He2|exact He3]. }
  destruct He1 as (_ & _ & _ & _ & _ & Hg1). destruct (Hg1 r i Hi) as (i1 & Hi1 & _).
  destruct He2 as (_ & _ & _ & _ & _ & Hg2). destruct (Hg2 r i1 Hi1) as (i2 & Hi2 & _).
  unfold provenance, get_info.
  rewrite Href, info_at_alter, decide_True, Hi2 by done.
  exact Hviews.
Qed.

(** ** One turn of the loop *)

Lemma loop_body_Ok all p2i pl tp visited id current s res s' :
  loop_body all p2i pl tp visited id current s = (Ok res, s') →
  ∃ name, map_get id p2i = Some name ∧ is_Some (lookupItemById name)
    ∧ res.2.2 = set_add id visited
    ∧ match sort_crosses (IntersectWithAll current all ++ contour_crosses current) with
      | [] => res.2.1 = map_delete id tp
              ∧ updateCurve name [mkTrim (Whole current) (-1) (-1)] pl s = (res.1, s')
      | first :: rest =>
          ∃ s1 s2 trims,
            end_joints current first (first :: rest) p2i s = (Ok tt, s1)
            ∧ walk (map_get (Id (c3d.curve (c3d.on1 first))) p2i ≫= get_ref s)
                (c3d.curve (c3d.on1 first)) p2i (set_add id visited)
                (with_ends current first (first :: rest))
                (head_t (with_ends current first (first :: rest))) []
                (map_delete id tp) s1 = (Ok (trims, res.2.1), s2)
            ∧ updateCurve name trims pl s2 = (res.1, s')
      end.
Proof.
  intros H. unfold loop_body in H.
  bind_inv H as name s0 Hname. apply unwrap_Ok in Hname as [Hname ->].
  bind_inv H as inst s0 Hstore. apply unwrap_Ok in Hstore as [Hstore ->].
  exists name. split_and!; [done|by eexists|..];
    destruct (sort_crosses _) as [|first rest] eqn:Hsort.
  - bind_inv H as p s1 Hp. by injection H as <- <-.
  - bind_inv H as info s0 Hinfo. injection Hinfo as <- <-.
    bind_inv H as u s1 Hj. bind_inv H as r s2 Hw. bind_inv H as p s3 Hp.
    by injection H as <- <-.
  - bind_inv H as p s1 Hp. injection H as <- <-. split; [done|].
    unfold attempt in Hp. injection Hp as <- <-. simpl. by destruct (updateCurve _ _ _ _).
  - bind_inv H as info s0 Hinfo. injection Hinfo as <- <-.
    bind_inv H as u s1 Hj. bind_inv H as r s2 Hw. bind_inv H as p s3 Hp.
    injection H as <- <-. unfold attempt in Hp. injection Hp as <- <-.
    destruct u. exists s1, s2, r.1. split_and!; [exact Hj| |by destruct (updateCurve _ _ _ _)].
    simpl. by destruct r.
Qed.

(** ** The joints of a turn *)

Global Instance same_joints_refl : Reflexive same_joints.
Proof. by intros s r. Qed.

Global Instance same_joints_trans : Transitive same_joints.
Proof. intros s1 s2 s3 H1 H2 r. by rewrite H2, H1. Qed.

Lemma same_joints_alter f r s :
  (∀ i, joints (f i) = joints i) → same_joints s (alter_info f r s).
Proof.
  intros Hf r'. rewrite info_at_alter. destruct (decide (r = r')); [|done].
  destruct (info_at s r') as [i|]; [|done]. simpl. by rewrite Hf.
Qed.

Lemma stable_walk_joints info curve1 p2i visited crosses :
  ∀ start0 trims tp, stable same_joints (walk info curve1 p2i visited crosses start0 trims tp).
Proof.
  induction crosses as [|cross rest IH]; intros start0 trims tp; simpl.
  - apply stable_ret; apply _.
  - apply stable_bind; [apply _|apply stable_unwrap; apply _|]. intros id.
    apply stable_bind; [apply _|apply stable_unwrap; apply _|]. intros _.
    apply stable_bind; [apply _|apply stable_use_info; apply _|]. intros i.
    apply stable_bind; [apply _| |intros _; apply IH].
    apply stable_modify. intros s. by apply same_joints_alter.
Qed.

Lemma stable_updateCurve_joints instance result pl :
  stable same_joints (updateCurve instance result pl).
Proof.
  unfold updateCurve.
  apply stable_bind; [apply _|apply stable_gets; apply _|]. intros r.
  apply stable_bind; [apply _|apply stable_use_info; apply _|]. intros ri.
  apply stable_bind; [apply _| |intros _].
  { apply stable_for_of; [apply _..|]. intros n. by apply stable_modify. }
  apply stable_bind; [apply _| |intros views].
  { induction result as [|tr rest IH]; simpl; [apply stable_ret; apply _|].
    apply stable_bind; [apply _|by intros ?|]. intros p.
    apply stable_bind; [apply _|exact IH|]. intros ?. apply stable_ret; apply _. }
  apply stable_modify. intros s. by apply same_joints_alter.
Qed.

(** C5, amended.  In a turn of the loop of [add], [addJoint] is called for
    the first and for the last cross of the sorted list of a bounded open
    curve, and for no other cross and no other curve: the joints after the
    turn are those these two calls leave.  A call of [addJoint] for a cross
    whose two curves are registered: if the parameter on the first curve is
    not at that curve's [tMin] or [tMax], nothing is recorded, on either
    curve, wherever the parameter on the second curve lies; if it is, a
    joint is written on the first curve, at [start] when the parameter is
    [tMin] and at [stop] otherwise, and then one is written on the second
    curve exactly when its parameter is at its own [tMin] ([start]) or
    [tMax] ([stop]); a joint written replaces the one that was at that end
    (also the one just written, when both curves are one and the same
    [CurveInfo]), and no other [CurveInfo] changes. *)
Theorem addJoint_records_at_the_boundary_of_the_first
    (all : list Curve) (p2i : list (Curve2dId * SimpleName)) (pl : Placement)
    (tp : list (Curve2dId * Curve)) (visited : list Curve2dId) (id : Curve2dId)
    (current : Curve) (s s' : State)
    (res : Outcome unit * (list (Curve2dId * Curve) * list Curve2dId)) :
  loop_body all p2i pl tp visited id current s = (Ok res, s') →
  match sort_crosses (IntersectWithAll current all ++ contour_crosses current) with
  | [] => same_joints s s'
  | first :: rest =>
      if IsBounded current && negb (IsClosed current)
      then ∃ s1 s2,
             addJoint first p2i s = (Ok tt, s1)
             ∧ addJoint (default first (last (first :: rest))) p2i s1 = (Ok tt, s2)
             ∧ same_joints s2 s'
      else same_joints s s'
  end
  ∧ ∀ (cross : c3d.CrossPoint) (s0 : State) (n1 n2 : SimpleName) (r1 r2 : nat)
      (i1 i2 : CurveInfo),
      let c1 := c3d.curve (c3d.on1 cross) in
      let t1 := c3d.t (c3d.on1 cross) in
      let c2 := c3d.curve (c3d.on2 cross) in
      let t2 := c3d.t (c3d.on2 cross) in
      let p1 := mkPoint (Some n1) t1 (GetTMin c1) (GetTMax c1) in
      let p2 := mkPoint (Some n2) t2 (GetTMin c2) (GetTMax c2) in
      let J1 := if Qeq_bool t1 (GetTMin c1)
                then set_joints_start (mkJoint p1 p2)
                else set_joints_stop (mkJoint p1 p2) in
      let J2 := if Qeq_bool t2 (GetTMin c2)
                then set_joints_start (mkJoint p2 p1)
                else if Qeq_bool t2 (GetTMax c2)
                     then set_joints_stop (mkJoint p2 p1)
                     else fun i => i in
      map_get (Id c1) p2i = Some n1 → map_get (Id c2) p2i = Some n2 →
      get_ref s0 n1 = Some r1 → get_ref s0 n2 = Some r2 →
      info_at s0 r1 = Some i1 → info_at s0 r2 = Some i2 →
      (at_boundary t1 (GetTMin c1) (GetTMax c1) = false →
         addJoint cross p2i s0 = (Ok tt, s0))
      ∧ (at_boundary t1 (GetTMin c1) (GetTMax c1) = true →
         ∃ s1, addJoint cross p2i s0 = (Ok tt, s1)
           ∧ info_at s1 r1 = Some (if decide (r1 = r2) then J2 (J1 i1) else J1 i1)
           ∧ info_at s1 r2 = Some (if decide (r1 = r2) then J2 (J1 i1) else J2 i2)
           ∧ ∀ r, r ≠ r1 → r ≠ r2 → info_at s1 r = info_at s0 r).
Proof.
  intros H. split.
  - apply loop_body_Ok in H as (name & _ & _ & _ & Hcase).
    destruct (sort_crosses _) as [|first rest].
    + destruct Hcase as [_ Hup].
      pose proof (stable_updateCurve_joints name [mkTrim (Whole current) (-1) (-1)] pl s) as Hj.
      by rewrite Hup in Hj.
    + destruct Hcase as (s1 & s2 & trims & Hj & Hw & Hup).
      pose proof (stable_Ok same_joints _ _ _ _ (stable_walk_joints _ _ _ _ _ _ _ _) Hw) as Hw'.
      pose proof (stable_updateCurve_joints name trims pl s2) as Hu'. rewrite Hup in Hu'.
      simpl in Hu'. unfold end_joints in Hj.
      destruct (IsBounded current && negb (IsClosed current)).
      * bind_inv Hj as u sa Ha. destruct u. exists sa, s1.
        split_and!; [done|done|by etrans].
      * injection Hj as <-. by etrans.
  - clear. intros cross s0 n1 n2 r1 r2 i1 i2 c1 t1 c2 t2 p1 p2 J1 J2 Hn1 Hn2 Hr1 Hr2 Hi1 Hi2.
    unfold addJoint, at_boundary. fold c1 t1 c2 t2. rewrite Hn1, Hn2.
    cbv [bind gets]. simpl. rewrite Hr1, Hr2. fold p1 p2.
    split.
    + intros [-> ->]%orb_false_iff. done.
    + intros Hb.
      assert (Hc : negb (Qeq_bool t1 (GetTMin c1)) && negb (Qeq_bool t1 (GetTMax c1)) = false).
      { destruct (Qeq_bool t1 (GetTMin c1)), (Qeq_bool t1 (GetTMax c1)); done. }
      rewrite Hc. rewrite (use_info_Some _ _ _ Hi1). cbn [fst snd].
      assert (Hm : (if Qeq_bool t1 (GetTMin c1)
                    then modify (alter_info (set_joints_start (mkJoint p1 p2)) r1)
                    else modify (alter_info (set_joints_stop (mkJoint p1 p2)) r1)) s0
                   = (Ok tt, alter_info J1 r1 s0)).
      { unfold J1. by destruct (Qeq_bool t1 (GetTMin c1)). }
      rewrite Hm. clearbody J1. clear Hm.
      assert (Hi2' : info_at (alter_info J1 r1 s0) r2
                     = Some (if decide (r1 = r2) then J1 i2 else i2)).
      { rewrite info_at_alter, Hi2. by destruct (decide (r1 = r2)). }
      assert (Hsame : r1 = r2 → i2 = i1).
      { intros ->. congruence. }
      unfold J2. clear J2.
      destruct (Qeq_bool t2 (GetTMin c2)); [|destruct (Qeq_bool t2 (GetTMax c2))].
      * rewrite (use_info_Some _ _ _ Hi2'). eexists. split; [done|]. cbn [fst].
        rewrite !info_at_alter, Hi1, Hi2.
        split_and!.
        -- destruct (decide (r1 = r2)) as [->|Hne].
           ++ rewrite !decide_True by done. rewrite Hi1 in Hi2. by injection Hi2 as <-.
           ++ rewrite decide_False, decide_True by done. done.
        -- rewrite (decide_True (P := r2 = r2)) by done.
           destruct (decide (r1 = r2)) as [Heq|Hne]; [by rewrite (Hsame Heq)|done].
        -- intros r ? ?. rewrite !info_at_alter. by rewrite !decide_False.
      * rewrite (use_info_Some _ _ _ Hi2'). eexists. split; [done|]. cbn [fst].
        rewrite !info_at_alter, Hi1, Hi2.
        split_and!.
        -- destruct (decide (r1 = r2)) as [->|Hne].
           ++ rewrite !decide_True by done. rewrite Hi1 in Hi2. by injection Hi2 as <-.
           ++ rewrite decide_False, decide_True by done. done.
        -- rewrite (decide_True (P := r2 = r2)) by done.
           destruct (decide (r1 = r2)) as [Heq|Hne]; [by rewrite (Hsame Heq)|done].
        -- intros r ? ?. rewrite !info_at_alter. by rewrite !decide_False.
      * eexists. split; [done|].
        rewrite !info_at_alter, Hi1, Hi2.
        split_and!.
        -- rewrite decide_True by done. by destruct (decide (r1 = r2)).
        -- destruct (decide (r1 = r2)) as [Heq|Hne]; [by rewrite (Hsame Heq)|done].
        -- intros r ? ?. rewrite !info_at_alter. by rewrite !decide_False.
Qed.

(** ** Coverage *)




Lemma range_of_trim_of curve1 l : map range_of (map (trim_of curve1) l) = l.
Proof. induction l as [|[a b] l IH]; simpl; [done|]. by rewrite IH. Qed.


(** ** The loop of add *)

Lemma elem_of_map_set {V} k (v : V) m e :
  e ∈ map_set k v m → e = (k, v) ∨ e ∈ m.
Proof.
  induction m as [|[k0 v0] m IH]; simpl.
  - intros ->%list_elem_of_singleton. by left.
  - destruct (decide (k = k0)) as [->|].
    + intros [->|?]%elem_of_cons; [by left|right; by right].
    + intros [->|He]%elem_of_cons; [right; by left|].
      destruct (IH He); [by left|right; by right].
Qed.

Lemma fst_map_set {V} k (v : V) m k' :
  k' ∈ (map_set k v m).*1 ↔ k' = k ∨ k' ∈ m.*1.
Proof.
  induction m as [|[k0 v0] m IH]; simpl.
  - rewrite list_elem_of_singleton, elem_of_nil. naive_solver.
  - destruct (decide (k = k0)) as [->|]; simpl; rewrite !elem_of_cons; [naive_solver|].
    rewrite IH. naive_solver.
Qed.

Lemma elem_of_map_delete {V} k (m : list (Z * V)) e : e ∈ map_delete k m → e ∈ m.
Proof.
  induction m as [|[k0 v0] m IH]; simpl; [done|].
  destruct (decide (k = k0)); [right; auto|].
  intros [->|?]%elem_of_cons; [by left|right; auto].
Qed.

Lemma fst_map_delete {V} k (m : list (Z * V)) k' :
  k' ∈ (map_delete k m).*1 ↔ k' ≠ k ∧ k' ∈ m.*1.
Proof.
  induction m as [|[k0 v0] m IH]; simpl.
  - rewrite elem_of_nil. naive_solver.
  - destruct (decide (k = k0)) as [->|]; simpl; rewrite ?elem_of_cons, IH; naive_solver.
Qed.

Lemma touched_at_extends s s' r m : extends s s' → touched_at s r m → touched_at s' r m.
Proof.
  intros (_ & _ & _ & _ & _ & Hg) (i & Hi & Hm).
  destruct (Hg r i Hi) as (i' & Hi' & _ & _ & Hsub). exists i'. split; [done|]. by apply Hsub.
Qed.

Lemma touches_extends s s' n m : extends s s' → touches s n m → touches s' n m.
Proof.
  intros He (i & Hi & Hm). unfold get_info in Hi.
  destruct (get_ref s n) as [r|] eqn:Hr; [|done].
  destruct (touched_at_extends s s' r m He) as (i' & Hi' & Hm'); [by exists i|].
  exists i'. split; [|done]. unfold get_info. by rewrite (get_ref_extends s s' n He), Hr.
Qed.

Lemma touched_at_touches s n r m : get_ref s n = Some r → touched_at s r m → touches s n m.
Proof. intros Hr (i & Hi & Hm). exists i. split; [|done]. unfold get_info. by rewrite Hr. Qed.

(** What a walk that raises nothing has done: every cross it ran over has its
    other curve named, put in the [touched] set of [info], and visited or to
    process; what was to process still is, and what is new comes from a
    cross. *)
Lemma walk_inv info curve1 p2i visited crosses :
  ∀ start0 trims tp s res s',
    walk info curve1 p2i visited crosses start0 trims tp s = (Ok res, s') →
    crosses = [] ∨
    ∃ r, info = Some r
      ∧ (∀ x, x ∈ crosses →
           ∃ nb, map_get (Id (c3d.curve (c3d.on2 x))) p2i = Some nb
                 ∧ touched_at s' r nb
                 ∧ (Id (c3d.curve (c3d.on2 x)) ∈ visited
                    ∨ Id (c3d.curve (c3d.on2 x)) ∈ res.2.*1))
      ∧ (∀ k, k ∈ tp.*1 → k ∈ res.2.*1)
      ∧ (∀ e, e ∈ res.2 →
           e ∈ tp ∨ ∃ x, x ∈ crosses ∧ e = (Id (c3d.curve (c3d.on2 x)), c3d.curve (c3d.on2 x))).
Proof.
  induction crosses as [|cross rest IH]; intros start0 trims tp s res s' H; [by left|].
  right. pose proof H as Hst. apply (stable_Ok extends _ _ _ _ (stable_walk _ _ _ _ _ _ _ _)) in Hst.
  apply walk_cons_Ok in H as (id & r & i & Hid & _ & -> & Hi & H).
  exists r. split; [done|].
  pose proof H as Hst'. apply (stable_Ok extends _ _ _ _ (stable_walk _ _ _ _ _ _ _ _)) in Hst'.
  assert (Hhead : touched_at s' r id).
  { eapply touched_at_extends; [exact Hst'|].
    exists (touched_add id i). rewrite info_at_alter, decide_True, Hi by done.
    split; [done|]. simpl. apply elem_of_set_add. by left. }
  set (tp1 := if decide (Id (c3d.curve (c3d.on2 cross)) ∈ visited) then tp
              else map_set (Id (c3d.curve (c3d.on2 cross))) (c3d.curve (c3d.on2 cross)) tp)
    in *.
  assert (Htp1 : ∀ k, k ∈ tp.*1 → k ∈ tp1.*1).
  { intros k Hk. unfold tp1. destruct (decide _); [done|]. apply fst_map_set. by right. }
  assert (Htp1' : ∀ e, e ∈ tp1 →
            e ∈ tp ∨ e = (Id (c3d.curve (c3d.on2 cross)), c3d.curve (c3d.on2 cross))).
  { intros e He. unfold tp1 in He. destruct (decide _); [by left|].
    apply elem_of_map_set in He as [->|]; [by right|by left]. }
  assert (Hcross : Id (c3d.curve (c3d.on2 cross)) ∈ visited
                   ∨ Id (c3d.curve (c3d.on2 cross)) ∈ tp1.*1).
  { unfold tp1. destruct (decide _); [by left|]. right. apply fst_map_set. by left. }
  pose proof H as Hw.
  apply IH in Hw as [->|(r' & [= <-] & Hrest & Hkeys & Hnew)]; [|split_and!];
    [simpl in H; injection H as <- <-; simpl; split_and!|..].
  - intros x ->%list_elem_of_singleton. exists id. by split_and!.
  - done.
  - intros e He. destruct (Htp1' e He) as [?| ->]; [by left|].
    right. exists cross. split; [by left|done].
  - intros x [->|Hx]%elem_of_cons; [|by apply Hrest].
    exists id. split_and!; [done|done|]. destruct Hcross as [|Hc]; [by left|].
    right. by apply Hkeys.
  - intros k Hk. by apply Hkeys, Htp1.
  - intros e He. destruct (Hnew e He) as [Htp|(x & Hx & ->)].
    + destruct (Htp1' e Htp) as [?| ->]; [by left|]. right. exists cross. split; [by left|done].
    + right. exists x. split; [by right|done].
Qed.

Lemma elem_of_contour_crosses current x :
  x ∈ contour_crosses current → ∃ param, x = pseudo_cross param current.
Proof.
  unfold contour_crosses. destruct (IsContour current); [|by intros ?%elem_of_nil].
  intros [Hx|Hx]%elem_of_app.
  - apply list_elem_of_In, in_map_iff in Hx as (param & <- & _). by exists param.
  - destruct (IsClosed current); [|by apply elem_of_nil in Hx].
    apply list_elem_of_singleton in Hx. by eexists.
Qed.

Lemma elem_of_with_ends current first sorted x :
  x ∈ with_ends current first sorted →
  x ∈ sorted ∨ x = first ∨ ∃ param, x = pseudo_cross param current.
Proof.
  unfold with_ends. destruct (_ && _); [|destruct (IsClosed current)].
  - rewrite !elem_of_app, !list_elem_of_singleton. naive_solver.
  - rewrite elem_of_app, list_elem_of_singleton. naive_solver.
  - by left.
Qed.

Lemma with_ends_sorted current first sorted x :
  x ∈ sorted → x ∈ with_ends current first sorted.
Proof.
  unfold with_ends. destruct (_ && _); [|destruct (IsClosed current)].
  - rewrite !elem_of_app. naive_solver.
  - rewrite elem_of_app. naive_solver.
  - done.
Qed.

Section Loop.
Context (HK : faithful_kernel).
Context (all : list Curve) (p2i : list (Curve2dId * SimpleName)) (pl : Placement).
Context (Hinj : ∀ c c', c ∈ all → c' ∈ all → Id c = Id c' → c = c').

Lemma cross_of_current current x :
  current ∈ all →
  x ∈ IntersectWithAll current all ++ contour_crosses current →
  c3d.curve (c3d.on1 x) = current ∧ c3d.curve (c3d.on2 x) ∈ all.
Proof.
  intros Hc [Hx|Hx]%elem_of_app.
  - split; [by eapply kernel_on1|by eapply kernel_on2].
  - apply elem_of_contour_crosses in Hx as (param & ->). by split.
Qed.

Lemma loop_body_inv tp visited id current s r s1 :
  between_turns all p2i s tp visited → (id, current) ∈ tp →
  loop_body all p2i pl tp visited id current s = (Ok r, s1) →
  between_turns all p2i s1 r.2.1 r.2.2 ∧ extends s s1
  ∧ r.2.2 = set_add id visited
  ∧ (∀ k, k ∈ tp.*1 → k ∈ r.2.2 ∨ k ∈ r.2.1.*1).
Proof.
  intros [L1 L2] Hhead H.
  pose proof (stable_Ok extends _ _ _ _ (stable_loop_body _ _ _ _ _ _ _) H) as Hext.
  destruct (L1 id current Hhead) as [Hid Hcur].
  apply loop_body_Ok in H as (name & Hname & _ & Hvis & Hcase).
  set (crosses := IntersectWithAll current all ++ contour_crosses current) in *.
  assert (Hold : ∀ c b n nb, c ∈ all → Id c ∈ visited → b ∈ all → crossing c b →
            map_get (Id c) p2i = Some n → map_get (Id b) p2i = Some nb →
            ∀ tp' : list (Z * Curve), (∀ k, k ∈ (map_delete id tp).*1 → k ∈ tp'.*1) →
            touches s1 n nb ∧ (Id b ∈ set_add id visited ∨ Id b ∈ tp'.*1)).
  { intros c b n nb Hc Hcv Hb Hcb Hn Hnb tp' Htp'.
    destruct (L2 c b n nb Hc Hcv Hb Hcb Hn Hnb) as [Ht Hq].
    split; [by eapply touches_extends|].
    destruct Hq as [Hq|Hq]; [left; apply elem_of_set_add; by right|].
    destruct (decide (Id b = id)) as [->|Hne]; [left; apply elem_of_set_add; by left|].
    right. apply Htp', fst_map_delete. by split. }
  split_and!; [|done|done|].
  - rewrite Hvis. destruct (sort_crosses crosses) as [|first rest] eqn:Hsort.
    + destruct Hcase as [-> Hup]. apply sort_crosses_nil in Hsort. split.
      * intros k c Hk%elem_of_map_delete. by apply L1.
      * intros c b n nb Hc Hcv Hb Hcb Hn Hnb.
        apply elem_of_set_add in Hcv as [Hcv|Hcv]; [|by apply (Hold c b n nb)].
        rewrite <- Hid in Hcv. apply Hinj in Hcv as ->; [|done..].
        destruct (kernel_finds HK current b all Hcb Hb) as (x & Hx & _).
        assert (Hx' : x ∈ crosses) by (apply elem_of_app; by left).
        rewrite Hsort in Hx'. by apply elem_of_nil in Hx'.
    + destruct Hcase as (s2 & s3 & trims & Hj & Hw & Hup).
      assert (Hfirst : first ∈ crosses).
      { apply (proj1 (elem_of_sort_crosses _ _)). rewrite Hsort. by left. }
      destruct (cross_of_current current first Hcur Hfirst) as [Hon1 _].
      rewrite Hon1, Hid, Hname in Hw. simpl in Hw.
      pose proof (stable_Ok extends _ _ _ _ (stable_walk _ _ _ _ _ _ _ _) Hw) as He3.
      assert (He2 : extends s s2).
      { unfold end_joints in Hj. destruct (_ && _); [|by injection Hj as <-].
        bind_inv Hj as u sj Hj1.
        pose proof (stable_Ok extends _ _ _ _ (stable_addJoint _ _) Hj1).
        pose proof (stable_Ok extends _ _ _ _ (stable_addJoint _ _) Hj). by etrans. }
      assert (He4 : extends s3 s1).
      { pose proof (stable_updateCurve name trims pl s3) as Hs. by rewrite Hup in Hs. }
      apply walk_inv in Hw as [Hnil|(r0 & Hr0 & Hdone & Hkeys & Hnew)].
      { apply (f_equal length) in Hnil. unfold with_ends in Hnil.
        destruct (_ && _); [|destruct (IsClosed current)];
          rewrite ?length_app in Hnil; simpl in Hnil; lia. }
      simpl in Hdone, Hkeys, Hnew. split.
      * intros k c Hk. destruct (Hnew _ Hk) as [Hk'%elem_of_map_delete|(x & Hx & [= -> ->])];
          [by apply L1|]. split; [done|].
        apply elem_of_with_ends in Hx as [Hx|[->|(param & ->)]].
        -- rewrite <- Hsort in Hx. apply (proj1 (elem_of_sort_crosses _ _)) in Hx.
           by apply cross_of_current in Hx as [_ ?].
        -- by apply cross_of_current in Hfirst as [_ ?].
        -- done.
      * intros c b n nb Hc Hcv Hb Hcb Hn Hnb.
        apply elem_of_set_add in Hcv as [Hcv|Hcv];
          [|apply (Hold c b n nb); [done..|exact Hkeys]].
        rewrite <- Hid in Hcv. apply Hinj in Hcv as ->; [|done..].
        rewrite Hid, Hname in Hn. injection Hn as <-.
        destruct (kernel_finds HK current b all Hcb Hb) as (x & Hx & Hxb).
        assert (Hx' : x ∈ with_ends current first (first :: rest)).
        { apply with_ends_sorted. rewrite <- Hsort. apply (proj2 (elem_of_sort_crosses _ _)).
          apply elem_of_app. by left. }
        destruct (Hdone x Hx') as (nb' & Hnb' & Ht & Hq). rewrite Hxb in Hnb', Hq.
        rewrite Hnb in Hnb'. injection Hnb' as <-. split; [|done].
        eapply touches_extends; [exact He4|].
        eapply touched_at_touches; [|exact Ht].
        rewrite (get_ref_extends s); [done|]. by etrans.
  - intros k Hk. rewrite Hvis.
    destruct (decide (k = id)) as [->|Hne]; [left; apply elem_of_set_add; by left|].
    right. assert (Hk' : k ∈ (map_delete id tp).*1) by (apply fst_map_delete; by split).
    destruct (sort_crosses crosses) as [|first rest] eqn:Hsort.
    + by destruct Hcase as [-> _].
    + destruct Hcase as (s2 & s3 & trims & _ & Hw & _).
      apply walk_inv in Hw as [Hnil|(r0 & _ & _ & Hkeys & _)]; [|by apply Hkeys].
      apply (f_equal length) in Hnil. unfold with_ends in Hnil.
      destruct (_ && _); [|destruct (IsClosed current)];
        rewrite ?length_app in Hnil; simpl in Hnil; lia.
Qed.

Lemma process_inv fuel :
  ∀ tp visited promises s res s',
    between_turns all p2i s tp visited →
    process fuel all p2i pl tp visited promises s = (Ok res, s') →
    ∃ visited', between_turns all p2i s' [] visited' ∧ extends s s'
      ∧ (∀ k, k ∈ visited → k ∈ visited') ∧ (∀ k, k ∈ tp.*1 → k ∈ visited').
Proof.
  induction fuel as [|fuel IH]; intros tp visited promises s res s' Hinv H.
  - destruct tp as [|[id current] tp]; simpl in H; [|done]. injection H as <- <-.
    exists visited. split_and!; [done|done|done|]. intros k Hk. by apply elem_of_nil in Hk.
  - destruct tp as [|[id current] tp]; simpl in H.
    { injection H as <- <-. exists visited. split_and!; [done|done|done|].
      intros k Hk. by apply elem_of_nil in Hk. }
    bind_inv H as r s1 Hbody.
    apply loop_body_inv in Hbody as (Hinv' & He & Hvis & Hkeys); [|done|by left].
    apply IH in H as (visited' & Hfin & He' & Hv & Ht); [|done].
    exists visited'. split_and!; [done|by etrans| |].
    + intros k Hk. apply Hv. rewrite Hvis. apply elem_of_set_add. by right.
    + intros k Hk. destruct (Hkeys k Hk) as [?|?]; [by apply Hv|by apply Ht].
Qed.

End Loop.

(** ** The collection *)

Lemma map_get_elem_of {V} k (v : V) m : NoDup m.*1 → (k, v) ∈ m → map_get k m = Some v.
Proof.
  induction m as [|[k0 v0] m IH]; simpl; [by intros _ ?%elem_of_nil|].
  intros [Hk0 Hnd]%NoDup_cons [[= -> ->]|He]%elem_of_cons.
  - by rewrite decide_True.
  - rewrite decide_False; [by apply IH|]. intros ->. apply Hk0.
    apply list_elem_of_fmap. by exists (k0, v).
Qed.

Lemma map_get_Some_elem_of {V} k (v : V) m : map_get k m = Some v → (k, v) ∈ m.
Proof.
  induction m as [|[k0 v0] m IH]; simpl; [done|].
  destruct (decide (k = k0)) as [->|]; [intros [= ->]; by left|]. right. auto.
Qed.

Lemma NoDup_fst_map_set {V} k (v : V) m : NoDup m.*1 → NoDup (map_set k v m).*1.
Proof.
  induction m as [|[k0 v0] m IH]; simpl; [intros _; apply NoDup_singleton|].
  intros [Hk0 Hnd]%NoDup_cons. destruct (decide (k = k0)) as [->|Hne]; simpl.
  - by apply NoDup_cons.
  - apply NoDup_cons. split; [|by apply IH]. rewrite fst_map_set. naive_solver.
Qed.

Lemma collect_spec pN s entries :
  ∀ p2i all res s',
    collect pN entries p2i all s = (Ok res, s') →
    s' = s
    ∧ (∀ k, (∀ n r c p, (n, r) ∈ entries → entry_curve s r c p → Id c ≠ k) →
            map_get k res.1 = map_get k p2i)
    ∧ (NoDup entries.*1 →
       (∀ n1 r1 c1 p1 n2 r2 c2 p2,
           (n1, r1) ∈ entries → (n2, r2) ∈ entries →
           entry_curve s r1 c1 p1 → entry_curve s r2 c2 p2 → Id c1 = Id c2 → n1 = n2) →
       ∀ n r, (n, r) ∈ entries →
         ∃ c p, entry_curve s r c p ∧ map_get (Id c) res.1 = Some n
                ∧ (isSamePlacement pN p = true → c ∈ res.2))
    ∧ (∀ c, c ∈ res.2 →
         c ∈ all ∨ ∃ n r p, (n, r) ∈ entries ∧ entry_curve s r c p
                            ∧ isSamePlacement pN p = true)
    ∧ (∀ c, c ∈ all → c ∈ res.2).
Proof.
  induction entries as [|[n r] rest IH]; intros p2i all res s' H; simpl in H.
  - injection H as <- <-. split_and!; [done|done| | |done].
    + intros _ _ n r Hn. by apply elem_of_nil in Hn.
    + intros c Hc. by left.
  - bind_inv H as ri s0 Hri. apply use_info_Ok in Hri as (Hr & Hi & ->).
    destruct ri as [r' i]. simpl in Hr, Hi. injection Hr as <-.
    bind_inv H as planar s0 Hpl. injection Hpl as <- <-.
    bind_inv H as c s0 Hc. apply unwrap_Ok in Hc as [Hc ->]. simpl in H.
    apply IH in H as (-> & Ha & Hb & Hc' & Hd).
    assert (Hhead : entry_curve s r c (placement i)) by (by exists i).
    assert (Hall1 : ∀ c', c' ∈ all → c' ∈ res.2).
    { intros c' Hc'0. apply Hd. destruct (isSamePlacement _ _); [|done].
      apply elem_of_app. by left. }
    split_and!; [done| | | |done].
    + intros k Hk. rewrite Ha.
      * rewrite map_get_set, decide_False; [done|]. intros ->.
        apply (Hk n r c (placement i)); [by left|done|done].
      * intros n' r' c' p' Hin. apply (Hk n' r' c' p'). by right.
    + intros [Hn Hnd]%NoDup_cons Hdist n' r' [[= -> ->]|Hin]%elem_of_cons.
      * exists c, (placement i). split_and!; [done| |].
        -- rewrite Ha; [by rewrite map_get_set, decide_True|].
           intros n2 r2 c2 p2 Hin2 He2 Heq. apply Hn.
           assert (n2 = n) as <-.
           { eapply (Hdist n2 r2 c2 p2 n r c (placement i)); [by right|by left|done..]. }
           apply list_elem_of_fmap. by exists (n2, r2).
        -- intros Hsame. apply Hd. rewrite Hsame. apply elem_of_app. right. by left.
      * apply Hb; [done| |done].
        intros n1 r1 c1 p1 n2 r2 c2 p2 H1 H2. apply Hdist; by right.
    + intros c' Hc'0. destruct (Hc' c' Hc'0) as [Hin|(n' & r' & p' & Hin & He & Hs)].
      * destruct (isSamePlacement pN (placement i)) eqn:Hsame; [|by left].
        apply elem_of_app in Hin as [?| ->%list_elem_of_singleton]; [by left|].
        right. exists n, r, (placement i). split_and!; [by left|done|done].
      * right. exists n', r', p'. split_and!; [by right|done|done].
Qed.

(** ** The writes before the loop *)

Lemma register_spec N cN pN s :
  curve2info (this s) < length (curve2infoObjs (heap s)) →
  id2planarCurve (this s) < length (planarObjs (heap s)) →
  let s' := register N cN pN s in
  this s' = mkDatabase (curve2info (this s)) (id2planarCurve (this s))
                       (placements (this s)) (counter (this s) + 1)
  ∧ infoObjs (heap s') = infoObjs (heap s) ++ [new_CurveInfo (counter (this s)) pN]
  ∧ live_curve2info s' = map_set N (length (infoObjs (heap s))) (live_curve2info s)
  ∧ live_id2planarCurve s' = map_set (counter (this s)) cN (live_id2planarCurve s)
  ∧ length (curve2infoObjs (heap s')) = length (curve2infoObjs (heap s))
  ∧ length (planarObjs (heap s')) = length (planarObjs (heap s)).
Proof.
  intros H1 H2. unfold register, live_curve2info, live_id2planarCurve; simpl.
  rewrite !list_lookup_insert_eq by done. simpl.
  rewrite !length_insert. by split_and!.
Qed.

(** ** add, one call *)

Lemma Promise_all_state promises s : snd (Promise_all promises s) = s.
Proof. induction promises as [|[[]| |] rest IH]; simpl; done. Qed.

Lemma same_registry_normalizePlacement p s pN s' :
  normalizePlacement p s = (Ok pN, s') → same_registry s s'.
Proof.
  unfold normalizePlacement. destruct (find _ _); intros [= <- <-]; by split_and!.
Qed.

Lemma add_Ok N s s' :
  add N s = (Ok tt, s') →
  (planar_of N = None ∧ same_registry s s')
  ∨ ∃ cN p' pN sb p2i0 all0 promises,
      planar_of N = Some (cN, p') ∧ same_registry s sb
      ∧ collect pN (live_curve2info sb) [] [] sb = (Ok (p2i0, all0), sb)
      ∧ process (S (length (map_set (Id cN) N p2i0))) (all0 ++ [cN])
          (map_set (Id cN) N p2i0) pN [(Id cN, cN)] [] [] (register N cN pN sb)
        = (Ok promises, s').
Proof.
  intros H. unfold add in H.
  bind_inv H as u sa Hcall. injection Hcall as <- <-.
  bind_inv H as inst s0 Hinst. apply unwrap_Ok in Hinst as [Hinst ->].
  bind_inv H as planarInfo sb Hplan.
  unfold planarizeAndNormalize in Hplan. unfold planar_of. rewrite Hinst.
  destruct (curve3d2curve2d _) as [[cN p']|].
  - bind_inv Hplan as pN sb' Hnorm. injection Hplan as <- <-.
    apply same_registry_normalizePlacement in Hnorm.
    bind_inv H as entries s0 He. injection He as <- <-.
    bind_inv H as collected sc Hcol.
    pose proof (collect_spec _ _ _ _ _ _ _ Hcol) as (-> & _).
    bind_inv H as counter0 s0 Hcnt. injection Hcnt as <- <-.
    bind_inv H as u1 s1 H1. injection H1 as <- <-.
    bind_inv H as u2 s2 H2. injection H2 as <- <-.
    bind_inv H as info s3 H3. injection H3 as <- <-.
    bind_inv H as u4 s4 H4. injection H4 as <- <-.
    bind_inv H as promises sg Hproc.
    pose proof (Promise_all_state promises sg) as Hst. rewrite H in Hst. simpl in Hst. subst s'.
    right. exists cN, p', pN, sb', collected.1, collected.2, promises.
    split_and!; [done| |by destruct collected|exact Hproc].
    destruct Hnorm as (? & ? & ? & ?). by split_and!.
  - injection Hplan as <- <-. injection H as <-. left. by split_and!.
Qed.

Lemma get_ref_same s s' n : same_registry s s' → get_ref s' n = get_ref s n.
Proof. intros (Ht & _ & Hm & _). unfold get_ref, live_curve2info. by rewrite Ht, Hm. Qed.

Lemma info_at_same s s' r : same_registry s s' → info_at s' r = info_at s r.
Proof. intros (_ & Hi & _). unfold info_at. by rewrite Hi. Qed.

Lemma live_planar_same s s' :
  same_registry s s' → live_id2planarCurve s' = live_id2planarCurve s.
Proof. intros (Ht & _ & _ & Hp). unfold live_id2planarCurve. by rewrite Ht, Hp. Qed.

Lemma registry_of_same done s s' :
  same_registry s s' → registry_of done s → registry_of done s'.
Proof.
  intros Hs ((R0 & R0') & R1 & R2 & R3).
  pose proof Hs as (Ht & Hi & Hm & Hp).
  assert (Hreg : ∀ n c p, registered s' n c p → registered s n c p).
  { intros n c p (r & Hr & i & Hi' & Hc & Hpl). exists r.
    rewrite (get_ref_same s s') in Hr by done. split; [done|]. exists i.
    rewrite (info_at_same s s') in Hi' by done.
    rewrite (live_planar_same s s') in Hc by done. done. }
  split_and!.
  - by rewrite Ht, Hm.
  - by rewrite Ht, Hp.
  - unfold live_curve2info. rewrite Ht, Hm. exact R1.
  - intros n r Hr. rewrite (get_ref_same s s') in Hr by done.
    destruct (R2 n r Hr) as (Hn & i & c & p & H1 & H2 & H3 & H4). split; [done|].
    exists i, c, p. rewrite (info_at_same s s'), (live_planar_same s s'), Ht by done. done.
  - intros A B cA cB pA pB HA HB H1 H2 Hc.
    destruct (R3 A B cA cB pA pB (Hreg _ _ _ HA) (Hreg _ _ _ HB) H1 H2 Hc) as (i & Hi' & Hin).
    exists i. split; [|done]. unfold get_info in *.
    rewrite (get_ref_same s s') by done. destruct (get_ref s A); [|done].
    by rewrite (info_at_same s s').
Qed.

Lemma registry_of_mono done done' s :
  (∀ n, n ∈ done → n ∈ done') → registry_of done s → registry_of done' s.
Proof.
  intros Hsub (R0 & R1 & R2 & R3). split_and!; [apply R0|apply R0|done| |done].
  intros n r Hr. destruct (R2 n r Hr) as (Hn & Hrest). split; [by apply Hsub|done].
Qed.

Lemma entry_curve_functional s r c p c' p' :
  entry_curve s r c p → entry_curve s r c' p' → c = c' ∧ p = p'.
Proof. intros (i & Hi & Hc & Hp) (i' & Hi' & Hc' & Hp'). split; congruence. Qed.

Lemma add_preserves done N s s' :
  faithful_kernel → registry_of done s → N ∉ done → distinct_ids (N :: done) →
  add N s = (Ok tt, s') → registry_of (N :: done) s'.
Proof.
  intros HK Hreg HN Hdist H.
  apply add_Ok in H
    as [[_ Hsame]|(cN & p' & pN & sb & p2i0 & all0 & promises & HpN & Hsame & Hcol & Hproc)].
  { eapply registry_of_mono; [|by eapply registry_of_same]. intros n ?. by right. }
  apply (registry_of_same done s sb Hsame) in Hreg. clear s Hsame.
  destruct Hreg as ((R0 & R0') & R1 & R2 & R3).
  destruct (register_spec N cN pN sb R0 R0')
    as (Fthis & Finfos & Flive & Fplanar & Flen1 & Flen2).
  set (sf := register N cN pN sb) in *. clearbody sf.
  set (rN := length (infoObjs (heap sb))) in *.
  set (p2i := map_set (Id cN) N p2i0) in *.
  set (all := all0 ++ [cN]) in *.
  apply collect_spec in Hcol as (_ & _ & Cb & Cc & _). simpl in Cb, Cc.
  assert (Hold : ∀ n r, get_ref sb n = Some r →
            n ∈ done ∧ n ≠ N ∧ r < rN
            ∧ ∃ i c p0, info_at sb r = Some i ∧ (planarCurve i < counter (this sb))%Z
                ∧ map_get (planarCurve i) (live_id2planarCurve sb) = Some c
                ∧ planar_of n = Some (c, p0) ∧ Id c ≠ Id cN).
  { intros n r Hr. destruct (R2 n r Hr) as (Hn & i & c & p0 & Hi & Hlt & Hc & Hp).
    assert (n ≠ N) by (by intros ->). split_and!; [done|done|by apply lookup_lt_Some in Hi|].
    exists i, c, p0. split_and!; [done..|]. intros Heq. apply H.
    apply (Hdist n N (c, p0) (cN, p')); [by right|by left|done|done|done]. }
  assert (Hdist' : ∀ n1 r1 c1 p1 n2 r2 c2 p2,
            (n1, r1) ∈ live_curve2info sb → (n2, r2) ∈ live_curve2info sb →
            entry_curve sb r1 c1 p1 → entry_curve sb r2 c2 p2 → Id c1 = Id c2 → n1 = n2).
  { intros n1 r1 c1 p1 n2 r2 c2 p2 H1 H2 He1 He2 Heq.
    apply (map_get_elem_of _ _ _ R1) in H1, H2.
    destruct (Hold n1 r1 H1) as (Hd1 & _ & _ & i1 & c1' & q1 & Hi1 & _ & Hc1 & Hp1 & _).
    destruct (Hold n2 r2 H2) as (Hd2 & _ & _ & i2 & c2' & q2 & Hi2 & _ & Hc2 & Hp2 & _).
    destruct (entry_curve_functional sb r1 c1 p1 c1' (placement i1) He1) as [-> _];
      [by exists i1|].
    destruct (entry_curve_functional sb r2 c2 p2 c2' (placement i2) He2) as [-> _];
      [by exists i2|].
    apply (Hdist n1 n2 (c1', q1) (c2', q2)); [by right|by right|done|done|done]. }
  specialize (Cb R1 Hdist').
  assert (Hname_old : ∀ n r c p, get_ref sb n = Some r → entry_curve sb r c p →
            map_get (Id c) p2i = Some n ∧ (isSamePlacement pN p = true → c ∈ all)).
  { intros n r c p Hr He.
    destruct (Cb n r (map_get_Some_elem_of _ _ _ Hr)) as (c0 & p0 & He0 & Hget & Hin).
    destruct (entry_curve_functional sb r c p c0 p0 He He0) as [<- <-].
    destruct (Hold n r Hr) as (_ & _ & _ & i & c1 & q & Hi & _ & Hc1 & _ & Hne).
    destruct (entry_curve_functional sb r c p c1 (placement i) He) as [<- _]; [by exists i|].
    split.
    - unfold p2i. by rewrite map_get_set, decide_False.
    - intros Hs. apply elem_of_app. left. by apply Hin. }
  assert (HcN_all : cN ∈ all) by (apply elem_of_app; right; by left).
  assert (HcN_name : map_get (Id cN) p2i = Some N).
  { unfold p2i. by rewrite map_get_set, decide_True. }
  assert (Hall : ∀ c, c ∈ all →
            c = cN ∨ ∃ n r p q, get_ref sb n = Some r ∧ entry_curve sb r c p
                                ∧ n ∈ done ∧ planar_of n = Some (c, q) ∧ Id c ≠ Id cN).
  { intros c [Hc| ->%list_elem_of_singleton]%elem_of_app; [|by left]. right.
    destruct (Cc c Hc) as [Hnil|(n & r & p & Hin & He & _)]; [by apply elem_of_nil in Hnil|].
    apply (map_get_elem_of _ _ _ R1) in Hin.
    destruct (Hold n r Hin) as (Hd & _ & _ & i & c1 & q & Hi & _ & Hc1 & Hp & Hne).
    destruct (entry_curve_functional sb r c p c1 (placement i) He) as [<- _]; [by exists i|].
    by exists n, r, p, q. }
  assert (Hinj : ∀ c c', c ∈ all → c' ∈ all → Id c = Id c' → c = c').
  { intros c c' Hc Hc' Heq.
    destruct (Hall c Hc) as [->|(n & r & p & q & Hr & He & Hd & Hp & Hne)];
      destruct (Hall c' Hc') as [->|(n' & r' & p0 & q' & Hr' & He' & Hd' & Hp' & Hne')];
      [done|congruence|congruence|].
    assert (n = n') as <-.
    { apply (Hdist n n' (c, q) (c', q')); [by right|by right|done|done|done]. }
    rewrite Hp in Hp'. by injection Hp' as ->. }
  apply (process_inv HK all p2i pN Hinj) in Hproc
    as (visited' & [_ L2] & Hext & _ & Hvis).
  2:{ split.
      - intros id c Hin. apply list_elem_of_singleton in Hin. injection Hin as -> ->.
        by split.
      - intros c b n nb _ Hv. by apply elem_of_nil in Hv. }
  assert (HcN : Id cN ∈ visited') by (apply Hvis; by left).
  pose proof Hext as (Et & Em & Ep & _ & _ & Eg).
  assert (Href : ∀ n, get_ref s' n = if decide (n = N) then Some rN else get_ref sb n).
  { intros n. rewrite (get_ref_extends sf s' n Hext). unfold get_ref.
    by rewrite Flive, map_get_set. }
  assert (Hinfo_old : ∀ r i, r < rN → info_at sb r = Some i →
            ∃ i', info_at s' r = Some i' ∧ info_grows i i').
  { intros r i Hlt Hi. apply Eg. unfold info_at. by rewrite Finfos, lookup_app_l. }
  assert (Hinfo_new : ∃ i', info_at s' rN = Some i'
            ∧ info_grows (new_CurveInfo (counter (this sb)) pN) i').
  { apply Eg. unfold info_at. rewrite Finfos. by apply list_lookup_middle. }
  assert (Hplanar : live_id2planarCurve s'
                    = map_set (counter (this sb)) cN (live_id2planarCurve sb)).
  { rewrite <- Fplanar. unfold live_id2planarCurve. by rewrite Et, Ep. }
  assert (Hcounter : counter (this s') = (counter (this sb) + 1)%Z).
  { by rewrite Et, Fthis. }
  assert (Hreg_inv : ∀ n c p, registered s' n c p →
            (n = N ∧ c = cN ∧ p = pN) ∨ (n ≠ N ∧ registered sb n c p)).
  { intros n c p (r & Hr & i2 & Hi2 & Hc & Hp). rewrite Href in Hr.
    destruct (decide (n = N)) as [->|Hne].
    - injection Hr as <-. left. destruct Hinfo_new as (i' & Hi' & Hpc & Hpl & _).
      rewrite Hi' in Hi2. injection Hi2 as <-. simpl in Hpc, Hpl.
      rewrite Hplanar, Hpc, map_get_set, decide_True in Hc by done.
      split_and!; [done|congruence|congruence].
    - right. split; [done|]. exists r. split; [done|].
      destruct (Hold n r Hr) as (_ & _ & Hlt & i & c0 & p0 & Hi & Hlt' & Hc0 & _).
      destruct (Hinfo_old r i Hlt Hi) as (i' & Hi' & Hpc & Hpl & _).
      rewrite Hi' in Hi2. injection Hi2 as <-. exists i.
      rewrite Hplanar, Hpc, map_get_set, decide_False in Hc by lia.
      split_and!; [done|done|congruence]. }
  split_and!.
  - rewrite Et, Em, Fthis. simpl. by rewrite Flen1.
  - rewrite Et, Ep, Fthis. simpl. by rewrite Flen2.
  - assert (live_curve2info s' = live_curve2info sf) as ->.
    { unfold live_curve2info. by rewrite Et, Em. }
    rewrite Flive. by apply NoDup_fst_map_set.
  - intros n r Hr. rewrite Href in Hr. destruct (decide (n = N)) as [->|Hne].
    + injection Hr as <-. split; [by left|].
      destruct Hinfo_new as (i' & Hi' & Hpc & Hpl & _). simpl in Hpc.
      exists i', cN, p'. rewrite Hplanar, Hcounter, Hpc, map_get_set, decide_True by done.
      split_and!; [done|lia|done|done].
    + destruct (Hold n r Hr) as (Hd & _ & Hlt & i & c & p0 & Hi & Hlt' & Hc & Hp & _).
      split; [by right|].
      destruct (Hinfo_old r i Hlt Hi) as (i' & Hi' & Hpc & Hpl & _).
      exists i', c, p0. rewrite Hplanar, Hcounter, Hpc, map_get_set, decide_False by lia.
      split_and!; [done|lia|done|done].
  - intros A B cA cB pA pB HA HB H1 H2 Hc.
    destruct (Hreg_inv _ _ _ HA) as [(-> & -> & ->)|(HAn & rA & HrA & HeA)];
      destruct (Hreg_inv _ _ _ HB) as [(-> & -> & ->)|(HBn & rB & HrB & HeB)].
    + by apply (L2 cN cN N N).
    + destruct (Hname_old B rB cB pB HrB HeB) as [HnB HinB].
      by apply (L2 cN cB N B); [done|done|apply HinB|..].
    + destruct (Hname_old A rA cA pA HrA HeA) as [HnA HinA].
      pose proof (kernel_symmetric HK _ _ Hc) as Hc'.
      destruct (L2 cN cA N A HcN_all HcN (HinA H2) Hc' HcN_name HnA) as [_ [Hv|Hv]];
        [|by apply elem_of_nil in Hv].
      by apply (L2 cA cN A N); [apply HinA|..].
    + destruct (R3 A B cA cB pA pB) as (i & Hi & Hin); [by exists rA|by exists rB|done..|].
      unfold get_info in Hi. rewrite HrA in Hi.
      destruct (Hold A rA HrA) as (_ & _ & Hlt & _).
      destruct (Hinfo_old rA i Hlt Hi) as (i' & Hi' & _ & _ & Hsub).
      exists i'. split; [|by apply Hsub]. unfold get_info.
      by rewrite Href, decide_False, HrA.
Qed.

Lemma distinct_ids_subset l l' :
  (∀ n, n ∈ l → n ∈ l') → distinct_ids l' → distinct_ids l.
Proof. intros Hsub Hd n1 n2 cp1 cp2 H1 H2. apply Hd; by apply Hsub. Qed.

Lemma add_all_preserves curves :
  faithful_kernel →
  ∀ done s s',
    registry_of done s → NoDup curves → (∀ n, n ∈ curves → n ∉ done) →
    distinct_ids (curves ++ done) →
    add_all curves s = (Ok tt, s') → registry_of (rev curves ++ done) s'.
Proof.
  intros HK. induction curves as [|c rest IH]; intros done s s' Hreg Hnd Hnew Hdist H;
    simpl in H.
  - by injection H as <-.
  - bind_inv H as u s1 Hadd. destruct u.
    apply NoDup_cons in Hnd as [Hc Hnd].
    apply (add_preserves done c s s1 HK Hreg) in Hadd.
    + apply (IH (c :: done)) in H; [|done|done| |].
      * simpl. by rewrite <- app_assoc.
      * intros n Hn [->|Hd]%elem_of_cons; [done|]. apply (Hnew n); [by right|done].
      * eapply distinct_ids_subset; [|exact Hdist].
        intros n. simpl. repeat (rewrite elem_of_app || rewrite elem_of_cons). naive_solver.
    + apply Hnew. by left.
    + eapply distinct_ids_subset; [|exact Hdist].
      intros n. simpl. repeat (rewrite elem_of_app || rewrite elem_of_cons). naive_solver.
Qed.

(** C7: with a kernel whose [IntersectWithAll] is faithful, after any
    sequence of calls of [add], each awaited, on curves with different
    names and planar curves with different [Id]s, from a new database: for
    registered curves A and B whose placements are the same and whose
    planar curves cross, B is in the [touched] set of A and A is in the
    [touched] set of B; so the one holds if and only if the other does. *)
Theorem touched_is_symmetric_after_adds
    (xy : Placement) (store : GeometryStore) (curves : list SimpleName) (s : State) :
  faithful_kernel → NoDup curves → distinct_ids curves →
  add_all curves (new_PlanarCurveDatabase xy store) = (Ok tt, s) →
  ∀ A B cA cB pA pB,
    registered s A cA pA → registered s B cB pB →
    isSamePlacement pA pB = true → isSamePlacement pB pA = true →
    crossing cA cB →
    (touches s A B ↔ touches s B A) ∧ touches s A B ∧ touches s B A.
Proof.
  intros HK Hnd Hdist H A B cA cB pA pB HA HB H1 H2 Hc.
  apply (add_all_preserves curves HK []) in H as (_ & _ & _ & R3); [|..].
  - assert (touches s A B) by (by apply (R3 A B cA cB pA pB)).
    assert (touches s B A).
    { apply (R3 B A cB cA pB pA); [done..|]. by apply (kernel_symmetric HK). }
    by split_and!.
  - split_and!; simpl; [lia|lia|apply NoDup_nil_2| |].
    + intros n r Hr. done.
    + intros A' B' ? ? ? ? (r & Hr & _). done.
  - done.
  - intros n _ Hn. by apply elem_of_nil in Hn.
  - by rewrite app_nil_r.
Qed.

(** ** The loops end *)

Lemma ends_bind {A B} (m : M A) (k : A → M B) :
  ends m → (∀ a, ends (k a)) → ends (bind m k).
Proof.
  intros Hm Hk s. unfold bind. specialize (Hm s).
  destruct (m s) as [[a| |] s1]; simpl in *; [apply Hk|done|done].
Qed.

Lemma ends_ret {A} (a : A) : ends (ret a).
Proof. by intros s. Qed.

Lemma ends_throw {A} : ends (@throw _ A).
Proof. by intros s. Qed.

Lemma ends_unwrap {A} (o : option A) : ends (unwrap o).
Proof. destruct o; [apply ends_ret|apply ends_throw]. Qed.

Lemma ends_gets {A} (f : State → A) : ends (gets f).
Proof. by intros s. Qed.

Lemma ends_modify f : ends (modify f).
Proof. by intros s. Qed.

Lemma ends_use_info r : ends (use_info r).
Proof. intros s. unfold use_info. destruct r as [r|]; [|done]. by destruct (info_at s r). Qed.

Lemma ends_attempt {A} (m : M A) : ends (attempt m).
Proof. by intros s. Qed.

Lemma ends_for_of {A} (l : list A) (body : A → M unit) :
  (∀ x, ends (body x)) → ends (for_of l body).
Proof.
  intros Hb. induction l as [|x l IH]; simpl; [apply ends_ret|].
  apply ends_bind; [apply Hb|]. intros _. exact IH.
Qed.

Lemma ends_addFragments instance pl result : ends (addFragments instance pl result).
Proof.
  induction result as [|tr rest IH]; simpl; [apply ends_ret|].
  apply ends_bind; [by intros s|]. intros p.
  apply ends_bind; [exact IH|]. intros views. apply ends_ret.
Qed.

Lemma ends_updateCurve instance result pl : ends (updateCurve instance result pl).
Proof.
  unfold updateCurve. apply ends_bind; [apply ends_gets|]. intros r.
  apply ends_bind; [apply ends_use_info|]. intros ri.
  apply ends_bind; [apply ends_for_of; intros n; apply ends_modify|]. intros _.
  apply ends_bind; [apply ends_addFragments|]. intros views. apply ends_modify.
Qed.

Lemma ends_addJoint cross p2i : ends (addJoint cross p2i).
Proof.
  unfold addJoint. apply ends_bind; [apply ends_gets|]. intros info1.
  apply ends_bind; [apply ends_gets|]. intros info2.
  destruct (_ && _); [apply ends_ret|].
  apply ends_bind.
  { apply ends_bind; [apply ends_use_info|]. intros i1.
    destruct (Qeq_bool _ _); apply ends_modify. }
  intros _. destruct (Qeq_bool _ _); [|destruct (Qeq_bool _ _)].
  - apply ends_bind; [apply ends_use_info|]. intros i2. apply ends_modify.
  - apply ends_bind; [apply ends_use_info|]. intros i2. apply ends_modify.
  - apply ends_ret.
Qed.

Lemma ends_walk info curve1 p2i visited crosses :
  ∀ start0 trims tp, ends (walk info curve1 p2i visited crosses start0 trims tp).
Proof.
  induction crosses as [|cross rest IH]; intros start0 trims tp; simpl; [apply ends_ret|].
  apply ends_bind; [apply ends_unwrap|]. intros id.
  apply ends_bind; [apply ends_unwrap|]. intros _.
  apply ends_bind; [apply ends_use_info|]. intros i.
  apply ends_bind; [apply ends_modify|]. intros _. apply IH.
Qed.

Lemma ends_loop_body all p2i pl tp visited id current :
  ends (loop_body all p2i pl tp visited id current).
Proof.
  unfold loop_body. apply ends_bind; [apply ends_unwrap|]. intros name.
  apply ends_bind; [apply ends_unwrap|]. intros _.
  destruct (sort_crosses _) as [|first sorted].
  - apply ends_bind; [apply ends_attempt|]. intros p. apply ends_ret.
  - apply ends_bind; [apply ends_gets|]. intros info.
    apply ends_bind.
    { destruct (_ && _); [|apply ends_ret].
      apply ends_bind; [apply ends_addJoint|]. intros _. apply ends_addJoint. }
    intros _. apply ends_bind; [apply ends_walk|]. intros r.
    apply ends_bind; [apply ends_attempt|]. intros p. apply ends_ret.
Qed.

(** What the walk leaves to process was to process or is not visited. *)
Lemma walk_unvisited info curve1 p2i visited crosses :
  ∀ start0 trims tp s res s',
    walk info curve1 p2i visited crosses start0 trims tp s = (Ok res, s') →
    ∀ k, k ∈ res.2.*1 → k ∈ tp.*1 ∨ k ∉ visited.
Proof.
  induction crosses as [|cross rest IH]; intros start0 trims tp s res s' H k Hk.
  - injection H as <- <-. by left.
  - apply walk_cons_Ok in H as (id & r & i & _ & _ & _ & _ & H).
    destruct (IH _ _ _ _ _ _ H k Hk) as [Hin|?]; [|by right].
    destruct (decide (Id (c3d.curve (c3d.on2 cross)) ∈ visited)) as [?|Hnv]; [by left|].
    apply fst_map_set in Hin as [->|?]; [by right|by left].
Qed.

(** The promise of a turn never asks for more turns, and what a turn leaves
    to process is not visited. *)
Lemma loop_body_next all p2i pl tp visited id current s r s1 :
  (∀ k, k ∈ tp.*1 → k ∉ visited) → (id, current) ∈ tp →
  loop_body all p2i pl tp visited id current s = (Ok r, s1) →
  id ∈ p2i.*1 ∧ r.2.2 = set_add id visited ∧ r.1 ≠ OutOfFuel
  ∧ ∀ k, k ∈ r.2.1.*1 → k ∉ r.2.2.
Proof.
  intros Htp Hhead H. apply loop_body_Ok in H as (name & Hname & _ & Hvis & Hcase).
  assert (Hdel : ∀ k, k ∈ (map_delete id tp).*1 → k ∉ set_add id visited).
  { intros k [Hne Hk]%fst_map_delete [?|?]%elem_of_set_add; [done|]. by apply (Htp k). }
  split_and!; [by eapply map_get_Some_fst|done|..];
    destruct (sort_crosses _) as [|first rest].
  - destruct Hcase as [_ Hup]. intros Hr. rewrite Hr in Hup.
    by apply (ends_updateCurve name [mkTrim (Whole current) (-1) (-1)] pl s); rewrite Hup.
  - destruct Hcase as (s2 & s3 & trims & _ & _ & Hup). intros Hr. rewrite Hr in Hup.
    by apply (ends_updateCurve name trims pl s3); rewrite Hup.
  - destruct Hcase as [-> _]. rewrite Hvis. exact Hdel.
  - destruct Hcase as (s2 & s3 & trims & _ & Hw & _). rewrite Hvis. intros k Hk.
    apply (walk_unvisited _ _ _ _ _ _ _ _ _ _ _ Hw) in Hk as [Hk|Hk]; [by apply Hdel|done].
Qed.

Lemma process_ends fuel all p2i pl :
  ∀ tp visited promises s,
    Forall (fun p => p ≠ OutOfFuel) promises →
    NoDup visited → (∀ k, k ∈ visited → k ∈ p2i.*1) →
    (∀ k, k ∈ tp.*1 → k ∉ visited) →
    length p2i < fuel + length visited →
    match fst (process fuel all p2i pl tp visited promises s) with
    | Ok ps => Forall (fun p => p ≠ OutOfFuel) ps
    | Throw => True
    | OutOfFuel => False
    end.
Proof.
  induction fuel as [|fuel IH]; intros tp visited promises s Hps Hnd Hsub Htp Hfuel.
  - exfalso. assert (length visited ≤ length p2i.*1); [|rewrite length_fmap in *; lia].
    apply submseteq_length, NoDup_submseteq; [done|]. intros k. apply Hsub.
  - destruct tp as [|[id current] tp]; simpl; [done|].
    unfold bind. pose proof (ends_loop_body all p2i pl ((id, current) :: tp) visited id current s) as He.
    destruct (loop_body _ _ _ _ _ _ _ s) as [[r| |] s1] eqn:Hbody; simpl in He; [|done|done].
    apply loop_body_next in Hbody as (Hid & Hvis & Hp & Hnext); [|done|by left].
    assert (Hidv : id ∉ visited) by (apply Htp; by left).
    apply IH.
    + apply Forall_app. split; [done|]. by constructor.
    + rewrite Hvis. by apply NoDup_set_add.
    + rewrite Hvis. intros k [->|?]%elem_of_set_add; [done|by apply Hsub].
    + done.
    + rewrite Hvis. unfold set_add. rewrite decide_False, length_app by done. simpl. lia.
Qed.

Lemma Promise_all_ends promises s :
  Forall (fun p => p ≠ OutOfFuel) promises → fst (Promise_all promises s) ≠ OutOfFuel.
Proof.
  induction 1 as [|[[]| |] rest Hp Hrest IH]; simpl; done.
Qed.

(** [add] always ends: the loop takes at most one turn for each planar
    curve it has named. *)
Lemma add_ends N : ends (add N).
Proof.
  unfold add. apply ends_bind; [apply ends_modify|]. intros _.
  apply ends_bind; [apply ends_unwrap|]. intros inst.
  apply ends_bind.
  { unfold planarizeAndNormalize. destruct (curve3d2curve2d _) as [[c p]|]; [|apply ends_ret].
    apply ends_bind; [|intros ?; apply ends_ret].
    intros s. unfold normalizePlacement. by destruct (find _ _). }
  intros [[cN pN]|]; [|apply ends_ret].
  apply ends_bind; [apply ends_gets|]. intros entries.
  apply ends_bind.
  { generalize (@nil (Z * Z)) (@nil Curve). induction entries as [|[n r] rest IH];
      intros p2i all; simpl; [apply ends_ret|].
    apply ends_bind; [apply ends_use_info|]. intros ri.
    apply ends_bind; [apply ends_gets|]. intros planar.
    apply ends_bind; [apply ends_unwrap|]. intros c. apply IH. }
  intros collected.
  apply ends_bind; [apply ends_gets|]. intros counter0.
  apply ends_bind; [apply ends_modify|]. intros _.
  apply ends_bind; [apply ends_modify|]. intros _.
  apply ends_bind; [by intros s|]. intros info.
  apply ends_bind; [apply ends_modify|]. intros _.
  intros s. unfold bind.
  pose proof (process_ends (S (length (map_set (Id cN) N collected.1)))
                (collected.2 ++ [cN]) (map_set (Id cN) N collected.1) pN
                [(Id cN, cN)] [] [] s) as Hp.
  destruct (process _ _ _ _ _ _ _ s) as [[ps| |] s1]; simpl in *; [|done|].
  - apply Promise_all_ends, Hp; [constructor|apply NoDup_nil_2| | |lia].
    + intros k Hk. by apply elem_of_nil in Hk.
    + intros k _ Hk. by apply elem_of_nil in Hk.
  - intros _. apply Hp; [constructor|apply NoDup_nil_2| | |lia].
    + intros k Hk. by apply elem_of_nil in Hk.
    + intros k _ Hk. by apply elem_of_nil in Hk.
Qed.

Lemma add_all_ends curves : ends (add_all curves).
Proof.
  induction curves as [|c rest IH]; simpl; [apply ends_ret|].
  apply ends_bind; [apply add_ends|]. intros _. exact IH.
Qed.

Lemma touched_registered_check_sound s :
  touched_registered_check s = true → touched_registered s.
Proof.
  intros Hc x y (i & Hi & Hy). unfold get_info in Hi.
  destruct (get_ref s x) as [r|] eqn:Hr; [|done].
  apply map_get_Some_elem_of, list_elem_of_In in Hr.
  unfold touched_registered_check in Hc. rewrite forallb_forall in Hc.
  specialize (Hc _ Hr). simpl in Hc. rewrite Hi in Hc. rewrite forallb_forall in Hc.
  apply list_elem_of_In in Hy. specialize (Hc _ Hy). by apply bool_decide_eq_true in Hc.
Qed.

(** ** findWithSamePlacement *)

Lemma collect_coplanar pl entries : ∀ p2i all s res s',
  collect pl entries p2i all s = (Ok res, s') →
  coplanar pl entries.*2 (map Some all) s = (Ok (map Some res.2), s).
Proof.
  induction entries as [|[n r] rest IH]; intros p2i all s res s' H; simpl in H.
  - by injection H as <- <-.
  - bind_inv H as ri s1 H1. apply use_info_Ok in H1 as (Hr & Hi & ->).
    bind_inv H as planar s1 H1. injection H1 as <- <-.
    bind_inv H as curve s1 H1. apply unwrap_Ok in H1 as [Hc ->].
    apply IH in H. simpl. injection Hr as ->.
    rewrite (bind_run _ _ _ _ _ (use_info_Some _ _ _ Hi)). simpl.
    unfold bind at 1, gets at 1. rewrite Hc.
    destruct (isSamePlacement pl _); [|done]. by rewrite map_app in H.
Qed.

(** X1: when the collection loop of [add] succeeds for a placement, it has
    gathered the curves [findWithSamePlacement] returns for that placement,
    in the same order, and none of them is [undefined]; neither changes
    the database. *)
Theorem findWithSamePlacement_gives_the_candidates_of_add
    (placement0 : Placement) (s s' : State)
    (res : list (Curve2dId * SimpleName) * list Curve) :
  collect placement0 (live_curve2info s) [] [] s = (Ok res, s') →
  findWithSamePlacement placement0 s = (Ok (map Some res.2), s).
Proof.
  intros H. apply collect_coplanar in H. exact H.
Qed.

Lemma coplanar_spec pl : ∀ candidates acc s,
  (∀ r, r ∈ candidates →
     ∃ i c, info_at s r = Some i
            ∧ map_get (planarCurve i) (live_id2planarCurve s) = Some c) →
  ∃ found, coplanar pl candidates (map Some acc) s = (Ok (map Some (acc ++ found)), s)
    ∧ ∀ c, c ∈ found ↔
           ∃ r p, r ∈ candidates ∧ entry_curve s r c p ∧ isSamePlacement pl p = true.
Proof.
  induction candidates as [|r rest IH]; intros acc s Hc; simpl.
  - exists []. rewrite app_nil_r. split; [done|]. intros c. split.
    + intros H. by apply elem_of_nil in H.
    + intros (r & p & H & _). by apply elem_of_nil in H.
  - destruct (Hc r) as (i & c & Hi & Hget); [by left|].
    rewrite (bind_run _ _ _ _ _ (use_info_Some _ _ _ Hi)). simpl.
    unfold bind at 1, gets at 1. rewrite Hget.
    destruct (isSamePlacement pl (placement i)) eqn:Hsame.
    + destruct (IH (acc ++ [c]) s) as (found & Hrun & Hfound).
      { intros r' ?. apply Hc. by right. }
      exists (c :: found). rewrite map_app in Hrun. simpl in Hrun.
      rewrite Hrun, <- app_assoc. split; [done|].
      intros c'. rewrite elem_of_cons, Hfound. split.
      * intros [->|(r' & p & Hr' & He & Hp)].
        -- exists r, (placement i). split_and!; [by left| |done]. by exists i.
        -- exists r', p. split_and!; [by right|done..].
      * intros (r' & p & [->|Hr']%elem_of_cons & He & Hp).
        -- left. destruct He as (i' & Hi' & Hget' & _). congruence.
        -- right. by exists r', p.
    + destruct (IH acc s) as (found & Hrun & Hfound).
      { intros r' ?. apply Hc. by right. }
      exists found. split; [done|]. intros c'. rewrite Hfound. split.
      * intros (r' & p & Hr' & He & Hp). exists r', p. split_and!; [by right|done..].
      * intros (r' & p & [->|Hr']%elem_of_cons & He & Hp).
        -- destruct He as (i' & Hi' & _ & <-). congruence.
        -- by exists r', p.
Qed.

Lemma registry_of_new xy store : registry_of [] (new_PlanarCurveDatabase xy store).
Proof.
  split_and!; simpl; [lia|lia|apply NoDup_nil_2| |].
  - intros n r Hr. done.
  - intros A' B' ? ? ? ? (r & Hr & _). done.
Qed.

(** X2: in a registry as calls of [add] leave it, [findWithSamePlacement]
    neither throws nor returns an [undefined] element and leaves the
    database as it is; a planar curve is in the result exactly when it is
    the planar curve of a registered curve whose placement is the same as
    the one asked for. *)
Theorem findWithSamePlacement_lists_the_curves_of_the_placement
    (done : list SimpleName) (placement0 : Placement) (s : State) :
  registry_of done s →
  ∃ found,
    findWithSamePlacement placement0 s = (Ok (map Some found), s)
    ∧ ∀ c, c ∈ found ↔
           ∃ n p, registered s n c p ∧ isSamePlacement placement0 p = true.
Proof.
  intros (_ & Hnd & Hreg & _).
  destruct (coplanar_spec placement0 (live_curve2info s).*2 [] s) as (found & Hrun & Hfound).
  { intros r Hr. apply list_elem_of_fmap in Hr as ([n r'] & -> & He). simpl.
    apply map_get_elem_of in He; [|done].
    destruct (Hreg n r' He) as (_ & i & c & p & Hi & _ & Hc & _). by exists i, c. }
  exists found. split; [exact Hrun|].
  intros c. rewrite Hfound. split.
  - intros (r & p & Hr & He & Hp).
    apply list_elem_of_fmap in Hr as ([n r'] & -> & Hin). simpl in He.
    exists n, p. split; [|done]. exists r'. split; [|done].
    by apply map_get_elem_of.
  - intros (n & p & (r & Hr & He) & Hp). exists r, p. split_and!; [|done..].
    apply list_elem_of_fmap. exists (n, r). split; [done|].
    by apply map_get_Some_elem_of.
Qed.

(** ** cascade, whatever the registry *)

Lemma cascade_walk_ends s : ∀ fuel visited walk0,
  potential s visited walk0 < fuel → cascade_walk fuel s visited walk0 ≠ OutOfFuel.
Proof.
  intros fuel. induction fuel as [|fuel IH]; intros visited walk0 Hfuel; [lia|].
  destruct walk0 as [|touchee rest]; simpl; [done|].
  rewrite potential_weight in Hfuel. simpl in Hfuel.
  destruct (decide (touchee ∈ visited)) as [Hin|Hin].
  - apply IH. rewrite potential_weight. lia.
  - destruct (get_info s touchee) as [i|] eqn:Hi; [|done].
    apply IH. unfold get_info, get_ref in Hi.
    destruct (map_get touchee (live_curve2info s)) as [r|] eqn:Hr; [|done].
    pose proof (sum_weight_visit s visited touchee r i _ Hr Hi Hin).
    rewrite potential_weight, length_app, length_rev. lia.
Qed.

Lemma ends_cascade X tx : ends (cascade X tx).
Proof.
  intros s. unfold cascade. destruct (get_info s X) as [info|]; [|done].
  destruct (cascade_walk _ _ _ _) eqn:Hw; simpl; [done..|].
  by apply cascade_walk_ends in Hw; [|lia].
Qed.

Lemma cascade_walk_registered s fuel : ∀ visited walk0 v,
  cascade_walk fuel s visited walk0 = Ok v →
  ∀ y, y ∈ v → y ∈ visited ∨ is_Some (get_info s y).
Proof.
  induction fuel as [|fuel IH]; intros visited walk0 v.
  - destruct walk0; simpl; [|done]. intros [= <-]. auto.
  - destruct walk0 as [|touchee rest]; simpl; [intros [= <-]; auto|].
    destruct (decide (touchee ∈ visited)) as [Hin|Hin]; [apply IH|].
    destruct (get_info s touchee) as [i|] eqn:Hi; [|done].
    intros Hv y Hy. destruct (IH _ _ _ Hv y Hy) as [Hy'|]; [|by right].
    apply elem_of_app in Hy' as [?| ->%list_elem_of_singleton]; [by left|].
    right. by rewrite Hi.
Qed.

Lemma reaches_from_registered s X y : reaches s X y → is_Some (get_info s X).
Proof.
  induction 1 as [y (i & Hi & _)|]; [|done]. by rewrite Hi.
Qed.

(** X3: if following [touched] links from [X] reaches a curve that has no
    entry in the registry, [cascade(X)] from the empty transaction throws,
    at the dereference of the missing entry, and leaves the database as it
    is. *)
Theorem cascade_throws_at_a_reached_curve_without_entry
    (s : State) (X y : SimpleName) :
  reaches s X y → get_info s y = None →
  cascade X empty_transaction s = (Throw, s).
Proof.
  intros Hr Hy. destruct (reaches_from_registered s X y Hr) as [info Hinfo].
  unfold cascade, empty_transaction. cbn [dirty deleted added]. rewrite Hinfo.
  destruct (cascade_walk _ _ _ _) as [v| |] eqn:Hw; [|done|].
  - exfalso. destruct (cascade_walk_closed s _ _ _ _ Hw) as (_ & H2 & H3).
    { intros y0 z Hy0. by apply not_elem_of_nil in Hy0. }
    assert (Hin : y ∈ v).
    { clear Hy. induction Hr as [y' (i & Hi & Hy')|y' z _ IH Hyz].
      - apply H2, elem_of_rev. rewrite Hinfo in Hi. by injection Hi as <-.
      - by apply (H3 y'). }
    destruct (cascade_walk_registered s _ _ _ _ Hw y Hin) as [Hnil|[i Hi]].
    + by apply not_elem_of_nil in Hnil.
    + congruence.
  - by apply cascade_walk_ends in Hw; [|lia].
Qed.

(** X4: [cascade] called with a transaction of earlier cascades: when the
    [touched] sets name registered curves only and the [dirty] set it is
    given is closed under [touched] links, it adds [X] to [deleted],
    leaves [added] alone, and returns as [dirty] the set it was given
    together with the curves reached from [X]. *)
Theorem cascade_adds_what_is_reached_to_a_closed_dirty_set
    (s : State) (X : SimpleName) (tx : Transaction) :
  touched_registered s →
  (∀ y z, y ∈ dirty tx → touches s y z → z ∈ dirty tx) →
  ∃ tx', cascade X tx s = (Ok tx', s)
         ∧ deleted tx' = set_add X (deleted tx) ∧ added tx' = added tx
         ∧ ∀ y, y ∈ dirty tx' ↔ y ∈ dirty tx ∨ reaches s X y.
Proof.
  intros Hreg Hclosed. unfold cascade.
  destruct (get_info s X) as [info|] eqn:Hinfo.
  - destruct (cascade_walk_runs s Hreg
                (S (potential s (dirty tx) (rev (touched info))))
                (dirty tx) (rev (touched info))) as [v Hv]; [| lia |].
    { intros w Hw. rewrite elem_of_rev in Hw. apply (Hreg X). exists info; by split. }
    rewrite Hv. eexists. split_and!; [done..|]. cbn [dirty].
    intros y. split.
    + revert y.
      eapply (cascade_walk_sound s (λ y, y ∈ dirty tx ∨ reaches s X y)); [|exact Hv| |].
      * intros y z [Hy|Hy] Hyz; [left; by apply (Hclosed y)|right; by eapply reaches_step].
      * intros y Hy. by left.
      * intros w Hw. rewrite elem_of_rev in Hw. right. apply reaches_touch.
        exists info; by split.
    + destruct (cascade_walk_closed s _ _ _ _ Hv) as (H1 & H2 & H3).
      { intros y0 z Hy0 Hyz. left. by apply (Hclosed y0). }
      intros [Hy|Hr]; [by apply H1|].
      induction Hr as [y' (i & Hi & Hy)|y' z _ IH Hyz].
      * apply H2, elem_of_rev. rewrite Hinfo in Hi. by injection Hi as <-.
      * by apply (H3 y').
  - eexists. split_and!; [done..|]. simpl. intros y. split; [by left|].
    intros [Hy|Hr]; [done|].
    apply reaches_from_registered in Hr as [i Hi]. congruence.
Qed.

(** ** removeInfo of a registered curve *)

Lemma live_write_curve2info m s :
  is_Some (curve2infoObjs (heap s) !! curve2info (this s)) →
  live_curve2info (write_curve2info m s) = m.
Proof.
  intros [old Hold]. unfold live_curve2info, write_curve2info. simpl.
  rewrite list_lookup_insert_eq; [done|]. by eapply lookup_lt_Some.
Qed.

Lemma get_ref_Some_live s n r :
  get_ref s n = Some r → is_Some (curve2infoObjs (heap s) !! curve2info (this s)).
Proof.
  unfold get_ref, live_curve2info.
  destruct (curve2infoObjs (heap s) !! curve2info (this s)); [eauto|done].
Qed.

Lemma for_of_removeItem_run l : ∀ s,
  ∃ s', for_of l removeItem s = (Ok tt, s')
    ∧ heap s' = heap s ∧ this s' = this s ∧ calls s' = calls s
    ∧ nextName (db s') = nextName (db s)
    ∧ ∀ f, map_get f (items (db s'))
           = if decide (f ∈ l) then None else map_get f (items (db s)).
Proof.
  induction l as [|x l IH]; intros s; simpl.
  - exists s. split_and!; [done..|]. intros f.
    destruct (decide (f ∈ [])) as [Hf|]; [by apply elem_of_nil in Hf|done].
  - unfold bind at 1. unfold removeItem at 1, modify.
    destruct (IH (set_db (mkStore (map_delete x (items (db s))) (nextName (db s))) s))
      as (s' & Hrun & Hh & Ht & Hc & Hn & Hitems).
    exists s'. split_and!; [done..|]. intros f. rewrite Hitems. simpl.
    rewrite map_get_delete.
    destruct (decide (f = x)) as [->|Hne].
    + rewrite (decide_True (P := x ∈ x :: l)); [|by left]. by destruct (decide (x ∈ l)).
    + destruct (decide (f ∈ l)) as [Hin|Hin].
      * rewrite decide_True; [done|by right].
      * rewrite decide_False; [done|]. intros [?|?]%elem_of_cons; done.
Qed.

Lemma removeInfo_registered s c r i :
  get_ref s c = Some r → info_at s r = Some i →
  ∃ s', removeInfo c s = (Ok (Some i), s')
    ∧ this s' = this s ∧ infoObjs (heap s') = infoObjs (heap s)
    ∧ length (curve2infoObjs (heap s')) = length (curve2infoObjs (heap s))
    ∧ planarObjs (heap s') = planarObjs (heap s)
    ∧ placementObjs (heap s') = placementObjs (heap s)
    ∧ live_curve2info s' = map_delete c (live_curve2info s)
    ∧ nextName (db s') = nextName (db s)
    ∧ (∀ f, map_get f (items (db s'))
            = if decide (f ∈ fragments i) then None else map_get f (items (db s))).
Proof.
  intros Hr Hi. pose proof (get_ref_Some_live s c r Hr) as Hlive.
  unfold removeInfo, bind at 1, modify at 1, bind at 1, gets at 1.
  rewrite get_info_record_call. unfold get_info. rewrite Hr, Hi.
  unfold bind at 1, modify at 1.
  set (s1 := write_curve2info _ _).
  destruct (for_of_removeItem_run (fragments i) s1)
    as (s' & Hrun & Hh & Ht & Hc & Hn & Hitems).
  unfold bind at 1. rewrite Hrun. exists s'.
  split_and!; [done|by rewrite Ht|by rewrite Hh|by rewrite Hh; simpl; rewrite length_insert
              |by rewrite Hh|by rewrite Hh| |done|done].
  unfold live_curve2info at 1. rewrite Hh, Ht.
  apply (live_write_curve2info _ (record_call (CallRemoveInfo c) s)). exact Hlive.
Qed.

Lemma removeInfo_unregistered s c :
  get_info s c = None → removeInfo c s = (Ok None, record_call (CallRemoveInfo c) s).
Proof.
  intros Hi. unfold removeInfo, bind, modify, gets. by rewrite get_info_record_call, Hi.
Qed.

(** X5: [removeInfo] of a registered curve returns its [CurveInfo]; after it
    [lookup] of the curve answers [undefined], every other entry and every
    [CurveInfo] object is as before, and the geometry store has lost the
    fragments of the curve and nothing else. *)
Theorem removeInfo_takes_out_the_entry_and_the_fragments
    (s : State) (curve : SimpleName) (r : nat) (info : CurveInfo) :
  get_ref s curve = Some r → info_at s r = Some info →
  ∃ s', removeInfo curve s = (Ok (Some info), s')
    ∧ lookup curve s' = (Ok None, s')
    ∧ (∀ n, n ≠ curve → get_ref s' n = get_ref s n)
    ∧ (∀ r', info_at s' r' = info_at s r')
    ∧ (∀ f, map_get f (items (db s'))
            = if decide (f ∈ fragments info) then None else map_get f (items (db s))).
Proof.
  intros Hr Hi.
  destruct (removeInfo_registered s curve r info Hr Hi)
    as (s' & Hrun & Ht & Hio & _ & _ & _ & Hlive & _ & Hitems).
  exists s'.
  assert (Hget : ∀ n, get_ref s' n = map_get n (map_delete curve (live_curve2info s))).
  { intros n. unfold get_ref. by rewrite Hlive. }
  split_and!.
  - done.
  - unfold lookup, gets, get_info. rewrite Hget, map_get_delete. by rewrite decide_True.
  - intros n Hn'. rewrite Hget, map_get_delete. by rewrite decide_False.
  - intros r'. unfold info_at. by rewrite Hio.
  - exact Hitems.
Qed.

(** ** The writes of add and of removeInfo *)

Section Writes.
Context (R : State → State → Prop) `{!Reflexive R, !Transitive R}.
Context (keys : SimpleName → Prop).
Hypothesis R_call : ∀ c s, R s (record_call c s).
Hypothesis R_extends : ∀ s s', extends s s' → R s s'.
Hypothesis R_placements : ∀ m s, R s (write_placements m s).
Hypothesis R_counter : ∀ s, R s (next_counter s).
Hypothesis R_planar : ∀ m s, R s (write_id2planarCurve m s).
Hypothesis R_alloc : ∀ i s, R s (snd (alloc_info i s)).
Hypothesis R_set : ∀ N r s,
  keys N → R s (write_curve2info (map_set N r (live_curve2info s)) s).
Hypothesis R_delete : ∀ N s,
  keys N → R s (write_curve2info (map_delete N (live_curve2info s)) s).

Lemma stable_collect_any pl entries :
  ∀ p2i all, stable R (collect pl entries p2i all).
Proof.
  induction entries as [|[n r] rest IH]; intros p2i all; simpl.
  - by apply stable_ret.
  - apply stable_bind; [done|by apply stable_use_info|]. intros ri.
    apply stable_bind; [done|by apply stable_gets|]. intros planar.
    apply stable_bind; [done|by apply stable_unwrap|]. intros c. apply IH.
Qed.

Lemma stable_add_writes N : keys N → stable R (add N).
Proof.
  intros HN. unfold add.
  apply stable_bind; [done|by apply stable_modify|]. intros _.
  apply stable_bind; [done|by apply stable_unwrap|]. intros inst.
  apply stable_bind; [done| |].
  { unfold planarizeAndNormalize. destruct (curve3d2curve2d _) as [[c p]|].
    - apply stable_bind; [done| |intros ?; by apply stable_ret].
      intros s. unfold normalizePlacement. destruct (find _ _); simpl; [done|].
      apply R_placements.
    - by apply stable_ret. }
  intros [[c p]|]; [|by apply stable_ret].
  apply stable_bind; [done|by apply stable_gets|]. intros entries.
  apply stable_bind; [done|apply stable_collect_any|]. intros collected.
  apply stable_bind; [done|by apply stable_gets|]. intros counter0.
  apply stable_bind; [done|by apply stable_modify|]. intros _.
  apply stable_bind; [done|apply stable_modify; intros s; apply R_planar|]. intros _.
  apply stable_bind; [done|intros s; apply R_alloc|]. intros info.
  apply stable_bind; [done|apply stable_modify; intros s; by apply R_set|]. intros _.
  apply stable_bind; [done| |intros ?; by apply stable_Promise_all].
  eapply stable_weaken; [apply R_extends|apply stable_process].
Qed.

Lemma stable_removeInfo_writes c : keys c → stable R (removeInfo c).
Proof.
  intros Hc. unfold removeInfo.
  apply stable_bind; [done|by apply stable_modify|]. intros _.
  apply stable_bind; [done|by apply stable_gets|]. intros [i|]; [|by apply stable_ret].
  apply stable_bind; [done|apply stable_modify; intros s; by apply R_delete|]. intros _.
  apply stable_bind; [done| |intros ?; by apply stable_ret].
  apply stable_for_of; [done..|]. intros n.
  eapply stable_weaken; [apply R_extends|apply stable_removeItem].
Qed.

Lemma stable_readd_writes skip l :
  (∀ c, c ∈ l → keys c) → ∀ promises, stable R (add_in_turn skip l promises).
Proof.
  induction l as [|c rest IH]; intros Hk promises; simpl; [by apply stable_ret|].
  destruct (skip c); [apply IH; intros ? ?; apply Hk; by right|].
  apply stable_bind; [done|by apply stable_unwrap|]. intros _.
  apply stable_bind; [done| |].
  - apply stable_attempt, stable_add_writes, Hk. by left.
  - intros p. apply IH. intros ? ?. apply Hk. by right.
Qed.

Lemma stable_for_of_in {A} (l : list A) (body : A → M unit) :
  (∀ x, x ∈ l → stable R (body x)) → stable R (for_of l body).
Proof.
  induction l as [|x l IH]; intros Hb; simpl; [by apply stable_ret|].
  apply stable_bind; [done|apply Hb; by left|]. intros _.
  apply IH. intros y ?. apply Hb. by right.
Qed.

Lemma stable_commit_writes data :
  (∀ c, c ∈ dirty data ++ deleted data ++ added data → keys c) →
  stable R (commit data).
Proof.
  intros Hk. eapply stable_same_run; [apply commit_schedule|].
  apply stable_bind; [done| |intros _].
  { apply stable_for_of_in. intros c Hc.
    apply stable_bind; [done| |intros ?; by apply stable_ret].
    apply stable_removeInfo_writes, Hk. rewrite !elem_of_app. auto. }
  apply stable_bind; [done| |intros _].
  { apply stable_for_of_in. intros c Hc. destruct (bool_decide _); [by apply stable_ret|].
    apply stable_bind; [done| |intros ?; by apply stable_ret].
    apply stable_removeInfo_writes, Hk. rewrite !elem_of_app. auto. }
  apply stable_bind; [done| |intros ?; by apply stable_Promise_all].
  apply stable_readd_writes. intros c [_ Hc]%elem_of_schedule. apply Hk.
  rewrite !elem_of_app. tauto.
Qed.

End Writes.

Global Instance collections_kept_refl : Reflexive collections_kept.
Proof. intros s. by split_and!. Qed.

Global Instance collections_kept_trans : Transitive collections_kept.
Proof.
  intros s1 s2 s3 ((A1 & A2 & A3) & B1 & B2 & B3) ((C1 & C2 & C3) & D1 & D2 & D3).
  split_and!; [congruence..| | |].
  - intros k Hk. rewrite D1, B1; [done..|congruence].
  - intros k Hk. rewrite D2, B2; [done..|congruence].
  - intros k Hk. rewrite D3, B3; [done..|congruence].
Qed.

Lemma collections_kept_extends s s' : extends s s' → collections_kept s s'.
Proof.
  intros (Ht & H1 & H2 & H3 & _). unfold collections_kept. rewrite Ht, H1, H2, H3. by split_and!.
Qed.

Lemma cascade_state X tx s : snd (cascade X tx s) = s.
Proof.
  unfold cascade. destruct (get_info s X); [|done]. by destruct (cascade_walk _ _ _ _).
Qed.

Lemma stable_add_collections N : stable collections_kept (add N).
Proof.
  apply (stable_add_writes collections_kept (λ _, True)); [..|done].
  - intros c s. by split_and!.
  - apply collections_kept_extends.
  - intros m s. split_and!; [done..|]. intros k Hk. simpl.
    by rewrite list_lookup_insert_ne.
  - intros s. by split_and!.
  - intros m s. split_and!; [done..| |done]. intros k Hk. simpl.
    by rewrite list_lookup_insert_ne.
  - intros i s. by split_and!.
  - intros n r s _. split_and!; [done..| |done|done]. intros k Hk. simpl.
    by rewrite list_lookup_insert_ne.
Qed.

Lemma stable_commit_collections data : stable collections_kept (commit data).
Proof.
  apply (stable_commit_writes collections_kept (λ _, True)); [..|done].
  - intros c s. by split_and!.
  - apply collections_kept_extends.
  - intros m s. split_and!; [done..|]. intros k Hk. simpl.
    by rewrite list_lookup_insert_ne.
  - intros s. by split_and!.
  - intros m s. split_and!; [done..| |done]. intros k Hk. simpl.
    by rewrite list_lookup_insert_ne.
  - intros i s. by split_and!.
  - intros n r s _. split_and!; [done..| |done|done]. intros k Hk. simpl.
    by rewrite list_lookup_insert_ne.
  - intros n s _. split_and!; [done..| |done|done]. intros k Hk. simpl.
    by rewrite list_lookup_insert_ne.
Qed.

Lemma stable_remove_collections X : stable collections_kept (remove X).
Proof.
  intros s. unfold remove, bind. pose proof (cascade_state X empty_transaction s) as Hs.
  destruct (cascade X empty_transaction s) as [[tx| |] s1]; simpl in Hs; subst s1;
    [|done|done].
  apply stable_commit_collections.
Qed.

Lemma restore_after_kept s m s1 s2 :
  fields_allocated s → saveToMemento s = (Ok m, s1) → collections_kept s1 s2 →
  restores m s s2.
Proof.
  intros (W1 & W2 & W3) [= <- <-] (_ & K1 & K2 & K3).
  unfold restores, live_curve2info, live_id2planarCurve, live_placements. simpl in *.
  rewrite K1, K2, K3 by lia.
  rewrite !lookup_app_r, !Nat.sub_diag by done. done.
Qed.

(** X6: a memento taken by [saveToMemento] keeps what it was taken with
    through later calls of [add], [commit] and [remove] on the live
    database: restoring it after any one of them (or at once) makes the
    three collections of the database those of the state that was saved,
    key for key and object for object. *)
Theorem restore_brings_back_the_saved_collections
    (s s1 : State) (m : CurveMemento) (N X : SimpleName) (data : Transaction) :
  fields_allocated s → saveToMemento s = (Ok m, s1) →
  restores m s s1 ∧ restores m s (snd (add N s1))
  ∧ restores m s (snd (commit data s1)) ∧ restores m s (snd (remove X s1)).
Proof.
  intros Hw Hsave. split_and!; apply (restore_after_kept s m s1 _ Hw Hsave).
  - done.
  - apply stable_add_collections.
  - apply stable_commit_collections.
  - apply stable_remove_collections.
Qed.

(** X7: [restoreFromMemento(saveToMemento())] leaves what can be observed of
    the registry (the curves with the contents of their [CurveInfo], the
    planar curves, the placements), the counter and the geometry store as
    they were. *)
Theorem restore_of_a_save_changes_nothing (s s1 : State) (m : CurveMemento) :
  saveToMemento s = (Ok m, s1) →
  observe (snd (restoreFromMemento m s1)) = observe s
  ∧ counter (this (snd (restoreFromMemento m s1))) = counter (this s)
  ∧ db (snd (restoreFromMemento m s1)) = db s.
Proof.
  intros H. destruct (restore_save_observe s m s1 H) as [H1 H2].
  split_and!; [done..|]. by injection H as <- <-.
Qed.

(** X8: the copy a memento holds is shallow.  [new Map(this.curve2info)]
    copies the entries, not the [CurveInfo] objects, so a later
    [updateCurve] of a curve that was registered at the save shows through
    the memento: after restoring it, the curve has the entry it had, and
    the ranges recorded for its fragments are those of the later update. *)
Theorem a_memento_shares_the_CurveInfo_objects
    (s s1 s2 : State) (m : CurveMemento) (n : SimpleName) (r : nat)
    (result : list Trim) (pl : Placement) :
  fields_allocated s → saveToMemento s = (Ok m, s1) → get_ref s n = Some r →
  updateCurve n result pl s1 = (Ok tt, s2) →
  get_ref (snd (restoreFromMemento m s2)) n = Some r
  ∧ provenance (snd (restoreFromMemento m s2)) n = map range_of result.
Proof.
  intros Hw Hsave Hr Hup.
  assert (Hk : collections_kept s1 s2).
  { apply collections_kept_extends. eapply stable_Ok; [apply stable_updateCurve|done]. }
  destruct (restore_after_kept s m s1 s2 Hw Hsave Hk) as (Hlive & _).
  assert (Hget : ∀ k, get_ref (snd (restoreFromMemento m s2)) k = get_ref s k).
  { intros k. unfold get_ref. by rewrite Hlive. }
  split; [by rewrite Hget|].
  pose proof (updateCurve_provenance n result pl s1 s2 Hup) as Hp.
  assert (Hs1 : get_ref s1 n = get_ref s n).
  { injection Hsave as <- <-. unfold get_ref, live_curve2info. simpl.
    destruct Hw as (W1 & _). by rewrite lookup_app_l. }
  assert (Hs2 : get_ref s2 n = get_ref s1 n).
  { apply get_ref_extends. eapply stable_Ok; [apply stable_updateCurve|done]. }
  rewrite <- Hp. unfold provenance, get_info. rewrite Hget, Hs2, Hs1. done.
Qed.

(** ** The methods end *)

Lemma ends_removeInfo c : ends (removeInfo c).
Proof.
  unfold removeInfo. apply ends_bind; [apply ends_modify|]. intros _.
  apply ends_bind; [apply ends_gets|]. intros [i|]; [|apply ends_ret].
  apply ends_bind; [apply ends_modify|]. intros _.
  apply ends_bind; [|intros _; apply ends_ret].
  apply ends_for_of. intros n. apply ends_modify.
Qed.

Lemma readd_ends skip l : ∀ promises s,
  Forall (λ p, p ≠ OutOfFuel) promises →
  match fst (add_in_turn skip l promises s) with
  | Ok ps => Forall (λ p, p ≠ OutOfFuel) ps
  | Throw => True
  | OutOfFuel => False
  end.
Proof.
  induction l as [|c rest IH]; intros promises s Hp; simpl; [done|].
  destruct (skip c); [by apply IH|].
  unfold bind at 1. destruct (lookupItemById c); simpl; [|done].
  unfold bind at 1, attempt at 1. apply IH.
  apply Forall_app. split; [done|]. constructor; [apply add_ends|constructor].
Qed.

Lemma ends_commit data : ends (commit data).
Proof.
  intros s0. rewrite (commit_schedule data s0). revert s0. apply ends_bind.
  { apply ends_for_of. intros c. apply ends_bind; [apply ends_removeInfo|].
    intros ?. apply ends_ret. }
  intros _. apply ends_bind.
  { apply ends_for_of. intros c. destruct (bool_decide _); [apply ends_ret|].
    apply ends_bind; [apply ends_removeInfo|]. intros ?. apply ends_ret. }
  intros _ s. unfold bind.
  pose proof (readd_ends (λ _, false) (schedule data) [] s (Forall_nil_2 _)) as H1.
  destruct (add_in_turn _ (schedule data) [] s) as [[ps1| |] s1]; simpl in *; [|done|done].
  by apply Promise_all_ends.
Qed.

(** X9: the loops of the class end, whatever the registry holds.  The
    work-list loop of [add] takes at most one turn for each planar curve it
    has named, and the walk of [cascade] no more turns than its potential
    (also with cycles and with links to missing entries); so [add],
    [cascade], [commit] and [remove] return or throw, and never run on. *)
Theorem add_cascade_commit_and_remove_end
    (curve : SimpleName) (tx data : Transaction) :
  ends (add curve) ∧ ends (cascade curve tx) ∧ ends (commit data) ∧ ends (remove curve).
Proof.
  split_and!.
  - apply add_ends.
  - apply ends_cascade.
  - apply ends_commit.
  - unfold remove. apply ends_bind; [apply ends_cascade|]. intros d. apply ends_commit.
Qed.

(** ** What add registers *)

Lemma add_not_planar N inst s :
  lookupItemById N = Some inst → planar_of N = None →
  add N s = (Ok tt, record_call (CallAdd N) s).
Proof.
  intros Hinst Hp. unfold planar_of in Hp. rewrite Hinst in Hp.
  unfold add, bind, modify, planarizeAndNormalize. rewrite Hinst. cbn [unwrap ret].
  by rewrite Hp.
Qed.

Lemma add_registers N s s' :
  curve2info (this s) < length (curve2infoObjs (heap s)) →
  id2planarCurve (this s) < length (planarObjs (heap s)) →
  add N s = (Ok tt, s') →
  (∀ n, n ≠ N → get_ref s' n = get_ref s n)
  ∧ (∀ r i, info_at s r = Some i → ∃ i', info_at s' r = Some i' ∧ info_grows i i')
  ∧ match planar_of N with
    | None => s' = record_call (CallAdd N) s
    | Some (c, _) =>
        ∃ i, get_ref s' N = Some (length (infoObjs (heap s)))
             ∧ info_at s' (length (infoObjs (heap s))) = Some i
             ∧ planarCurve i = counter (this s)
             ∧ map_get (counter (this s)) (live_id2planarCurve s') = Some c
             ∧ counter (this s') = (counter (this s) + 1)%Z
    end.
Proof.
  intros W1 W2 H.
  destruct (add_Ok N s s' H)
    as [[Hp Hsame]|(cN & p' & pN & sb & p2i0 & all0 & promises & Hp & Hsame & _ & Hproc)].
  - rewrite Hp. split_and!.
    + intros n _. by apply get_ref_same.
    + intros r i Hi. exists i. split; [|done]. by rewrite (info_at_same s s').
    + pose proof H as H'. unfold add in H'. bind_inv H' as u sa Hcall.
      bind_inv H' as inst s0 Hinst. apply unwrap_Ok in Hinst as [Hinst ->].
      rewrite (add_not_planar N inst s Hinst Hp) in H. by injection H as <-.
  - rewrite Hp.
    assert (Hext : extends (register N cN pN sb) s').
    { eapply stable_Ok; [apply stable_process|exact Hproc]. }
    assert (W1' : curve2info (this sb) < length (curve2infoObjs (heap sb))).
    { destruct Hsame as (-> & _ & -> & _). done. }
    assert (W2' : id2planarCurve (this sb) < length (planarObjs (heap sb))).
    { destruct Hsame as (-> & _ & _ & ->). done. }
    destruct (register_spec N cN pN sb W1' W2') as (Rt & Ri & Rl & Rp & _).
    assert (Hio : infoObjs (heap sb) = infoObjs (heap s)) by (by destruct Hsame as (_ & -> & _)).
    assert (Hcnt : counter (this sb) = counter (this s)) by (by destruct Hsame as (-> & _)).
    assert (Hget : ∀ n, get_ref s' n
                        = map_get n (map_set N (length (infoObjs (heap s))) (live_curve2info sb))).
    { intros n. rewrite (get_ref_extends _ _ n Hext). unfold get_ref. by rewrite Rl, Hio. }
    split_and!.
    + intros n Hn. rewrite Hget, map_get_set, decide_False by done.
      apply (get_ref_same s sb n Hsame).
    + intros r i Hi. destruct Hext as (_ & _ & _ & _ & _ & Hgrow). apply Hgrow.
      unfold info_at. rewrite Ri, lookup_app_l; [by rewrite Hio|].
      rewrite Hio. by eapply lookup_lt_Some.
    + destruct Hext as (Ht & _ & Hpl & _ & _ & Hgrow).
      destruct (Hgrow (length (infoObjs (heap s))) (new_CurveInfo (counter (this sb)) pN))
        as (i & Hi & Hpc & _).
      { unfold info_at. rewrite Ri, <- Hio. by rewrite list_lookup_middle. }
      exists i. split_and!.
      * by rewrite Hget, map_get_set, decide_True.
      * exact Hi.
      * by rewrite Hpc.
      * unfold live_id2planarCurve. rewrite Ht, Hpl.
        change (map_get (counter (this s)) (live_id2planarCurve (register N cN pN sb)) = Some cN).
        by rewrite Rp, Hcnt, map_get_set, decide_True.
      * rewrite Ht, Rt. simpl. by rewrite Hcnt.
Qed.

(** X10: a call of [add] that is fulfilled changes no other entry of the
    registry, and keeps every [CurveInfo] object with its planar curve and
    placement, its [touched] set only growing.  For a curve that is not
    planar it changes nothing at all.  For a planar curve it registers the
    curve with a new [CurveInfo] object, stores the planar curve under the
    value of [counter], and increments [counter] by one. *)
Theorem add_registers_a_planar_curve (N : SimpleName) (s s' : State) :
  fields_allocated s →
  add N s = (Ok tt, s') →
  (∀ n, n ≠ N → get_ref s' n = get_ref s n)
  ∧ (∀ r i, info_at s r = Some i → ∃ i', info_at s' r = Some i' ∧ info_grows i i')
  ∧ match planar_of N with
    | None => s' = record_call (CallAdd N) s
    | Some (c, _) =>
        ∃ i, get_ref s' N = Some (length (infoObjs (heap s)))
             ∧ info_at s' (length (infoObjs (heap s))) = Some i
             ∧ planarCurve i = counter (this s)
             ∧ map_get (counter (this s)) (live_id2planarCurve s') = Some c
             ∧ counter (this s') = (counter (this s) + 1)%Z
    end.
Proof. intros (W1 & W2 & _). by apply add_registers. Qed.

(** ** Curves that are not bounded and open *)

Lemma wide_empty_span a : wide (a, a) = false.
Proof.
  destruct (wide (a, a)) eqn:H; [|done]. apply wide_least in H. cbn [fst snd] in H.
  assert (Ha : (a - a == 0)%Q) by ring. rewrite Ha in H. by vm_compute in H.
Qed.

(** X11: the fragments of closed and of unbounded curves.  After a turn of the
    loop of [add] that succeeds for a curve with crosses: for a closed
    curve the ranges recorded are the spans the walk keeps (those for
    which [Math.abs(start - stop) > 10e-6] holds on doubles) from each
    cross to the next and from the last back to the first; for an open
    curve that is not bounded they are the spans it keeps between
    consecutive crosses only, so nothing is recorded before the first
    cross or after the last.  With a single cross no fragment is recorded
    in either case. *)
Theorem closed_and_unbounded_curves_are_cut_between_crosses
    (all : list Curve) (p2i : list (Curve2dId * SimpleName)) (pl : Placement)
    (tp : list (Curve2dId * Curve)) (visited : list Curve2dId) (id : Curve2dId)
    (current : Curve) (s s' : State) (next : list (Curve2dId * Curve) * list Curve2dId)
    (name : SimpleName) (first : c3d.CrossPoint) (rest : list c3d.CrossPoint) :
  loop_body all p2i pl tp visited id current s = (Ok (Ok tt, next), s') →
  map_get id p2i = Some name →
  sort_crosses (IntersectWithAll current all ++ contour_crosses current) = first :: rest →
  (IsClosed current = true →
     provenance s' name
     = List.filter wide (spans (cross_t first) (map cross_t rest ++ [cross_t first]))
     ∧ (rest = [] → provenance s' name = []))
  ∧ (IsClosed current = false → IsBounded current = false →
     provenance s' name = List.filter wide (spans (cross_t first) (map cross_t rest))
     ∧ (rest = [] → provenance s' name = [])).
Proof.
  intros H Hname Hsort.
  apply loop_body_Ok in H as (name' & Hname' & _ & _ & Hcase).
  rewrite Hname in Hname'. injection Hname' as <-.
  rewrite Hsort in Hcase. destruct Hcase as (s1 & s2 & trims & _ & Hwalk & Hup).
  apply updateCurve_provenance in Hup. apply walk_trims in Hwalk.
  cbn [fst] in Hwalk. rewrite app_nil_l in Hwalk. rewrite Hup, Hwalk, range_of_trim_of.
  split.
  - intros Hclosed. unfold with_ends. rewrite Hclosed, andb_false_r. cbn [negb].
    assert (Heq : List.filter wide
                    (spans (head_t ((first :: rest) ++ [first]))
                       (map cross_t ((first :: rest) ++ [first])))
                  = List.filter wide
                      (spans (cross_t first) (map cross_t rest ++ [cross_t first]))).
    { rewrite map_app. simpl. fold (cross_t first). by rewrite wide_empty_span. }
    split; [exact Heq|]. intros ->. rewrite Heq. simpl. by rewrite wide_empty_span.
  - intros Hclosed Hb. unfold with_ends. rewrite Hclosed, Hb. cbn [andb].
    assert (Heq : List.filter wide
                    (spans (head_t (first :: rest)) (map cross_t (first :: rest)))
                  = List.filter wide (spans (cross_t first) (map cross_t rest))).
    { simpl. fold (cross_t first). by rewrite wide_empty_span. }
    split; [exact Heq|]. intros ->. by rewrite Heq.
Qed.

(** ** The registry through commit *)

Lemma elem_of_without l done n : n ∈ without l done ↔ n ∈ done ∧ n ∉ l.
Proof.
  unfold without. rewrite elem_of_list_filter, negb_true_iff, bool_decide_eq_false. done.
Qed.

Lemma NoDup_fst_map_delete {V} k (m : list (Z * V)) : NoDup m.*1 → NoDup (map_delete k m).*1.
Proof.
  induction m as [|[k' v] m IH]; simpl; [done|]. intros [Hk Hm]%NoDup_cons.
  destruct (decide (k = k')); [by apply IH|]. simpl. apply NoDup_cons. split; [|by apply IH].
  intros Hin. apply fst_map_delete in Hin as [_ Hin]. done.
Qed.

Lemma get_ref_removeInfo done c s n :
  registry_of done s →
  get_ref (snd (removeInfo c s)) n = if decide (n = c) then None else get_ref s n.
Proof.
  intros (_ & _ & Hreg & _).
  destruct (get_ref s c) as [r|] eqn:Hr.
  - destruct (Hreg c r Hr) as (_ & i & _ & _ & Hi & _).
    destruct (removeInfo_registered s c r i Hr Hi) as (s' & Hrun & _ & _ & _ & _ & _ & Hl & _).
    rewrite Hrun. simpl. unfold get_ref at 1. rewrite Hl, map_get_delete. done.
  - rewrite removeInfo_unregistered by (unfold get_info; by rewrite Hr). simpl.
    destruct (decide (n = c)) as [->|]; done.
Qed.

Lemma registry_of_removeInfo done c s :
  registry_of done s → registry_of (without [c] done) (snd (removeInfo c s)).
Proof.
  intros Hreg. pose proof (get_ref_removeInfo done c s) as Hget.
  destruct Hreg as ((W1 & W2) & Hnd & Hreg & Htouch).
  assert (Hs : ∃ s', snd (removeInfo c s) = s' ∧ this s' = this s
                ∧ infoObjs (heap s') = infoObjs (heap s)
                ∧ length (curve2infoObjs (heap s')) = length (curve2infoObjs (heap s))
                ∧ planarObjs (heap s') = planarObjs (heap s)
                ∧ NoDup (live_curve2info s').*1).
  { destruct (get_ref s c) as [r|] eqn:Hr.
    - destruct (Hreg c r Hr) as (_ & i & _ & _ & Hi & _).
      destruct (removeInfo_registered s c r i Hr Hi)
        as (s' & Hrun & ? & ? & ? & ? & _ & Hl & _).
      exists s'. rewrite Hrun. split_and!; [done..|]. rewrite Hl.
      by apply NoDup_fst_map_delete.
    - rewrite removeInfo_unregistered by (unfold get_info; by rewrite Hr).
      eexists. split_and!; done. }
  destruct Hs as (s' & Hs' & Ht & Hio & Hlen & Hpl & Hnd').
  specialize (Hget). rewrite Hs' in *.
  assert (Hget' : ∀ n r, get_ref s' n = Some r → n ≠ c ∧ get_ref s n = Some r).
  { intros n r Hn. rewrite (Hget n ltac:(by split_and!)) in Hn.
    by destruct (decide (n = c)). }
  assert (Hinfo : ∀ r, info_at s' r = info_at s r).
  { intros r. unfold info_at. by rewrite Hio. }
  assert (Hplanar : live_id2planarCurve s' = live_id2planarCurve s).
  { unfold live_id2planarCurve. by rewrite Ht, Hpl. }
  assert (Hentry : ∀ r c0 p, entry_curve s' r c0 p → entry_curve s r c0 p).
  { intros r c0 p (i & Hi & Hc & Hp). exists i. by rewrite <- Hinfo, <- Hplanar. }
  split_and!.
  - rewrite Ht, Hlen. done.
  - rewrite Ht, Hpl. done.
  - done.
  - intros n r Hn. destruct (Hget' n r Hn) as [Hne Hn'].
    destruct (Hreg n r Hn') as (Hdone & i & c0 & p & Hi & Hcnt & Hc & Hp).
    split.
    + apply elem_of_without. split; [done|]. by intros ->%list_elem_of_singleton.
    + exists i, c0, p. rewrite Hinfo, Ht, Hplanar. done.
  - intros A B cA cB pA pB (rA & HA & HeA) (rB & HB & HeB) H1 H2 Hc.
    destruct (Hget' A rA HA) as [HneA HA']. destruct (Hget' B rB HB) as [HneB HB'].
    destruct (Htouch A B cA cB pA pB) as (i & Hi & HBi); [by exists rA; auto|by exists rB; auto|done..|].
    exists i. split; [|done]. unfold get_info in *. rewrite HA, Hinfo. by rewrite HA' in Hi.
Qed.

Lemma teardown_run c s : teardown c s = (Ok tt, snd (removeInfo c s)).
Proof.
  unfold teardown, bind. destruct (removeInfo_Ok c s) as (i & s' & Hrun). by rewrite Hrun.
Qed.

Lemma for_of_teardown_registry l : ∀ done s,
  registry_of done s →
  ∃ s', for_of l teardown s = (Ok tt, s')
    ∧ registry_of (without l done) s'
    ∧ ∀ n, get_ref s' n = if bool_decide (n ∈ l) then None else get_ref s n.
Proof.
  induction l as [|c l IH]; intros done s Hreg; simpl.
  - exists s. split_and!; [done| |done].
    eapply registry_of_mono; [|exact Hreg]. intros n Hn. apply elem_of_without.
    split; [done|]. apply not_elem_of_nil.
  - unfold bind at 1. rewrite teardown_run.
    destruct (IH _ _ (registry_of_removeInfo done c s Hreg)) as (s' & Hrun & Hreg' & Hget).
    exists s'. split_and!; [done| |].
    + eapply registry_of_mono; [|exact Hreg']. intros n [Hn Hl]%elem_of_without.
      apply elem_of_without in Hn as [Hd Hn]. apply elem_of_without. split; [done|].
      intros [->|?]%elem_of_cons; [|done]. apply Hn. by left.
    + intros n. rewrite Hget, (get_ref_removeInfo done c s n Hreg).
      destruct (decide (n = c)) as [->|Hne].
      * rewrite (bool_decide_eq_true_2 (c ∈ c :: l)); [|by left]. by destruct (bool_decide _).
      * destruct (bool_decide (n ∈ l)) eqn:Hb.
        -- apply bool_decide_eq_true in Hb. rewrite bool_decide_eq_true_2; [done|by right].
        -- apply bool_decide_eq_false in Hb. rewrite bool_decide_eq_false_2; [done|].
           intros [?|?]%elem_of_cons; done.
Qed.

Lemma readd_promises skip l : ∀ promises s ps s',
  add_in_turn skip l promises s = (Ok ps, s') → ∃ more, ps = promises ++ more.
Proof.
  induction l as [|c rest IH]; intros promises s ps s' H; simpl in H.
  - injection H as <- <-. exists []. by rewrite app_nil_r.
  - destruct (skip c); [by eapply IH|].
    bind_inv H as u s0 Hu. bind_inv H as p s1 Hp.
    apply IH in H as (more & ->). exists (p :: more). by rewrite <- app_assoc.
Qed.

Lemma readd_registry (HK : faithful_kernel) skip l : ∀ done promises s ps s',
  registry_of done s → NoDup l →
  (∀ n, n ∈ l → skip n = false → n ∉ done) →
  distinct_ids (l ++ done) →
  add_in_turn skip l promises s = (Ok ps, s') → Forall (λ p, p = Ok tt) ps →
  registry_of (rev (List.filter (λ n, negb (skip n)) l) ++ done) s'
  ∧ ∀ n, is_Some (get_ref s' n) ↔
         is_Some (get_ref s n) ∨ (n ∈ l ∧ skip n = false ∧ is_Some (planar_of n)).
Proof.
  induction l as [|c rest IH]; intros done promises s ps s' Hreg Hnd Hnew Hdist H Hps;
    simpl in H.
  - injection H as <- <-. split; [done|]. intros n. split; [by left|].
    intros [?|(Hn & _)]; [done|]. by apply elem_of_nil in Hn.
  - apply NoDup_cons in Hnd as [Hc Hnd]. simpl.
    destruct (skip c) eqn:Hskip; simpl.
    + destruct (IH done promises s ps s' Hreg Hnd) as (Hreg' & Hget); [| |done|done|].
      * intros n Hn. apply Hnew. by right.
      * eapply distinct_ids_subset; [|exact Hdist]. intros n.
        simpl. repeat (rewrite elem_of_app || rewrite elem_of_cons). naive_solver.
      * split; [done|]. intros n. rewrite Hget, elem_of_cons. split.
        -- intros [?|(? & ? & ?)]; [by left|right; by split_and!; [right|..]].
        -- intros [?|([->|?] & Hs & ?)]; [by left|congruence|right; by split_and!].
    + bind_inv H as u s0 Hu. apply unwrap_Ok in Hu as [Hu ->].
      bind_inv H as p s1 Hp. unfold attempt in Hp. injection Hp as <- <-.
      destruct (readd_promises _ _ _ _ _ _ H) as (more & ->).
      pose proof Hps as Hps0.
      apply Forall_app in Hps as [Hps _]. apply Forall_app in Hps as [_ Hp].
      apply (proj1 (Forall_singleton _ _)) in Hp. cbv beta in Hp.
      assert (Hadd : add c s = (Ok tt, snd (add c s))).
      { clear H. destruct (add c s) as [o s1]. simpl in *. by subst. }
      set (s1 := snd (add c s)) in *. clearbody s1.
      assert (W : curve2info (this s) < length (curve2infoObjs (heap s))
                  ∧ id2planarCurve (this s) < length (planarObjs (heap s)))
        by apply Hreg.
      pose proof (add_registers c s s1 (proj1 W) (proj2 W) Hadd) as (Hothers & _ & Hc').
      assert (Hreg1 : registry_of (c :: done) s1).
      { apply (add_preserves done c s s1 HK Hreg); [| |exact Hadd].
        - apply Hnew; [by left|done].
        - eapply distinct_ids_subset; [|exact Hdist]. intros n.
          simpl. repeat (rewrite elem_of_app || rewrite elem_of_cons). naive_solver. }
      edestruct (IH (c :: done)) as (Hreg' & Hget); [exact Hreg1|exact Hnd| | |exact H|exact Hps0|].
      * intros n Hn Hs [->|Hd]%elem_of_cons; [done|]. apply (Hnew n); [by right|done|done].
      * eapply distinct_ids_subset; [|exact Hdist]. intros n.
        simpl. repeat (rewrite elem_of_app || rewrite elem_of_cons). naive_solver.
      * split; [by rewrite <- app_assoc|].
        assert (H1 : ∀ n, is_Some (get_ref s1 n) ↔
                          is_Some (get_ref s n) ∨ (n = c ∧ is_Some (planar_of c))).
        { intros n. destruct (decide (n = c)) as [->|Hne].
          - destruct (planar_of c) as [[c0 p0]|].
            + destruct Hc' as (i & -> & _). split; [right; by split|by eexists].
            + subst s1. change (get_ref (record_call (CallAdd c) s) c) with (get_ref s c).
              split; [by left|]. intros [?|[_ [? ?]]]; done.
          - rewrite (Hothers n Hne). split; [by left|]. intros [?|[? _]]; done. }
        intros n. rewrite Hget, H1, elem_of_cons. split.
        -- intros [[?|[-> ?]]|(? & ? & ?)];
             [by left|right; by split_and!; [left|..]|right; by split_and!; [right|..]].
        -- intros [?|([->|?] & ? & ?)];
             [left; by left|left; right; by split|right; by split_and!].
Qed.

Lemma commit_registry (HK : faithful_kernel) done data s s' :
  registry_of done s → NoDup (dirty data) → NoDup (added data) →
  (∀ n, n ∈ added data → n ∉ deleted data → n ∉ dirty data → n ∉ done) →
  distinct_ids (added data ++ dirty data ++ done) →
  commit data s = (Ok tt, s') →
  (∃ done', registry_of done' s'
            ∧ ∀ n, n ∈ done' → (n ∉ deleted data) ∧ n ∈ added data ++ dirty data ++ done)
  ∧ ∀ n, is_Some (get_ref s' n) ↔
         (n ∉ deleted data)
         ∧ (((n ∉ dirty data) ∧ is_Some (get_ref s n))
            ∨ (n ∈ dirty data ∧ is_Some (planar_of n))
            ∨ (n ∈ added data ∧ (n ∉ dirty data) ∧ is_Some (planar_of n))).
Proof.
  intros Hreg Hnd1 Hnd2 Hnew Hdist H. rewrite (commit_schedule data s) in H.
  bind_inv H as u1 s1 H1. bind_inv H as u2 s2 H2.
  bind_inv H as ps s3 H3.
  pose proof (Promise_all_state ps s3) as Hst. rewrite H in Hst. simpl in Hst. subst s3.
  assert (Hps : Forall (λ p, p = Ok tt) ps).
  { apply (Promise_all_Ok ps s'). by rewrite H. }
  destruct (for_of_teardown_registry (dirty data) done s Hreg) as (s1' & H1' & Hreg1 & Hget1).
  change (for_of (dirty data) teardown s = (Ok u1, s1)) in H1.
  rewrite H1' in H1. injection H1 as _ <-.
  rewrite (for_of_skip (λ c, bool_decide (c ∈ dirty data)) (deleted data) teardown s1') in H2.
  destruct (for_of_teardown_registry
              (List.filter (λ c, negb (bool_decide (c ∈ dirty data))) (deleted data))
              _ s1' Hreg1) as (s2' & H2' & Hreg2 & Hget2).
  rewrite H2' in H2. injection H2 as _ <-.
  set (done2 := without _ (without (dirty data) done)) in *.
  assert (Hdone2 : ∀ n, n ∈ done2 ↔ n ∈ done ∧ (n ∉ dirty data) ∧ (n ∉ deleted data)).
  { intros n. unfold done2. rewrite !elem_of_without, elem_of_list_filter.
    rewrite negb_true_iff, bool_decide_eq_false. naive_solver. }
  edestruct (readd_registry HK (λ _, false) (schedule data)) as (Hreg3 & Hget3);
    [exact Hreg2|by apply NoDup_schedule| | |exact H3|exact Hps|].
  { intros n [Hdel Hn]%elem_of_schedule _ Hd. apply Hdone2 in Hd.
    destruct Hn as [?|Hn]; [naive_solver|]. apply (Hnew n); naive_solver. }
  { eapply distinct_ids_subset; [|exact Hdist]. intros n.
    repeat (rewrite elem_of_app || rewrite Hdone2 || rewrite elem_of_schedule).
    naive_solver. }
  cbv beta in *. split.
  - eexists. split; [exact Hreg3|]. intros n.
    rewrite elem_of_app, elem_of_rev, elem_of_list_filter, elem_of_schedule, Hdone2.
    repeat rewrite elem_of_app. naive_solver.
  - intros n. rewrite Hget3, Hget2, Hget1, elem_of_schedule.
    assert (Hsome : ∀ (b1 b2 : bool) (P1 P2 : Prop) (o : option nat),
              (b1 = true ↔ P1) → (b2 = true ↔ P2) →
              (is_Some (if b1 then None else if b2 then None else o)
               ↔ ¬ P1 ∧ ¬ P2 ∧ is_Some o)).
    { intros [] [] P1 P2 o [A1 A2] [B1 B2]; split;
        try (intros [? ?]; done); try (intros (? & ? & ?)); naive_solver. }
    rewrite (Hsome _ _ (n ∈ List.filter (λ c, negb (bool_decide (c ∈ dirty data)))
                              (deleted data)) (n ∈ dirty data) (get_ref s n));
      [|apply bool_decide_eq_true..].
    rewrite elem_of_list_filter, negb_true_iff, bool_decide_eq_false.
    destruct (decide (n ∈ dirty data)); destruct (decide (n ∈ deleted data)); tauto.
Qed.

Lemma cascade_step_shape X s data data' s1 :
  cascade X data s = (Ok data', s1) →
  NoDup (dirty data) → (∀ y, y ∈ dirty data → is_Some (get_info s y)) →
  (∀ y z, y ∈ dirty data ∨ y ∈ deleted data → touches s y z → z ∈ dirty data) →
  s1 = s ∧ added data' = added data ∧ NoDup (dirty data')
  ∧ (∀ y, y ∈ dirty data' → is_Some (get_info s y))
  ∧ (∀ y z, y ∈ dirty data' ∨ y ∈ deleted data' → touches s y z → z ∈ dirty data').
Proof.
  unfold cascade. destruct (get_info s X) as [info|] eqn:Hinfo.
  - destruct (cascade_walk _ _ _ _) as [v| |] eqn:Hw; [|done..].
    intros [= <- <-] Hnd Hreg Hclosed. cbn [dirty deleted added].
    destruct (cascade_walk_closed s _ _ _ _ Hw) as (H1 & H2 & H3).
    { intros y z Hy Hyz. left. apply (Hclosed y z); [by left|done]. }
    split_and!; [done|done| | |].
    + by eapply cascade_walk_NoDup.
    + intros y Hy. destruct (cascade_walk_registered s _ _ _ _ Hw y Hy) as [Hd|]; [|done].
      by apply Hreg.
    + intros y z [Hy|Hy] Hyz; [by apply (H3 y)|].
      apply elem_of_set_add in Hy as [->|Hy].
      * destruct Hyz as (i & Hi & Hz). rewrite Hinfo in Hi. injection Hi as <-.
        by apply H2, elem_of_rev.
      * apply H1. apply (Hclosed y z); [by right|done].
  - intros [= <- <-] Hnd Hreg Hclosed. cbn [dirty deleted added].
    split_and!; [done..|]. intros y z [Hy|Hy] Hyz.
    + apply (Hclosed y z); [by left|done].
    + apply elem_of_set_add in Hy as [->|Hy].
      * destruct Hyz as (i & Hi & _). congruence.
      * apply (Hclosed y z); [by right|done].
Qed.

Lemma cascaded_shape s data :
  cascaded s data →
  NoDup (dirty data) ∧ NoDup (added data)
  ∧ (∀ y, y ∈ dirty data → is_Some (get_info s y))
  ∧ (∀ y z, y ∈ dirty data ∨ y ∈ deleted data → touches s y z → z ∈ dirty data).
Proof.
  induction 1 as [l Hl|X data data' _ (Hnd & Hna & Hreg & Hclosed) Hc].
  - split_and!; [apply NoDup_nil_2|done|by intros y ?%elem_of_nil|].
    intros y z [Hy|Hy]; by apply elem_of_nil in Hy.
  - destruct (cascade_step_shape X s data data' s Hc Hnd Hreg Hclosed)
      as (_ & -> & ? & ? & ?). done.
Qed.

Lemma cascade_Ok_shape X s data s1 :
  cascade X empty_transaction s = (Ok data, s1) →
  s1 = s ∧ deleted data = [X] ∧ added data = [] ∧ NoDup (dirty data)
  ∧ ∀ y, y ∈ dirty data → is_Some (get_info s y).
Proof.
  unfold cascade, empty_transaction. cbn [dirty deleted added].
  destruct (get_info s X) as [info|].
  - destruct (cascade_walk _ _ _ _) as [v| |] eqn:Hw; [|done..].
    intros [= <- <-]. split_and!; [done..| |].
    + simpl. eapply cascade_walk_NoDup; [exact Hw|apply NoDup_nil_2].
    + simpl. intros y Hy.
      destruct (cascade_walk_registered s _ _ _ _ Hw y Hy) as [Hnil|]; [|done].
      by apply elem_of_nil in Hnil.
  - intros [= <- <-]. split_and!; [done..|apply NoDup_nil_2|].
    simpl. intros y Hy. by apply elem_of_nil in Hy.
Qed.

Lemma remove_registry (HK : faithful_kernel) done X s s' :
  registry_of done s → distinct_ids done → remove X s = (Ok tt, s') →
  (∃ done', registry_of done' s' ∧ ∀ n, n ∈ done' → n ≠ X ∧ n ∈ done)
  ∧ ∀ n, is_Some (get_ref s' n) ↔ n ≠ X ∧ is_Some (get_ref s n).
Proof.
  intros Hreg Hdist H. unfold remove in H. bind_inv H as data s1 Hc.
  apply cascade_Ok_shape in Hc as (-> & Hdel & Hadd & Hnd & Hdirty).
  assert (Hin : ∀ y, y ∈ dirty data → y ∈ done ∧ is_Some (get_ref s y)
                                      ∧ is_Some (planar_of y)).
  { intros y [i Hi]%Hdirty. unfold get_info in Hi.
    destruct (get_ref s y) as [r|] eqn:Hr; [|done].
    destruct Hreg as (_ & _ & Hreg & _).
    destruct (Hreg y r Hr) as (? & ? & c & p & _ & _ & _ & Hp).
    split_and!; [done|by eexists|by rewrite Hp]. }
  destruct (commit_registry HK done data s s' Hreg Hnd) as ((done' & Hreg' & Hsub) & Hget);
    [rewrite Hadd; apply NoDup_nil_2| | |exact H|].
  { rewrite Hadd. intros n Hn. by apply elem_of_nil in Hn. }
  { rewrite Hadd. eapply distinct_ids_subset; [|exact Hdist]. intros n.
    simpl. rewrite elem_of_app. intros [?%Hin|?]; naive_solver. }
  split.
  - exists done'. split; [done|]. intros n Hn. destruct (Hsub n Hn) as [Hne Hn'].
    rewrite Hdel in Hne. rewrite Hadd in Hn'. simpl in Hn'. split.
    + intros ->. apply Hne. by left.
    + apply elem_of_app in Hn' as [?%Hin|?]; naive_solver.
  - intros n. rewrite Hget, Hdel, Hadd, list_elem_of_singleton. split.
    + intros [Hne [[_ ?]|[[?%Hin _]|[Hn _]]]]; [done|naive_solver|].
      by apply elem_of_nil in Hn.
    + intros [Hne Hs]. split; [done|]. destruct (decide (n ∈ dirty data)) as [Hd|Hd].
      * right. left. split; [done|]. by apply Hin.
      * by left.
Qed.

Lemma registry_of_exact done s : registry_of done s → registry_of (live_curve2info s).*1 s.
Proof.
  intros (W & Hnd & Hreg & Ht). split_and!; [apply W..|done| |done].
  intros n r Hr. split; [by eapply map_get_Some_fst|]. by apply (Hreg n r Hr).
Qed.

Lemma all_ids_distinct_list l : all_ids_distinct → distinct_ids l.
Proof. intros Hd n1 n2 cp1 cp2 _ _. apply Hd. Qed.

Lemma reachable_registry (HK : faithful_kernel) xy store s :
  all_ids_distinct → reachable xy store s → ∃ done, registry_of done s.
Proof.
  intros Hd. induction 1 as [|N s s' _ [done IH] HN Hadd|X s s' _ [done IH] Hrem
                            |data s s' _ [done IH] Hdata Hnew Hcommit].
  - exists []. apply registry_of_new.
  - apply registry_of_exact in IH. eexists.
    apply (add_preserves _ N s s' HK IH); [|by apply all_ids_distinct_list|exact Hadd].
    by apply map_get_None_fst.
  - destruct (remove_registry HK done X s s' IH) as ((done' & ? & _) & _);
      [by apply all_ids_distinct_list|done|]. by exists done'.
  - apply registry_of_exact in IH.
    destruct (cascaded_shape s data Hdata) as (Hnd & Hna & _).
    destruct (commit_registry HK _ data s s' IH Hnd Hna) as ((done' & ? & _) & _);
      [|by apply all_ids_distinct_list|done|by exists done'].
    intros n H1 H2 H3. by apply map_get_None_fst, Hnew.
Qed.

(** X12: the links survive removals.  With a faithful kernel and planar
    curves of different [Id]s, in every state a new database reaches by
    fulfilled calls of [add] (of curves not registered at the call), of
    [remove] and of [commit] (of transactions built by [cascade]), two
    registered curves whose placements are the same and whose planar
    curves cross are in the [touched] set of each other. *)
Theorem touched_stays_complete_through_adds_and_removes
    (xy : Placement) (store : GeometryStore) (s : State) :
  faithful_kernel → all_ids_distinct → reachable xy store s →
  ∀ A B cA cB pA pB,
    registered s A cA pA → registered s B cB pB →
    isSamePlacement pA pB = true → isSamePlacement pB pA = true →
    crossing cA cB →
    touches s A B ∧ touches s B A.
Proof.
  intros HK Hd Hr A B cA cB pA pB HA HB H1 H2 Hc.
  destruct (reachable_registry HK xy store s Hd Hr) as (done & _ & _ & _ & R3).
  split.
  - by apply (R3 A B cA cB pA pB).
  - apply (R3 B A cB cA pB pA); [done..|]. by apply (kernel_symmetric HK).
Qed.

(** X13: under the same conditions, a fulfilled [remove(X)] leaves
    registered exactly the curves that were registered before, without
    [X]: every curve it tears down besides [X] is added again. *)
Theorem remove_unregisters_the_curve_alone
    (xy : Placement) (store : GeometryStore) (X : SimpleName) (s s' : State) :
  faithful_kernel → all_ids_distinct → reachable xy store s →
  remove X s = (Ok tt, s') →
  ∀ n, is_Some (get_ref s' n) ↔ n ≠ X ∧ is_Some (get_ref s n).
Proof.
  intros HK Hd Hr H.
  destruct (reachable_registry HK xy store s Hd Hr) as (done & Hreg).
  by destruct (remove_registry HK done X s s' Hreg (all_ids_distinct_list _ Hd) H) as [_ ?].
Qed.

(** ** The turns of the loop, for any relation the writes respect *)

Section Turns.
Context (R : State → State → Prop) `{!Reflexive R, !Transitive R}.
Hypothesis R_joints : ∀ j r s,
  R s (alter_info (set_joints_start j) r s) ∧ R s (alter_info (set_joints_stop j) r s).

Lemma stable_addJoint_turn cross p2i : stable R (addJoint cross p2i).
Proof.
  unfold addJoint.
  apply stable_bind; [done|by apply stable_gets|]. intros info1.
  apply stable_bind; [done|by apply stable_gets|]. intros info2.
  destruct (_ && _); [by apply stable_ret|].
  apply stable_bind; [done| |].
  { apply stable_bind; [done|by apply stable_use_info|]. intros i1.
    destruct (Qeq_bool _ _); apply stable_modify; intros s; apply R_joints. }
  intros _. destruct (Qeq_bool _ _); [|destruct (Qeq_bool _ _)].
  - apply stable_bind; [done|by apply stable_use_info|]. intros i2.
    apply stable_modify; intros s; apply R_joints.
  - apply stable_bind; [done|by apply stable_use_info|]. intros i2.
    apply stable_modify; intros s; apply R_joints.
  - by apply stable_ret.
Qed.

Hypothesis R_touched : ∀ id r s, R s (alter_info (touched_add id) r s).
Hypothesis R_update : ∀ instance result pl, stable R (updateCurve instance result pl).

Lemma stable_walk_turn info curve1 p2i visited crosses :
  ∀ start0 trims tp, stable R (walk info curve1 p2i visited crosses start0 trims tp).
Proof.
  induction crosses as [|cross rest IH]; intros start0 trims tp; simpl.
  - by apply stable_ret.
  - apply stable_bind; [done|by apply stable_unwrap|]. intros id.
    apply stable_bind; [done|by apply stable_unwrap|]. intros _.
    apply stable_bind; [done|by apply stable_use_info|]. intros i.
    apply stable_bind; [done| |intros _; apply IH].
    apply stable_modify; intros s; apply R_touched.
Qed.

Lemma stable_loop_body_turn all p2i pl tp visited id current :
  stable R (loop_body all p2i pl tp visited id current).
Proof.
  unfold loop_body.
  apply stable_bind; [done|by apply stable_unwrap|]. intros name.
  apply stable_bind; [done|by apply stable_unwrap|]. intros _.
  destruct (sort_crosses _) as [|first sorted].
  - apply stable_bind; [done| |intros ?; by apply stable_ret].
    apply stable_attempt, R_update.
  - apply stable_bind; [done|by apply stable_gets|]. intros info.
    apply stable_bind; [done| |].
    { destruct (_ && _); [|by apply stable_ret].
      apply stable_bind; [done|apply stable_addJoint_turn|]. intros _.
      apply stable_addJoint_turn. }
    intros _. apply stable_bind; [done|apply stable_walk_turn|]. intros r.
    apply stable_bind; [done| |intros ?; by apply stable_ret].
    apply stable_attempt, R_update.
Qed.

Lemma stable_process_turn fuel all p2i pl :
  ∀ tp visited promises, stable R (process fuel all p2i pl tp visited promises).
Proof.
  induction fuel as [|fuel IH]; intros tp visited promises.
  - destruct tp as [|[id current] tp]; simpl;
      [by apply stable_ret|by apply stable_out_of_fuel].
  - destruct tp as [|[id current] tp]; simpl; [by apply stable_ret|].
    apply stable_bind; [done|apply stable_loop_body_turn|]. intros r. apply IH.
Qed.

End Turns.

(** ** The fragments of updateCurve *)

Lemma addFragments_items instance pl result : ∀ s,
  ∃ views s', addFragments instance pl result s = (Ok views, s')
    ∧ heap s' = heap s ∧ this s' = this s
    ∧ (nextName (db s) <= nextName (db s'))%Z
    ∧ (∀ f, f ∈ views ↔ (nextName (db s) <= f < nextName (db s'))%Z)
    ∧ (∀ f, f ∈ views → ∃ it, map_get f (items (db s')) = Some it ∧ owner it = instance)
    ∧ (∀ f, f ∉ views → map_get f (items (db s')) = map_get f (items (db s))).
Proof.
  induction result as [|tr rest IH]; intros s; simpl.
  - exists [], s. split_and!; [done..|lia| | |done].
    + intros f. split; [intros Hf; by apply elem_of_nil in Hf|lia].
    + intros f Hf. by apply elem_of_nil in Hf.
  - unfold bind at 1, addItem at 1.
    set (s1 := set_db _ s).
    destruct (IH s1) as (views & s' & Hrun & Hh & Ht & Hn & Hv & Hnew & Hold).
    unfold bind at 1. rewrite Hrun. exists (nextName (db s) :: views), s'.
    simpl in Hn, Hv.
    split_and!; [done|done|done|lia| | |].
    + intros f. rewrite elem_of_cons, Hv. lia.
    + intros f [->|Hf]%elem_of_cons; [|by apply Hnew].
      rewrite Hold by (rewrite Hv; lia). simpl. rewrite map_get_set, decide_True by done.
      by eexists.
    + intros f Hf. apply not_elem_of_cons in Hf as [Hne Hf].
      rewrite (Hold f Hf). simpl. by rewrite map_get_set, decide_False.
Qed.

Lemma updateCurve_run n result pl s r i :
  get_ref s n = Some r → info_at s r = Some i →
  ∃ views s', updateCurve n result pl s = (Ok tt, s')
    ∧ this s' = this s ∧ curve2infoObjs (heap s') = curve2infoObjs (heap s)
    ∧ (∀ r', info_at s' r'
             = if decide (r = r') then Some (set_fragments views i) else info_at s r')
    ∧ (nextName (db s) <= nextName (db s'))%Z
    ∧ (∀ f, f ∈ views ↔ (nextName (db s) <= f < nextName (db s'))%Z)
    ∧ (∀ f, f ∈ views → ∃ it, map_get f (items (db s')) = Some it ∧ owner it = n)
    ∧ (∀ f, f ∉ views →
         map_get f (items (db s'))
         = if decide (f ∈ fragments i) then None else map_get f (items (db s))).
Proof.
  intros Hr Hi. unfold updateCurve, bind at 1, gets at 1. rewrite Hr.
  rewrite (bind_run _ _ _ _ _ (use_info_Some _ _ _ Hi)). cbn [fst snd].
  destruct (for_of_removeItem_run (fragments i) s) as (s1 & Hrun1 & Hh1 & Ht1 & _ & Hn1 & Hi1).
  unfold bind at 1. rewrite Hrun1.
  destruct (addFragments_items n pl result s1)
    as (views & s2 & Hrun2 & Hh2 & Ht2 & Hn2 & Hv2 & Hnew2 & Hold2).
  unfold bind at 1. rewrite Hrun2. exists views, (alter_info (set_fragments views) r s2).
  split_and!.
  - done.
  - simpl. by rewrite Ht2, Ht1.
  - simpl. by rewrite Hh2, Hh1.
  - intros r'. rewrite info_at_alter. unfold info_at. rewrite Hh2, Hh1.
    destruct (decide (r = r')) as [<-|]; [|done]. unfold info_at in Hi. by rewrite Hi.
  - simpl. lia.
  - intros f. simpl. rewrite Hv2, Hn1. done.
  - intros f Hf. simpl. by apply Hnew2.
  - intros f Hf. simpl. by rewrite Hold2, Hi1.
Qed.

Lemma updateCurve_throws n result pl s :
  get_info s n = None → updateCurve n result pl s = (Throw, s).
Proof.
  unfold get_info, updateCurve, bind at 1, gets at 1, bind, use_info.
  destruct (get_ref s n) as [r|]; [|done]. by intros ->.
Qed.

Lemma store_tidy_alter f r s :
  (∀ i, fragments (f i) = fragments i) → store_tidy s → store_tidy (alter_info f r s).
Proof.
  intros Hf (T1 & T2 & T3 & T4).
  assert (Hinfo : ∀ n, get_info (alter_info f r s) n
                       = if decide (Some r = get_ref s n) then f <$> get_info s n
                         else get_info s n).
  { intros n. unfold get_info. change (get_ref (alter_info f r s) n) with (get_ref s n).
    destruct (get_ref s n) as [r'|]; [|by destruct (decide _)].
    rewrite info_at_alter. destruct (decide (r = r')) as [->|Hne].
    - by rewrite decide_True.
    - rewrite decide_False; [done|congruence]. }
  assert (Hfrag : ∀ n i', get_info (alter_info f r s) n = Some i' →
                          ∃ i, get_info s n = Some i ∧ fragments i' = fragments i).
  { intros n i'. rewrite Hinfo. destruct (decide _); [|by eauto].
    destruct (get_info s n) as [i|]; [|done]. intros [= <-]. eauto. }
  split_and!.
  - intros n r' Hr. change (get_ref (alter_info f r s) n) with (get_ref s n) in Hr.
    destruct (T1 n r' Hr) as [i Hi]. rewrite info_at_alter, Hi. by destruct (decide _).
  - exact T2.
  - intros n i' f0 Hi' Hf0. destruct (Hfrag n i' Hi') as (i & Hi & Heq).
    rewrite Heq in Hf0. exact (T3 n i f0 Hi Hf0).
  - intros f0 it Hit. destruct (T4 f0 it Hit) as (Hlt & i & Hi & Hf0). split; [done|].
    rewrite Hinfo, Hi. destruct (decide _); simpl; eexists; (split; [done|]);
      by rewrite ?Hf.
Qed.

Lemma store_tidy_updateCurve n result pl s :
  store_tidy s → store_tidy (snd (updateCurve n result pl s)).
Proof.
  intros (T1 & T2 & T3 & T4).
  destruct (get_info s n) as [i|] eqn:Hi; [|by rewrite updateCurve_throws].
  unfold get_info in Hi. destruct (get_ref s n) as [r|] eqn:Hr; [|done].
  destruct (updateCurve_run n result pl s r i Hr Hi)
    as (views & s' & Hrun & Ht & Hm & Hinfo & Hn & Hv & Hnew & Hold).
  rewrite Hrun. cbn [snd].
  assert (Href : ∀ k, get_ref s' k = get_ref s k).
  { intros k. unfold get_ref, live_curve2info. by rewrite Ht, Hm. }
  assert (Hget : ∀ k, get_info s' k
                      = if decide (k = n) then Some (set_fragments views i)
                        else get_info s k).
  { intros k. unfold get_info. rewrite Href.
    destruct (decide (k = n)) as [->|Hne].
    - by rewrite Hr, Hinfo, decide_True.
    - destruct (get_ref s k) as [r'|] eqn:Hr'; [|done]. rewrite Hinfo, decide_False; [done|].
      intros <-. apply Hne. by apply (T2 k n r). }
  split_and!.
  - intros k r' Hk. rewrite Href in Hk. rewrite Hinfo.
    destruct (decide _); [by eexists|by apply (T1 k)].
  - intros n1 n2 r'. rewrite !Href. apply T2.
  - intros k i' f Hi' Hf. rewrite Hget in Hi'. destruct (decide (k = n)) as [->|Hne].
    + injection Hi' as <-. by apply Hnew.
    + destruct (T3 k i' f Hi' Hf) as (it & Hit & Ho).
      destruct (T4 f it Hit) as (Hlt & _).
      exists it. split; [|done]. rewrite Hold by (rewrite Hv; lia).
      rewrite decide_False; [done|]. intros Hfi.
      destruct (T3 n i f) as (it' & Hit' & Ho'); [unfold get_info; by rewrite Hr|done|].
      congruence.
  - intros f it Hit. destruct (decide (f ∈ views)) as [Hfv|Hfv].
    + split; [apply Hv in Hfv; lia|]. destruct (Hnew f Hfv) as (it' & Hit' & Ho).
      rewrite Hit in Hit'. injection Hit' as <-. rewrite Ho, Hget, decide_True by done.
      by eexists.
    + rewrite (Hold f Hfv) in Hit. destruct (decide (f ∈ fragments i)) as [|Hfi]; [done|].
      destruct (T4 f it Hit) as (Hlt & i0 & Hi0 & Hf0). split; [lia|].
      rewrite Hget. destruct (decide (owner it = n)) as [Hon|Hon].
      * rewrite Hon in Hi0. unfold get_info in Hi0. rewrite Hr, Hi in Hi0.
        injection Hi0 as <-. done.
      * by exists i0.
Qed.

Global Instance keeps_refl I : Reflexive (keeps I).
Proof. intros s Hs. exact Hs. Qed.

Global Instance keeps_trans I : Transitive (keeps I).
Proof. intros s1 s2 s3 H12 H23 H1. by apply H23, H12. Qed.

(** ** The store through add *)

Lemma normalizePlacement_db p s pN s' : normalizePlacement p s = (Ok pN, s') → db s' = db s.
Proof. unfold normalizePlacement. by destruct (find _ _); intros [= <- <-]. Qed.

Lemma add_Ok_store N s s' :
  add N s = (Ok tt, s') →
  (planar_of N = None ∧ s' = record_call (CallAdd N) s)
  ∨ ∃ cN p' pN sb p2i0 all0 promises,
      planar_of N = Some (cN, p') ∧ same_registry s sb ∧ db sb = db s
      ∧ process (S (length (map_set (Id cN) N p2i0))) (all0 ++ [cN])
          (map_set (Id cN) N p2i0) pN [(Id cN, cN)] [] [] (register N cN pN sb)
        = (Ok promises, s').
Proof.
  intros H. unfold add in H.
  bind_inv H as u sa Hcall. injection Hcall as <- <-.
  bind_inv H as inst s0 Hinst. apply unwrap_Ok in Hinst as [Hinst ->].
  bind_inv H as planarInfo sb Hplan.
  unfold planarizeAndNormalize in Hplan. unfold planar_of. rewrite Hinst.
  destruct (curve3d2curve2d _) as [[cN p']|].
  - bind_inv Hplan as pN sb' Hnorm. injection Hplan as <- <-.
    pose proof (normalizePlacement_db _ _ _ _ Hnorm) as Hdb.
    apply same_registry_normalizePlacement in Hnorm.
    bind_inv H as entries s0 He. injection He as <- <-.
    bind_inv H as collected sc Hcol.
    pose proof (collect_spec _ _ _ _ _ _ _ Hcol) as (-> & _).
    bind_inv H as counter0 s0 Hcnt. injection Hcnt as <- <-.
    bind_inv H as u1 s1 H1. injection H1 as <- <-.
    bind_inv H as u2 s2 H2. injection H2 as <- <-.
    bind_inv H as info s3 H3. injection H3 as <- <-.
    bind_inv H as u4 s4 H4. injection H4 as <- <-.
    bind_inv H as promises sg Hproc.
    pose proof (Promise_all_state promises sg) as Hst. rewrite H in Hst. simpl in Hst. subst s'.
    right. exists cN, p', pN, sb', collected.1, collected.2, promises.
    split_and!; [done| |done|exact Hproc].
    destruct Hnorm as (? & ? & ? & ?). by split_and!.
  - injection Hplan as <- <-. injection H as <-. by left.
Qed.

Lemma store_tidy_same s s' :
  same_registry s s' → db s' = db s → store_tidy s → store_tidy s'.
Proof.
  intros Hsame Hdb (T1 & T2 & T3 & T4).
  assert (Hinfo : ∀ n, get_info s' n = get_info s n).
  { intros n. unfold get_info. rewrite (get_ref_same s s' n Hsame).
    destruct (get_ref s n); [|done]. by apply info_at_same. }
  split_and!.
  - intros n r. rewrite (get_ref_same s s' n Hsame), (info_at_same s s' r Hsame). apply T1.
  - intros n1 n2 r. rewrite !(get_ref_same s s' _ Hsame). apply T2.
  - intros n i f. rewrite Hinfo, Hdb. apply T3.
  - intros f it. rewrite Hdb. intros Hit. destruct (T4 f it Hit) as (? & i & ? & ?).
    split; [done|]. exists i. by rewrite Hinfo.
Qed.

Lemma store_tidy_register N cN pN s :
  curve2info (this s) < length (curve2infoObjs (heap s)) →
  id2planarCurve (this s) < length (planarObjs (heap s)) →
  get_ref s N = None → store_tidy s → store_tidy (register N cN pN s).
Proof.
  intros W1 W2 HN (T1 & T2 & T3 & T4).
  destruct (register_spec N cN pN s W1 W2) as (_ & Ri & Rl & _).
  assert (Hdb : db (register N cN pN s) = db s) by done.
  assert (Href : ∀ n, get_ref (register N cN pN s) n
                      = if decide (n = N) then Some (length (infoObjs (heap s)))
                        else get_ref s n).
  { intros n. unfold get_ref at 1. by rewrite Rl, map_get_set. }
  assert (Hold : ∀ r i, info_at s r = Some i → info_at (register N cN pN s) r = Some i).
  { intros r i Hi. unfold info_at. rewrite Ri, lookup_app_l; [done|].
    by eapply lookup_lt_Some. }
  assert (Hfresh : ∀ n, get_ref s n ≠ Some (length (infoObjs (heap s)))).
  { intros n Hn. destruct (T1 n _ Hn) as [i Hi]. apply lookup_lt_Some in Hi. lia. }
  assert (Hinfo : ∀ n, n ≠ N → get_info (register N cN pN s) n = get_info s n).
  { intros n Hne. unfold get_info. rewrite Href, decide_False by done.
    destruct (get_ref s n) as [r|] eqn:Hr; [|done].
    destruct (T1 n r Hr) as [i Hi]. rewrite Hi. by apply Hold. }
  split_and!.
  - intros n r. rewrite Href. destruct (decide (n = N)).
    + intros [= <-]. unfold info_at. rewrite Ri, list_lookup_middle; [by eexists|done].
    + intros Hr. destruct (T1 n r Hr) as [i Hi]. exists i. by apply Hold.
  - intros n1 n2 r. rewrite !Href.
    destruct (decide (n1 = N)) as [->|]; destruct (decide (n2 = N)) as [->|]; try done.
    + intros [= <-] Hn2. by apply Hfresh in Hn2.
    + intros Hn1 [= <-]. by apply Hfresh in Hn1.
    + apply T2.
  - intros n i f Hi Hf. rewrite Hdb. destruct (decide (n = N)) as [->|Hne].
    + unfold get_info in Hi. rewrite Href, decide_True in Hi by done.
      unfold info_at in Hi. rewrite Ri, list_lookup_middle in Hi by done.
      injection Hi as <-. by apply elem_of_nil in Hf.
    + rewrite Hinfo in Hi by done. by apply (T3 n i f).
  - intros f it. rewrite Hdb. intros Hit. destruct (T4 f it Hit) as (? & i & Hi & ?).
    split; [done|]. exists i. split; [|done]. rewrite Hinfo; [done|].
    intros Ho. unfold get_info in Hi. by rewrite Ho, HN in Hi.
Qed.

Lemma stable_process_tidy fuel all p2i pl tp visited promises :
  stable (keeps store_tidy) (process fuel all p2i pl tp visited promises).
Proof.
  apply stable_process_turn; [apply _..| | |].
  - intros j r s. split; intros Hs; by apply store_tidy_alter.
  - intros id r s Hs. by apply store_tidy_alter.
  - intros instance result pl' s Hs. by apply store_tidy_updateCurve.
Qed.

Lemma add_tidy N s s' :
  curve2info (this s) < length (curve2infoObjs (heap s)) →
  id2planarCurve (this s) < length (planarObjs (heap s)) →
  store_tidy s → get_ref s N = None → add N s = (Ok tt, s') → store_tidy s'.
Proof.
  intros W1 W2 Ht HN H.
  destruct (add_Ok_store N s s' H)
    as [[_ ->]|(cN & p' & pN & sb & p2i0 & all0 & promises & _ & Hsame & Hdb & Hproc)].
  - by apply (store_tidy_same s).
  - eapply (stable_Ok (keeps store_tidy)); [apply stable_process_tidy|exact Hproc|].
    apply store_tidy_register.
    + destruct Hsame as (-> & _ & -> & _). done.
    + destruct Hsame as (-> & _ & _ & ->). done.
    + by rewrite (get_ref_same s sb N Hsame).
    + by apply (store_tidy_same s).
Qed.

(** ** The store through removeInfo, commit and remove *)

Lemma removeInfo_state s c :
  (∀ n r, get_ref s n = Some r → is_Some (info_at s r)) →
  match get_ref s c with
  | Some r => ∃ i, info_at s r = Some i ∧ fst (removeInfo c s) = Ok (Some i)
  | None => snd (removeInfo c s) = record_call (CallRemoveInfo c) s
  end.
Proof.
  intros T1. destruct (get_ref s c) as [r|] eqn:Hr.
  - destruct (T1 c r Hr) as [i Hi]. exists i. split; [done|].
    destruct (removeInfo_registered s c r i Hr Hi) as (s' & -> & _). done.
  - rewrite removeInfo_unregistered; [done|]. unfold get_info. by rewrite Hr.
Qed.

Lemma get_ref_removeInfo_tidy c s n :
  store_tidy s →
  get_ref (snd (removeInfo c s)) n = if decide (n = c) then None else get_ref s n.
Proof.
  intros (T1 & _). pose proof (removeInfo_state s c T1) as Hst.
  destruct (get_ref s c) as [r|] eqn:Hr.
  - destruct Hst as (i & Hi & _).
    destruct (removeInfo_registered s c r i Hr Hi) as (s' & Hrun & _ & _ & _ & _ & _ & Hl & _).
    rewrite Hrun. simpl. unfold get_ref at 1. rewrite Hl, map_get_delete. done.
  - rewrite Hst. destruct (decide (n = c)) as [->|]; done.
Qed.

Lemma store_tidy_removeInfo c s : store_tidy s → store_tidy (snd (removeInfo c s)).
Proof.
  intros Ht. pose proof (get_ref_removeInfo_tidy c s) as Href.
  destruct Ht as (T1 & T2 & T3 & T4). pose proof (removeInfo_state s c T1) as Hst.
  destruct (get_ref s c) as [r|] eqn:Hr.
  - destruct Hst as (i & Hi & _).
    destruct (removeInfo_registered s c r i Hr Hi)
      as (s' & Hrun & _ & Hio & _ & _ & _ & _ & Hn & Hitems).
    rewrite Hrun in *. cbn [snd] in *.
    assert (Href' : ∀ n r', get_ref s' n = Some r' → n ≠ c ∧ get_ref s n = Some r').
    { intros n r' Hn'. rewrite Href in Hn' by (by split_and!).
      by destruct (decide (n = c)). }
    assert (Hinfo : ∀ n, n ≠ c → get_info s' n = get_info s n).
    { intros n Hne. unfold get_info. rewrite Href, decide_False by (done || by split_and!).
      destruct (get_ref s n); [|done]. unfold info_at. by rewrite Hio. }
    assert (Hci : get_info s c = Some i) by (unfold get_info; by rewrite Hr).
    split_and!.
    + intros n r' [_ Hn']%Href'. unfold info_at. rewrite Hio. by apply (T1 n).
    + intros n1 n2 r' [_ H1]%Href' [_ H2]%Href'. by apply (T2 n1 n2 r').
    + intros n i0 f Hi0 Hf.
      assert (Hne : n ≠ c).
      { intros ->. unfold get_info in Hi0. rewrite Href, decide_True in Hi0; done || by split_and!. }
      rewrite Hinfo in Hi0 by done. destruct (T3 n i0 f Hi0 Hf) as (it & Hit & Ho).
      exists it. split; [|done]. rewrite Hitems, decide_False; [done|].
      intros Hfi. destruct (T3 c i f Hci Hfi) as (it' & Hit' & Ho'). congruence.
    + intros f it. rewrite Hitems, Hn. destruct (decide (f ∈ fragments i)) as [|Hfi]; [done|].
      intros Hit. destruct (T4 f it Hit) as (Hlt & i0 & Hi0 & Hf0). split; [done|].
      exists i0. split; [|done]. rewrite Hinfo; [done|]. intros Ho.
      rewrite Ho, Hci in Hi0. injection Hi0 as <-. done.
  - rewrite Hst. by apply (store_tidy_same s); [split_and!|done|split_and!].
Qed.

Lemma keeps_fields_writes :
  (∀ c s, keeps fields_allocated s (record_call c s))
  ∧ (∀ s s', extends s s' → keeps fields_allocated s s')
  ∧ (∀ m s, keeps fields_allocated s (write_placements m s))
  ∧ (∀ s, keeps fields_allocated s (next_counter s))
  ∧ (∀ m s, keeps fields_allocated s (write_id2planarCurve m s))
  ∧ (∀ i s, keeps fields_allocated s (snd (alloc_info i s)))
  ∧ (∀ m s, keeps fields_allocated s (write_curve2info m s)).
Proof.
  split_and!.
  - intros c s H. exact H.
  - intros s s' (Ht & H1 & H2 & H3 & _). unfold keeps, fields_allocated.
    by rewrite Ht, H1, H2, H3.
  - intros m s (? & ? & ?). unfold fields_allocated. simpl. by rewrite length_insert.
  - intros s H. exact H.
  - intros m s (? & ? & ?). unfold fields_allocated. simpl. by rewrite length_insert.
  - intros i s H. exact H.
  - intros m s (? & ? & ?). unfold fields_allocated. simpl. by rewrite length_insert.
Qed.

Lemma stable_add_fields N : stable (keeps fields_allocated) (add N).
Proof.
  destruct keeps_fields_writes as (K1 & K2 & K3 & K4 & K5 & K6 & K7).
  apply (stable_add_writes (keeps fields_allocated) (λ _, True)); [apply _..| | | | | | | |done];
    auto.
Qed.

Lemma stable_removeInfo_fields c : stable (keeps fields_allocated) (removeInfo c).
Proof.
  destruct keeps_fields_writes as (K1 & K2 & K3 & K4 & K5 & K6 & K7).
  apply (stable_removeInfo_writes (keeps fields_allocated) (λ _, True));
    [apply _..| | | |done]; auto.
Qed.

Lemma for_of_teardown_tidy l : ∀ s,
  fields_allocated s → store_tidy s →
  ∃ s', for_of l teardown s = (Ok tt, s')
    ∧ fields_allocated s' ∧ store_tidy s'
    ∧ ∀ n, get_ref s' n = if bool_decide (n ∈ l) then None else get_ref s n.
Proof.
  induction l as [|c l IH]; intros s Hw Ht; simpl.
  - exists s. by split_and!.
  - unfold bind at 1. rewrite teardown_run.
    destruct (IH (snd (removeInfo c s))) as (s' & Hrun & Hw' & Ht' & Hget).
    { by apply (stable_removeInfo_fields c s). }
    { by apply store_tidy_removeInfo. }
    exists s'. split_and!; [done..|].
    intros n. rewrite Hget, (get_ref_removeInfo_tidy c s n Ht).
    destruct (decide (n = c)) as [->|Hne].
    + rewrite (bool_decide_eq_true_2 (c ∈ c :: l)); [|by left]. by destruct (bool_decide _).
    + destruct (bool_decide (n ∈ l)) eqn:Hb.
      * apply bool_decide_eq_true in Hb. rewrite bool_decide_eq_true_2; [done|by right].
      * apply bool_decide_eq_false in Hb. rewrite bool_decide_eq_false_2; [done|].
        intros [?|?]%elem_of_cons; done.
Qed.

Lemma readd_tidy skip l : ∀ promises s ps s',
  fields_allocated s → store_tidy s → NoDup l →
  (∀ n, n ∈ l → skip n = false → get_ref s n = None) →
  add_in_turn skip l promises s = (Ok ps, s') → Forall (λ p, p = Ok tt) ps →
  fields_allocated s' ∧ store_tidy s' ∧ ∀ n, n ∉ l → get_ref s' n = get_ref s n.
Proof.
  induction l as [|c rest IH]; intros promises s ps s' Hw Ht Hnd Hnew H Hps; simpl in H.
  - injection H as <- <-. by split_and!.
  - apply NoDup_cons in Hnd as [Hc Hnd].
    destruct (skip c) eqn:Hskip.
    + destruct (IH promises s ps s' Hw Ht Hnd) as (Hw' & Ht' & Hget); [|done|done|].
      * intros n Hn. apply Hnew. by right.
      * split_and!; [done..|]. intros n Hn. apply Hget. intros ?. apply Hn. by right.
    + bind_inv H as u s0 Hu. apply unwrap_Ok in Hu as [Hu ->].
      bind_inv H as p s1 Hp. unfold attempt in Hp. injection Hp as <- <-.
      destruct (readd_promises _ _ _ _ _ _ H) as (more & ->).
      pose proof Hps as Hps0.
      apply Forall_app in Hps as [Hps _]. apply Forall_app in Hps as [_ Hp].
      apply (proj1 (Forall_singleton _ _)) in Hp. cbv beta in Hp.
      assert (Hadd : add c s = (Ok tt, snd (add c s))).
      { clear H. destruct (add c s) as [o s1]. simpl in *. by subst. }
      set (s1 := snd (add c s)) in *.
      assert (Hw1 : fields_allocated s1) by (by apply (stable_add_fields c s)).
      clearbody s1.
      pose proof (add_registers c s s1 (proj1 Hw) (proj1 (proj2 Hw)) Hadd) as (Hothers & _).
      assert (Ht1 : store_tidy s1).
      { apply (add_tidy c s s1); [apply Hw|apply Hw|done| |done]. apply Hnew; [by left|done]. }
      edestruct IH as (Hw' & Ht' & Hget); [exact Hw1|exact Ht1|exact Hnd| |exact H|exact Hps0|].
      * intros n Hn Hs. rewrite Hothers; [|by intros ->]. apply Hnew; [by right|done].
      * split_and!; [done..|]. intros n Hn. apply not_elem_of_cons in Hn as [Hne Hn].
        rewrite Hget by done. by apply Hothers.
Qed.

Lemma commit_tidy data s s' :
  fields_allocated s → store_tidy s → NoDup (dirty data) → NoDup (added data) →
  (∀ n, n ∈ added data → n ∉ deleted data → n ∉ dirty data → get_ref s n = None) →
  commit data s = (Ok tt, s') → fields_allocated s' ∧ store_tidy s'.
Proof.
  intros Hw Ht Hnd1 Hnd2 Hnew H. rewrite (commit_schedule data s) in H.
  bind_inv H as u1 s1 H1. bind_inv H as u2 s2 H2.
  bind_inv H as ps s3 H3.
  pose proof (Promise_all_state ps s3) as Hst. rewrite H in Hst. simpl in Hst. subst s3.
  assert (Hps : Forall (λ p, p = Ok tt) ps).
  { apply (Promise_all_Ok ps s'). by rewrite H. }
  destruct (for_of_teardown_tidy (dirty data) s Hw Ht) as (s1' & H1' & Hw1 & Ht1 & Hget1).
  change (for_of (dirty data) teardown s = (Ok u1, s1)) in H1.
  rewrite H1' in H1. injection H1 as _ <-.
  rewrite (for_of_skip (λ c, bool_decide (c ∈ dirty data)) (deleted data) teardown s1') in H2.
  destruct (for_of_teardown_tidy
              (List.filter (λ c, negb (bool_decide (c ∈ dirty data))) (deleted data))
              s1' Hw1 Ht1) as (s2' & H2' & Hw2 & Ht2 & Hget2).
  rewrite H2' in H2. injection H2 as _ <-.
  edestruct (readd_tidy (λ _, false) (schedule data)) as (Hw3 & Ht3 & _);
    [exact Hw2|exact Ht2|by apply NoDup_schedule| |exact H3|exact Hps|]; [|done].
  intros n [Hdel Hn]%elem_of_schedule _. rewrite Hget2, Hget1.
  destruct (bool_decide (n ∈ List.filter _ _)); [done|].
  destruct (bool_decide (n ∈ dirty data)) eqn:Hd; [done|].
  apply bool_decide_eq_false in Hd. destruct Hn as [?|Hn]; [done|]. by apply Hnew.
Qed.

Lemma remove_tidy X s s' :
  fields_allocated s → store_tidy s → remove X s = (Ok tt, s') →
  fields_allocated s' ∧ store_tidy s'.
Proof.
  intros Hw Ht H. unfold remove in H. bind_inv H as data s1 Hc.
  apply cascade_Ok_shape in Hc as (-> & Hdel & Hadd & Hnd & _).
  apply (commit_tidy data s s' Hw Ht Hnd); [rewrite Hadd; apply NoDup_nil_2| |done].
  rewrite Hadd. intros n Hn. by apply elem_of_nil in Hn.
Qed.

Lemma reachable_tidy xy store s :
  items store = [] → reachable xy store s → fields_allocated s ∧ store_tidy s.
Proof.
  intros Hempty. induction 1 as [|N s s' _ [Hw Ht] HN Hadd|X s s' _ [Hw Ht] Hrem
                               |data s s' _ [Hw Ht] Hdata Hnew Hcommit].
  - split; [unfold fields_allocated; simpl; lia|]. split_and!.
    + intros n r Hr. done.
    + intros n1 n2 r Hr. done.
    + intros n i f Hi. done.
    + intros f it. simpl. by rewrite Hempty.
  - split; [by apply (stable_Ok (keeps fields_allocated) _ _ _ _ (stable_add_fields N) Hadd)|].
    apply (add_tidy N s s'); [apply Hw|apply Hw|done..].
  - by apply (remove_tidy X s s').
  - destruct (cascaded_shape s data Hdata) as (Hnd & Hna & _).
    by apply (commit_tidy data s s').
Qed.

(** X14: the geometry store and the registry stay in step.  From a store
    without items, in every state reached by fulfilled calls of [add] (of
    curves not registered at the call), of [remove] and of [commit] (of
    transactions built by [cascade]): every fragment
    listed in the [CurveInfo] of a registered curve is an item of the
    store that was cut from that curve, and every item of the store is
    listed as a fragment of the registered curve it was cut from; so no
    fragment of a removed curve is left behind and no entry lists a
    fragment that is gone. *)
Theorem the_store_holds_the_fragments_of_the_registry
    (xy : Placement) (store : GeometryStore) (s : State) :
  items store = [] → reachable xy store s → store_tidy s.
Proof. intros Hempty Hr. by destruct (reachable_tidy xy store s Hempty Hr). Qed.

(** ** A curve that crosses nothing *)

Lemma updateCurve_first n tr pl s r i :
  get_ref s n = Some r → info_at s r = Some i → fragments i = [] →
  updateCurve n [tr] pl s
  = (Ok tt,
     alter_info (set_fragments [nextName (db s)]) r
       (set_db (mkStore (map_set (nextName (db s))
                           (mkItem pl (trimmed tr) (start tr, stop tr, n)) (items (db s)))
                        (nextName (db s) + 1)%Z) s)).
Proof.
  intros Hr Hi Hf. unfold updateCurve, bind, gets. rewrite Hr. unfold use_info. rewrite Hi.
  cbn [fst snd]. rewrite Hf. reflexivity.
Qed.

Lemma process_done fuel all p2i pl visited promises s :
  process fuel all p2i pl [] visited promises s = (Ok promises, s).
Proof. by destruct fuel. Qed.

(** X15: adding a planar curve that is not a contour and for which the
    kernel finds no cross: the curve is registered with an empty [touched]
    set, no joints and one fragment, the whole curve, stored under the next
    name of the store with the range (-1, -1); the store gains that item
    only, and every other entry and [CurveInfo] object is unchanged. *)
Theorem add_of_a_curve_that_crosses_nothing
    (N : SimpleName) (c : Curve) (p : Placement) (s s' : State) :
  fields_allocated s →
  planar_of N = Some (c, p) →
  (∀ all, IntersectWithAll c all = []) → IsContour c = false →
  add N s = (Ok tt, s') →
  ∃ pN,
    get_info s' N
    = Some (mkCurveInfo (counter (this s)) pN [] [nextName (db s)] (mkJoints None None))
    ∧ items (db s')
      = map_set (nextName (db s)) (mkItem pN (Whole c) ((-1)%Q, (-1)%Q, N)) (items (db s))
    ∧ (∀ r i, info_at s r = Some i → info_at s' r = Some i)
    ∧ (∀ n, n ≠ N → get_ref s' n = get_ref s n).
Proof.
  intros (W1 & W2 & _) Hp Hnone Hcontour H.
  destruct (add_Ok_store N s s' H)
    as [[Hp' _]|(cN & p' & pN & sb & p2i0 & all0 & promises & Hp' & Hsame & Hdb & Hproc)];
    [congruence|].
  rewrite Hp in Hp'. injection Hp' as <- <-.
  assert (W1' : curve2info (this sb) < length (curve2infoObjs (heap sb))).
  { destruct Hsame as (-> & _ & -> & _). done. }
  assert (W2' : id2planarCurve (this sb) < length (planarObjs (heap sb))).
  { destruct Hsame as (-> & _ & _ & ->). done. }
  destruct (register_spec N c pN sb W1' W2') as (Rt & Ri & Rl & Rp & _).
  assert (Hio : infoObjs (heap sb) = infoObjs (heap s)) by (by destruct Hsame as (_ & -> & _)).
  assert (Hcnt : counter (this sb) = counter (this s)) by (by destruct Hsame as (-> & _)).
  set (s0 := register N c pN sb) in *.
  assert (Hr0 : get_ref s0 N = Some (length (infoObjs (heap s)))).
  { unfold get_ref. by rewrite Rl, map_get_set, decide_True, Hio. }
  assert (Hi0 : info_at s0 (length (infoObjs (heap s))) = Some (new_CurveInfo (counter (this s)) pN)).
  { unfold info_at. rewrite Ri, <- Hio, list_lookup_middle by done. by rewrite Hcnt. }
  cbn [process] in Hproc. bind_inv Hproc as r s1 Hbody.
  apply loop_body_Ok in Hbody as (name & Hname & _ & _ & Hcase).
  rewrite map_get_set, decide_True in Hname by done. injection Hname as <-.
  rewrite Hnone in Hcase. unfold contour_crosses in Hcase. rewrite Hcontour in Hcase.
  cbn [app sort_crosses foldl] in Hcase. destruct Hcase as [Htp Hup].
  rewrite Htp in Hproc. cbn [map_delete] in Hproc. rewrite decide_True in Hproc by done.
  rewrite (updateCurve_first N _ pN s0 _ _ Hr0 Hi0 eq_refl) in Hup.
  injection Hup as Hr1 <-. rewrite process_done in Hproc. injection Hproc as _ <-.
  assert (Hdb0 : db s0 = db s) by (rewrite <- Hdb; done).
  exists pN. rewrite <- Hdb0. split_and!.
  - unfold get_info.
    change (get_ref (alter_info _ _ (set_db _ s0)) N) with (get_ref s0 N). rewrite Hr0.
    rewrite info_at_alter, decide_True by done.
    change (info_at (set_db _ s0) _) with (info_at s0 (length (infoObjs (heap s)))).
    by rewrite Hi0.
  - done.
  - intros r0 i Hi. rewrite info_at_alter.
    assert (Hlt : r0 < length (infoObjs (heap s))) by (by eapply lookup_lt_Some).
    rewrite decide_False by lia.
    change (info_at (set_db _ s0) r0) with (info_at s0 r0).
    unfold info_at. rewrite Ri, Hio, lookup_app_l by done. exact Hi.
  - intros n Hn.
    change (get_ref (alter_info _ _ (set_db _ s0)) n) with (get_ref s0 n).
    unfold get_ref at 1. rewrite Rl, map_get_set, decide_False by done.
    apply (get_ref_same s sb n Hsame).
Qed.

(** ** Where the links come from *)

Global Instance grown_by_refl P : Reflexive (grown_by P).
Proof. intros s r i Hi. exists i. split; [done|]. by left. Qed.

Global Instance grown_by_trans P : Transitive (grown_by P).
Proof.
  intros s1 s2 s3 H12 H23 r i3 Hi3.
  destruct (H23 r i3 Hi3) as (i2 & Hi2 & Hy2). destruct (H12 r i2 Hi2) as (i1 & Hi1 & Hy1).
  exists i1. split; [done|]. intros y Hy. destruct (Hy2 y Hy) as [Hy'|?]; [|by right].
  by apply Hy1.
Qed.

Lemma grown_by_alter P f r0 s :
  (∀ i y, y ∈ touched (f i) → y ∈ touched i ∨ P r0 y) → grown_by P s (alter_info f r0 s).
Proof.
  intros Hf r i'. rewrite info_at_alter. destruct (decide (r0 = r)) as [<-|].
  - destruct (info_at s r0) as [i|]; [|done]. intros [= <-]. exists i. split; [done|]. apply Hf.
  - intros Hi. exists i'. split; [done|]. by left.
Qed.

Lemma grown_by_set_db P g s : grown_by P s (set_db g s).
Proof. intros r i Hi. exists i. split; [done|]. by left. Qed.

Lemma stable_addJoint_links P cross p2i : stable (grown_by P) (addJoint cross p2i).
Proof.
  apply stable_addJoint_turn; [apply _..|]. intros j r s.
  split; apply grown_by_alter; intros i y Hy; by left.
Qed.

Lemma stable_updateCurve_links P instance result pl :
  stable (grown_by P) (updateCurve instance result pl).
Proof.
  unfold updateCurve.
  apply stable_bind; [apply _|apply stable_gets; apply _|]. intros r.
  apply stable_bind; [apply _|apply stable_use_info; apply _|]. intros ri.
  apply stable_bind; [apply _| |].
  { apply stable_for_of; [apply _..|]. intros n s. apply grown_by_set_db. }
  intros _. apply stable_bind; [apply _| |].
  { induction result as [|tr rest IH]; simpl; [apply stable_ret; apply _|].
    apply stable_bind; [apply _|intros s; apply grown_by_set_db|]. intros p.
    apply stable_bind; [apply _|exact IH|]. intros views. apply stable_ret; apply _. }
  intros views. apply stable_modify. intros s. apply grown_by_alter. intros i y Hy. by left.
Qed.

Lemma walk_links P info curve1 p2i visited crosses :
  (∀ r x y, info = Some r → x ∈ crosses →
            map_get (Id (c3d.curve (c3d.on2 x))) p2i = Some y → P r y) →
  ∀ start0 trims tp s res s',
    walk info curve1 p2i visited crosses start0 trims tp s = (Ok res, s') →
    grown_by P s s'.
Proof.
  induction crosses as [|cross rest IH]; intros HP start0 trims tp s res s' H.
  - simpl in H. injection H as _ <-. reflexivity.
  - apply walk_cons_Ok in H as (id & r & i & Hid & _ & Hinfo & Hi & H).
    apply IH in H.
    + etrans; [|exact H]. apply grown_by_alter. intros i0 y Hy. simpl in Hy.
      apply elem_of_set_add in Hy as [->|Hy]; [|by left]. right.
      apply (HP r cross id Hinfo); [by left|done].
    + intros r0 x y Hr0 Hx. apply HP; [done|by right].
Qed.

Section Links.
Context (HK : faithful_kernel).
Context (all : list Curve) (p2i : list (Curve2dId * SimpleName)) (pl : Placement).
Context (Hinj : ∀ c c', c ∈ all → c' ∈ all → Id c = Id c' → c = c').
Context (s0 : State).

Lemma grown_by_link_mono V V' s s' :
  (∀ k, k ∈ V → k ∈ V') → grown_by (link all p2i s0 V) s s' → grown_by (link all p2i s0 V') s s'.
Proof.
  intros HV H r i' Hi'. destruct (H r i' Hi') as (i & Hi & Hy). exists i. split; [done|].
  intros y Hin. destruct (Hy y Hin) as [?|(c & b & n & ? & ? & ?)]; [by left|right].
  exists c, b, n. split_and!; [done|by apply HV|tauto..].
Qed.

Lemma loop_body_links tp visited id current s r s1 :
  between_turns all p2i s tp visited → (id, current) ∈ tp → extends s0 s →
  loop_body all p2i pl tp visited id current s = (Ok r, s1) →
  grown_by (link all p2i s0 (set_add id visited)) s s1.
Proof.
  intros [L1 _] Hhead Hext H. destruct (L1 id current Hhead) as [Hid Hcur].
  apply loop_body_Ok in H as (name & Hname & _ & _ & Hcase).
  set (crosses := IntersectWithAll current all ++ contour_crosses current) in *.
  destruct (sort_crosses crosses) as [|first rest] eqn:Hsort.
  - destruct Hcase as [_ Hup].
    pose proof (stable_updateCurve_links (link all p2i s0 (set_add id visited)) name
                  [mkTrim (Whole current) (-1) (-1)] pl s) as Hs.
    by rewrite Hup in Hs.
  - destruct Hcase as (s2 & s3 & trims & Hj & Hw & Hup).
    assert (Hfirst : first ∈ crosses).
    { apply (proj1 (elem_of_sort_crosses _ _)). rewrite Hsort. by left. }
    destruct (cross_of_current HK all current first Hcur Hfirst) as [Hon1 _].
    rewrite Hon1, Hid, Hname in Hw. simpl in Hw.
    assert (H2 : grown_by (link all p2i s0 (set_add id visited)) s s2).
    { unfold end_joints in Hj. destruct (_ && _); [|by injection Hj as <-].
      bind_inv Hj as u sj Hj1.
      pose proof (stable_Ok (grown_by (link all p2i s0 (set_add id visited))) _ _ _ _
                    (stable_addJoint_links _ _ _) Hj1).
      pose proof (stable_Ok (grown_by (link all p2i s0 (set_add id visited))) _ _ _ _
                    (stable_addJoint_links _ _ _) Hj).
      by etrans. }
    assert (H3 : grown_by (link all p2i s0 (set_add id visited)) s2 s3).
    { eapply walk_links; [|exact Hw]. intros r0 x y Hr0 Hx Hy.
      exists current, (c3d.curve (c3d.on2 x)), name.
      assert (Hx' : c3d.curve (c3d.on2 x) = current
                    ∨ (x ∈ IntersectWithAll current all)).
      { apply elem_of_with_ends in Hx as [Hx|[->|(param & ->)]]; [| |by left].
        - rewrite <- Hsort in Hx. apply (proj1 (elem_of_sort_crosses _ _)) in Hx.
          apply elem_of_app in Hx as [?|Hx]; [by right|].
          apply elem_of_contour_crosses in Hx as (param & ->). by left.
        - apply elem_of_app in Hfirst as [?|Hx]; [by right|].
          apply elem_of_contour_crosses in Hx as (param & ->). by left. }
      split_and!; [done|rewrite Hid; apply elem_of_set_add; by left| |by rewrite Hid|..|done|].
      - destruct Hx' as [->|Hx']; [done|]. by eapply kernel_on2.
      - rewrite <- (get_ref_extends s0 s name Hext). done.
      - destruct Hx' as [?|?]; [by left|right; by exists x]. }
    assert (H4 : grown_by (link all p2i s0 (set_add id visited)) s3 s1).
    { pose proof (stable_updateCurve_links (link all p2i s0 (set_add id visited)) name trims pl s3) as Hs.
      by rewrite Hup in Hs. }
    etrans; [exact H2|]. by etrans.
Qed.

Lemma process_links fuel :
  ∀ tp visited promises s res s',
    between_turns all p2i s tp visited → extends s0 s →
    process fuel all p2i pl tp visited promises s = (Ok res, s') →
    ∃ visited', between_turns all p2i s' [] visited' ∧ extends s s'
      ∧ (∀ k, k ∈ visited → k ∈ visited') ∧ (∀ k, k ∈ tp.*1 → k ∈ visited')
      ∧ grown_by (link all p2i s0 visited') s s'.
Proof.
  induction fuel as [|fuel IH]; intros tp visited promises s res s' Hinv Hext H.
  - destruct tp as [|[id current] tp]; simpl in H; [|done]. injection H as <- <-.
    exists visited. split_and!; [done|done|done| |done].
    intros k Hk. by apply elem_of_nil in Hk.
  - destruct tp as [|[id current] tp]; simpl in H.
    { injection H as <- <-. exists visited. split_and!; [done|done|done| |done].
      intros k Hk. by apply elem_of_nil in Hk. }
    bind_inv H as r s1 Hbody.
    pose proof (loop_body_links _ _ _ _ _ _ _ Hinv ltac:(by left) Hext Hbody) as Hl.
    apply (loop_body_inv HK all p2i pl Hinj) in Hbody as (Hinv' & He & Hvis & Hkeys);
      [|done|by left].
    apply IH in H as (visited' & Hfin & He' & Hv & Ht & Hl'); [|done|by etrans].
    exists visited'. split_and!; [done|by etrans| | |].
    + intros k Hk. apply Hv. rewrite Hvis. apply elem_of_set_add. by right.
    + intros k Hk. destruct (Hkeys k Hk) as [?|?]; [by apply Hv|by apply Ht].
    + etrans; [|exact Hl']. eapply grown_by_link_mono; [|exact Hl].
      intros k Hk. apply Hv. by rewrite Hvis.
Qed.

End Links.

(** ** The links through add *)

Lemma get_info_same s s' n : same_registry s s' → get_info s' n = get_info s n.
Proof.
  intros Hsame. unfold get_info. rewrite (get_ref_same s s' n Hsame).
  destruct (get_ref s n); [|done]. by apply info_at_same.
Qed.

Lemma registered_same s s' n c p :
  same_registry s s' → registered s' n c p ↔ registered s n c p.
Proof.
  intros Hsame. unfold registered, entry_curve.
  rewrite (get_ref_same s s' n Hsame), (live_planar_same s s' Hsame).
  split; intros (r & Hr & i & Hi & Hc); exists r; (split; [done|]); exists i;
    [by rewrite <- (info_at_same s s' r Hsame)|by rewrite (info_at_same s s' r Hsame)].
Qed.

Lemma links_same s s' : same_registry s s' → links_sound s → links_sound s'.
Proof.
  intros Hsame (HJ & HS & HE).
  assert (Ht : ∀ x y, touches s' x y ↔ touches s x y).
  { intros x y. unfold touches. by rewrite (get_info_same s s' x Hsame). }
  split_and!.
  - intros x y Hxy%Ht. rewrite (get_info_same s s' y Hsame). by apply (HJ x).
  - intros x y Hxy%Ht. by apply Ht, HS.
  - intros x y Hxy%Ht. destruct (HE x y Hxy) as [?|(cA & pA & cB & pB & HA & HB & Hc)];
      [by left|right]. exists cA, pA, cB, pB.
    split_and!; [by apply (registered_same s s')|by apply (registered_same s s')|done].
Qed.

Lemma registry_refs_injective done s n1 n2 r :
  registry_of done s → distinct_ids done →
  get_ref s n1 = Some r → get_ref s n2 = Some r → n1 = n2.
Proof.
  intros (_ & _ & Hreg & _) Hdist H1 H2.
  destruct (Hreg n1 r H1) as (Hd1 & i1 & c1 & p1 & Hi1 & _ & Hc1 & Hp1).
  destruct (Hreg n2 r H2) as (Hd2 & i2 & c2 & p2 & Hi2 & _ & Hc2 & Hp2).
  rewrite Hi1 in Hi2. injection Hi2 as <-. rewrite Hc1 in Hc2. injection Hc2 as <-.
  by apply (Hdist n1 n2 (c1, p1) (c1, p2)).
Qed.

Lemma add_links (HK : faithful_kernel) (HL : kernel_local) done N s s' :
  registry_of done s → links_sound s →
  N ∉ done → distinct_ids (N :: done) →
  add N s = (Ok tt, s') → links_sound s'.
Proof.
  intros Hreg Hlinks HN Hdist H.
  pose proof (add_preserves done N s s' HK Hreg HN Hdist H) as Hreg'.
  apply add_Ok in H
    as [[_ Hsame]|(cN & p' & pN & sb & p2i0 & all0 & promises & HpN & Hsame & Hcol & Hproc)].
  { by apply (links_same s s'). }
  apply (links_same s sb Hsame) in Hlinks. destruct Hlinks as (HJ & HS & HE).
  apply (registry_of_same done s sb Hsame) in Hreg. clear s Hsame.
  destruct Hreg as ((R0 & R0') & R1 & R2 & R3).
  destruct (register_spec N cN pN sb R0 R0')
    as (Fthis & Finfos & Flive & Fplanar & Flen1 & Flen2).
  set (sf := register N cN pN sb) in *.
  set (rN := length (infoObjs (heap sb))) in *.
  set (p2i := map_set (Id cN) N p2i0) in *.
  set (all := all0 ++ [cN]) in *.
  apply collect_spec in Hcol as (_ & _ & Cb & Cc & _). simpl in Cb, Cc.
  assert (Hold : ∀ n r, get_ref sb n = Some r →
            n ∈ done ∧ n ≠ N ∧ r < rN
            ∧ ∃ i c p0, info_at sb r = Some i ∧ (planarCurve i < counter (this sb))%Z
                ∧ map_get (planarCurve i) (live_id2planarCurve sb) = Some c
                ∧ planar_of n = Some (c, p0) ∧ Id c ≠ Id cN).
  { intros n r Hr. destruct (R2 n r Hr) as (Hn & i & c & p0 & Hi & Hlt & Hc & Hp).
    assert (n ≠ N) by (by intros ->). split_and!; [done|done|by apply lookup_lt_Some in Hi|].
    exists i, c, p0. split_and!; [done..|]. intros Heq. apply H.
    apply (Hdist n N (c, p0) (cN, p')); [by right|by left|done|done|done]. }
  assert (Hdist' : ∀ n1 r1 c1 p1 n2 r2 c2 p2,
            (n1, r1) ∈ live_curve2info sb → (n2, r2) ∈ live_curve2info sb →
            entry_curve sb r1 c1 p1 → entry_curve sb r2 c2 p2 → Id c1 = Id c2 → n1 = n2).
  { intros n1 r1 c1 p1 n2 r2 c2 p2 H1 H2 He1 He2 Heq.
    apply (map_get_elem_of _ _ _ R1) in H1, H2.
    destruct (Hold n1 r1 H1) as (Hd1 & _ & _ & i1 & c1' & q1 & Hi1 & _ & Hc1 & Hp1 & _).
    destruct (Hold n2 r2 H2) as (Hd2 & _ & _ & i2 & c2' & q2 & Hi2 & _ & Hc2 & Hp2 & _).
    destruct (entry_curve_functional sb r1 c1 p1 c1' (placement i1) He1) as [-> _];
      [by exists i1|].
    destruct (entry_curve_functional sb r2 c2 p2 c2' (placement i2) He2) as [-> _];
      [by exists i2|].
    apply (Hdist n1 n2 (c1', q1) (c2', q2)); [by right|by right|done|done|done]. }
  specialize (Cb R1 Hdist').
  assert (Hname_old : ∀ n r c p, get_ref sb n = Some r → entry_curve sb r c p →
            map_get (Id c) p2i = Some n ∧ (isSamePlacement pN p = true → c ∈ all)).
  { intros n r c p Hr He.
    destruct (Cb n r (map_get_Some_elem_of _ _ _ Hr)) as (c0 & p0 & He0 & Hget & Hin).
    destruct (entry_curve_functional sb r c p c0 p0 He He0) as [<- <-].
    destruct (Hold n r Hr) as (_ & _ & _ & i & c1 & q & Hi & _ & Hc1 & _ & Hne).
    destruct (entry_curve_functional sb r c p c1 (placement i) He) as [<- _]; [by exists i|].
    split.
    - unfold p2i. by rewrite map_get_set, decide_False.
    - intros Hs. apply elem_of_app. left. by apply Hin. }
  assert (HcN_all : cN ∈ all) by (apply elem_of_app; right; by left).
  assert (HcN_name : map_get (Id cN) p2i = Some N).
  { unfold p2i. by rewrite map_get_set, decide_True. }
  assert (Hall : ∀ c, c ∈ all →
            c = cN ∨ ∃ n r p q, get_ref sb n = Some r ∧ entry_curve sb r c p
                                ∧ n ∈ done ∧ planar_of n = Some (c, q) ∧ Id c ≠ Id cN).
  { intros c [Hc| ->%list_elem_of_singleton]%elem_of_app; [|by left]. right.
    destruct (Cc c Hc) as [Hnil|(n & r & p & Hin & He & _)]; [by apply elem_of_nil in Hnil|].
    apply (map_get_elem_of _ _ _ R1) in Hin.
    destruct (Hold n r Hin) as (Hd & _ & _ & i & c1 & q & Hi & _ & Hc1 & Hp & Hne).
    destruct (entry_curve_functional sb r c p c1 (placement i) He) as [<- _]; [by exists i|].
    by exists n, r, p, q. }
  assert (Hinj : ∀ c c', c ∈ all → c' ∈ all → Id c = Id c' → c = c').
  { intros c c' Hc Hc' Heq.
    destruct (Hall c Hc) as [->|(n & r & p & q & Hr & He & Hd & Hp & Hne)];
      destruct (Hall c' Hc') as [->|(n' & r' & p0 & q' & Hr' & He' & Hd' & Hp' & Hne')];
      [done|congruence|congruence|].
    assert (n = n') as <-.
    { apply (Hdist n n' (c, q) (c', q')); [by right|by right|done|done|done]. }
    rewrite Hp in Hp'. by injection Hp' as ->. }
  apply (process_links HK all p2i pN Hinj sf) in Hproc
    as (visited' & [_ L2] & Hext & _ & Hvis & Hgrow); [| |done].
  2:{ split.
      - intros id c Hin. apply list_elem_of_singleton in Hin. injection Hin as -> ->.
        by split.
      - intros c b n nb _ Hv. by apply elem_of_nil in Hv. }
  pose proof Hext as (Et & Em & Ep & _ & _ & Eg).
  assert (Href : ∀ n, get_ref s' n = if decide (n = N) then Some rN else get_ref sb n).
  { intros n. rewrite (get_ref_extends sf s' n Hext). unfold get_ref.
    by rewrite Flive, map_get_set. }
  assert (Hinfo_old : ∀ r i, r < rN → info_at sb r = Some i →
            ∃ i', info_at s' r = Some i' ∧ info_grows i i').
  { intros r i Hlt Hi. apply Eg. unfold info_at. by rewrite Finfos, lookup_app_l. }
  assert (Hinfo_new : ∃ i', info_at s' rN = Some i'
            ∧ info_grows (new_CurveInfo (counter (this sb)) pN) i').
  { apply Eg. unfold info_at. rewrite Finfos. by apply list_lookup_middle. }
  assert (Hregd : ∀ n, is_Some (get_ref sb n) ∨ n = N → is_Some (get_info s' n)).
  { intros n [[r Hr]| ->]; unfold get_info; rewrite Href.
    - destruct (Hold n r Hr) as (_ & Hne & Hlt & i & _ & _ & Hi & _).
      rewrite decide_False, Hr by done.
      destruct (Hinfo_old r i Hlt Hi) as (i' & -> & _). by eexists.
    - rewrite decide_True by done. destruct Hinfo_new as (i' & -> & _). by eexists. }
  assert (Hnamed : ∀ b y, b ∈ all → map_get (Id b) p2i = Some y →
            is_Some (get_ref sb y) ∨ y = N).
  { intros b y Hb Hy. destruct (Hall b Hb) as [->|(n & r & p & q & Hr & He & _)].
    - right. congruence.
    - left. destruct (Hname_old n r b p Hr He) as [Hn _]. rewrite Hy in Hn.
      injection Hn as ->. by eexists. }
  assert (Hold_touch : ∀ a b, touches sb a b → touches s' a b).
  { intros a b (i & Hi & Hb). unfold get_info in Hi.
    destruct (get_ref sb a) as [r|] eqn:Hr; [|done].
    destruct (Hold a r Hr) as (_ & Hne & Hlt & _).
    destruct (Hinfo_old r i Hlt Hi) as (i' & Hi' & _ & _ & Hsub).
    exists i'. split; [|by apply Hsub]. unfold get_info.
    by rewrite Href, decide_False, Hr. }
  assert (Hcases : ∀ A B, touches s' A B →
            touches sb A B
            ∨ ∃ c b, c ∈ all ∧ Id c ∈ visited' ∧ b ∈ all
                     ∧ map_get (Id c) p2i = Some A ∧ map_get (Id b) p2i = Some B
                     ∧ (b = c ∨ ∃ x, x ∈ IntersectWithAll c all ∧ c3d.curve (c3d.on2 x) = b)).
  { intros A B (i' & Hi' & HB). unfold get_info in Hi'.
    destruct (get_ref s' A) as [r|] eqn:Hr; [|done].
    destruct (Hgrow r i' Hi') as (i & Hi & Hy).
    destruct (Hy B HB) as [Hin|(c & b & n & Hc & HcV & Hb & Hn & Hrn & Hbn & Hx)].
    - left. rewrite Href in Hr. destruct (decide (A = N)) as [->|Hne].
      + injection Hr as <-. unfold info_at in Hi.
        rewrite Finfos, list_lookup_middle in Hi by done. injection Hi as <-.
        by apply elem_of_nil in Hin.
      + destruct (Hold A r Hr) as (_ & _ & Hlt & _).
        unfold info_at in Hi. rewrite Finfos, lookup_app_l in Hi by done.
        exists i. split; [|done]. unfold get_info. by rewrite Hr.
    - right. exists c, b. split_and!; [done..| |done|done].
      rewrite <- (get_ref_extends sf s' n Hext) in Hrn.
      assert (n = A) as <-; [|done].
      eapply (registry_refs_injective _ s' n A r Hreg'); [done|done|done]. }
  assert (Hplanar : live_id2planarCurve s'
                    = map_set (counter (this sb)) cN (live_id2planarCurve sb)).
  { rewrite <- Fplanar. unfold live_id2planarCurve. by rewrite Et, Ep. }
  assert (Hkeep : ∀ n c p, registered sb n c p → registered s' n c p).
  { intros n c p (r & Hr & i & Hi & Hc & Hp).
    destruct (Hold n r Hr) as (_ & Hne & Hlt & i0 & _ & _ & Hi0 & Hlt0 & _).
    rewrite Hi in Hi0. injection Hi0 as <-.
    destruct (Hinfo_old r i Hlt Hi) as (i' & Hi' & Hpc & Hpl & _).
    exists r. split; [by rewrite Href, decide_False|]. exists i'.
    split_and!; [done| |congruence].
    rewrite Hplanar, Hpc, map_get_set, decide_False; [done|lia]. }
  assert (HregN : registered s' N cN pN).
  { destruct Hinfo_new as (i' & Hi' & Hpc & Hpl & _). simpl in Hpc, Hpl.
    exists rN. split; [by rewrite Href, decide_True|]. exists i'.
    split_and!; [done| |done]. by rewrite Hplanar, Hpc, map_get_set, decide_True. }
  assert (Hnamed_reg : ∀ c y, c ∈ all → map_get (Id c) p2i = Some y →
            ∃ p, registered s' y c p).
  { intros c y Hc Hy. destruct (Hall c Hc) as [->|(n & r & p & q & Hr & He & _)].
    - rewrite HcN_name in Hy. injection Hy as <-. by exists pN.
    - destruct (Hname_old n r c p Hr He) as [Hn _]. rewrite Hy in Hn.
      injection Hn as ->. exists p. apply Hkeep. by exists r. }
  split_and!.
  3:{ intros A B HAB. destruct (Hcases A B HAB)
        as [Hold'|(c & b & Hc & _ & Hb & HA & HB & [->|(x & Hx & Hxb)])].
      - destruct (HE A B Hold') as [?|(cA & pA & cB & pB & HrA & HrB & Hcr)]; [by left|].
        right. exists cA, pA, cB, pB. split_and!; [by apply Hkeep|by apply Hkeep|done].
      - left. congruence.
      - right. destruct (Hnamed_reg c A Hc HA) as [pA HrA].
        destruct (Hnamed_reg b B Hb HB) as [pB HrB].
        exists c, pA, b, pB. split_and!; [done|done|].
        rewrite <- Hxb. by apply (HL c all x). }
  - intros A B [Hold'|(c & b & _ & _ & Hb & _ & HB & _)]%Hcases.
    + apply Hregd. left. destruct (HJ A B Hold') as [i Hi]. unfold get_info in Hi.
      destruct (get_ref sb B); [by eexists|done].
    + apply Hregd. by apply (Hnamed b).
  - intros A B HAB. destruct (Hcases A B HAB)
      as [Hold'|(c & b & Hc & HcV & Hb & HA & HB & [->|(x & Hx & Hxb)])].
    + by apply Hold_touch, HS.
    + rewrite HA in HB. injection HB as <-. done.
    + assert (Hcb : crossing c b) by (rewrite <- Hxb; by apply (HL c all x)).
      destruct (L2 c b A B Hc HcV Hb Hcb HA HB) as [_ [HbV|Hnil]];
        [|by apply elem_of_nil in Hnil].
      by apply (L2 b c B A Hb HbV Hc (kernel_symmetric HK _ _ Hcb) HB HA).
Qed.

(** ** The links through commit and remove *)

Lemma infoObjs_removeInfo c s :
  infoObjs (heap (snd (removeInfo c s))) = infoObjs (heap s).
Proof.
  destruct (get_info s c) as [i|] eqn:Hi.
  - unfold get_info in Hi. destruct (get_ref s c) as [r|] eqn:Hr; [|done].
    destruct (removeInfo_registered s c r i Hr Hi) as (s' & -> & _ & Hio & _). done.
  - by rewrite removeInfo_unregistered.
Qed.

Lemma infoObjs_teardown l : ∀ s s',
  for_of l teardown s = (Ok tt, s') → infoObjs (heap s') = infoObjs (heap s).
Proof.
  induction l as [|c l IH]; intros s s' H; simpl in H; [by injection H as <-|].
  unfold bind at 1 in H. rewrite teardown_run in H. apply IH in H.
  by rewrite H, infoObjs_removeInfo.
Qed.

Lemma removeInfo_planar c s :
  live_id2planarCurve (snd (removeInfo c s)) = live_id2planarCurve s
  ∧ counter (this (snd (removeInfo c s))) = counter (this s).
Proof.
  destruct (get_info s c) as [i|] eqn:Hi.
  - unfold get_info in Hi. destruct (get_ref s c) as [r|] eqn:Hr; [|done].
    destruct (removeInfo_registered s c r i Hr Hi) as (s' & -> & Ht & _ & _ & Hp & _).
    simpl. unfold live_id2planarCurve. by rewrite Ht, Hp.
  - by rewrite removeInfo_unregistered.
Qed.

Lemma teardown_planar l : ∀ s s',
  for_of l teardown s = (Ok tt, s') →
  live_id2planarCurve s' = live_id2planarCurve s ∧ counter (this s') = counter (this s).
Proof.
  induction l as [|c l IH]; intros s s' H; simpl in H; [by injection H as <-|].
  unfold bind at 1 in H. rewrite teardown_run in H.
  destruct (IH _ _ H) as [-> ->]. apply removeInfo_planar.
Qed.

Lemma readd_links (HK : faithful_kernel) (HL : kernel_local) skip l :
  ∀ done promises s ps s',
    registry_of done s → links_sound s → NoDup l →
    (∀ n, n ∈ l → skip n = false → n ∉ done) →
    distinct_ids (l ++ done) →
    add_in_turn skip l promises s = (Ok ps, s') → Forall (λ p, p = Ok tt) ps →
    links_sound s'.
Proof.
  induction l as [|c rest IH]; intros done promises s ps s' Hreg Hl Hnd Hnew Hdist H Hps;
    simpl in H.
  - by injection H as <- <-.
  - apply NoDup_cons in Hnd as [Hc Hnd].
    destruct (skip c) eqn:Hskip.
    + apply (IH done promises s ps s' Hreg Hl Hnd); [| |done|done].
      * intros n Hn. apply Hnew. by right.
      * eapply distinct_ids_subset; [|exact Hdist]. intros n.
        simpl. repeat (rewrite elem_of_app || rewrite elem_of_cons). naive_solver.
    + bind_inv H as u s0 Hu. apply unwrap_Ok in Hu as [Hu ->].
      bind_inv H as p s1 Hp. unfold attempt in Hp. injection Hp as <- <-.
      destruct (readd_promises _ _ _ _ _ _ H) as (more & ->).
      pose proof Hps as Hps0.
      apply Forall_app in Hps as [Hps _]. apply Forall_app in Hps as [_ Hp].
      apply (proj1 (Forall_singleton _ _)) in Hp. cbv beta in Hp.
      assert (Hadd : add c s = (Ok tt, snd (add c s))).
      { clear H. destruct (add c s) as [o s1]. simpl in *. by subst. }
      set (s1 := snd (add c s)) in *. clearbody s1.
      assert (Hcd : c ∉ done) by (apply Hnew; [by left|done]).
      assert (Hdc : distinct_ids (c :: done)).
      { eapply distinct_ids_subset; [|exact Hdist]. intros n.
        simpl. repeat (rewrite elem_of_app || rewrite elem_of_cons). naive_solver. }
      pose proof (add_preserves done c s s1 HK Hreg Hcd Hdc Hadd) as Hreg1.
      pose proof (add_links HK HL done c s s1 Hreg Hl Hcd Hdc Hadd) as Hl1.
      eapply (IH (c :: done)); [exact Hreg1|exact Hl1|exact Hnd| | |exact H|exact Hps0].
      * intros n Hn Hs [->|Hd]%elem_of_cons; [done|]. apply (Hnew n); [by right|done|done].
      * eapply distinct_ids_subset; [|exact Hdist]. intros n.
        simpl. repeat (rewrite elem_of_app || rewrite elem_of_cons). naive_solver.
Qed.

Lemma commit_links (HK : faithful_kernel) (HL : kernel_local) done data s s' :
  registry_of done s → links_sound s →
  NoDup (dirty data) → NoDup (added data) →
  (∀ n, n ∈ added data → n ∉ deleted data → n ∉ dirty data → n ∉ done) →
  distinct_ids (added data ++ dirty data ++ done) →
  (∀ y z, y ∈ dirty data ∨ y ∈ deleted data → touches s y z →
          z ∈ dirty data ∨ z ∈ deleted data) →
  commit data s = (Ok tt, s') →
  links_sound s'.
Proof.
  intros Hreg (HJ & HS & HE) Hnd1 Hnd2 Hnew Hdist Hclosed H.
  rewrite (commit_schedule data s) in H.
  bind_inv H as u1 s1 H1. bind_inv H as u2 s2 H2.
  bind_inv H as ps s3 H3.
  pose proof (Promise_all_state ps s3) as Hst. rewrite H in Hst. simpl in Hst. subst s3.
  assert (Hps : Forall (λ p, p = Ok tt) ps).
  { apply (Promise_all_Ok ps s'). by rewrite H. }
  destruct (for_of_teardown_registry (dirty data) done s Hreg) as (s1' & H1' & Hreg1 & Hget1).
  change (for_of (dirty data) teardown s = (Ok u1, s1)) in H1.
  rewrite H1' in H1. injection H1 as _ <-.
  rewrite (for_of_skip (λ c, bool_decide (c ∈ dirty data)) (deleted data) teardown s1') in H2.
  destruct (for_of_teardown_registry
              (List.filter (λ c, negb (bool_decide (c ∈ dirty data))) (deleted data))
              _ s1' Hreg1) as (s2' & H2' & Hreg2 & Hget2).
  rewrite H2' in H2. injection H2 as _ <-.
  assert (Hio : infoObjs (heap s2') = infoObjs (heap s)).
  { rewrite (infoObjs_teardown _ _ _ H2'). apply (infoObjs_teardown _ _ _ H1'). }
  assert (Hgone : ∀ n, n ∈ dirty data ∨ n ∈ deleted data → get_info s2' n = None).
  { intros n Hn. unfold get_info. rewrite Hget2, Hget1.
    destruct (bool_decide (n ∈ List.filter _ _)) eqn:Hb2; [done|].
    destruct (bool_decide (n ∈ dirty data)) eqn:Hb1; [done|].
    apply bool_decide_eq_false in Hb1, Hb2. destruct Hn as [?|Hn]; [done|].
    exfalso. apply Hb2. apply elem_of_list_filter. split; [done|].
    by apply negb_true_iff, bool_decide_eq_false. }
  assert (Hkept : ∀ n, ¬ (n ∈ dirty data ∨ n ∈ deleted data) → get_info s2' n = get_info s n).
  { intros n Hn. unfold get_info. rewrite Hget2, Hget1.
    rewrite (bool_decide_eq_false_2 (n ∈ List.filter _ _)).
    2:{ intros [? _]%elem_of_list_filter. apply Hn. by right. }
    rewrite (bool_decide_eq_false_2 (n ∈ dirty data)) by (intros ?; apply Hn; by left).
    destruct (get_ref s n); [|done]. unfold info_at. by rewrite Hio. }
  assert (Hback : ∀ a b, touches s2' a b → ¬ (a ∈ dirty data ∨ a ∈ deleted data) ∧ touches s a b).
  { intros a b (i & Hi & Hb).
    destruct (decide (a ∈ dirty data ∨ a ∈ deleted data)) as [Ha|Ha].
    - by rewrite (Hgone a Ha) in Hi.
    - split; [done|]. exists i. by rewrite <- (Hkept a Ha). }
  assert (Hout : ∀ a b, ¬ (a ∈ dirty data ∨ a ∈ deleted data) → touches s a b →
            ¬ (b ∈ dirty data ∨ b ∈ deleted data)).
  { intros a b Ha Hab Hb. apply Ha. apply (Hclosed b a Hb). by apply HS. }
  assert (Hpl : live_id2planarCurve s2' = live_id2planarCurve s).
  { destruct (teardown_planar _ _ _ H2') as [-> _].
    by destruct (teardown_planar _ _ _ H1') as [-> _]. }
  assert (Hregd : ∀ n c p, ¬ (n ∈ dirty data ∨ n ∈ deleted data) →
            registered s n c p → registered s2' n c p).
  { intros n c p Hn (r & Hr & i & Hi & Hc). exists r. split.
    - rewrite Hget2, Hget1.
      rewrite (bool_decide_eq_false_2 (n ∈ List.filter _ _)).
      2:{ intros [? _]%elem_of_list_filter. apply Hn. by right. }
      by rewrite (bool_decide_eq_false_2 (n ∈ dirty data)) by (intros ?; apply Hn; by left).
    - exists i. unfold info_at. rewrite Hio, Hpl. done. }
  assert (Hlinks2 : links_sound s2').
  { split_and!.
    - intros a b [Ha Hab]%Hback. rewrite (Hkept b (Hout a b Ha Hab)). by apply (HJ a).
    - intros a b [Ha Hab]%Hback. pose proof (Hout a b Ha Hab) as Hb.
      destruct (HS a b Hab) as (i & Hi & Hin). exists i. by rewrite (Hkept b Hb).
    - intros a b [Ha Hab]%Hback. pose proof (Hout a b Ha Hab) as Hb.
      destruct (HE a b Hab) as [?|(cA & pA & cB & pB & HrA & HrB & Hcr)]; [by left|].
      right. exists cA, pA, cB, pB. split_and!; [by apply Hregd|by apply Hregd|done]. }
  set (done2 := without _ (without (dirty data) done)) in *.
  assert (Hdone2 : ∀ n, n ∈ done2 ↔ n ∈ done ∧ (n ∉ dirty data) ∧ (n ∉ deleted data)).
  { intros n. unfold done2. rewrite !elem_of_without, elem_of_list_filter.
    rewrite negb_true_iff, bool_decide_eq_false. naive_solver. }
  eapply (readd_links HK HL (λ _, false) (schedule data) done2 [] s2' ps s' Hreg2 Hlinks2);
    [by apply NoDup_schedule| | |exact H3|exact Hps].
  - intros n [Hdel Hn]%elem_of_schedule _ Hd. apply Hdone2 in Hd.
    destruct Hn as [?|Hn]; [naive_solver|]. apply (Hnew n); naive_solver.
  - eapply distinct_ids_subset; [|exact Hdist]. intros n.
    repeat (rewrite elem_of_app || rewrite Hdone2 || rewrite elem_of_schedule).
    naive_solver.
Qed.

Lemma cascade_Ok_closed X s data s1 :
  cascade X empty_transaction s = (Ok data, s1) →
  ∀ y z, y ∈ dirty data ∨ y ∈ deleted data → touches s y z →
         z ∈ dirty data ∨ z ∈ deleted data.
Proof.
  unfold cascade, empty_transaction. cbn [dirty deleted added].
  destruct (get_info s X) as [info|] eqn:Hinfo.
  - destruct (cascade_walk _ _ _ _) as [v| |] eqn:Hw; [|done..].
    intros [= <- <-]. cbn [dirty deleted].
    destruct (cascade_walk_closed s _ _ _ _ Hw) as (_ & H2 & H3).
    { intros y0 z Hy0. by apply not_elem_of_nil in Hy0. }
    intros y z [Hy|Hy] Hyz; left.
    + by apply (H3 y).
    + apply list_elem_of_singleton in Hy as ->. destruct Hyz as (i & Hi & Hz).
      rewrite Hinfo in Hi. injection Hi as <-. by apply H2, elem_of_rev.
  - intros [= <- <-]. cbn [dirty deleted]. intros y z [Hy|Hy] (i & Hi & _).
    + by apply elem_of_nil in Hy.
    + apply list_elem_of_singleton in Hy as ->. congruence.
Qed.

Lemma remove_links (HK : faithful_kernel) (HL : kernel_local) done X s s' :
  registry_of done s → distinct_ids done →
  links_sound s →
  remove X s = (Ok tt, s') → links_sound s'.
Proof.
  intros Hreg Hdist Hl H. unfold remove in H. bind_inv H as data s1 Hc.
  pose proof (cascade_Ok_closed X s data s1 Hc) as Hclosed.
  apply cascade_Ok_shape in Hc as (-> & Hdel & Hadd & Hnd & Hdirty).
  assert (Hin : ∀ y, y ∈ dirty data → y ∈ done).
  { intros y [i Hi]%Hdirty. unfold get_info in Hi.
    destruct (get_ref s y) as [r|] eqn:Hr; [|done].
    destruct Hreg as (_ & _ & Hreg & _). by destruct (Hreg y r Hr) as (? & _). }
  apply (commit_links HK HL done data s s' Hreg Hl Hnd); [rewrite Hadd; apply NoDup_nil_2
                                                         | | |done|done].
  - rewrite Hadd. intros n Hn. by apply elem_of_nil in Hn.
  - rewrite Hadd. eapply distinct_ids_subset; [|exact Hdist]. intros n.
    simpl. rewrite elem_of_app. intros [?%Hin|?]; naive_solver.
Qed.

Lemma reachable_links (HK : faithful_kernel) (HL : kernel_local) xy store s :
  all_ids_distinct → reachable xy store s →
  (∃ done, registry_of done s) ∧ links_sound s.
Proof.
  intros Hd. induction 1 as [|N s s' _ [[done IH] Hl] HN Hadd|X s s' _ [[done IH] Hl] Hrem
                            |data s s' _ [[done IH] Hl] Hdata Hnew Hcommit].
  - split; [exists []; apply registry_of_new|]. split_and!.
    + intros x y (i & Hi & _). done.
    + intros x y (i & Hi & _). done.
    + intros x y (i & Hi & _). done.
  - apply registry_of_exact in IH.
    assert (HN' : N ∉ (live_curve2info s).*1) by (by apply map_get_None_fst).
    split.
    + eexists. apply (add_preserves _ N s s' HK IH HN'); [by apply all_ids_distinct_list|done].
    + apply (add_links HK HL _ N s s' IH Hl HN'); [by apply all_ids_distinct_list|done].
  - split.
    + destruct (remove_registry HK done X s s' IH) as ((done' & ? & _) & _);
        [by apply all_ids_distinct_list|done|]. by exists done'.
    + apply (remove_links HK HL done X s s' IH); [by apply all_ids_distinct_list|done..].
  - apply registry_of_exact in IH.
    destruct (cascaded_shape s data Hdata) as (Hnd & Hna & _ & Hclosed).
    assert (Hnew' : ∀ n, n ∈ added data → n ∉ deleted data → n ∉ dirty data →
                         n ∉ (live_curve2info s).*1).
    { intros n H1 H2 H3. by apply map_get_None_fst, Hnew. }
    split.
    + destruct (commit_registry HK _ data s s' IH Hnd Hna Hnew') as ((done' & ? & _) & _);
        [by apply all_ids_distinct_list|done|by exists done'].
    + apply (commit_links HK HL _ data s s' IH Hl Hnd Hna Hnew');
        [by apply all_ids_distinct_list| |done].
      intros y z Hy Hyz. left. by apply (Hclosed y z).
Qed.

(** X16: the links [cascade] follows are sound.  With a faithful
    kernel whose crosses are crossings of the pair, and planar curves of
    different [Id]s, in every state a new database reaches by fulfilled
    calls of [add] (of curves not registered at the call), of [remove] and
    of [commit] (of transactions built by [cascade]): every name in a
    [touched] set of a registered curve is registered, and every [touched]
    link has its opposite. *)
Theorem links_are_registered_and_mutual_in_reachable_states
    (xy : Placement) (store : GeometryStore) (s : State) :
  faithful_kernel → kernel_local → all_ids_distinct → reachable xy store s →
  touched_registered s ∧ touched_symmetric s.
Proof.
  intros HK HL Hd Hr.
  by destruct (reachable_links HK HL xy store s Hd Hr) as (_ & ? & ? & _).
Qed.

(** X20: no link is stale or spurious.  Under the same conditions, in
    every reachable state a [touched] link goes from a curve to itself or
    joins two registered curves whose planar curves cross; with the
    completeness of the links, two different registered curves with the
    same placement touch each other exactly when their planar curves
    cross. *)
Theorem touched_links_are_crossings_in_reachable_states
    (xy : Placement) (store : GeometryStore) (s : State) :
  faithful_kernel → kernel_local → all_ids_distinct → reachable xy store s →
  (∀ A B, touches s A B →
     A = B ∨ ∃ cA pA cB pB,
               registered s A cA pA ∧ registered s B cB pB ∧ crossing cA cB)
  ∧ (∀ A B cA cB pA pB,
       A ≠ B → registered s A cA pA → registered s B cB pB →
       isSamePlacement pA pB = true → isSamePlacement pB pA = true →
       (touches s A B ↔ crossing cA cB)).
Proof.
  intros HK HL Hd Hr.
  destruct (reachable_links HK HL xy store s Hd Hr) as ((done & Hreg) & _ & _ & HE).
  split; [exact HE|].
  intros A B cA cB pA pB Hne HA HB Hp1 Hp2. split.
  - intros Ht. destruct (HE A B Ht) as [?|(cA' & pA' & cB' & pB' & HA' & HB' & Hc)]; [done|].
    destruct HA as (rA & HrA & HeA). destruct HA' as (rA' & HrA' & HeA').
    destruct HB as (rB & HrB & HeB). destruct HB' as (rB' & HrB' & HeB').
    rewrite HrA in HrA'. injection HrA' as <-. rewrite HrB in HrB'. injection HrB' as <-.
    destruct (entry_curve_functional s rA cA pA cA' pA' HeA HeA') as [-> _].
    destruct (entry_curve_functional s rB cB pB cB' pB' HeB HeB') as [-> _]. done.
  - intros Hc. destruct Hreg as (_ & _ & _ & R3). by apply (R3 A B cA cB pA pB).
Qed.

(** ** id2planarCurve *)

Lemma fst_map_set_new {V} k (v : V) m : k ∉ m.*1 → (map_set k v m).*1 = m.*1 ++ [k].
Proof.
  induction m as [|[k0 v0] m IH]; simpl; [done|].
  intros [Hne Hk]%not_elem_of_cons. rewrite decide_False by done.
  change ((k0, v0) :: map_set k v m).*1 with (k0 :: (map_set k v m).*1). by rewrite IH.
Qed.

Lemma planar_numbered_fresh s : planar_numbered s → counter (this s) ∉ (live_id2planarCurve s).*1.
Proof. intros [_ ->]. rewrite elem_of_seqZ. lia. Qed.

Lemma add_planar_map N s s' :
  fields_allocated s → add N s = (Ok tt, s') →
  match planar_of N with
  | None => live_id2planarCurve s' = live_id2planarCurve s
            ∧ counter (this s') = counter (this s)
  | Some (c, _) =>
      live_id2planarCurve s' = map_set (counter (this s)) c (live_id2planarCurve s)
      ∧ counter (this s') = (counter (this s) + 1)%Z
  end.
Proof.
  intros (W1 & W2 & _) H.
  destruct (add_Ok N s s' H)
    as [[-> (Ht & _ & _ & Hp)]
       |(cN & p' & pN & sb & p2i0 & all0 & promises & -> & Hsame & _ & Hproc)].
  - split; [|by rewrite Ht]. unfold live_id2planarCurve. by rewrite Ht, Hp.
  - destruct Hsame as (Ht & _ & Hm & Hp).
    destruct (register_spec N cN pN sb) as (Fthis & _ & _ & Fplanar & _);
      [by rewrite Ht, Hm|by rewrite Ht, Hp|].
    pose proof (stable_Ok extends _ _ _ _ (stable_process _ _ _ _ _ _ _) Hproc)
      as (Et & _ & Ep & _).
    split.
    + unfold live_id2planarCurve at 1. rewrite Et, Ep. fold (live_id2planarCurve
        (register N cN pN sb)). rewrite Fplanar, Ht. unfold live_id2planarCurve.
      by rewrite Ht, Hp.
    + by rewrite Et, Fthis, Ht.
Qed.

Lemma add_numbered N s s' :
  fields_allocated s → planar_numbered s → add N s = (Ok tt, s') →
  planar_numbered s' ∧ planar_kept s s'.
Proof.
  intros Hw Hn H. pose proof (add_planar_map N s s' Hw H) as Hmap.
  pose proof (planar_numbered_fresh s Hn) as Hfresh. destruct Hn as [H0 Hkeys].
  destruct (planar_of N) as [[c p]|]; destruct Hmap as [Hl Hc].
  - split; [split|].
    + lia.
    + rewrite Hl, Hc, fst_map_set_new, Hkeys by done.
      rewrite (seqZ_app 0 (counter (this s)) 1) by lia. done.
    + intros k c' Hk. rewrite Hl, map_get_set. destruct (decide _) as [->|]; [|done].
      by apply map_get_Some_fst in Hk.
  - split; [split|].
    + lia.
    + by rewrite Hl, Hc.
    + intros k c' Hk. by rewrite Hl.
Qed.

Lemma teardown_fields l : ∀ s s',
  for_of l teardown s = (Ok tt, s') → fields_allocated s → fields_allocated s'.
Proof.
  induction l as [|c l IH]; intros s s' H Hw; simpl in H; [by injection H as <-|].
  unfold bind at 1 in H. rewrite teardown_run in H.
  apply (IH _ _ H). by apply (stable_removeInfo_fields c s).
Qed.

Lemma readd_numbered skip l : ∀ promises s ps s',
  fields_allocated s → planar_numbered s →
  add_in_turn skip l promises s = (Ok ps, s') → Forall (λ p, p = Ok tt) ps →
  fields_allocated s' ∧ planar_numbered s' ∧ planar_kept s s'.
Proof.
  induction l as [|c rest IH]; intros promises s ps s' Hw Hn H Hps; simpl in H.
  - injection H as <- <-. split_and!; [done|done|by intros k c0 ?].
  - destruct (skip c); [by apply (IH promises s ps s')|].
    bind_inv H as u s0 Hu. apply unwrap_Ok in Hu as [Hu ->].
    bind_inv H as p s1 Hp. unfold attempt in Hp. injection Hp as <- <-.
    destruct (readd_promises _ _ _ _ _ _ H) as (more & ->).
    pose proof Hps as Hps0.
    apply Forall_app in Hps as [Hps _]. apply Forall_app in Hps as [_ Hp].
    apply (proj1 (Forall_singleton _ _)) in Hp. cbv beta in Hp.
    assert (Hadd : add c s = (Ok tt, snd (add c s))).
    { clear H. destruct (add c s) as [o s1]. simpl in *. by subst. }
    set (s1 := snd (add c s)) in *.
    assert (Hw1 : fields_allocated s1) by (by apply (stable_add_fields c s)).
    clearbody s1.
    destruct (add_numbered c s s1 Hw Hn Hadd) as [Hn1 Hk1].
    destruct (IH _ _ _ _ Hw1 Hn1 H Hps0) as (Hw' & Hn' & Hk').
    split_and!; [done..|]. intros k c' Hk. by apply Hk', Hk1.
Qed.

Lemma commit_numbered data s s' :
  fields_allocated s → planar_numbered s → commit data s = (Ok tt, s') →
  fields_allocated s' ∧ planar_numbered s' ∧ planar_kept s s'.
Proof.
  intros Hw Hn H. rewrite (commit_schedule data s) in H.
  bind_inv H as u1 s1 H1. bind_inv H as u2 s2 H2.
  bind_inv H as ps s3 H3.
  pose proof (Promise_all_state ps s3) as Hst. rewrite H in Hst. simpl in Hst. subst s3.
  assert (Hps : Forall (λ p, p = Ok tt) ps).
  { apply (Promise_all_Ok ps s'). by rewrite H. }
  change (for_of (dirty data) teardown s = (Ok u1, s1)) in H1. destruct u1.
  rewrite (for_of_skip (λ c, bool_decide (c ∈ dirty data)) (deleted data) teardown s1) in H2.
  destruct u2.
  destruct (teardown_planar _ _ _ H1) as [Hl1 Hc1].
  destruct (teardown_planar _ _ _ H2) as [Hl2 Hc2].
  assert (Hw2 : fields_allocated s2).
  { apply (teardown_fields _ _ _ H2), (teardown_fields _ _ _ H1), Hw. }
  assert (Hn2 : planar_numbered s2).
  { unfold planar_numbered. by rewrite Hl2, Hc2, Hl1, Hc1. }
  destruct (readd_numbered _ _ _ _ _ _ Hw2 Hn2 H3 Hps) as (Hw3 & Hn3 & Hk3).
  split_and!; [done..|]. intros k c Hk. apply Hk3. by rewrite Hl2, Hl1.
Qed.

Lemma remove_numbered X s s' :
  fields_allocated s → planar_numbered s → remove X s = (Ok tt, s') →
  fields_allocated s' ∧ planar_numbered s' ∧ planar_kept s s'.
Proof.
  intros Hw Hn H. unfold remove in H. bind_inv H as data s1 Hc.
  pose proof (cascade_state X empty_transaction s) as Hs. rewrite Hc in Hs.
  simpl in Hs. subst s1. by apply (commit_numbered data s s').
Qed.

Lemma reachable_numbered xy store s :
  reachable xy store s → fields_allocated s ∧ planar_numbered s.
Proof.
  induction 1 as [|N s s' _ [Hw Hn] HN Hadd|X s s' _ [Hw Hn] Hrem
                 |data s s' _ [Hw Hn] Hdata Hnew Hcommit].
  - split; [unfold fields_allocated; simpl; lia|]. by split.
  - split; [by apply (stable_Ok (keeps fields_allocated) _ _ _ _ (stable_add_fields N) Hadd)|].
    by apply (add_numbered N s s').
  - by destruct (remove_numbered X s s' Hw Hn Hrem) as (? & ? & _).
  - by destruct (commit_numbered data s s' Hw Hn Hcommit) as (? & ? & _).
Qed.

(** X19: [id2planarCurve] is never pruned.  In every state a new database
    reaches by fulfilled calls of [add], [remove] and [commit], the keys of
    [id2planarCurve] are the numbers from 0 up to [counter], in order: one
    planar curve for every planar curve that was ever added or added
    again.  A further [add], [remove] or [commit] that is fulfilled keeps
    every planar curve under its number; [removeInfo] deletes the entry of
    [curve2info] and the fragments only. *)
Theorem id2planarCurve_is_never_pruned
    (xy : Placement) (store : GeometryStore) (s : State) :
  reachable xy store s →
  ((0 <= counter (this s))%Z ∧ (live_id2planarCurve s).*1 = seqZ 0 (counter (this s)))
  ∧ (∀ N s', add N s = (Ok tt, s') → planar_kept s s')
  ∧ (∀ X s', remove X s = (Ok tt, s') → planar_kept s s')
  ∧ (∀ data s', commit data s = (Ok tt, s') → planar_kept s s').
Proof.
  intros Hr. destruct (reachable_numbered xy store s Hr) as [Hw Hn]. split_and!.
  - apply Hn.
  - apply Hn.
  - intros N s' H. by destruct (add_numbered N s s' Hw Hn H).
  - intros X s' H. by destruct (remove_numbered X s s' Hw Hn H) as (_ & _ & ?).
  - intros data s' H. by destruct (commit_numbered data s s' Hw Hn H) as (_ & _ & ?).
Qed.

(** ** The shape of the fragments *)

Lemma addFragments_wide n pl result : ∀ s,
  Forall (λ tr, range_shape (trimmed tr) (start tr, stop tr)) result →
  fragments_wide s → fragments_wide (snd (addFragments n pl result s)).
Proof.
  induction result as [|tr rest IH]; intros s Hres Hs; simpl; [done|].
  apply Forall_cons in Hres as [Htr Hres].
  unfold bind at 1, addItem at 1.
  set (s1 := set_db _ s).
  assert (Hs1 : fragments_wide s1).
  { intros f it. unfold s1. simpl. rewrite map_get_set.
    destruct (decide _); [intros [= <-]; exact Htr|apply Hs]. }
  specialize (IH s1 Hres Hs1). unfold bind.
  destruct (addFragments n pl rest s1) as [[views| |] s2]; simpl in *; done.
Qed.

Lemma removeItems_wide l s :
  fragments_wide s → fragments_wide (snd (for_of l removeItem s)).
Proof.
  intros Hs. destruct (for_of_removeItem_run l s) as (s' & -> & _ & _ & _ & _ & Hitems).
  intros f it. simpl. rewrite Hitems. destruct (decide _); [done|apply Hs].
Qed.

Lemma updateCurve_wide n result pl s :
  Forall (λ tr, range_shape (trimmed tr) (start tr, stop tr)) result →
  fragments_wide s → fragments_wide (snd (updateCurve n result pl s)).
Proof.
  intros Hres Hs.
  destruct (get_info s n) as [i|] eqn:Hi; [|by rewrite updateCurve_throws].
  unfold get_info in Hi. destruct (get_ref s n) as [r|] eqn:Hr; [|done].
  unfold updateCurve, bind at 1, gets at 1. rewrite Hr.
  rewrite (bind_run _ _ _ _ _ (use_info_Some _ _ _ Hi)). cbn [fst snd].
  pose proof (removeItems_wide (fragments i) s Hs) as Hs1.
  destruct (for_of_removeItem_run (fragments i) s) as (s1 & Hrun1 & _).
  unfold bind at 1. rewrite Hrun1 in *. cbn [snd] in Hs1.
  pose proof (addFragments_wide n pl result s1 Hres Hs1) as Hs2.
  destruct (addFragments_items n pl result s1) as (views & s2 & Hrun2 & _).
  unfold bind at 1. rewrite Hrun2 in *. exact Hs2.
Qed.

Lemma stable_end_joints_wide current first sorted p2i :
  stable (keeps fragments_wide) (end_joints current first sorted p2i).
Proof.
  assert (Hj : ∀ cross, stable (keeps fragments_wide) (addJoint cross p2i)).
  { intros cross. apply stable_addJoint_turn; [apply _..|].
    intros j r s. split; intros Hs; exact Hs. }
  unfold end_joints. destruct (_ && _); [|apply stable_ret; apply _].
  apply stable_bind; [apply _|apply Hj|]. intros _. apply Hj.
Qed.

Lemma stable_walk_wide info curve1 p2i visited crosses start0 trims tp :
  stable (keeps fragments_wide) (walk info curve1 p2i visited crosses start0 trims tp).
Proof.
  apply stable_walk_turn; [apply _..|]. intros id r s Hs. exact Hs.
Qed.

Lemma loop_body_wide all p2i pl tp visited id current s res s' :
  fragments_wide s → loop_body all p2i pl tp visited id current s = (Ok res, s') →
  fragments_wide s'.
Proof.
  intros Hs H. apply loop_body_Ok in H as (name & _ & _ & _ & H).
  destruct (sort_crosses _) as [|first rest].
  - destruct H as [_ H].
    pose proof (updateCurve_wide name [mkTrim (Whole current) (-1) (-1)] pl s) as Hu.
    rewrite H in Hu. apply Hu; [|done]. apply Forall_singleton. left. by eexists.
  - destruct H as (s1 & s2 & trims & Hj & Hw & Hu).
    pose proof (stable_Ok _ _ _ _ _ (stable_end_joints_wide _ _ _ _) Hj Hs) as Hs1.
    pose proof (stable_Ok _ _ _ _ _ (stable_walk_wide _ _ _ _ _ _ _ _) Hw Hs1) as Hs2.
    apply walk_trims in Hw. simpl in Hw.
    pose proof (updateCurve_wide name trims pl s2) as Hu'. rewrite Hu in Hu'.
    apply Hu'; [|done]. rewrite Hw. apply Forall_forall. intros tr Htr.
    apply list_elem_of_fmap in Htr as ([a b] & -> & Hsp).
    apply elem_of_list_filter in Hsp as [_ Hwide]. right.
    exists (c3d.curve (c3d.on1 first)). split; [reflexivity|exact Hwide].
Qed.

Lemma process_wide fuel all p2i pl : ∀ tp visited promises s ps s',
  fragments_wide s → process fuel all p2i pl tp visited promises s = (Ok ps, s') →
  fragments_wide s'.
Proof.
  induction fuel as [|fuel IH]; intros tp visited promises s ps s' Hs H;
    destruct tp as [|[id current] tp]; simpl in H; [by injection H as _ <-|done
                                                    |by injection H as _ <-|].
  bind_inv H as r s1 Hr. apply (IH _ _ _ _ _ _ (loop_body_wide _ _ _ _ _ _ _ _ _ _ Hs Hr) H).
Qed.

Lemma add_wide N s s' : fragments_wide s → add N s = (Ok tt, s') → fragments_wide s'.
Proof.
  intros Hs H.
  destruct (add_Ok_store N s s' H)
    as [[_ ->]|(cN & p' & pN & sb & p2i0 & all0 & promises & _ & _ & Hdb & Hproc)];
    [done|].
  apply (process_wide _ _ _ _ _ _ _ _ _ _) in Hproc; [done|].
  intros f it. change (db (register N cN pN sb)) with (db sb). rewrite Hdb. apply Hs.
Qed.

Lemma removeInfo_wide c s : fragments_wide s → fragments_wide (snd (removeInfo c s)).
Proof.
  intros Hs. destruct (get_info s c) as [i|] eqn:Hi.
  - unfold get_info in Hi. destruct (get_ref s c) as [r|] eqn:Hr; [|done].
    destruct (removeInfo_registered s c r i Hr Hi)
      as (s' & -> & _ & _ & _ & _ & _ & _ & _ & Hitems).
    intros f it. simpl. rewrite Hitems. destruct (decide _); [done|apply Hs].
  - by rewrite removeInfo_unregistered.
Qed.

Lemma teardown_wide l : ∀ s s',
  for_of l teardown s = (Ok tt, s') → fragments_wide s → fragments_wide s'.
Proof.
  induction l as [|c l IH]; intros s s' H Hs; simpl in H; [by injection H as <-|].
  unfold bind at 1 in H. rewrite teardown_run in H.
  apply (IH _ _ H). by apply removeInfo_wide.
Qed.

Lemma readd_wide skip l : ∀ promises s ps s',
  fragments_wide s →
  add_in_turn skip l promises s = (Ok ps, s') → Forall (λ p, p = Ok tt) ps →
  fragments_wide s'.
Proof.
  induction l as [|c rest IH]; intros promises s ps s' Hs H Hps; simpl in H.
  - by injection H as <- <-.
  - destruct (skip c); [by apply (IH promises s ps s')|].
    bind_inv H as u s0 Hu. apply unwrap_Ok in Hu as [Hu ->].
    bind_inv H as p s1 Hp. unfold attempt in Hp. injection Hp as <- <-.
    destruct (readd_promises _ _ _ _ _ _ H) as (more & ->).
    pose proof Hps as Hps0.
    apply Forall_app in Hps as [Hps _]. apply Forall_app in Hps as [_ Hp].
    apply (proj1 (Forall_singleton _ _)) in Hp. cbv beta in Hp.
    assert (Hadd : add c s = (Ok tt, snd (add c s))).
    { clear H. destruct (add c s) as [o s1]. simpl in *. by subst. }
    apply (IH _ _ _ _ (add_wide c s _ Hs Hadd) H Hps0).
Qed.

Lemma commit_wide data s s' :
  fragments_wide s → commit data s = (Ok tt, s') → fragments_wide s'.
Proof.
  intros Hs H. rewrite (commit_schedule data s) in H.
  bind_inv H as u1 s1 H1. bind_inv H as u2 s2 H2.
  bind_inv H as ps s3 H3.
  pose proof (Promise_all_state ps s3) as Hst. rewrite H in Hst. simpl in Hst. subst s3.
  assert (Hps : Forall (λ p, p = Ok tt) ps).
  { apply (Promise_all_Ok ps s'). by rewrite H. }
  change (for_of (dirty data) teardown s = (Ok u1, s1)) in H1. destruct u1.
  rewrite (for_of_skip (λ c, bool_decide (c ∈ dirty data)) (deleted data) teardown s1) in H2.
  destruct u2.
  apply (readd_wide _ _ _ _ _ _
           (teardown_wide _ _ _ H2 (teardown_wide _ _ _ H1 Hs)) H3 Hps).
Qed.

Lemma reachable_wide xy store s :
  items store = [] → reachable xy store s → fragments_wide s.
Proof.
  intros Hempty. induction 1 as [|N s s' _ Hs HN Hadd|X s s' _ Hs Hrem
                                |data s s' _ Hs Hdata Hnew Hcommit].
  - intros f it. simpl. by rewrite Hempty.
  - by apply (add_wide N s s').
  - unfold remove in Hrem. bind_inv Hrem as data s1 Hc.
    pose proof (cascade_state X empty_transaction s) as Hst. rewrite Hc in Hst.
    simpl in Hst. subst s1. by apply (commit_wide data s s').
  - by apply (commit_wide data s s').
Qed.

(** X21: no degenerate fragment is stored.  From a store without items, in
    every state reached by fulfilled calls of [add], [remove] and
    [commit], every item of the geometry store is a whole planar curve
    recorded with the range (-1, -1), or a curve trimmed between two
    parameters that are more than 1/100000 apart, recorded with those
    parameters. *)
Theorem stored_fragments_are_whole_or_wide
    (xy : Placement) (store : GeometryStore) (s : State) :
  items store = [] → reachable xy store s →
  ∀ f it, map_get f (items (db s)) = Some it →
    (∃ c, item_curve it = Whole c ∧ (befragment it).1 = ((-1)%Q, (-1)%Q))
    ∨ (∃ c, item_curve it = Trimmed c (befragment it).1.1 (befragment it).1.2
            ∧ (1 # 100000 < Qabs ((befragment it).1.1 - (befragment it).1.2))%Q).
Proof.
  intros Hempty Hr f it Hit.
  destruct (reachable_wide xy store s Hempty Hr f it Hit) as [?|(c & Hc & Hw)];
    [by left|right].
  exists c. split; [done|]. by apply wide_spec.
Qed.

(** ** commit, by what it does to the registry and to the store *)

Lemma entries_allocated_Forall s :
  Forall (λ e : SimpleName * nat, is_Some (info_at s e.2)) (live_curve2info s) →
  entries_allocated s.
Proof.
  intros H n r Hr. apply map_get_Some_elem_of in Hr.
  by apply (proj1 (Forall_forall _ _) H (n, r)).
Qed.

Lemma get_info_removeInfo c s n :
  get_info (snd (removeInfo c s)) n = if decide (n = c) then None else get_info s n.
Proof.
  destruct (get_info s c) as [i|] eqn:Hi.
  - unfold get_info in Hi. destruct (get_ref s c) as [r|] eqn:Hr; [|done].
    destruct (removeInfo_registered s c r i Hr Hi)
      as (s' & -> & _ & Hio & _ & _ & _ & Hl & _).
    cbn [snd]. unfold get_info, get_ref. rewrite Hl, map_get_delete.
    destruct (decide (n = c)); [done|]. unfold info_at. by rewrite Hio.
  - rewrite removeInfo_unregistered by done. cbn [snd]. rewrite get_info_record_call.
    destruct (decide (n = c)) as [->|]; done.
Qed.

Lemma items_removeInfo c s f :
  map_get f (items (db (snd (removeInfo c s))))
  = match get_info s c with
    | Some i => if decide (f ∈ fragments i) then None else map_get f (items (db s))
    | None => map_get f (items (db s))
    end.
Proof.
  destruct (get_info s c) as [i|] eqn:Hi.
  - unfold get_info in Hi. destruct (get_ref s c) as [r|] eqn:Hr; [|done].
    destruct (removeInfo_registered s c r i Hr Hi) as (s' & -> & _ & _ & _ & _ & _ & _ & _ & Hit).
    apply Hit.
  - by rewrite removeInfo_unregistered.
Qed.

Lemma entries_allocated_removeInfo c s :
  entries_allocated s → entries_allocated (snd (removeInfo c s)).
Proof.
  intros He. destruct (get_info s c) as [i|] eqn:Hi.
  - unfold get_info in Hi. destruct (get_ref s c) as [r|] eqn:Hr; [|done].
    destruct (removeInfo_registered s c r i Hr Hi)
      as (s' & -> & _ & Hio & _ & _ & _ & Hl & _).
    cbn [snd]. intros n r'. unfold get_ref, info_at. rewrite Hl, map_get_delete, Hio.
    destruct (decide (n = c)); [done|]. apply He.
  - rewrite removeInfo_unregistered by done. exact He.
Qed.

(** A loop of teardowns: the entries of the curves are gone, and with them
    their fragments from the store; the other entries are as they were. *)
Lemma teardown_effect l : ∀ s,
  ∃ s', for_of l teardown s = (Ok tt, s')
    ∧ (∀ n, get_info s' n = if bool_decide (n ∈ l) then None else get_info s n)
    ∧ (∀ f, map_get f (items (db s)) = None → map_get f (items (db s')) = None)
    ∧ (∀ n i f, n ∈ l → get_info s n = Some i → f ∈ fragments i →
                map_get f (items (db s')) = None)
    ∧ (entries_allocated s → entries_allocated s')
    ∧ (fields_allocated s → fields_allocated s').
Proof.
  induction l as [|c l IH]; intros s; simpl.
  - exists s. split_and!; try done. intros n i f Hn. by apply elem_of_nil in Hn.
  - unfold bind at 1. rewrite teardown_run.
    destruct (IH (snd (removeInfo c s))) as (s' & Hrun & Hget & Hmono & Hgone & He & Hw).
    exists s'. split_and!; [done| | | | |].
    + intros n. rewrite Hget, get_info_removeInfo.
      destruct (decide (n = c)) as [->|Hne].
      * rewrite (bool_decide_eq_true_2 (c ∈ c :: l)); [|by left]. by destruct (bool_decide _).
      * destruct (bool_decide (n ∈ l)) eqn:Hb.
        -- apply bool_decide_eq_true in Hb. rewrite bool_decide_eq_true_2; [done|by right].
        -- apply bool_decide_eq_false in Hb. rewrite bool_decide_eq_false_2; [done|].
           intros [?|?]%elem_of_cons; done.
    + intros f Hf. apply Hmono. rewrite items_removeInfo.
      destruct (get_info s c); [|done]. by destruct (decide _).
    + intros n i f Hn Hi Hf. destruct (decide (n = c)) as [->|Hne].
      * apply Hmono. rewrite items_removeInfo, Hi. by rewrite decide_True.
      * apply elem_of_cons in Hn as [?|Hn]; [done|]. apply (Hgone n i f Hn); [|done].
        by rewrite get_info_removeInfo, decide_False.
    + intros H. by apply He, entries_allocated_removeInfo.
    + intros H. apply Hw. by apply (stable_removeInfo_fields c s).
Qed.

Lemma add_Ok_lookup c s : fst (add c s) = Ok tt → is_Some (lookupItemById c).
Proof.
  unfold add, bind at 1, modify at 1. destruct (lookupItemById c); [by eexists|].
  unfold bind, unwrap, throw. simpl. done.
Qed.

(** A fulfilled call of [add] registers the curve, when it has a planar
    curve, and leaves the other entries. *)
Lemma add_effect N s s' :
  fields_allocated s → entries_allocated s → add N s = (Ok tt, s') →
  entries_allocated s'
  ∧ ∀ n, is_Some (get_info s' n) ↔ is_Some (get_info s n) ∨ (n = N ∧ is_Some (planar_of N)).
Proof.
  intros (H1 & H2 & _) He Hadd.
  destruct (add_registers N s s' H1 H2 Hadd) as (Hothers & Hinfo & HN).
  assert (Hkeep : ∀ r, is_Some (info_at s r) → is_Some (info_at s' r)).
  { intros r [i Hi]. destruct (Hinfo r i Hi) as (i' & -> & _). by eexists. }
  destruct (planar_of N) as [[c p]|] eqn:Hp.
  - destruct HN as (i & HrN & HiN & _). split.
    + intros n r Hr. destruct (decide (n = N)) as [->|Hne].
      * rewrite HrN in Hr. injection Hr as <-. by eexists.
      * rewrite Hothers in Hr by done. by apply Hkeep, (He n).
    + intros n. unfold get_info. destruct (decide (n = N)) as [->|Hne].
      * rewrite HrN, HiN. split; [right; split; [done|by eexists]|by eexists].
      * rewrite Hothers by done. destruct (get_ref s n) as [r|] eqn:Hr.
        -- split; [intros _; left; by apply (He n)|]. intros _. by apply Hkeep, (He n).
        -- split; [done|]. intros [[? ?]|[? ?]]; done.
  - subst s'. split; [exact He|]. intros n. rewrite get_info_record_call.
    split; [by left|]. intros [?|[_ [? ?]]]; done.
Qed.

Lemma add_each_promises l : ∀ promises s ps s',
  add_each l promises s = (Ok ps, s') → ∃ more, ps = promises ++ more.
Proof.
  induction l as [|c l IH]; intros promises s ps s' H; simpl in H.
  - injection H as <- <-. exists []. by rewrite app_nil_r.
  - bind_inv H as p s1 Hp. destruct (IH _ _ _ _ H) as (more & ->).
    exists (p :: more). by rewrite <- app_assoc.
Qed.

(** Calls of [add] one after the other, all fulfilled: the curves that have
    a planar curve are registered, the other entries are as they were, and
    each call is recorded. *)
Lemma add_each_effect l : ∀ promises s ps s',
  fields_allocated s → entries_allocated s →
  add_each l promises s = (Ok ps, s') → Forall (λ p, p = Ok tt) ps →
  (∀ c, c ∈ l → is_Some (lookupItemById c))
  ∧ calls s' = calls s ++ map CallAdd l
  ∧ ∀ n, is_Some (get_info s' n) ↔ is_Some (get_info s n) ∨ (n ∈ l ∧ is_Some (planar_of n)).
Proof.
  induction l as [|c l IH]; intros promises s ps s' Hw He H Hps; simpl in H.
  - injection H as <- <-. split_and!.
    + intros c Hc. by apply elem_of_nil in Hc.
    + by rewrite app_nil_r.
    + intros n. split; [by left|]. intros [?|[Hn _]]; [done|]. by apply elem_of_nil in Hn.
  - bind_inv H as p s1 Hp. unfold attempt in Hp. injection Hp as <- <-.
    destruct (add_each_promises _ _ _ _ _ H) as (more & ->).
    pose proof Hps as Hps0.
    apply Forall_app in Hps as [Hps _]. apply Forall_app in Hps as [_ Hp].
    apply (proj1 (Forall_singleton _ _)) in Hp. cbv beta in Hp.
    assert (Hadd : add c s = (Ok tt, snd (add c s))).
    { clear H. destruct (add c s) as [o s1]. simpl in *. by subst. }
    pose proof (add_calls c s) as Hcalls.
    set (s1 := snd (add c s)) in *.
    assert (Hw1 : fields_allocated s1) by (by apply (stable_add_fields c s)).
    clearbody s1.
    destruct (add_effect c s s1 Hw He Hadd) as (He1 & Hget1).
    destruct (IH _ _ _ _ Hw1 He1 H Hps0) as (Hl & Hc & Hget).
    split_and!.
    + intros c' [->|?]%elem_of_cons; [|by apply Hl]. apply (add_Ok_lookup c s).
      by rewrite Hadd.
    + rewrite Hc, Hcalls, <- app_assoc. done.
    + intros n. rewrite Hget, Hget1, elem_of_cons. naive_solver.
Qed.

Lemma add_in_turn_each l : ∀ promises s ps s',
  add_in_turn (λ _, false) l promises s = (Ok ps, s') →
  add_each l promises s = (Ok ps, s').
Proof.
  induction l as [|c l IH]; intros promises s ps s' H; simpl in *; [done|].
  bind_inv H as inst s0 Hu. apply unwrap_Ok in Hu as [_ ->].
  bind_inv H as p s1 Hp. rewrite (bind_run _ _ _ _ _ Hp). by apply IH.
Qed.

(** C4: commit tears down, then adds again, then waits.  For every
    transaction [data] and every state whose fields and entries name
    objects, there are states [s1] and [s2] such that
    - the first loop of [commit] ends in [s1], where no dirty curve has an
      entry in the registry and every other entry is as it was;
    - the second loop ends in [s2], where no dirty and no deleted curve has
      an entry, the other entries are as they were, no fragment of a curve
      that was torn down is left in the store, and [removeInfo] was called
      for the dirty curves and then for the deleted curves that are not
      dirty, and [add] for none;
    - the curves added again are the curves of [schedule data], each of
      them once if the sets of the transaction have each curve once: the
      dirty curves that are not deleted and the added curves that are
      neither deleted nor dirty, in this order when none is a polyline,
      and otherwise those that are no polylines in this order followed by
      the polylines as their conversions settle;
    - [commit] is fulfilled in a state exactly when the calls of [add] for
      these curves, one after the other from [s2], are all fulfilled and
      leave that state; and
    - then [add] was called for them in turn after the teardowns, and the
      curves with an entry in the registry are those that had one and were
      not torn down, and those added again that have a planar curve. *)
Theorem commit_tears_down_then_adds_again (data : Transaction) (s : State) :
  fields_allocated s → entries_allocated s →
  ∃ s1 s2,
    for_of (dirty data) (fun touchee => _ <- removeInfo touchee ;; ret tt) s = (Ok tt, s1)
    ∧ (∀ n, get_info s1 n = if bool_decide (n ∈ dirty data) then None else get_info s n)
    ∧ for_of (deleted data)
        (fun touchee => if bool_decide (touchee ∈ dirty data) then ret tt
                        else _ <- removeInfo touchee ;; ret tt) s1 = (Ok tt, s2)
    ∧ (∀ n, get_info s2 n
            = if bool_decide (n ∈ dirty data ∨ n ∈ deleted data) then None
              else get_info s n)
    ∧ (∀ n i f, n ∈ dirty data ∨ n ∈ deleted data → get_info s n = Some i →
                f ∈ fragments i → map_get f (items (db s2)) = None)
    ∧ calls s2
      = calls s ++ map CallRemoveInfo (dirty data)
          ++ map CallRemoveInfo
               (List.filter (fun c => negb (bool_decide (c ∈ dirty data))) (deleted data))
    ∧ (∀ n, n ∈ schedule data ↔ (n ∉ deleted data) ∧ (n ∈ dirty data ∨ n ∈ added data))
    ∧ (NoDup (dirty data) → NoDup (added data) → NoDup (schedule data))
    ∧ ((∀ c, c ∈ dirty data ++ added data → is_polyline c = false) →
       schedule data
       = List.filter (fun c => negb (bool_decide (c ∈ deleted data))) (dirty data)
         ++ List.filter (fun c => negb (bool_decide (c ∈ deleted data)
                                        || bool_decide (c ∈ dirty data))) (added data))
    ∧ (∀ s', commit data s = (Ok tt, s') ↔
             ∃ ps, add_each (schedule data) [] s2 = (Ok ps, s')
                   ∧ Forall (fun p => p = Ok tt) ps)
    ∧ (∀ s', commit data s = (Ok tt, s') →
         calls s' = calls s2 ++ map CallAdd (schedule data)
         ∧ ∀ n, is_Some (get_info s' n) ↔
                ((n ∉ dirty data) ∧ (n ∉ deleted data) ∧ is_Some (get_info s n))
                ∨ (n ∈ schedule data ∧ is_Some (planar_of n))).
Proof.
  intros Hw He.
  destruct (teardown_effect (dirty data) s) as (s1 & H1 & Hget1 & Hmono1 & Hgone1 & He1 & Hw1).
  destruct (teardown_effect
              (List.filter (λ c, negb (bool_decide (c ∈ dirty data))) (deleted data)) s1)
    as (s2 & H2 & Hget2 & Hmono2 & Hgone2 & He2 & Hw2).
  assert (H2' : for_of (deleted data)
                  (λ touchee, if bool_decide (touchee ∈ dirty data) then ret tt
                              else _ <- removeInfo touchee ;; ret tt) s1 = (Ok tt, s2)).
  { rewrite <- H2.
    apply (for_of_skip (λ c, bool_decide (c ∈ dirty data)) (deleted data) teardown s1). }
  assert (Hget : ∀ n, get_info s2 n
                      = if bool_decide (n ∈ dirty data ∨ n ∈ deleted data) then None
                        else get_info s n).
  { intros n. rewrite Hget2, Hget1.
    destruct (decide (n ∈ dirty data)) as [Hd|Hd].
    - rewrite (bool_decide_eq_true_2 (n ∈ dirty data)) by done.
      rewrite (bool_decide_eq_true_2 (_ ∨ _)) by (by left). by destruct (bool_decide _).
    - rewrite (bool_decide_eq_false_2 (n ∈ dirty data)) by done.
      destruct (decide (n ∈ deleted data)) as [Hx|Hx].
      + rewrite (bool_decide_eq_true_2 (_ ∨ _)) by (by right).
        rewrite bool_decide_eq_true_2; [done|]. apply elem_of_list_filter.
        split; [done|]. by apply negb_true_iff, bool_decide_eq_false.
      + rewrite (bool_decide_eq_false_2 (_ ∨ _)) by tauto.
        rewrite bool_decide_eq_false_2; [done|]. by intros [? _]%elem_of_list_filter. }
  assert (Hrun : ∀ s', commit data s = (Ok tt, s') ↔
                   ∃ ps, add_each (schedule data) [] s2 = (Ok ps, s')
                         ∧ Forall (λ p, p = Ok tt) ps).
  { intros s'. rewrite (commit_schedule data s).
    change (for_of (dirty data) (λ touchee, _ <- removeInfo touchee ;; ret tt))
      with (for_of (dirty data) teardown).
    rewrite (bind_run _ _ _ _ _ H1), (bind_run _ _ _ _ _ H2'). split.
    - intros H. bind_inv H as ps s3 H3.
      pose proof (Promise_all_state ps s3) as Hst. rewrite H in Hst. simpl in Hst. subst s3.
      exists ps. split; [by apply add_in_turn_each|].
      apply (Promise_all_Ok ps s'). by rewrite H.
    - intros (ps & H3 & Hps).
      destruct (add_each_effect _ _ _ _ _ (Hw2 (Hw1 Hw)) (He2 (He1 He)) H3 Hps) as (Hl & _).
      rewrite (add_each_in_turn _ Hl [] s2) in H3. rewrite (bind_run _ _ _ _ _ H3).
      pose proof (Promise_all_state ps s') as Hst.
      pose proof (proj2 (Promise_all_Ok ps s') Hps) as Hok.
      destruct (Promise_all ps s') as [o s'']. simpl in *. by subst. }
  exists s1, s2. split_and!; [exact H1|exact Hget1|exact H2'|exact Hget| | | | | |exact Hrun|].
  - intros n i f [Hn|Hn] Hi Hf.
    + apply Hmono2. by apply (Hgone1 n i f).
    + destruct (decide (n ∈ dirty data)) as [Hd|Hd].
      * apply Hmono2. by apply (Hgone1 n i f).
      * apply (Hgone2 n i f); [|by rewrite Hget1, bool_decide_eq_false_2|done].
        apply elem_of_list_filter. split; [done|].
        by apply negb_true_iff, bool_decide_eq_false.
  - pose proof (for_of_removeInfo_calls (dirty data) s) as C1.
    change (for_of (dirty data) (λ c, _ <- removeInfo c ;; ret tt))
      with (for_of (dirty data) teardown) in C1. rewrite H1 in C1.
    pose proof (for_of_removeInfo_calls
                  (List.filter (λ c, negb (bool_decide (c ∈ dirty data))) (deleted data)) s1)
      as C2.
    change (for_of ?l (λ c, _ <- removeInfo c ;; ret tt)) with (for_of l teardown) in C2.
    rewrite H2 in C2. simpl in C1, C2. by rewrite C2, C1, <- app_assoc.
  - apply elem_of_schedule.
  - apply NoDup_schedule.
  - intros Hp. unfold schedule.
    assert (Hall : ∀ c, c ∈ added_again data → is_polyline c = false).
    { intros c Hc. apply Hp. apply elem_of_added_again in Hc. rewrite elem_of_app. tauto. }
    clear Hp. fold (added_again data).
    assert (Hf : ∀ l, (∀ c, c ∈ l → is_polyline c = false) →
              List.filter (λ c, negb (is_polyline c)) l = l ∧ List.filter is_polyline l = []).
    { induction l as [|c l IH]; intros Hl; [done|]. simpl.
      rewrite (Hl c) by (by left). simpl.
      destruct IH as [-> ->]; [|done]. intros c' ?. apply Hl. by right. }
    destruct (Hf _ Hall) as [-> ->]. apply app_nil_r.
  - intros s' (ps & H3 & Hps)%Hrun.
    destruct (add_each_effect _ _ _ _ _ (Hw2 (Hw1 Hw)) (He2 (He1 He)) H3 Hps)
      as (_ & Hc & Hreg).
    split; [exact Hc|]. intros n. rewrite Hreg, Hget.
    destruct (decide (n ∈ dirty data ∨ n ∈ deleted data)) as [Hd|Hd].
    + rewrite bool_decide_eq_true_2 by done. split.
      * intros [[? ?]|?]; [done|by right].
      * intros [(? & ? & _)|?]; [tauto|by right].
    + rewrite bool_decide_eq_false_2 by done. split.
      * intros [?|?]; [left; tauto|by right].
      * intros [(_ & _ & ?)|?]; [by left|by right].
Qed.

End Properties.

(** * The sample database *)

Lemma table_intersect_spec table current all x :
  x ∈ Sample.table_intersect table current all ↔
  ∃ other e, other ∈ all ∧ e ∈ table
    ∧ ((e.1.1 = Id current ∧ e.2.1 = Id other
        ∧ x = Sample.cross_at current e.1.2 other e.2.2)
       ∨ (e.2.1 = Id current ∧ e.1.1 = Id other
          ∧ x = Sample.cross_at current e.2.2 other e.1.2)).
Proof.
  unfold Sample.table_intersect. rewrite list_elem_of_In, in_flat_map. split.
  - intros (other & Hother & Hx). apply in_flat_map in Hx as (e & He & Hx).
    exists other, e. rewrite !list_elem_of_In. split_and!; [done..|].
    apply in_app_or in Hx as [Hx|Hx].
    + destruct (_ && _) eqn:Hb; [|done]. destruct Hx as [<-|[]].
      apply andb_true_iff in Hb as [?%Z.eqb_eq ?%Z.eqb_eq]. by left.
    + destruct (_ && _) eqn:Hb; [|done]. destruct Hx as [<-|[]].
      apply andb_true_iff in Hb as [?%Z.eqb_eq ?%Z.eqb_eq]. by right.
  - intros (other & e & Hother & He & Hx). exists other.
    rewrite <- list_elem_of_In. split; [done|]. apply in_flat_map. exists e.
    rewrite <- list_elem_of_In. split; [done|]. apply in_or_app.
    destruct Hx as [(H1 & H2 & ->)|(H1 & H2 & ->)]; [left|right];
      rewrite H1, H2, !Z.eqb_refl; by left.
Qed.

(** The sample kernel is faithful, whatever its curves and its table. *)
Lemma sample_kernel_faithful curves table :
  @faithful_kernel (Sample.geometry curves table).
Proof.
  assert (Hcross : ∀ a b, @crossing (Sample.geometry curves table) a b ↔
            ∃ e, e ∈ table ∧ ((e.1.1 = Id a ∧ e.2.1 = Id b) ∨ (e.2.1 = Id a ∧ e.1.1 = Id b))).
  { intros a b. unfold crossing. change (@IntersectWithAll (Sample.geometry curves table)) with (Sample.table_intersect table). split.
    - intros (x & Hx & _). apply table_intersect_spec in Hx as (other & e & Ho & He & Hx).
      apply list_elem_of_singleton in Ho as ->. exists e. split; [done|]. naive_solver.
    - intros (e & He & Hx). destruct Hx as [[H1 H2]|[H1 H2]].
      + exists (Sample.cross_at a e.1.2 b e.2.2). split; [|done].
        apply table_intersect_spec. exists b, e. split_and!; [by left|done|by left].
      + exists (Sample.cross_at a e.2.2 b e.1.2). split; [|done].
        apply table_intersect_spec. exists b, e. split_and!; [by left|done|by right]. }
  split.
  - intros c all x Hx. change (@IntersectWithAll (Sample.geometry curves table)) with (Sample.table_intersect table) in Hx.
    apply table_intersect_spec in Hx as (other & e & _ & _ & [(_ & _ & ->)|(_ & _ & ->)]); done.
  - intros c all x Hx. change (@IntersectWithAll (Sample.geometry curves table)) with (Sample.table_intersect table) in Hx.
    apply table_intersect_spec in Hx as (other & e & ? & _ & [(_ & _ & ->)|(_ & _ & ->)]); done.
  - intros a b all Hab Hb. apply Hcross in Hab as (e & He & Hx). change (@IntersectWithAll (Sample.geometry curves table)) with (Sample.table_intersect table).
    destruct Hx as [[H1 H2]|[H1 H2]].
    + exists (Sample.cross_at a e.1.2 b e.2.2). split; [|done].
      apply table_intersect_spec. exists b, e. split_and!; [done|done|by left].
    + exists (Sample.cross_at a e.2.2 b e.1.2). split; [|done].
      apply table_intersect_spec. exists b, e. split_and!; [done|done|by right].
  - intros a b Hab. apply Hcross. apply Hcross in Hab as (e & He & Hx).
    exists e. split; [done|]. naive_solver.
Qed.

Lemma sample_kernel_local curves table : @kernel_local (Sample.geometry curves table).
Proof.
  intros a all x Hx.
  change (@IntersectWithAll (Sample.geometry curves table))
    with (Sample.table_intersect table) in Hx.
  apply table_intersect_spec in Hx as (other & e & Ho & He & Hx).
  assert (Hon2 : c3d.curve (c3d.on2 x) = other) by (by destruct Hx as [(_ & _ & ->)|(_ & _ & ->)]).
  rewrite Hon2. exists x. split; [|done].
  change (@IntersectWithAll (Sample.geometry curves table))
    with (Sample.table_intersect table).
  apply table_intersect_spec. exists other, e. split_and!; [by left|done|done].
Qed.

Section Samples.
#[local] Existing Instance Sample.kernel.

Lemma sample_settled : add_all [1; 2; 3; 4; 5]%Z Sample.empty = (Ok tt, Sample.settled).
Proof. vm_compute. reflexivity. Qed.

Lemma sample_touched_registered : touched_registered Sample.settled.
Proof. apply touched_registered_check_sound. vm_compute. reflexivity. Defined.

Lemma sample_distinct_ids : distinct_ids [1; 2; 3; 4; 5]%Z.
Proof.
  intros n1 n2 cp1 cp2 H1 H2.
  repeat (apply elem_of_cons in H1 as [->|H1]); [..|by apply elem_of_nil in H1];
    (repeat (apply elem_of_cons in H2 as [->|H2]); [..|by apply elem_of_nil in H2]);
    vm_compute; intros [= <-] [= <-]; (reflexivity || discriminate).
Defined.

(** ** C8 *)

(** C8, as stated, fails: [lookup] of an identity that is not registered
    returns [undefined] and does not throw. *)
Lemma lookup_of_unregistered_does_not_signal :
  get_ref Sample.empty 7%Z = None
  ∧ fst (lookup 7%Z Sample.empty) = Ok None
  ∧ fst (lookup 7%Z Sample.empty) ≠ Throw.
Proof. split_and!; [reflexivity|reflexivity|discriminate]. Qed.

Lemma lookup_unregistered_witness :
  get_ref Sample.settled 7%Z = None
  ∧ lookup 7%Z Sample.settled = (Ok None, Sample.settled).
Proof.
  split; [vm_compute; reflexivity|].
  apply lookup_unregistered_returns_undefined. vm_compute. reflexivity.
Defined.

(** ** C10 *)

Lemma remove_unregistered_witness :
  get_ref Sample.settled 7%Z = None
  ∧ cascade 7%Z empty_transaction Sample.settled
    = (Ok (mkTransaction [] [7%Z] []), Sample.settled)
  ∧ fst (removeInfo 7%Z Sample.settled) = Ok None
  ∧ db (snd (removeInfo 7%Z Sample.settled)) = db Sample.settled.
Proof.
  assert (H : get_ref Sample.settled 7%Z = None) by (vm_compute; reflexivity).
  destruct (remove_unregistered_is_silent Sample.settled 7%Z empty_transaction H)
    as (_ & H2 & H3 & _ & _ & H6 & _).
  by split_and!.
Defined.

(** ** C3 and C9 *)


(** In the sample, the third segment is two links away from the first and is
    dirty; the circle that meets nothing is not. *)
Lemma cascade_sample_dirty :
  cascade 1%Z empty_transaction Sample.settled = (Ok Sample.cascade1, Sample.settled)
  ∧ (4%Z ∈ dirty Sample.cascade1) ∧ (3%Z ∉ dirty Sample.cascade1)
  ∧ (touched <$> get_info Sample.settled 1%Z) = Some [1; 2]%Z.
Proof.
  split_and!; [vm_compute; reflexivity| | |vm_compute; reflexivity].
  - apply list_elem_of_In. vm_compute. tauto.
  - intros H%list_elem_of_In. vm_compute in H. intuition discriminate.
Qed.

Lemma cascade_safe_witness :
  touched_registered Sample.settled
  ∧ (∀ curve tx, ∃ tx',
        cascade curve tx Sample.settled = (Ok tx', Sample.settled)
        ∧ (NoDup (dirty tx) → NoDup (dirty tx'))).
Proof.
  split; [exact sample_touched_registered|].
  exact (proj1 (cascade_walk_safe_and_terminates Sample.settled sample_touched_registered)).
Defined.

(** Without the precondition the walk does meet a missing entry: an
    identity in a [touched] set that is not registered makes [cascade]
    throw. *)
Lemma cascade_throws_on_a_dangling_touch :
  ¬ touched_registered (snd (removeInfo 2%Z Sample.settled))
  ∧ fst (cascade 1%Z empty_transaction (snd (removeInfo 2%Z Sample.settled))) = Throw.
Proof.
  split; [|vm_compute; reflexivity].
  intros H. destruct (H 1%Z 2%Z) as [i Hi]; [|vm_compute in Hi; discriminate].
  eexists. split; [vm_compute; reflexivity|]. apply list_elem_of_In. vm_compute. tauto.
Qed.

(** ** C6 *)

(** C6, as stated, fails: the span from 0 to the double 5e-6 is more than
    1/1000000 wide, and the walk skips it: it returns one trim, from 5e-6
    to 1. *)
Lemma walk_skips_a_span_wider_than_1e_6 :
  (1 # 1000000 < Qabs (0 - Sample.five_e_minus_6))%Q
  ∧ fst (walk (Some 0) Sample.seg1 Sample.names12 [101%Z] Sample.crosses1 0 [] [] Sample.settled)
    = Ok ([mkTrim (Trimmed Sample.seg1 Sample.five_e_minus_6 1) Sample.five_e_minus_6 1],
          [(102%Z, Sample.seg2)]).
Proof. split; [by vm_compute|vm_compute; reflexivity]. Qed.

(** At the threshold: the span from 0 to the double [10e-6] is skipped,
    since [10e-6 > 10e-6] is false, and the span from 0.25 to the double
    written [0.25001] is kept, since the difference of these two doubles
    is a double greater than [10e-6]; the width of the first is more than
    1/100000, the width of the second less than 1/100000 + 1/10^16. *)
Lemma walk_at_the_threshold :
  wide (0%Q, ten_e_minus_6) = false
  ∧ (1 # 100000 < Qabs (0 - ten_e_minus_6))%Q
  ∧ round_double (25001 # 100000) = 4503779771355591 # 18014398509481984
  ∧ wide (1 # 4, round_double (25001 # 100000)) = true
  ∧ (Qabs ((1 # 4) - round_double (25001 # 100000))
     < (1 # 100000) + (1 # 10000000000000000))%Q.
Proof. split_and!; by vm_compute. Qed.

(** On these numbers [fsub] is the subtraction of binary64 as the Standard
    Library specifies it ([SFsub] with 53 bits of precision). *)
Lemma fsub_is_the_subtraction_of_doubles :
  Forall (fun xy : spec_float * spec_float =>
            fsub (SF2Q xy.1) (SF2Q xy.2) = SF2Q (SFsub 53 1024 xy.1 xy.2))
    [(S754_finite false 4503599627370496 (-54), S754_finite false 4503779771355591 (-54));
     (S754_zero false, S754_finite false 5902958103587057 (-69));
     (S754_zero false, S754_finite false 5902958103587057 (-70));
     (S754_finite false 4503599627370496 (-52), S754_finite false 5902958103587057 (-70));
     (S754_finite false 6004799503160661 (-54), S754_finite false 7205759403792794 (-56));
     (S754_finite false 4503599627370497 0, S754_finite false 4503599627370496 (-53));
     (S754_finite false 4503599627370498 0, S754_finite true 4503599627370496 (-53));
     (S754_finite false 3 (-1074), S754_finite false 6004799503160661 (-1074))].
Proof. repeat constructor; vm_compute; reflexivity. Qed.

Lemma walk_witness :
  Forall (named Sample.names12) Sample.crosses1
  ∧ is_Some (info_at Sample.settled 0)
  ∧ ∃ tp' s',
      walk (Some 0) Sample.seg1 Sample.names12 [101%Z] Sample.crosses1 0 [] [] Sample.settled
      = (Ok (map (trim_of Sample.seg1)
               (List.filter wide (spans 0 (map cross_t Sample.crosses1))), tp'), s').
Proof.
  assert (H1 : Forall (named Sample.names12) Sample.crosses1).
  { repeat constructor; eexists; (split; [vm_compute; reflexivity|by eexists]). }
  assert (H2 : is_Some (info_at Sample.settled 0)) by (vm_compute; by eexists).
  split_and!; [exact H1|exact H2|].
  exact (proj1 (walk_keeps_spans_wider_than_10e_6 Sample.seg1 Sample.names12 [101%Z]
                  0 Sample.crosses1 0 [] Sample.settled H1 H2)).
Defined.

(** ** C5 *)

(** C5, as stated, fails: the third segment crosses the circle at the seam of
    the circle, so the parameter on the circle is its [tMin]; once all
    curves are added no joint is recorded for this intersection: the
    circle has no joint, the only joint of the segment is with the second
    segment, and [addJoint] on this cross changes nothing. *)
Lemma no_joint_at_the_boundary_of_the_second :
  Sample.cross45 ∈ IntersectWithAll Sample.seg4 [Sample.circ5]
  ∧ at_boundary (c3d.t (c3d.on2 Sample.cross45))
      (GetTMin Sample.circ5) (GetTMax Sample.circ5) = true
  ∧ (joints <$> get_info Sample.settled 5%Z) = Some (mkJoints None None)
  ∧ (joints <$> get_info Sample.settled 4%Z) = Some (mkJoints (Some Sample.joint42) None)
  ∧ addJoint Sample.cross45 Sample.names45 Sample.settled = (Ok tt, Sample.settled).
Proof.
  split_and!; try (vm_compute; reflexivity).
  apply list_elem_of_In. vm_compute. tauto.
Qed.

Lemma addJoint_witness :
  loop_body [Sample.seg2; Sample.seg4; Sample.circ5] Sample.names45 Sample.xy
    [(104%Z, Sample.seg4)] [] 104%Z Sample.seg4 Sample.settled
  = (Ok (Ok tt, ([(102%Z, Sample.seg2); (105%Z, Sample.circ5)], [104%Z])), snd Sample.turn4)
  ∧ sort_crosses (IntersectWithAll Sample.seg4 [Sample.seg2; Sample.seg4; Sample.circ5]
                  ++ contour_crosses Sample.seg4)
    = [Sample.cross42; Sample.cross45; Sample.cross45']
  ∧ (∃ s1 s2,
        addJoint Sample.cross42 Sample.names45 Sample.settled = (Ok tt, s1)
        ∧ addJoint Sample.cross45' Sample.names45 s1 = (Ok tt, s2)
        ∧ same_joints s2 (snd Sample.turn4))
  ∧ at_boundary (c3d.t (c3d.on1 Sample.cross42)) (GetTMin Sample.seg4) (GetTMax Sample.seg4)
    = true
  ∧ ∃ s', addJoint Sample.cross42 Sample.names45 Sample.settled = (Ok tt, s')
          ∧ info_at s' 3 = Some (set_joints_start Sample.joint42 Sample.info4)
          ∧ info_at s' 1 = Some Sample.info2.
Proof.
  assert (Hrun : loop_body [Sample.seg2; Sample.seg4; Sample.circ5] Sample.names45 Sample.xy
                   [(104%Z, Sample.seg4)] [] 104%Z Sample.seg4 Sample.settled
                 = (Ok (Ok tt, ([(102%Z, Sample.seg2); (105%Z, Sample.circ5)], [104%Z])),
                    snd Sample.turn4)) by (vm_compute; reflexivity).
  assert (Hsort : sort_crosses (IntersectWithAll Sample.seg4
                                  [Sample.seg2; Sample.seg4; Sample.circ5]
                                ++ contour_crosses Sample.seg4)
                  = [Sample.cross42; Sample.cross45; Sample.cross45'])
    by (vm_compute; reflexivity).
  destruct (addJoint_records_at_the_boundary_of_the_first
              [Sample.seg2; Sample.seg4; Sample.circ5] Sample.names45 Sample.xy
              [(104%Z, Sample.seg4)] [] 104%Z Sample.seg4 Sample.settled (snd Sample.turn4)
              _ Hrun) as [Hturn Hjoint].
  rewrite Hsort in Hturn.
  change (IsBounded Sample.seg4 && negb (IsClosed Sample.seg4)) with true in Hturn.
  cbv iota in Hturn.
  change (default Sample.cross42 (last [Sample.cross42; Sample.cross45; Sample.cross45']))
    with Sample.cross45' in Hturn.
  split_and!; [exact Hrun|exact Hsort|exact Hturn|reflexivity|].
  destruct (Hjoint Sample.cross42 Sample.settled 4%Z 2%Z 3 1 Sample.info4 Sample.info2)
    as [_ H]; [vm_compute; reflexivity..|].
  destruct (H eq_refl) as (s' & Hs' & H1 & H2 & _).
  exists s'. split; [exact Hs'|]. vm_compute in H1, H2. vm_compute.
  split; [exact H1|exact H2].
Defined.

(** ** C1 *)



(** ** C7 *)

Lemma touched_symmetric_witness :
  faithful_kernel ∧ NoDup [1; 2; 3; 4; 5]%Z ∧ distinct_ids [1; 2; 3; 4; 5]%Z
  ∧ add_all [1; 2; 3; 4; 5]%Z Sample.empty = (Ok tt, Sample.settled)
  ∧ registered Sample.settled 1%Z Sample.seg1 Sample.xy
  ∧ registered Sample.settled 2%Z Sample.seg2 Sample.xy
  ∧ crossing Sample.seg1 Sample.seg2
  ∧ touches Sample.settled 1%Z 2%Z ∧ touches Sample.settled 2%Z 1%Z.
Proof.
  assert (HK : faithful_kernel) by apply sample_kernel_faithful.
  assert (Hnd : NoDup [1; 2; 3; 4; 5]%Z).
  { repeat (apply NoDup_cons; split;
              [intros H%list_elem_of_In; vm_compute in H; intuition discriminate|]).
    apply NoDup_nil_2. }
  assert (Hadd : add_all [1; 2; 3; 4; 5]%Z Sample.empty = (Ok tt, Sample.settled))
    by (vm_compute; reflexivity).
  assert (H1 : registered Sample.settled 1%Z Sample.seg1 Sample.xy).
  { exists 0. split; [vm_compute; reflexivity|]. eexists.
    split_and!; vm_compute; reflexivity. }
  assert (H2 : registered Sample.settled 2%Z Sample.seg2 Sample.xy).
  { exists 1. split; [vm_compute; reflexivity|]. eexists.
    split_and!; vm_compute; reflexivity. }
  assert (Hc : crossing Sample.seg1 Sample.seg2).
  { eexists. split; [apply list_elem_of_In; vm_compute; left; reflexivity|reflexivity]. }
  destruct (touched_is_symmetric_after_adds Sample.xy Sample.store [1; 2; 3; 4; 5]%Z
              Sample.settled HK Hnd sample_distinct_ids Hadd
              1%Z 2%Z Sample.seg1 Sample.seg2 Sample.xy Sample.xy H1 H2 eq_refl eq_refl Hc)
    as (_ & Ht1 & Ht2).
  split_and!; [exact HK|exact Hnd|exact sample_distinct_ids|exact Hadd|exact H1|exact H2
              |exact Hc|exact Ht1|exact Ht2].
Defined.

(** ** C2 *)

(** C2: [restoreFromMemento] assigns the collections of the memento to the
    fields of the database, without copying them.  In the sample, saving and
    restoring at once leaves the registry as it was for an observer, but
    the memento and the database then share one map: removing the first
    segment from the live registry removes it from the memento too, which
    no longer holds the state that was saved.  After [saveToMemento] alone
    the same removal leaves the memento as it was. *)
Theorem live_writes_after_restore_reach_the_memento :
  ∃ m s1,
    saveToMemento Sample.settled = (Ok m, s1)
    ∧ memento_entries m s1 = live_curve2info Sample.settled
    ∧ memento_entries m (snd (removeInfo 1%Z s1)) = memento_entries m s1
    ∧ observe (snd (restoreFromMemento m s1)) = observe Sample.settled
    ∧ memento_entries m (snd (removeInfo 1%Z (snd (restoreFromMemento m s1))))
      = map_delete 1%Z (memento_entries m s1)
    ∧ memento_entries m (snd (removeInfo 1%Z (snd (restoreFromMemento m s1))))
      ≠ live_curve2info Sample.settled.
Proof.
  eexists _, _. split; [reflexivity|].
  split_and!; try (vm_compute; reflexivity).
  vm_compute. discriminate.
Qed.

(** ** The further properties *)

Lemma sample_all_ids_distinct : all_ids_distinct.
Proof.
  intros n1 n2 cp1 cp2 H1 H2.
  assert (Hp : ∀ n cp, planar_of n = Some cp → (n, cp) ∈ Sample.curves).
  { intros n cp Hn. apply map_get_Some_elem_of. unfold planar_of in Hn.
    change (@lookupItemById Sample.kernel n) with (map_get n Sample.curves) in Hn.
    destruct (map_get n Sample.curves) as [inst|] eqn:E; [|done].
    cbn in Hn. injection Hn as <-. exact E. }
  apply Hp in H1, H2. unfold Sample.curves in H1, H2.
  repeat (apply elem_of_cons in H1 as [[= -> ->]|H1]); [..|by apply elem_of_nil in H1];
    (repeat (apply elem_of_cons in H2 as [[= -> ->]|H2]); [..|by apply elem_of_nil in H2]);
    vm_compute; intros; (reflexivity || discriminate).
Qed.

Lemma sample_registry : registry_of [5; 4; 3; 2; 1]%Z Sample.settled.
Proof.
  apply (add_all_preserves [1; 2; 3; 4; 5]%Z (sample_kernel_faithful _ _) []
           Sample.empty Sample.settled (registry_of_new _ _)).
  - repeat (apply NoDup_cons; split;
              [intros H%list_elem_of_In; vm_compute in H; intuition discriminate|]).
    apply NoDup_nil_2.
  - intros n _ Hn. by apply elem_of_nil in Hn.
  - apply all_ids_distinct_list, sample_all_ids_distinct.
  - vm_compute. reflexivity.
Qed.

Lemma sample_reachable_settled : reachable Sample.xy Sample.store Sample.settled.
Proof.
  apply (reachable_add _ _ 5%Z Sample.after4); [|vm_compute; reflexivity..].
  apply (reachable_add _ _ 4%Z Sample.after3); [|vm_compute; reflexivity..].
  apply (reachable_add _ _ 3%Z Sample.after2); [|vm_compute; reflexivity..].
  apply (reachable_add _ _ 2%Z Sample.after1); [|vm_compute; reflexivity..].
  apply (reachable_add _ _ 1%Z Sample.empty); [|vm_compute; reflexivity..].
  apply reachable_new.
Qed.

Lemma sample_reachable_removed : reachable Sample.xy Sample.store Sample.removed1.
Proof.
  apply (reachable_remove _ _ 1%Z Sample.settled); [apply sample_reachable_settled|].
  vm_compute. reflexivity.
Qed.

(** ** findWithSamePlacement *)

Lemma findWithSamePlacement_candidates_witness :
  collect Sample.xy (live_curve2info Sample.settled) [] [] Sample.settled
  = (Ok Sample.candidates, Sample.settled)
  ∧ findWithSamePlacement Sample.xy Sample.settled
    = (Ok (map Some Sample.candidates.2), Sample.settled).
Proof.
  assert (H : collect Sample.xy (live_curve2info Sample.settled) [] [] Sample.settled
              = (Ok Sample.candidates, Sample.settled)) by (vm_compute; reflexivity).
  split; [exact H|].
  exact (findWithSamePlacement_gives_the_candidates_of_add
           Sample.xy Sample.settled Sample.settled Sample.candidates H).
Defined.

Lemma findWithSamePlacement_lists_witness :
  registry_of [5; 4; 3; 2; 1]%Z Sample.settled
  ∧ ∃ found,
      findWithSamePlacement Sample.xy Sample.settled = (Ok (map Some found), Sample.settled)
      ∧ ∀ c, c ∈ found ↔
             ∃ n p, registered Sample.settled n c p ∧ isSamePlacement Sample.xy p = true.
Proof.
  split; [exact sample_registry|].
  exact (findWithSamePlacement_lists_the_curves_of_the_placement
           [5; 4; 3; 2; 1]%Z Sample.xy Sample.settled sample_registry).
Defined.

(** ** cascade *)

Lemma cascade_throws_witness :
  reaches Sample.dangling 1%Z 2%Z ∧ get_info Sample.dangling 2%Z = None
  ∧ cascade 1%Z empty_transaction Sample.dangling = (Throw, Sample.dangling).
Proof.
  assert (H1 : reaches Sample.dangling 1%Z 2%Z).
  { apply reaches_touch. eexists. split; [vm_compute; reflexivity|].
    apply list_elem_of_In. vm_compute. tauto. }
  assert (H2 : get_info Sample.dangling 2%Z = None) by (vm_compute; reflexivity).
  split_and!; [exact H1|exact H2|].
  exact (cascade_throws_at_a_reached_curve_without_entry Sample.dangling 1%Z 2%Z H1 H2).
Defined.

Lemma cascade_adds_witness :
  touched_registered Sample.settled
  ∧ (∀ y z, y ∈ [3%Z] → touches Sample.settled y z → z ∈ [3%Z])
  ∧ ∃ tx', cascade 1%Z (mkTransaction [3%Z] [] []) Sample.settled = (Ok tx', Sample.settled)
           ∧ deleted tx' = set_add 1%Z [] ∧ added tx' = []
           ∧ ∀ y, y ∈ dirty tx' ↔ y ∈ [3%Z] ∨ reaches Sample.settled 1%Z y.
Proof.
  assert (H : ∀ y z, y ∈ [3%Z] → touches Sample.settled y z → z ∈ [3%Z]).
  { intros y z Hy (i & Hi & Hz). apply list_elem_of_singleton in Hy as ->.
    vm_compute in Hi. injection Hi as <-. by apply elem_of_nil in Hz. }
  split_and!; [exact sample_touched_registered|exact H|].
  exact (cascade_adds_what_is_reached_to_a_closed_dirty_set
           Sample.settled 1%Z (mkTransaction [3%Z] [] []) sample_touched_registered H).
Defined.

(** ** removeInfo *)

Lemma removeInfo_witness :
  get_ref Sample.settled 1%Z = Some 0 ∧ info_at Sample.settled 0 = Some Sample.info1
  ∧ ∃ s', removeInfo 1%Z Sample.settled = (Ok (Some Sample.info1), s')
          ∧ lookup 1%Z s' = (Ok None, s').
Proof.
  assert (H1 : get_ref Sample.settled 1%Z = Some 0) by (vm_compute; reflexivity).
  assert (H2 : info_at Sample.settled 0 = Some Sample.info1) by (vm_compute; reflexivity).
  split_and!; [exact H1|exact H2|].
  destruct (removeInfo_takes_out_the_entry_and_the_fragments
              Sample.settled 1%Z 0 Sample.info1 H1 H2) as (s' & Hrun & Hlook & _).
  exists s'. split; [exact Hrun|exact Hlook].
Defined.

(** ** Mementos *)

Lemma sample_fields_allocated : fields_allocated Sample.settled.
Proof. unfold fields_allocated. vm_compute. lia. Qed.

Lemma sample_saved :
  saveToMemento Sample.settled = (Ok Sample.memento, Sample.saved).
Proof. vm_compute. reflexivity. Qed.

Lemma restore_brings_back_witness :
  fields_allocated Sample.settled
  ∧ saveToMemento Sample.settled = (Ok Sample.memento, Sample.saved)
  ∧ restores Sample.memento Sample.settled (snd (remove 1%Z Sample.saved)).
Proof.
  split_and!; [exact sample_fields_allocated|exact sample_saved|].
  exact (proj2 (proj2 (proj2 (restore_brings_back_the_saved_collections
           Sample.settled Sample.saved Sample.memento 1%Z 1%Z empty_transaction
           sample_fields_allocated sample_saved)))).
Defined.

Lemma restore_of_a_save_witness :
  saveToMemento Sample.settled = (Ok Sample.memento, Sample.saved)
  ∧ observe (snd (restoreFromMemento Sample.memento Sample.saved)) = observe Sample.settled.
Proof.
  split; [exact sample_saved|].
  exact (proj1 (restore_of_a_save_changes_nothing
                  Sample.settled Sample.saved Sample.memento sample_saved)).
Defined.

Lemma a_memento_shares_witness :
  fields_allocated Sample.settled
  ∧ saveToMemento Sample.settled = (Ok Sample.memento, Sample.saved)
  ∧ get_ref Sample.settled 1%Z = Some 0
  ∧ updateCurve 1%Z [] Sample.xy Sample.saved
    = (Ok tt, snd (updateCurve 1%Z [] Sample.xy Sample.saved))
  ∧ provenance (snd (restoreFromMemento Sample.memento
                       (snd (updateCurve 1%Z [] Sample.xy Sample.saved)))) 1%Z
    = map range_of [].
Proof.
  assert (H1 : get_ref Sample.settled 1%Z = Some 0) by (vm_compute; reflexivity).
  assert (H2 : updateCurve 1%Z [] Sample.xy Sample.saved
               = (Ok tt, snd (updateCurve 1%Z [] Sample.xy Sample.saved)))
    by (vm_compute; reflexivity).
  split_and!; [exact sample_fields_allocated|exact sample_saved|exact H1|exact H2|].
  exact (proj2 (a_memento_shares_the_CurveInfo_objects
                  Sample.settled Sample.saved _ Sample.memento 1%Z 0 [] Sample.xy
                  sample_fields_allocated sample_saved H1 H2)).
Defined.

(** ** add *)

Lemma add_registers_witness :
  fields_allocated Sample.empty
  ∧ add 1%Z Sample.empty = (Ok tt, Sample.after1)
  ∧ (∀ n, n ≠ 1%Z → get_ref Sample.after1 n = get_ref Sample.empty n).
Proof.
  assert (H1 : fields_allocated Sample.empty) by (unfold fields_allocated; vm_compute; lia).
  assert (H2 : add 1%Z Sample.empty = (Ok tt, Sample.after1)) by (vm_compute; reflexivity).
  split_and!; [exact H1|exact H2|].
  exact (proj1 (add_registers_a_planar_curve 1%Z Sample.empty Sample.after1 H1 H2)).
Defined.

Lemma sample_circle_crosses_nothing all : IntersectWithAll Sample.circ3 all = [].
Proof.
  destruct (IntersectWithAll Sample.circ3 all) as [|x l] eqn:E; [done|].
  assert (Hx : x ∈ IntersectWithAll Sample.circ3 all) by (rewrite E; by left).
  change (@IntersectWithAll Sample.kernel) with (Sample.table_intersect Sample.crossings) in Hx.
  apply table_intersect_spec in Hx as (other & e & _ & He & Hx).
  unfold Sample.crossings in He.
  repeat (apply elem_of_cons in He as [->|He]); [..|by apply elem_of_nil in He];
    destruct Hx as [(Hx & _)|(Hx & _)]; vm_compute in Hx; discriminate.
Qed.

Lemma add_of_a_curve_that_crosses_nothing_witness :
  fields_allocated Sample.after2
  ∧ planar_of 3%Z = Some (Sample.circ3, Sample.xy)
  ∧ (∀ all, IntersectWithAll Sample.circ3 all = [])
  ∧ IsContour Sample.circ3 = false
  ∧ add 3%Z Sample.after2 = (Ok tt, Sample.after3)
  ∧ ∃ pN,
      get_info Sample.after3 3%Z
      = Some (mkCurveInfo (counter (this Sample.after2)) pN []
                [nextName (db Sample.after2)] (mkJoints None None))
      ∧ items (db Sample.after3)
        = map_set (nextName (db Sample.after2))
            (mkItem pN (Whole Sample.circ3) ((-1)%Q, (-1)%Q, 3%Z))
            (items (db Sample.after2)).
Proof.
  assert (H1 : fields_allocated Sample.after2) by (unfold fields_allocated; vm_compute; lia).
  assert (H2 : planar_of 3%Z = Some (Sample.circ3, Sample.xy)) by (vm_compute; reflexivity).
  assert (H3 : add 3%Z Sample.after2 = (Ok tt, Sample.after3)) by (vm_compute; reflexivity).
  split_and!; [exact H1|exact H2|exact sample_circle_crosses_nothing|reflexivity|exact H3|].
  destruct (add_of_a_curve_that_crosses_nothing 3%Z Sample.circ3 Sample.xy
              Sample.after2 Sample.after3 H1 H2 sample_circle_crosses_nothing eq_refl H3)
    as (pN & Hi & Hitems & _).
  exists pN. split; [exact Hi|exact Hitems].
Defined.

Lemma closed_curve_witness :
  loop_body [Sample.seg4; Sample.circ5] Sample.names45 Sample.xy [(105%Z, Sample.circ5)] []
    105%Z Sample.circ5 Sample.settled
  = (Ok (Ok tt, ([(104%Z, Sample.seg4)], [105%Z])), snd Sample.turn5)
  ∧ map_get 105%Z Sample.names45 = Some 5%Z
  ∧ sort_crosses (IntersectWithAll Sample.circ5 [Sample.seg4; Sample.circ5]
                  ++ contour_crosses Sample.circ5)
    = [Sample.cross_at Sample.circ5 0 Sample.seg4 (1 # 2);
       Sample.cross_at Sample.circ5 3 Sample.seg4 (3 # 4)]
  ∧ IsClosed Sample.circ5 = true
  ∧ provenance (snd Sample.turn5) 5%Z
    = List.filter wide
        (spans (cross_t (Sample.cross_at Sample.circ5 0 Sample.seg4 (1 # 2)))
           (map cross_t [Sample.cross_at Sample.circ5 3 Sample.seg4 (3 # 4)]
            ++ [cross_t (Sample.cross_at Sample.circ5 0 Sample.seg4 (1 # 2))])).
Proof.
  assert (H1 : loop_body [Sample.seg4; Sample.circ5] Sample.names45 Sample.xy
                 [(105%Z, Sample.circ5)] [] 105%Z Sample.circ5 Sample.settled
               = (Ok (Ok tt, ([(104%Z, Sample.seg4)], [105%Z])), snd Sample.turn5))
    by (vm_compute; reflexivity).
  assert (H2 : map_get 105%Z Sample.names45 = Some 5%Z) by reflexivity.
  assert (H3 : sort_crosses (IntersectWithAll Sample.circ5 [Sample.seg4; Sample.circ5]
                             ++ contour_crosses Sample.circ5)
               = [Sample.cross_at Sample.circ5 0 Sample.seg4 (1 # 2);
                  Sample.cross_at Sample.circ5 3 Sample.seg4 (3 # 4)])
    by (vm_compute; reflexivity).
  split_and!; [exact H1|exact H2|exact H3|reflexivity|].
  exact (proj1 (proj1 (closed_and_unbounded_curves_are_cut_between_crosses
           [Sample.seg4; Sample.circ5] Sample.names45 Sample.xy [(105%Z, Sample.circ5)] []
           105%Z Sample.circ5 Sample.settled (snd Sample.turn5)
           ([(104%Z, Sample.seg4)], [105%Z]) 5%Z _ _ H1 H2 H3) eq_refl)).
Defined.

(** ** Reachable states *)

Lemma touched_stays_complete_witness :
  faithful_kernel ∧ all_ids_distinct
  ∧ reachable Sample.xy Sample.store Sample.removed1
  ∧ registered Sample.removed1 4%Z Sample.seg4 Sample.xy
  ∧ registered Sample.removed1 5%Z Sample.circ5 Sample.xy
  ∧ crossing Sample.seg4 Sample.circ5
  ∧ touches Sample.removed1 4%Z 5%Z ∧ touches Sample.removed1 5%Z 4%Z.
Proof.
  assert (HK : faithful_kernel) by apply sample_kernel_faithful.
  assert (H1 : registered Sample.removed1 4%Z Sample.seg4 Sample.xy).
  { exists 6. split; [vm_compute; reflexivity|]. eexists.
    split_and!; vm_compute; reflexivity. }
  assert (H2 : registered Sample.removed1 5%Z Sample.circ5 Sample.xy).
  { exists 7. split; [vm_compute; reflexivity|]. eexists.
    split_and!; vm_compute; reflexivity. }
  assert (Hc : crossing Sample.seg4 Sample.circ5).
  { eexists. split; [apply list_elem_of_In; vm_compute; left; reflexivity|reflexivity]. }
  destruct (touched_stays_complete_through_adds_and_removes Sample.xy Sample.store
              Sample.removed1 HK sample_all_ids_distinct sample_reachable_removed
              4%Z 5%Z Sample.seg4 Sample.circ5 Sample.xy Sample.xy H1 H2 eq_refl eq_refl Hc)
    as (Ht1 & Ht2).
  split_and!; [exact HK|exact sample_all_ids_distinct|exact sample_reachable_removed
              |exact H1|exact H2|exact Hc|exact Ht1|exact Ht2].
Defined.

Lemma remove_unregisters_witness :
  faithful_kernel ∧ all_ids_distinct
  ∧ reachable Sample.xy Sample.store Sample.settled
  ∧ remove 1%Z Sample.settled = (Ok tt, Sample.removed1)
  ∧ ∀ n, is_Some (get_ref Sample.removed1 n) ↔ n ≠ 1%Z ∧ is_Some (get_ref Sample.settled n).
Proof.
  assert (HK : faithful_kernel) by apply sample_kernel_faithful.
  assert (H : remove 1%Z Sample.settled = (Ok tt, Sample.removed1))
    by (vm_compute; reflexivity).
  split_and!; [exact HK|exact sample_all_ids_distinct|exact sample_reachable_settled|exact H|].
  exact (remove_unregisters_the_curve_alone Sample.xy Sample.store 1%Z Sample.settled
           Sample.removed1 HK sample_all_ids_distinct sample_reachable_settled H).
Defined.

Lemma the_store_holds_witness :
  items Sample.store = [] ∧ reachable Sample.xy Sample.store Sample.removed1
  ∧ store_tidy Sample.removed1.
Proof.
  split_and!; [reflexivity|exact sample_reachable_removed|].
  exact (the_store_holds_the_fragments_of_the_registry Sample.xy Sample.store
           Sample.removed1 eq_refl sample_reachable_removed).
Defined.

Lemma links_witness :
  faithful_kernel ∧ kernel_local ∧ all_ids_distinct
  ∧ reachable Sample.xy Sample.store Sample.removed1
  ∧ touched_registered Sample.removed1 ∧ touched_symmetric Sample.removed1.
Proof.
  assert (HK : faithful_kernel) by apply sample_kernel_faithful.
  assert (HL : kernel_local) by apply sample_kernel_local.
  split_and!; [exact HK|exact HL|exact sample_all_ids_distinct
              |exact sample_reachable_removed|..];
    apply (links_are_registered_and_mutual_in_reachable_states Sample.xy Sample.store
             Sample.removed1 HK HL sample_all_ids_distinct sample_reachable_removed).
Defined.

Lemma id2planarCurve_witness :
  reachable Sample.xy Sample.store Sample.removed1
  ∧ (live_id2planarCurve Sample.removed1).*1 = seqZ 0 (counter (this Sample.removed1)).
Proof.
  split; [exact sample_reachable_removed|].
  exact (proj2 (proj1 (id2planarCurve_is_never_pruned Sample.xy Sample.store
                         Sample.removed1 sample_reachable_removed))).
Defined.

Lemma touched_links_are_crossings_witness :
  faithful_kernel ∧ kernel_local ∧ all_ids_distinct
  ∧ reachable Sample.xy Sample.store Sample.removed1
  ∧ touches Sample.removed1 4%Z 5%Z
  ∧ (4%Z = 5%Z
     ∨ ∃ cA pA cB pB,
         registered Sample.removed1 4%Z cA pA ∧ registered Sample.removed1 5%Z cB pB
         ∧ crossing cA cB).
Proof.
  assert (HK : faithful_kernel) by apply sample_kernel_faithful.
  assert (HL : kernel_local) by apply sample_kernel_local.
  assert (Ht : touches Sample.removed1 4%Z 5%Z).
  { eexists. split; [vm_compute; reflexivity|]. apply list_elem_of_In. vm_compute. tauto. }
  split_and!; [exact HK|exact HL|exact sample_all_ids_distinct
              |exact sample_reachable_removed|exact Ht|].
  exact (proj1 (touched_links_are_crossings_in_reachable_states Sample.xy Sample.store
                  Sample.removed1 HK HL sample_all_ids_distinct sample_reachable_removed)
           4%Z 5%Z Ht).
Defined.

Lemma stored_fragments_witness :
  items Sample.store = [] ∧ reachable Sample.xy Sample.store Sample.removed1
  ∧ ∀ f it, map_get f (items (db Sample.removed1)) = Some it →
      (∃ c, item_curve it = Whole c ∧ (befragment it).1 = ((-1)%Q, (-1)%Q))
      ∨ (∃ c, item_curve it = Trimmed c (befragment it).1.1 (befragment it).1.2
              ∧ (1 # 100000 < Qabs ((befragment it).1.1 - (befragment it).1.2))%Q).
Proof.
  split_and!; [reflexivity|exact sample_reachable_removed|].
  exact (stored_fragments_are_whole_or_wide Sample.xy Sample.store Sample.removed1
           eq_refl sample_reachable_removed).
Defined.

End Samples.

Section PolylineSamples.
#[local] Existing Instance Sample.kernel_with_polyline.

(** ** commit with a polyline *)

Lemma commit_witness :
  fields_allocated Sample.polyline_settled
  ∧ entries_allocated Sample.polyline_settled
  ∧ schedule Sample.cascade1 = [4; 5; 2]%Z
  ∧ ∃ s', commit Sample.cascade1 Sample.polyline_settled = (Ok tt, s')
      ∧ calls s'
        = calls Sample.polyline_settled
          ++ [CallRemoveInfo 2; CallRemoveInfo 4; CallRemoveInfo 5; CallRemoveInfo 1]%Z
          ++ [CallAdd 4; CallAdd 5; CallAdd 2]%Z
      ∧ is_Some (get_info s' 2%Z) ∧ ¬ is_Some (get_info s' 1%Z).
Proof.
  assert (H1 : fields_allocated Sample.polyline_settled)
    by (unfold fields_allocated; vm_compute; lia).
  assert (H2 : entries_allocated Sample.polyline_settled).
  { apply entries_allocated_Forall. vm_compute. repeat constructor; by eexists. }
  assert (H3 : schedule Sample.cascade1 = [4; 5; 2]%Z) by (vm_compute; reflexivity).
  assert (Hfst : fst (commit Sample.cascade1 Sample.polyline_settled) = Ok tt)
    by (vm_compute; reflexivity).
  destruct (commit_tears_down_then_adds_again Sample.cascade1 Sample.polyline_settled H1 H2)
    as (s1 & s2 & _ & _ & _ & _ & _ & Hc2 & _ & _ & _ & _ & Hfin).
  destruct (commit Sample.cascade1 Sample.polyline_settled) as [o s'] eqn:Hrun.
  simpl in Hfst. subst o. destruct (Hfin s' eq_refl) as [Hc Hreg].
  split_and!; [exact H1|exact H2|exact H3|].
  exists s'. split_and!; [reflexivity| | |].
  - rewrite Hc, Hc2, H3, <- app_assoc. reflexivity.
  - apply Hreg. right. rewrite H3. split; [repeat constructor|]. vm_compute. by eexists.
  - intros [(Hd & _)|(Hs & _)]%Hreg.
    + apply Hd. simpl. repeat constructor.
    + rewrite H3 in Hs. repeat (apply elem_of_cons in Hs as [?|Hs]; [done|]).
      by apply elem_of_nil in Hs.
Defined.

End PolylineSamples.
